(** * QBB-Perft: a shallow embedding of qbb_perft.c

    The program keeps a chess position in four 64-bit bitboards that are
    always stored from the point of view of the side to move, generates
    pseudo-legal moves, filters them with [Illegal], plays them with
    [Make] on a copy-on-make stack and counts leaves with [Perft].

    Conventions of the embedding:
    - a [uint64_t] is a [Z] in [0, 2^64); every C operation that can leave
      that range ([<<], [~], unary [-], [-1]) is followed by [wrap64];
    - a [uint8_t] field is a [Z] in [0, 256), wrapped by [wrap8] where the
      C assignment truncates;
    - the global [Game] array and the [Position] pointer are a record
      [State] holding the array as a list and the pointer as an index;
    - an output buffer written through an advancing pointer is the list of
      values written, in writing order; [Perft], which owns the two move
      buffers, goes wrong when a list is longer than its array. *)

From Stdlib Require Import ZArith List Bool Lia String Ascii Btauto Sorted.
From stdpp Require Import base list.
Import ListNotations.

Local Open Scope Z_scope.

(** ** 64-bit and 8-bit arithmetic *)

Definition mask64 : Z := 0xFFFFFFFFFFFFFFFF.
Definition wrap64 (x : Z) : Z := Z.land x mask64.
Definition wrap8 (x : Z) : Z := Z.land x 0xFF.

(** [a << n] on [uint64_t]. *)
Definition shl64 (a n : Z) : Z := wrap64 (Z.shiftl a n).
(** [a >> n] on [uint64_t]. *)
Definition shr64 (a n : Z) : Z := Z.shiftr a n.
(** [~a] on [uint64_t]. *)
Definition not64 (a : Z) : Z := Z.lxor a mask64.

(** [__builtin_bswap64]. *)
Definition bswap64 (bb : Z) : Z :=
  Z.lor (Z.lor (Z.lor (shl64 (Z.land bb 0xFF) 56)
                      (shl64 (Z.land bb 0xFF00) 40))
               (Z.lor (shl64 (Z.land bb 0xFF0000) 24)
                      (shl64 (Z.land bb 0xFF000000) 8)))
        (Z.lor (Z.lor (Z.land (shr64 bb 8) 0xFF000000)
                      (Z.land (shr64 bb 24) 0xFF0000))
               (Z.lor (Z.land (shr64 bb 40) 0xFF00)
                      (Z.land (shr64 bb 56) 0xFF))).

Fixpoint ctz_pos (p : positive) : Z :=
  match p with
  | xO q => Z.succ (ctz_pos q)
  | _ => 0
  end.

(** [__builtin_ctzll]; the C result is undefined at 0, the model gives 0
    there and no statement below depends on that value. *)
Definition ctzll (bb : Z) : Z :=
  match bb with
  | Zpos p => ctz_pos p
  | _ => 0
  end.

(** [__builtin_clzll]; undefined at 0 in C, 63 in the model. *)
Definition clzll (bb : Z) : Z := 63 - Z.log2 bb.

Definition RevBB (bb : Z) : Z := bswap64 bb.
Definition MSB (bb : Z) : Z := Z.lxor 0x3F (clzll bb).
Definition LSB (bb : Z) : Z := ctzll bb.
Definition ExtractLSB (bb : Z) : Z := Z.land bb (wrap64 (- bb)).
Definition ClearLSB (bb : Z) : Z := Z.land bb (wrap64 (bb - 1)).

(** ** Constants *)

Definition WHITE : Z := 0.
Definition BLACK : Z := 8.
Definition MAX_PLY : nat := 32.

Definition EMPTY : Z := 0.
Definition PAWN : Z := 1.
Definition KNIGHT : Z := 2.
Definition BISHOP : Z := 3.
Definition ROOK : Z := 4.
Definition QUEEN : Z := 5.
Definition KING : Z := 6.

Definition CASTLE : Z := 0x40.
Definition PROMO : Z := 0x20.
Definition EP : Z := 0x10.
Definition CAPTURE : Z := 0x08.

(** ** Moves and boards *)

Record TMove : Type := mkMove {
  MoveType : Z;
  From : Z;
  To : Z;
  Prom : Z
}.

Record TBoard : Type := mkBoard {
  PM : Z;
  P0 : Z;
  P1 : Z;
  P2 : Z;
  CastleFlags : Z;
  EnPassant : Z;
  STM : Z
}.

Definition set_PM (v : Z) (p : TBoard) : TBoard :=
  mkBoard v (P0 p) (P1 p) (P2 p) (CastleFlags p) (EnPassant p) (STM p).
Definition set_P0 (v : Z) (p : TBoard) : TBoard :=
  mkBoard (PM p) v (P1 p) (P2 p) (CastleFlags p) (EnPassant p) (STM p).
Definition set_P1 (v : Z) (p : TBoard) : TBoard :=
  mkBoard (PM p) (P0 p) v (P2 p) (CastleFlags p) (EnPassant p) (STM p).
Definition set_P2 (v : Z) (p : TBoard) : TBoard :=
  mkBoard (PM p) (P0 p) (P1 p) v (CastleFlags p) (EnPassant p) (STM p).
Definition set_CastleFlags (v : Z) (p : TBoard) : TBoard :=
  mkBoard (PM p) (P0 p) (P1 p) (P2 p) v (EnPassant p) (STM p).
Definition set_EnPassant (v : Z) (p : TBoard) : TBoard :=
  mkBoard (PM p) (P0 p) (P1 p) (P2 p) (CastleFlags p) v (STM p).
Definition set_STM (v : Z) (p : TBoard) : TBoard :=
  mkBoard (PM p) (P0 p) (P1 p) (P2 p) (CastleFlags p) (EnPassant p) v.

(** The global [Game] array with the [Position] pointer into it. *)
Record State : Type := mkState {
  Game : list TBoard;
  Position : nat
}.

Definition zero_board : TBoard := mkBoard 0 0 0 0 0 0 0.

(** The board [*Position]. *)
Definition cur (st : State) : TBoard := nth (Position st) (Game st) zero_board.

(** ** Lookup tables *)

Definition KnightDest_tbl : list Z :=
  [0x0000000000020400;0x0000000000050800;0x00000000000a1100;0x0000000000142200;
   0x0000000000284400;0x0000000000508800;0x0000000000a01000;0x0000000000402000;
   0x0000000002040004;0x0000000005080008;0x000000000a110011;0x0000000014220022;
   0x0000000028440044;0x0000000050880088;0x00000000a0100010;0x0000000040200020;
   0x0000000204000402;0x0000000508000805;0x0000000a1100110a;0x0000001422002214;
   0x0000002844004428;0x0000005088008850;0x000000a0100010a0;0x0000004020002040;
   0x0000020400040200;0x0000050800080500;0x00000a1100110a00;0x0000142200221400;
   0x0000284400442800;0x0000508800885000;0x0000a0100010a000;0x0000402000204000;
   0x0002040004020000;0x0005080008050000;0x000a1100110a0000;0x0014220022140000;
   0x0028440044280000;0x0050880088500000;0x00a0100010a00000;0x0040200020400000;
   0x0204000402000000;0x0508000805000000;0x0a1100110a000000;0x1422002214000000;
   0x2844004428000000;0x5088008850000000;0xa0100010a0000000;0x4020002040000000;
   0x0400040200000000;0x0800080500000000;0x1100110a00000000;0x2200221400000000;
   0x4400442800000000;0x8800885000000000;0x100010a000000000;0x2000204000000000;
   0x0004020000000000;0x0008050000000000;0x00110a0000000000;0x0022140000000000;
   0x0044280000000000;0x0088500000000000;0x0010a00000000000;0x0020400000000000].

Definition KingDest_tbl : list Z :=
  [0x0000000000000302;0x0000000000000705;0x0000000000000e0a;0x0000000000001c14;
   0x0000000000003828;0x0000000000007050;0x000000000000e0a0;0x000000000000c040;
   0x0000000000030203;0x0000000000070507;0x00000000000e0a0e;0x00000000001c141c;
   0x0000000000382838;0x0000000000705070;0x0000000000e0a0e0;0x0000000000c040c0;
   0x0000000003020300;0x0000000007050700;0x000000000e0a0e00;0x000000001c141c00;
   0x0000000038283800;0x0000000070507000;0x00000000e0a0e000;0x00000000c040c000;
   0x0000000302030000;0x0000000705070000;0x0000000e0a0e0000;0x0000001c141c0000;
   0x0000003828380000;0x0000007050700000;0x000000e0a0e00000;0x000000c040c00000;
   0x0000030203000000;0x0000070507000000;0x00000e0a0e000000;0x00001c141c000000;
   0x0000382838000000;0x0000705070000000;0x0000e0a0e0000000;0x0000c040c0000000;
   0x0003020300000000;0x0007050700000000;0x000e0a0e00000000;0x001c141c00000000;
   0x0038283800000000;0x0070507000000000;0x00e0a0e000000000;0x00c040c000000000;
   0x0302030000000000;0x0705070000000000;0x0e0a0e0000000000;0x1c141c0000000000;
   0x3828380000000000;0x7050700000000000;0xe0a0e00000000000;0xc040c00000000000;
   0x0203000000000000;0x0507000000000000;0x0a0e000000000000;0x141c000000000000;
   0x2838000000000000;0x5070000000000000;0xa0e0000000000000;0x40c0000000000000].

(** The table the C file calls [EnPassant]; the name is taken by the
    board field here. *)
Definition EnPassant_tbl : list Z :=
  [0x0000000200000000;0x0000000500000000;0x0000000A00000000;0x0000001400000000;
   0x0000002800000000;0x0000005000000000;0x000000A000000000;0x0000004000000000].

Definition EnPassantM_tbl : list Z :=
  [0x0000000002000000;0x0000000005000000;0x000000000A000000;0x0000000014000000;
   0x0000000028000000;0x0000000050000000;0x00000000A0000000;0x0000000040000000].

(** Array reads; an index past the end is undefined in C and reads 0 here. *)
Definition KnightDest (sq : Z) : Z := nth (Z.to_nat sq) KnightDest_tbl 0.
Definition KingDest (sq : Z) : Z := nth (Z.to_nat sq) KingDest_tbl 0.
Definition EnPassantG (f : Z) : Z := nth (Z.to_nat f) EnPassant_tbl 0.
Definition EnPassantM (f : Z) : Z := nth (Z.to_nat f) EnPassantM_tbl 0.

(** ** Board macros *)

Definition CastleSM (p : TBoard) : Z := Z.land (CastleFlags p) 0x02.
Definition CastleLM (p : TBoard) : Z := Z.land (CastleFlags p) 0x01.
Definition CastleSO (p : TBoard) : Z := Z.land (CastleFlags p) 0x20.
Definition CastleLO (p : TBoard) : Z := Z.land (CastleFlags p) 0x10.
Definition ResetCastleSM (p : TBoard) : TBoard :=
  set_CastleFlags (Z.land (CastleFlags p) 0xFD) p.
Definition ResetCastleLM (p : TBoard) : TBoard :=
  set_CastleFlags (Z.land (CastleFlags p) 0xFE) p.
Definition ResetCastleSO (p : TBoard) : TBoard :=
  set_CastleFlags (Z.land (CastleFlags p) 0xDF) p.
Definition ResetCastleLO (p : TBoard) : TBoard :=
  set_CastleFlags (Z.land (CastleFlags p) 0xEF) p.

Definition Occupation (p : TBoard) : Z := Z.lor (Z.lor (P0 p) (P1 p)) (P2 p).
Definition Pawns (p : TBoard) : Z :=
  Z.land (Z.land (P0 p) (not64 (P1 p))) (not64 (P2 p)).
Definition Knights (p : TBoard) : Z :=
  Z.land (Z.land (not64 (P0 p)) (P1 p)) (not64 (P2 p)).
Definition Bishops (p : TBoard) : Z := Z.land (P0 p) (P1 p).
Definition Rooks (p : TBoard) : Z :=
  Z.land (Z.land (not64 (P0 p)) (not64 (P1 p))) (P2 p).
Definition Queens (p : TBoard) : Z := Z.land (P0 p) (P2 p).
Definition Kings (p : TBoard) : Z := Z.land (P1 p) (P2 p).

Definition Piece (p : TBoard) (sq : Z) : Z :=
  Z.lor (Z.lor (Z.shiftl (Z.land (shr64 (P2 p) sq) 1) 2)
               (Z.shiftl (Z.land (shr64 (P1 p) sq) 1) 1))
        (Z.land (shr64 (P0 p) sq) 1).

Definition OppSq (sq : Z) : Z := Z.lxor sq 0x38.

(** The macro [ChangeSide], statement by statement. *)
Definition ChangeSide (p : TBoard) : TBoard :=
  let p := set_PM (Z.lxor (PM p) (Occupation p)) p in
  let p := set_PM (RevBB (PM p)) p in
  let p := set_P0 (RevBB (P0 p)) p in
  let p := set_P1 (RevBB (P1 p)) p in
  let p := set_P2 (RevBB (P2 p)) p in
  let p := set_CastleFlags
             (wrap8 (Z.lor (Z.shiftr (CastleFlags p) 4)
                           (Z.shiftl (CastleFlags p) 4))) p in
  set_STM (Z.lxor (STM p) BLACK) p.

(** ** Sliding attacks *)

Definition GenRook (sq occupation : Z) : Z :=
  let piece := shl64 1 sq in
  let occupation := Z.lxor occupation piece in
  let piecesup := Z.land (shl64 0x0101010101010101 sq)
                         (Z.lor occupation 0xFF00000000000000) in
  let piecesdo := Z.land (shr64 0x8080808080808080 (63 - sq))
                         (Z.lor occupation 0x00000000000000FF) in
  let piecesri := Z.land (shl64 0x00000000000000FF sq)
                         (Z.lor occupation 0x8080808080808080) in
  let piecesle := Z.land (shr64 0xFF00000000000000 (63 - sq))
                         (Z.lor occupation 0x0101010101010101) in
  Z.lxor
    (Z.lor (Z.land (shr64 0x8080808080808080 (63 - LSB piecesup))
                   (shl64 0x0101010101010101 (MSB piecesdo)))
           (Z.land (shr64 0xFF00000000000000 (63 - LSB piecesri))
                   (shl64 0x00000000000000FF (MSB piecesle))))
    piece.

Definition GenBishop (sq occupation : Z) : Z :=
  let piece := shl64 1 sq in
  let occupation := Z.lxor occupation piece in
  let piecesup := Z.land (shl64 0x8040201008040201 sq)
                         (Z.lor occupation 0xFF80808080808080) in
  let piecesdo := Z.land (shr64 0x8040201008040201 (63 - sq))
                         (Z.lor occupation 0x01010101010101FF) in
  let piecesle := Z.land (shl64 0x8102040810204081 sq)
                         (Z.lor occupation 0xFF01010101010101) in
  let piecesri := Z.land (shr64 0x8102040810204081 (63 - sq))
                         (Z.lor occupation 0x80808080808080FF) in
  Z.lxor
    (Z.lor (Z.land (shr64 0x8040201008040201 (63 - LSB piecesup))
                   (shl64 0x8040201008040201 (MSB piecesdo)))
           (Z.land (shr64 0x8102040810204081 (63 - LSB piecesle))
                   (shl64 0x8102040810204081 (MSB piecesri))))
    piece.

(** The C [switch] has no default and falls off the end for other
    values (an undefined result); the model gives 0 there. *)
Definition BBPieces (p : TBoard) (piece : Z) : Z :=
  if piece =? PAWN then Pawns p
  else if piece =? KNIGHT then Knights p
  else if piece =? BISHOP then Bishops p
  else if piece =? ROOK then Rooks p
  else if piece =? QUEEN then Queens p
  else if piece =? KING then Kings p
  else 0.

Definition BBDestinations (piece sq occupation : Z) : Z :=
  if piece =? KNIGHT then KnightDest sq
  else if piece =? BISHOP then GenBishop sq occupation
  else if piece =? ROOK then GenRook sq occupation
  else if piece =? QUEEN then Z.lor (GenRook sq occupation) (GenBishop sq occupation)
  else if piece =? KING then KingDest sq
  else 0.

(** ** The legality filter *)

Definition Illegal (p : TBoard) (move : TMove) : Z :=
  let From_ := shl64 1 (From move) in
  let To_ := shl64 1 (To move) in
  let occupation := Occupation p in
  let opposing := Z.lxor (PM p) occupation in
  let newoccupation := Z.lor (Z.lxor occupation From_) To_ in
  let newopposing := Z.land opposing (not64 To_) in
  let '(king, kingsq, newoccupation, newopposing) :=
    if Z.land (MoveType move) 0x07 =? KING then
      (To_, To move, newoccupation, newopposing)
    else
      let king := Z.land (Kings p) (PM p) in
      let kingsq := LSB king in
      if Z.land (MoveType move) EP =? 0 then
        (king, kingsq, newoccupation, newopposing)
      else
        (king, kingsq, Z.lxor newoccupation (shr64 To_ 8),
                       Z.lxor newopposing (shr64 To_ 8)) in
  Z.land
    (Z.lor (Z.lor (Z.lor (Z.lor
       (Z.land (KnightDest kingsq) (Knights p))
       (Z.land (GenRook kingsq newoccupation) (Z.lor (Rooks p) (Queens p))))
       (Z.land (GenBishop kingsq newoccupation) (Z.lor (Bishops p) (Queens p))))
       (Z.land (Z.lor (Z.land (shl64 king 9) 0xFEFEFEFEFEFEFEFE)
                      (Z.land (shl64 king 7) 0x7F7F7F7F7F7F7F7F))
               (Pawns p)))
       (Z.land (KingDest kingsq) (Kings p)))
    newopposing.

(** ** Move generation *)

(** The loop [for (bb = b; bb; bb = ClearLSB(bb)) ... LSB(bb) ...]: the
    squares it visits, in order.  A 64-bit value has at most 64 set bits,
    so 64 rounds always reach [bb = 0] (lemma [scan_bits_done]). *)
Fixpoint scan_bits (fuel : nat) (bb : Z) : list Z :=
  match fuel with
  | O => []
  | S n => if bb =? 0 then [] else LSB bb :: scan_bits n (ClearLSB bb)
  end.

Definition for_bits (bb : Z) : list Z := scan_bits 64 bb.

(** [for (piece = KING; piece >= KNIGHT; piece--)]. *)
Definition king_to_knight : list Z := [KING; QUEEN; ROOK; BISHOP; KNIGHT].
(** [for (piece = ROOK; piece >= KNIGHT; piece--)]. *)
Definition rook_to_knight : list Z := [ROOK; BISHOP; KNIGHT].

Definition castle_long_ok (p : TBoard) (occupation opposing : Z) : bool :=
  let roo := ExtractLSB (Z.land 0x1010101010101000 occupation) in
  let roo := Z.lor roo (ExtractLSB (Z.land 0x0808080808080800 occupation)) in
  let roo := Z.lor roo (ExtractLSB (Z.land 0x0404040404040400 occupation)) in
  let roo := Z.lor roo (ExtractLSB (Z.land 0x00000000000000E0 occupation)) in
  let bis := ExtractLSB (Z.land 0x0000000102040800 occupation) in
  let bis := Z.lor bis (ExtractLSB (Z.land 0x0000000001020400 occupation)) in
  let bis := Z.lor bis (ExtractLSB (Z.land 0x0000000000010200 occupation)) in
  let bis := Z.lor bis (ExtractLSB (Z.land 0x0000000080402000 occupation)) in
  let bis := Z.lor bis (ExtractLSB (Z.land 0x0000008040201000 occupation)) in
  let bis := Z.lor bis (ExtractLSB (Z.land 0x0000804020100800 occupation)) in
  Z.land
    (Z.lor (Z.lor (Z.lor (Z.lor
       (Z.land roo (Z.lor (Rooks p) (Queens p)))
       (Z.land bis (Z.lor (Bishops p) (Queens p))))
       (Z.land 0x00000000003E7700 (Knights p)))
       (Z.land 0x0000000000003E00 (Pawns p)))
       (Z.land (Kings p) 0x0000000000000600))
    opposing =? 0.

Definition castle_short_ok (p : TBoard) (occupation opposing : Z) : bool :=
  let roo := ExtractLSB (Z.land 0x1010101010101000 occupation) in
  let roo := Z.lor roo (ExtractLSB (Z.land 0x2020202020202000 occupation)) in
  let roo := Z.lor roo (ExtractLSB (Z.land 0x4040404040404000 occupation)) in
  let roo := Z.lor roo
               (shl64 1 (MSB (Z.land 0x000000000000000F (Z.lor occupation 0x1)))) in
  let bis := ExtractLSB (Z.land 0x0000000102040800 occupation) in
  let bis := Z.lor bis (ExtractLSB (Z.land 0x0000010204081000 occupation)) in
  let bis := Z.lor bis (ExtractLSB (Z.land 0x0001020408102000 occupation)) in
  let bis := Z.lor bis (ExtractLSB (Z.land 0x0000000080402000 occupation)) in
  let bis := Z.lor bis (ExtractLSB (Z.land 0x0000000000804000 occupation)) in
  let bis := Z.lor bis 0x0000000000008000 in
  Z.land
    (Z.lor (Z.lor (Z.lor (Z.lor
       (Z.land roo (Z.lor (Rooks p) (Queens p)))
       (Z.land bis (Z.lor (Bishops p) (Queens p))))
       (Z.land 0x0000000000F8DC00 (Knights p)))
       (Z.land 0x000000000000F800 (Pawns p)))
       (Z.land (Kings p) 0x0000000000004000))
    opposing =? 0.

Definition GenerateQuiets (p : TBoard) : list TMove :=
  let occupation := Occupation p in
  let opposing := Z.lxor occupation (PM p) in
  let piece_moves :=
    flat_map (fun piece =>
      flat_map (fun sq =>
        map (fun dst => mkMove piece sq dst EMPTY)
            (for_bits (Z.land (not64 occupation)
                              (BBDestinations piece sq occupation))))
        (for_bits (Z.land (BBPieces p piece) (PM p))))
      king_to_knight in
  let push1 := Z.land (Z.land (shl64 (Z.land (Pawns p) (PM p)) 8)
                              (not64 occupation)) 0x00FFFFFFFFFFFFFF in
  let push1_moves :=
    map (fun dst => mkMove PAWN (wrap8 (dst - 8)) dst EMPTY) (for_bits push1) in
  let push2 := Z.land (Z.land (shl64 push1 8) (not64 occupation))
                      0x00000000FF000000 in
  let push2_moves :=
    map (fun dst => mkMove PAWN (wrap8 (dst - 16)) dst EMPTY) (for_bits push2) in
  let long_moves :=
    if negb (CastleLM p =? 0) && (Z.land occupation 0x0E =? 0)
       && castle_long_ok p occupation opposing
    then [mkMove (Z.lor KING CASTLE) 4 2 EMPTY] else [] in
  let short_moves :=
    if negb (CastleSM p =? 0) && (Z.land occupation 0x60 =? 0)
       && castle_short_ok p occupation opposing
    then [mkMove (Z.lor KING CASTLE) 4 6 EMPTY] else [] in
  piece_moves ++ push1_moves ++ push2_moves ++ long_moves ++ short_moves.

(** A promotion square gives the queen promotion, then rook, bishop and
    knight. *)
Definition promotions (mt delta dst : Z) : list TMove :=
  mkMove mt (wrap8 (dst - delta)) dst QUEEN
  :: map (fun piece => mkMove mt (wrap8 (dst - delta)) dst piece) rook_to_knight.

Definition GenerateCapture (p : TBoard) : list TMove :=
  let occupation := Occupation p in
  let opposing := Z.lxor (PM p) occupation in
  let piece_moves :=
    flat_map (fun piece =>
      flat_map (fun sq =>
        map (fun dst => mkMove (Z.lor piece CAPTURE) sq dst EMPTY)
            (for_bits (Z.land opposing (BBDestinations piece sq occupation))))
        (for_bits (Z.land (BBPieces p piece) (PM p))))
      king_to_knight in
  let pieces := Z.land (Pawns p) (PM p) in
  let captureri :=
    map (fun dst => mkMove (Z.lor PAWN CAPTURE) (wrap8 (dst - 9)) dst EMPTY)
        (for_bits (Z.land (Z.land (shl64 pieces 9) 0x00FEFEFEFEFEFEFE) opposing)) in
  let capturele :=
    map (fun dst => mkMove (Z.lor PAWN CAPTURE) (wrap8 (dst - 7)) dst EMPTY)
        (for_bits (Z.land (Z.land (shl64 pieces 7) 0x007F7F7F7F7F7F7F) opposing)) in
  let promo_moves :=
    if Z.land pieces 0x00FF000000000000 =? 0 then []
    else
      flat_map (promotions (Z.lor (Z.lor PAWN PROMO) CAPTURE) 9)
        (for_bits (Z.land (Z.land (shl64 pieces 9) 0xFE00000000000000) opposing))
      ++ flat_map (promotions (Z.lor (Z.lor PAWN PROMO) CAPTURE) 7)
        (for_bits (Z.land (Z.land (shl64 pieces 7) 0x7F00000000000000) opposing))
      ++ flat_map (promotions (Z.lor PAWN PROMO) 8)
        (for_bits (Z.land (Z.land (shl64 pieces 8) (not64 occupation))
                          0xFF00000000000000)) in
  let ep_moves :=
    if EnPassant p =? 8 then []
    else
      map (fun sq => mkMove (Z.lor (Z.lor PAWN EP) CAPTURE) sq
                            (wrap8 (40 + EnPassant p)) EMPTY)
          (for_bits (Z.land pieces (EnPassantG (EnPassant p)))) in
  piece_moves ++ captureri ++ capturele ++ promo_moves ++ ep_moves.

(** ** Make *)

(** [Position->P0 &= ~dest; Position->P1 &= ~dest; Position->P2 &= ~dest]. *)
Definition delete_captured (dest : Z) (p : TBoard) : TBoard :=
  let p := set_P0 (Z.land (P0 p) (not64 dest)) p in
  let p := set_P1 (Z.land (P1 p) (not64 dest)) p in
  set_P2 (Z.land (P2 p) (not64 dest)) p.

(** The castle-rights update after a capture by a pawn or a piece. *)
Definition capture_rights (move : TMove) (p : TBoard) : TBoard :=
  if Z.land (MoveType move) CAPTURE =? 0 then p
  else if To move =? 63 then ResetCastleSO p
  else if To move =? 56 then ResetCastleLO p
  else p.

Definition MakePawn (move : TMove) (part dest : Z) (p : TBoard) : TBoard :=
  if negb (Z.land (MoveType move) EP =? 0) then
    let p := set_PM (Z.lxor (PM p) (Z.lor part dest)) p in
    let p := set_P0 (Z.lxor (P0 p) (Z.lor part dest)) p in
    let p := set_P0 (Z.lxor (P0 p) (shr64 dest 8)) p in
    set_EnPassant 8 p
  else
    let p := if Z.land (MoveType move) CAPTURE =? 0 then p
             else delete_captured dest p in
    let p :=
      if negb (Z.land (MoveType move) PROMO =? 0) then
        let p := set_PM (Z.lxor (PM p) (Z.lor part dest)) p in
        let p := set_P0 (Z.lxor (P0 p) part) p in
        let p := set_P0 (Z.lor (P0 p) (shl64 (Z.land (Prom move) 1) (To move))) p in
        let p := set_P1 (Z.lor (P1 p)
                   (shl64 (Z.land (Z.shiftr (Prom move) 1) 1) (To move))) p in
        let p := set_P2 (Z.lor (P2 p)
                   (shl64 (Z.shiftr (Prom move) 2) (To move))) p in
        set_EnPassant 8 p
      else
        let p := set_PM (Z.lxor (PM p) (Z.lor part dest)) p in
        let p := set_P0 (Z.lxor (P0 p) (Z.lor part dest)) p in
        let p := set_EnPassant 8 p in
        if (To move =? From move + 16)
           && negb (Z.land (Z.land (EnPassantM (Z.land (To move) 0x07)) (Pawns p))
                           (Z.lxor (PM p) (Occupation p)) =? 0)
        then set_EnPassant (Z.land (To move) 0x07) p
        else p in
    capture_rights move p.

Definition MakePiece (move : TMove) (part dest : Z) (p : TBoard) : TBoard :=
  let p := if Z.land (MoveType move) CAPTURE =? 0 then p
           else delete_captured dest p in
  let p := set_PM (Z.lxor (PM p) (Z.lor part dest)) p in
  let p := set_P0 (Z.lxor (P0 p)
             (if Z.land (MoveType move) 1 =? 0 then 0 else Z.lor part dest)) p in
  let p := set_P1 (Z.lxor (P1 p)
             (if Z.land (MoveType move) 2 =? 0 then 0 else Z.lor part dest)) p in
  let p := set_P2 (Z.lxor (P2 p)
             (if Z.land (MoveType move) 4 =? 0 then 0 else Z.lor part dest)) p in
  let p := set_EnPassant 8 p in
  let p :=
    if Z.land (MoveType move) 0x7 =? ROOK then
      if From move =? 7 then ResetCastleSM p
      else if From move =? 0 then ResetCastleLM p
      else p
    else p in
  capture_rights move p.

Definition MakeKing (move : TMove) (part dest : Z) (p : TBoard) : TBoard :=
  let p := if Z.land (MoveType move) CAPTURE =? 0 then p
           else delete_captured dest p in
  let p := set_PM (Z.lxor (PM p) (Z.lor part dest)) p in
  let p := set_P1 (Z.lxor (P1 p) (Z.lor part dest)) p in
  let p := set_P2 (Z.lxor (P2 p) (Z.lor part dest)) p in
  let p := ResetCastleSM p in
  let p := ResetCastleLM p in
  let p := set_EnPassant 8 p in
  if negb (Z.land (MoveType move) CAPTURE =? 0) then
    if negb (CastleSO p =? 0) && (To move =? 63) then ResetCastleSO p
    else if negb (CastleLO p =? 0) && (To move =? 56) then ResetCastleLO p
    else p
  else if negb (Z.land (MoveType move) CASTLE =? 0) then
    if To move =? 6 then
      let p := set_PM (Z.lxor (PM p) 0x00000000000000A0) p in
      set_P2 (Z.lxor (P2 p) 0x00000000000000A0) p
    else
      let p := set_P2 (Z.lxor (P2 p) 0x0000000000000009) p in
      set_PM (Z.lxor (PM p) 0x0000000000000009) p
  else p.

(** What [Make] does to the fresh copy of the previous position. *)
Definition MakeBoard (move : TMove) (p : TBoard) : TBoard :=
  let part := shl64 1 (From move) in
  let dest := shl64 1 (To move) in
  let piece := Z.land (MoveType move) 0x07 in
  if piece =? PAWN then ChangeSide (MakePawn move part dest p)
  else if (piece =? KNIGHT) || (piece =? BISHOP) || (piece =? ROOK)
          || (piece =? QUEEN) then ChangeSide (MakePiece move part dest p)
  else if piece =? KING then ChangeSide (MakeKing move part dest p)
  else p.

(** ** Computations on the global state

    A computation reads and writes the [State] and can go wrong: a write
    past the end of [Game] or of a move buffer, and an [int64_t] sum out
    of range, are undefined in C and [None] here. *)
Definition M (A : Type) : Type := State -> option (A * State).

Definition ret {A} (a : A) : M A := fun st => Some (a, st).
Definition bind {A B} (m : M A) (k : A -> M B) : M B :=
  fun st => match m st with
            | Some (a, st') => k a st'
            | None => None
            end.

Notation "'do' x <- m ; k" := (bind m (fun x => k))
  (at level 10, x name, m at level 100, k at level 200).
Notation "'run' m ; k" := (bind m (fun _ => k))
  (at level 10, m at level 100, k at level 200).

(** [Position++; *Position = *(Position-1); ...] *)
Definition Make (move : TMove) : M unit :=
  fun st =>
    let top := S (Position st) in
    if (top <? length (Game st))%nat then
      Some (tt, mkState (<[top := MakeBoard move (cur st)]> (Game st)) top)
    else None.

(** [Position--] *)
Definition Unmake : M unit :=
  fun st => Some (tt, mkState (Game st) (pred (Position st))).

(** ** Perft *)

(** The sizes of the two move buffers of [Perft], [capture[64]] and
    [quiets[256]]. *)
Definition CAPTURE_SIZE : nat := 64.
Definition QUIETS_SIZE : nat := 256.

(** A generator fills a buffer of [size] entries: with more moves than
    that it writes past the end of the buffer, which is undefined in C
    and [None] here. *)
Definition fill (size : nat) (moves : list TMove) : M (list TMove) :=
  fun st => if (length moves <=? size)%nat then Some (moves, st) else None.

(** The moves generated at [p] fit the two buffers. *)
Definition buffers_fit (p : TBoard) : bool :=
  (length (GenerateCapture p) <=? CAPTURE_SIZE)%nat
  && (length (GenerateQuiets p) <=? QUIETS_SIZE)%nat.

(** [tot + n] on the [int64_t] total: a signed sum out of range is
    undefined in C and [None] here. *)
Definition INT64_MIN : Z := - 0x8000000000000000.
Definition INT64_MAX : Z := 0x7FFFFFFFFFFFFFFF.

Definition add64 (tot n : Z) : M Z :=
  fun st =>
    if (INT64_MIN <=? tot + n) && (tot + n <=? INT64_MAX)
    then Some (tot + n, st) else None.

(** One of the two loops of [Perft] over a move buffer, from its last
    entry down to its first; [deeper] is the recursive call when
    [depth > 1] and absent otherwise. *)
Fixpoint perft_loop (deeper : option (M Z)) (moves : list TMove) (tot : Z)
  : M Z :=
  match moves with
  | [] => ret tot
  | move :: rest =>
      fun st =>
        if negb (Illegal (cur st) move =? 0) then perft_loop deeper rest tot st
        else
          match deeper with
          | Some rec =>
              (run Make move;
               do n <- rec;
               do tot <- add64 tot n;
               run Unmake;
               perft_loop deeper rest tot) st
          | None => (do tot <- add64 tot 1; perft_loop deeper rest tot) st
          end
  end.

(** [Perft] by recursion on [depth] as a natural number: the captures
    are generated into [capture] and counted, then the quiet moves into
    [quiets]. *)
Fixpoint PerftN (depth : nat) : M Z :=
  let deeper :=
    match depth with
    | S d => if (1 <? depth)%nat then Some (PerftN d) else None
    | O => None
    end in
  fun st =>
    (do capture <- fill CAPTURE_SIZE (GenerateCapture (cur st));
     do tot <- perft_loop deeper (rev capture) 0;
     fun st' =>
       (do quiets <- fill QUIETS_SIZE (GenerateQuiets (cur st'));
        perft_loop deeper (rev quiets) tot) st') st.

(** [Perft(depth)] for a C [int]: every [depth <= 1] takes the counting
    branch. *)
Definition Perft (depth : Z) : M Z := PerftN (Z.to_nat depth).

(** ** Loading a position *)

Definition code (c : ascii) : Z := Z.of_N (N_of_ascii c).

Definition letter_piece (c : Z) (piece pieceside : Z) : Z * Z :=
  if c =? code "p" then (PAWN, BLACK)
  else if c =? code "n" then (KNIGHT, BLACK)
  else if c =? code "b" then (BISHOP, BLACK)
  else if c =? code "r" then (ROOK, BLACK)
  else if c =? code "q" then (QUEEN, BLACK)
  else if c =? code "k" then (KING, BLACK)
  else if c =? code "P" then (PAWN, WHITE)
  else if c =? code "N" then (KNIGHT, WHITE)
  else if c =? code "B" then (BISHOP, WHITE)
  else if c =? code "R" then (ROOK, WHITE)
  else if c =? code "Q" then (QUEEN, WHITE)
  else if c =? code "K" then (KING, WHITE)
  else (piece, pieceside).

(** The first loop of [LoadPosition], up to the first space; the result
    carries the text from that space on.  A string without a space makes
    the C loop read past its end; the model stops there. *)
Fixpoint load_board (fen : list ascii) (piece pieceside square : Z)
  (p : TBoard) : TBoard * list ascii :=
  match fen with
  | [] => (p, [])
  | c :: rest =>
      if code c =? code " " then (p, fen)
      else if (code "1" <=? code c) && (code c <=? code "8") then
        load_board rest piece pieceside (square + (code c - code "0")) p
      else if code c =? code "/" then load_board rest piece pieceside square p
      else
        let pos := OppSq square in
        let '(piece, pieceside) := letter_piece (code c) piece pieceside in
        let p := set_P0 (Z.lor (P0 p) (shl64 (Z.land piece 1) pos)) p in
        let p := set_P1 (Z.lor (P1 p) (shl64 (Z.land (Z.shiftr piece 1) 1) pos)) p in
        let p := set_P2 (Z.lor (P2 p) (shl64 (Z.shiftr piece 2) pos)) p in
        let '(p, piece) :=
          if pieceside =? WHITE
          then (set_PM (Z.lor (PM p) (shl64 1 pos)) p, wrap8 (Z.lor piece BLACK))
          else (p, piece) in
        load_board rest piece pieceside (square + 1) p
  end.

(** The castle-rights loop, up to the next space. *)
Fixpoint load_castle (s : list ascii) (p : TBoard) : TBoard * list ascii :=
  match s with
  | [] => (p, [])
  | c :: rest =>
      if code c =? code " " then (p, s)
      else
        let p :=
          if code c =? code "K" then set_CastleFlags (Z.lor (CastleFlags p) 0x02) p
          else if code c =? code "Q" then set_CastleFlags (Z.lor (CastleFlags p) 0x01) p
          else if code c =? code "k" then set_CastleFlags (Z.lor (CastleFlags p) 0x20) p
          else if code c =? code "q" then set_CastleFlags (Z.lor (CastleFlags p) 0x10) p
          else p in
        load_castle rest p
  end.

(** The character [*cursor]; past the end of the text it is 0. *)
Definition peek (s : list ascii) : Z :=
  match s with
  | [] => 0
  | c :: _ => code c
  end.

Definition LoadBoard (fen : string) : TBoard :=
  let p := mkBoard 0 0 0 0 0 8 WHITE in
  let '(p, s) := load_board (list_ascii_of_string fen) PAWN WHITE 0 p in
  let s := skipn 1 s in
  let sidetomove :=
    if peek s =? code "w" then WHITE
    else if peek s =? code "b" then BLACK
    else WHITE in
  let s := skipn 2 s in
  let '(p, s) :=
    if negb (peek s =? code "-") then
      let '(p, s) := load_castle s p in (p, skipn 1 s)
    else (p, skipn 2 s) in
  let p :=
    if negb (peek s =? code "-")
    then set_EnPassant (wrap8 (peek s - code "a")) p
    else p in
  if sidetomove =? BLACK then ChangeSide p else p.

(** [LoadPosition(fen, moves)]: [Position = Game] and the parsed board
    is written there; [moves] is never read. *)
Definition LoadPosition (fen : string) : M unit :=
  fun st => Some (tt, mkState (<[0%nat := LoadBoard fen]> (Game st)) 0).

(** The zero-initialised globals. *)
Definition initial_state : State := mkState (repeat zero_board MAX_PLY) 0.

Definition startpos : string :=
  "rnbqkbnr/pppppppp/8/8/8/8/PPPPPPPP/RNBQKBNR w KQkq - 0 1".

Definition perft_of (fen : string) (depth : Z) : option Z :=
  match (run LoadPosition fen; Perft depth) initial_state with
  | Some (n, _) => Some n
  | None => None
  end.


(** ** Predicates on values and boards *)

(** The values of a [uint64_t]. *)
Definition is64 (x : Z) : Prop := 0 <= x < 2 ^ 64.

(** The 64 square indices. *)
Definition squares : list Z := map Z.of_nat (seq 0 64).

(** The castle-rights roll of [ChangeSide]. *)
Definition roll (c : Z) : Z := wrap8 (Z.lor (Z.shiftr c 4) (Z.shiftl c 4)).

(** What the C types of the fields guarantee. *)
Definition valid_fields (p : TBoard) : Prop :=
  is64 (PM p) /\ is64 (P0 p) /\ is64 (P1 p) /\ is64 (P2 p)
  /\ 0 <= CastleFlags p < 256 /\ 0 <= EnPassant p < 256 /\ 0 <= STM p < 256.

(** A generated move that passes the legality filter. *)
Definition legal (p : TBoard) (m : TMove) : bool := Illegal p m =? 0.

(** The moves [Perft] counts or plays at a node. *)
Definition legal_moves (p : TBoard) : list TMove :=
  List.filter (legal p) (GenerateCapture p ++ GenerateQuiets p).

(** ** Board geometry, as the specification words it

    These definitions do not come from the C file: they spell out what a
    rook or bishop attacks, square by square, and are what the bit tricks
    of [GenRook] and [GenBishop] are compared with. *)

Definition on_board (f r : Z) : bool :=
  (0 <=? f) && (f <? 8) && (0 <=? r) && (r <? 8).

(** The squares met when leaving file [f], rank [r] in steps of
    ([df], [dr]), nearest first, up to the edge of the board. *)
Fixpoint ray_from (fuel : nat) (f r df dr : Z) : list Z :=
  match fuel with
  | O => []
  | S n =>
      let f' := f + df in
      let r' := r + dr in
      if on_board f' r' then (8 * r' + f') :: ray_from n f' r' df dr else []
  end.

Definition ray (sq df dr : Z) : list Z :=
  ray_from 7 (sq mod 8) (sq / 8) df dr.

(** Every square up to and including the first occupied one. *)
Fixpoint upto_blocker (occ : Z) (l : list Z) : list Z :=
  match l with
  | [] => []
  | s :: t => if Z.testbit occ s then [s] else s :: upto_blocker occ t
  end.

(** The bitboard of a list of squares. *)
Definition bb_of (l : list Z) : Z :=
  fold_right (fun s acc => Z.lor (Z.shiftl 1 s) acc) 0 l.

Definition ray_attack (sq occ df dr : Z) : Z :=
  bb_of (upto_blocker occ (ray sq df dr)).

Definition spec_rook_attacks (sq occ : Z) : Z :=
  Z.lor (Z.lor (ray_attack sq occ 0 1) (ray_attack sq occ 0 (-1)))
        (Z.lor (ray_attack sq occ 1 0) (ray_attack sq occ (-1) 0)).

Definition spec_bishop_attacks (sq occ : Z) : Z :=
  Z.lor (Z.lor (ray_attack sq occ 1 1) (ray_attack sq occ (-1) (-1)))
        (Z.lor (ray_attack sq occ (-1) 1) (ray_attack sq occ 1 (-1))).

Definition spec_queen_attacks (sq occ : Z) : Z :=
  Z.lor (spec_rook_attacks sq occ) (spec_bishop_attacks sq occ).

(** ** One line of a sliding attack

    [GenRook] and [GenBishop] each join two lines of the same shape: the
    nearest blocker above ([LSB]) and below ([MSB]) on the line bound the
    attacked span. *)
Definition slide (up_pat dn_pat sent_up sent_dn sq x : Z) : Z :=
  let hi := Z.land (shl64 up_pat sq) (Z.lor x sent_up) in
  let lo := Z.land (shr64 dn_pat (63 - sq)) (Z.lor x sent_dn) in
  Z.land (shr64 dn_pat (63 - LSB hi)) (shl64 up_pat (MSB lo)).

(** All the bitboards made of squares of [l]. *)
Fixpoint subsets (l : list Z) : list Z :=
  match l with
  | [] => [0]
  | s :: t => subsets t ++ map (Z.lor (Z.shiftl 1 s)) (subsets t)
  end.

(** The exhaustive check of one line at one square.  The first five
    tests say that, between the nearest edge sentinels, the shifted
    patterns stay on the line; the last says that over every occupancy of
    the line [slide] is the two rays cut at their first blocker, plus the
    origin square. *)
Definition line_ok (up_pat dn_pat sent_up sent_dn df dr : Z) (sq : Z) : bool :=
  let l := ray sq df dr ++ ray sq (- df) (- dr) in
  let m := bb_of l in
  let piece := shl64 1 sq in
  let U := shl64 up_pat sq in
  let D := shr64 dn_pat (63 - sq) in
  let ku := LSB (Z.land U sent_up) in
  let kd := MSB (Z.land D sent_dn) in
  let Ulow := Z.land U (Z.ones (ku + 1)) in
  let Dhigh := Z.shiftl (Z.shiftr D kd) kd in
  (0 <=? ku) && Z.testbit (Z.land U sent_up) ku
  && (0 <=? kd) && Z.testbit (Z.land D sent_dn) kd
  && (Z.land Ulow (Z.lor m piece) =? Ulow)
  && (Z.land Dhigh (Z.lor m piece) =? Dhigh)
  && (Z.land m piece =? 0)
  && forallb (fun x =>
        let a := Z.lor (bb_of (upto_blocker x (ray sq df dr)))
                       (bb_of (upto_blocker x (ray sq (- df) (- dr)))) in
        (slide up_pat dn_pat sent_up sent_dn sq x =? Z.lor a piece)
        && (Z.land a piece =? 0))
       (subsets l).

(** The two opposite rays of one line. *)
Definition line_attack (sq occ df dr : Z) : Z :=
  Z.lor (ray_attack sq occ df dr) (ray_attack sq occ (- df) (- dr)).

(** ** En passant after a double push *)

(** An opposing pawn stands on square [s]. *)
Definition opp_pawn_at (p : TBoard) (s : Z) : bool :=
  (Piece p s =? PAWN) && negb (Z.testbit (PM p) s).

(** An opposing pawn stands right beside the destination of [m], on the
    same rank and an adjacent file. *)
Definition opp_pawn_beside (p : TBoard) (m : TMove) : bool :=
  (negb (To m mod 8 =? 0) && opp_pawn_at p (To m - 1))
  || (negb (To m mod 8 =? 7) && opp_pawn_at p (To m + 1)).

(** Some en-passant capture that [GenerateCapture] offers passes the
    legality filter. *)
Definition ep_capture_legal (p : TBoard) : bool :=
  existsb (fun m => negb (Z.land (MoveType m) EP =? 0) && legal p m)
          (GenerateCapture p).

(** ** The self-test suite *)

Definition fen_kiwipete : string :=
  "r3k2r/p1ppqpb1/bn2pnp1/3PN3/1p2P3/2N2Q1p/PPPBBPPP/R3K2R w KQkq - 0 1".
Definition fen_endgame : string := "8/2p5/3p4/KP5r/1R3p1k/8/4P1P1/8 w - - 0 1".
Definition fen_promotions : string :=
  "r3k2r/Pppp1ppp/1b3nbN/nP6/BBP1P3/q4N2/Pp1P2PP/R2Q1RK1 w kq - 0 1".
Definition fen_talkchess : string :=
  "rnbqkb1r/pp1p1ppp/2p5/4P3/2B5/8/PPP1NnPP/RNBQK2R w KQkq - 0 6".
Definition fen_middlegame : string :=
  "r4rk1/1pp1qppp/p1np1n2/2b1p1B1/2B1P1b1/P1NP1N2/1PP1QPPP/R4RK1 w - - 0 10".

(** The table [Test] of [TestPerft]. *)
Definition Test : list (string * Z * Z) :=
  [ (startpos, 6, 119060324);
    (fen_kiwipete, 5, 193690690);
    (fen_endgame, 7, 178633661);
    (fen_promotions, 6, 706045033);
    (fen_talkchess, 3, 53392);
    (fen_middlegame, 5, 164075551) ].

(** The squares beside [t] on its rank. *)
Definition neighbours (t : Z) : list Z :=
  (if t mod 8 =? 0 then [] else [t - 1]) ++ (if t mod 8 =? 7 then [] else [t + 1]).

(** ** Encoding invariants

    What the data model promises of a stored position, as decidable
    tests: the fields fit their C types; no square carries the unused
    code 7; the mover's pieces are occupied squares; each side has
    exactly one king; an en-passant file names an opposing pawn that has
    just advanced two squares; a castling right implies king and rook on
    their home squares. *)

Definition is64b (x : Z) : bool := (0 <=? x) && (x <? 2 ^ 64).

Definition fields_ok (p : TBoard) : bool :=
  is64b (PM p) && is64b (P0 p) && is64b (P1 p) && is64b (P2 p)
  && (0 <=? CastleFlags p) && (CastleFlags p <? 256)
  && (0 <=? EnPassant p) && (EnPassant p <=? 8)
  && (0 <=? STM p) && (STM p <? 256).

Definition codes_ok (p : TBoard) : bool :=
  Z.land (Z.land (P0 p) (P1 p)) (P2 p) =? 0.

Definition pm_ok (p : TBoard) : bool :=
  Z.land (PM p) (not64 (Occupation p)) =? 0.

(** Exactly one bit is set. *)
Definition single (bb : Z) : bool := negb (bb =? 0) && (ClearLSB bb =? 0).

Definition kings_ok (p : TBoard) : bool :=
  single (Z.land (Kings p) (PM p))
  && single (Z.land (Kings p) (not64 (PM p))).

Definition ep_ok (p : TBoard) : bool :=
  (EnPassant p =? 8)
  || (Z.testbit (Z.land (Pawns p) (not64 (PM p))) (32 + EnPassant p)
      && negb (Z.testbit (Occupation p) (40 + EnPassant p))).

Definition castle_ok (p : TBoard) : bool :=
  ((CastleSM p =? 0)
   || (Z.testbit (Z.land (Kings p) (PM p)) 4
       && Z.testbit (Z.land (Rooks p) (PM p)) 7))
  && ((CastleLM p =? 0)
      || (Z.testbit (Z.land (Kings p) (PM p)) 4
          && Z.testbit (Z.land (Rooks p) (PM p)) 0))
  && ((CastleSO p =? 0)
      || (Z.testbit (Z.land (Kings p) (not64 (PM p))) 60
          && Z.testbit (Z.land (Rooks p) (not64 (PM p))) 63))
  && ((CastleLO p =? 0)
      || (Z.testbit (Z.land (Kings p) (not64 (PM p))) 60
          && Z.testbit (Z.land (Rooks p) (not64 (PM p))) 56)).

Definition encoding_ok (p : TBoard) : bool :=
  fields_ok p && codes_ok p && pm_ok p && kings_ok p && ep_ok p && castle_ok p.

(** ** Attacks, as the rules of chess word them

    A board is read square by square: the piece code on the square and
    whether the piece belongs to the mover. *)

Definition board : Type := Z -> Z * bool.

Definition board_of (p : TBoard) : board :=
  fun s => (Piece p s, Z.testbit (PM p) s).

Definition file_of (s : Z) : Z := s mod 8.
Definition rank_of (s : Z) : Z := s / 8.

Definition knight_jump (t k : Z) : bool :=
  let df := Z.abs (file_of t - file_of k) in
  let dr := Z.abs (rank_of t - rank_of k) in
  ((df =? 1) && (dr =? 2)) || ((df =? 2) && (dr =? 1)).

Definition king_step (t k : Z) : bool :=
  Z.max (Z.abs (file_of t - file_of k)) (Z.abs (rank_of t - rank_of k)) =? 1.

(** A pawn on [t] attacks [k]: one rank ahead, one file aside.  The
    mover's pawns advance up the board, the opponent's down. *)
Definition pawn_step (up : bool) (t k : Z) : bool :=
  (rank_of k =? (if up then rank_of t + 1 else rank_of t - 1))
  && (Z.abs (file_of t - file_of k) =? 1).

Definition occupancy (b : board) : Z :=
  bb_of (List.filter (fun s => negb (fst (b s) =? EMPTY)) squares).

(** A piece of code [c], the mover's or not, standing on [t] attacks
    [k] when the occupied squares are [occ]. *)
Definition attack_of (c : Z) (mine : bool) (occ t k : Z) : bool :=
  if c =? PAWN then pawn_step mine t k
  else if c =? KNIGHT then knight_jump t k
  else if c =? BISHOP then Z.testbit (spec_bishop_attacks t occ) k
  else if c =? ROOK then Z.testbit (spec_rook_attacks t occ) k
  else if c =? QUEEN then Z.testbit (spec_queen_attacks t occ) k
  else if c =? KING then king_step t k
  else false.

(** The piece on [t], whichever side it belongs to, attacks [k]. *)
Definition piece_attacks (b : board) (t k : Z) : bool :=
  attack_of (fst (b t)) (snd (b t)) (occupancy b) t k.

(** Some piece of the given side attacks [k]. *)
Definition attacked_by (b : board) (mover : bool) (k : Z) : bool :=
  existsb (fun t => negb (fst (b t) =? EMPTY) && Bool.eqb (snd (b t)) mover
                    && piece_attacks b t k) squares.

Definition king_square (b : board) (mover : bool) : option Z :=
  List.find (fun s => (fst (b s) =? KING) && Bool.eqb (snd (b s)) mover) squares.

(** The king of the given side stands on an attacked square. *)
Definition in_check (b : board) (mover : bool) : bool :=
  match king_square b mover with
  | Some k => attacked_by b (negb mover) k
  | None => false
  end.

(** The move carries the en-passant flag. *)
Definition is_ep (m : TMove) : bool := negb (Z.land (MoveType m) EP =? 0).

(** The board after the piece on [From] has gone to [To]: the captured
    piece, if any, is gone, and so is the pawn one rank behind the
    destination when the move is an en-passant capture. *)
Definition spec_after (p : TBoard) (m : TMove) : board :=
  fun s =>
    if s =? To m then board_of p (From m)
    else if s =? From m then (EMPTY, false)
    else if is_ep m && (s =? To m - 8) then (EMPTY, false)
    else board_of p s.

(** A position of a game played by the rules: the encoding invariants
    hold and the side that has just moved is not in check. *)
Definition legal_position (p : TBoard) : bool :=
  encoding_ok p && negb (in_check (board_of p) false).

(** The squares of [l] before the first occurrence of [k], when [k]
    occurs. *)
Fixpoint before (k : Z) (l : list Z) : option (list Z) :=
  match l with
  | [] => None
  | s :: t => if k =? s then Some []
              else match before k t with
                   | Some pre => Some (s :: pre)
                   | None => None
                   end
  end.

Definition list_eqb (a b : list Z) : bool :=
  (length a =? length b)%nat && forallb (fun '(x, y) => x =? y) (combine a b).

(** The eight directions of a queen. *)
Definition directions : list (Z * Z) :=
  [(0, 1); (0, -1); (1, 0); (-1, 0); (1, 1); (-1, -1); (-1, 1); (1, -1)].

(** Seen from [k], the way back along a ray from [t] is the same squares
    in reverse order. *)
Definition ray_symmetric (t k : Z) : bool :=
  forallb (fun '(df, dr) =>
    match before k (ray t df dr), before t (ray k (- df) (- dr)) with
    | Some a, Some b => list_eqb b (rev a)
    | None, None => true
    | _, _ => false
    end) directions.

(** The pawn term of [Illegal] for a king on [k]. *)
Definition pawn_attackers (king : Z) : Z :=
  Z.lor (Z.land (shl64 king 9) 0xFEFEFEFEFEFEFEFE)
        (Z.land (shl64 king 7) 0x7F7F7F7F7F7F7F7F).

(** ** The shapes of generated moves *)

(** The mover has a piece of code [c] on [s]. *)
Definition own (p : TBoard) (c s : Z) : Prop :=
  Piece p s = c /\ Z.testbit (PM p) s = true.

Definition vacant (p : TBoard) (s : Z) : Prop := Piece p s = EMPTY.

(** The opponent has a piece on [s]. *)
Definition enemy (p : TBoard) (s : Z) : Prop :=
  Piece p s <> EMPTY /\ Z.testbit (PM p) s = false.

Definition promotion_pieces : list Z := [QUEEN; ROOK; BISHOP; KNIGHT].

(** A pawn capturing by [delta] (9 towards the h-file, 7 towards the
    a-file) can land on [dst]. *)
Definition capture_step (delta dst : Z) : Prop :=
  (delta = 9 /\ dst mod 8 <> 0) \/ (delta = 7 /\ dst mod 8 <> 7).

(** Every move the two generators can emit, by the loop that emits it. *)
Inductive gen_move (p : TBoard) : TMove -> Prop :=
| gm_quiet piece sq dst :
    In piece king_to_knight -> 0 <= sq < 64 -> 0 <= dst < 64 ->
    own p piece sq ->
    Z.testbit (BBDestinations piece sq (Occupation p)) dst = true ->
    vacant p dst ->
    gen_move p (mkMove piece sq dst EMPTY)
| gm_capture piece sq dst :
    In piece king_to_knight -> 0 <= sq < 64 -> 0 <= dst < 64 ->
    own p piece sq ->
    Z.testbit (BBDestinations piece sq (Occupation p)) dst = true ->
    enemy p dst ->
    gen_move p (mkMove (Z.lor piece CAPTURE) sq dst EMPTY)
| gm_push1 dst :
    8 <= dst < 56 -> own p PAWN (dst - 8) -> vacant p dst ->
    gen_move p (mkMove PAWN (dst - 8) dst EMPTY)
| gm_push2 dst :
    24 <= dst < 32 -> own p PAWN (dst - 16) -> vacant p (dst - 8) ->
    vacant p dst ->
    gen_move p (mkMove PAWN (dst - 16) dst EMPTY)
| gm_long :
    CastleLM p <> 0 -> Z.land (Occupation p) 0x0E = 0 ->
    castle_long_ok p (Occupation p) (Z.lxor (Occupation p) (PM p)) = true ->
    gen_move p (mkMove (Z.lor KING CASTLE) 4 2 EMPTY)
| gm_short :
    CastleSM p <> 0 -> Z.land (Occupation p) 0x60 = 0 ->
    castle_short_ok p (Occupation p) (Z.lxor (Occupation p) (PM p)) = true ->
    gen_move p (mkMove (Z.lor KING CASTLE) 4 6 EMPTY)
| gm_pawn_capture delta dst :
    capture_step delta dst -> delta <= dst < 56 ->
    own p PAWN (dst - delta) -> enemy p dst ->
    gen_move p (mkMove (Z.lor PAWN CAPTURE) (dst - delta) dst EMPTY)
| gm_promo_capture delta dst prom :
    capture_step delta dst -> 56 <= dst < 64 ->
    own p PAWN (dst - delta) -> enemy p dst -> In prom promotion_pieces ->
    gen_move p (mkMove (Z.lor (Z.lor PAWN PROMO) CAPTURE) (dst - delta) dst prom)
| gm_promo_push dst prom :
    56 <= dst < 64 -> own p PAWN (dst - 8) -> vacant p dst ->
    In prom promotion_pieces ->
    gen_move p (mkMove (Z.lor PAWN PROMO) (dst - 8) dst prom)
| gm_ep sq :
    0 <= EnPassant p < 8 -> 0 <= sq < 64 -> own p PAWN sq ->
    Z.testbit (EnPassantG (EnPassant p)) sq = true ->
    gen_move p (mkMove (Z.lor (Z.lor PAWN EP) CAPTURE) sq (40 + EnPassant p) EMPTY).

(** What the legality filter relies on in a generated move. *)
Record move_shape (p : TBoard) (m : TMove) : Prop := {
  ms_from : 0 <= From m < 64;
  ms_to : 0 <= To m < 64;
  ms_kind : 1 <= Z.land (MoveType m) 7 <= 6;
  ms_own : own p (Z.land (MoveType m) 7) (From m);
  ms_dest : Z.testbit (PM p) (To m) = false;
  ms_ep : Z.land (MoveType m) EP <> 0 ->
          40 <= To m < 48 /\ Z.land (MoveType m) 7 = PAWN
          /\ vacant p (To m) /\ Piece p (To m - 8) = PAWN
          /\ Z.testbit (PM p) (To m - 8) = false
}.

(** The attacker union of [Illegal], before it is cut down to the
    opponent's pieces. *)
Definition attackers (p : TBoard) (kingsq king newoccupation : Z) : Z :=
  Z.lor (Z.lor (Z.lor (Z.lor
     (Z.land (KnightDest kingsq) (Knights p))
     (Z.land (GenRook kingsq newoccupation) (Z.lor (Rooks p) (Queens p))))
     (Z.land (GenBishop kingsq newoccupation) (Z.lor (Bishops p) (Queens p))))
     (Z.land (pawn_attackers king) (Pawns p)))
     (Z.land (KingDest kingsq) (Kings p)).

(** The square [Illegal] takes for the king after the move. *)
Definition king_after (p : TBoard) (m : TMove) : Z :=
  if Z.land (MoveType m) 0x07 =? KING then To m
  else LSB (Z.land (Kings p) (PM p)).

(** The occupancy [Illegal] computes for the position after the move. *)
Definition occupancy_after (p : TBoard) (m : TMove) : Z :=
  let o := Z.lor (Z.lxor (Occupation p) (shl64 1 (From m))) (shl64 1 (To m)) in
  if (Z.land (MoveType m) 0x07 =? KING) || (Z.land (MoveType m) EP =? 0) then o
  else Z.lxor o (shr64 (shl64 1 (To m)) 8).

(** The opposing pieces [Illegal] computes for the position after the
    move. *)
Definition opposing_after (p : TBoard) (m : TMove) : Z :=
  let o := Z.land (Z.lxor (PM p) (Occupation p)) (not64 (shl64 1 (To m))) in
  if (Z.land (MoveType m) 0x07 =? KING) || (Z.land (MoveType m) EP =? 0) then o
  else Z.lxor o (shr64 (shl64 1 (To m)) 8).

(** ** The board after Make

    What the rules say a move does to the board, square by square, to be
    compared with what [Make] does to the bitboards. *)

Definition is_capture (m : TMove) : bool := negb (Z.land (MoveType m) CAPTURE =? 0).
Definition is_promo (m : TMove) : bool := negb (Z.land (MoveType m) PROMO =? 0).
Definition is_castle (m : TMove) : bool := negb (Z.land (MoveType m) CASTLE =? 0).

(** The rook of a castling move stands on its corner and lands beside
    the king. *)
Definition rook_home (m : TMove) : Z := if To m =? 6 then 7 else 0.
Definition rook_castled (m : TMove) : Z := if To m =? 6 then 5 else 3.

(** [spec_after] with the two things the legality filter need not look
    at: the castling rook goes over the king, and a promoting pawn turns
    into the piece chosen. *)
Definition after_move (p : TBoard) (m : TMove) : board :=
  fun s =>
    if is_castle m && (s =? rook_castled m) then (ROOK, true)
    else if is_castle m && (s =? rook_home m) then (EMPTY, false)
    else if is_promo m && (s =? To m) then (Prom m, true)
    else spec_after p m s.

(** The same board seen by the other side: ranks mirrored, and every
    piece changes hands. *)
Definition turn_board (b : board) : board :=
  fun s => let '(c, mine) := b (OppSq s) in (c, xorb mine (negb (c =? EMPTY))).

(** [Make] up to, and without, its final [ChangeSide]. *)
Definition moved (move : TMove) (p : TBoard) : TBoard :=
  let part := shl64 1 (From move) in
  let dest := shl64 1 (To move) in
  let piece := Z.land (MoveType move) 0x07 in
  if piece =? PAWN then MakePawn move part dest p
  else if piece =? KING then MakeKing move part dest p
  else MakePiece move part dest p.

(** What [Make] relies on in the flags of a generated move. *)
Record move_flags (p : TBoard) (m : TMove) : Prop := {
  mf_quiet : is_capture m = false -> vacant p (To m);
  mf_prom : 0 <= Prom m < 8;
  mf_promo : is_promo m = true ->
             Z.land (MoveType m) 7 = PAWN /\ 56 <= To m
             /\ In (Prom m) promotion_pieces;
  mf_plain : is_promo m = false -> Z.land (MoveType m) 7 = PAWN -> To m < 56;
  mf_castle : is_castle m = true ->
              Z.land (MoveType m) 7 = KING /\ is_capture m = false /\ From m = 4
              /\ ((To m = 6 /\ own p ROOK 7 /\ vacant p 5)
                  \/ (To m = 2 /\ own p ROOK 0 /\ vacant p 3 /\ vacant p 1));
  mf_double : Z.land (MoveType m) 7 = PAWN -> To m = From m + 16 ->
              24 <= To m < 32 /\ vacant p (To m - 8)
}.

(** Mirroring the ranks turns a ray into the ray of the mirrored
    direction. *)
Definition ray_turns (t : Z) : bool :=
  forallb (fun '(df, dr) =>
             list_eqb (ray (OppSq t) df (- dr)) (map OppSq (ray t df dr)))
          directions.

(** The king of the side [mover] stands on [k] and nowhere else. *)
Definition king_at (b : board) (mover : bool) (k : Z) : Prop :=
  0 <= k < 64
  /\ forall s, 0 <= s < 64 ->
       (fst (b s) =? KING) && Bool.eqb (snd (b s)) mover = true <-> s = k.

(** The rays from the castled king [k], when the rook has gone from [h]
    to [a]: each either starts on the rook or stays clear of both
    squares, its last square apart. *)
Definition castle_rays_ok (k a h : Z) : bool :=
  forallb (fun '(df, dr) =>
             let r := ray k df dr in
             match r with x :: _ => x =? a | [] => false end
             || forallb (fun s => (0 <=? s) && (s <? 64)
                                  && negb (s =? a) && negb (s =? h))
                        (removelast r))
          directions.

(** ** Castling

    The castling tests of [GenerateQuiets], cut into the parts that are
    compared with the rule one by one. *)

(** [ExtractLSB] over a ray that climbs the board picks its first
    occupied square: the exhaustive check over the occupancies of the
    ray. *)
Definition ray_first_ok (l : list Z) : bool :=
  forallb (fun x =>
    forallb (fun t =>
      Bool.eqb (Z.testbit (ExtractLSB x) t)
               (Z.testbit x t && existsb (Z.eqb t) (upto_blocker x l)))
      squares)
    (subsets l).

(** The same for the squares left of the king on the first rank, which
    [castle_short_ok] scans with [MSB] over a sentinel on a1. *)
Definition rank_left_ok : bool :=
  forallb (fun x =>
    forallb (fun t =>
      let D := Z.testbit (shl64 1 (MSB (Z.land 0x0F (Z.lor x 1)))) t in
      let R := existsb (Z.eqb t) (upto_blocker x [3; 2; 1; 0]) in
      Bool.eqb D ((t <? 4) && D) && Bool.eqb R ((t <? 4) && R)
      && Bool.eqb (Z.testbit x t && D) (Z.testbit x t && R))
      squares)
    (subsets [0; 1; 2; 3]).

(** The lines [castle_short_ok] scans for rooks and queens, and for
    bishops and queens. *)
Definition short_rook_lines (occupation : Z) : Z :=
  let roo := ExtractLSB (Z.land 0x1010101010101000 occupation) in
  let roo := Z.lor roo (ExtractLSB (Z.land 0x2020202020202000 occupation)) in
  let roo := Z.lor roo (ExtractLSB (Z.land 0x4040404040404000 occupation)) in
  Z.lor roo (shl64 1 (MSB (Z.land 0x000000000000000F (Z.lor occupation 0x1)))).

Definition short_bishop_lines (occupation : Z) : Z :=
  let bis := ExtractLSB (Z.land 0x0000000102040800 occupation) in
  let bis := Z.lor bis (ExtractLSB (Z.land 0x0000010204081000 occupation)) in
  let bis := Z.lor bis (ExtractLSB (Z.land 0x0001020408102000 occupation)) in
  let bis := Z.lor bis (ExtractLSB (Z.land 0x0000000080402000 occupation)) in
  let bis := Z.lor bis (ExtractLSB (Z.land 0x0000000000804000 occupation)) in
  Z.lor bis 0x0000000000008000.

Definition long_rook_lines (occupation : Z) : Z :=
  let roo := ExtractLSB (Z.land 0x1010101010101000 occupation) in
  let roo := Z.lor roo (ExtractLSB (Z.land 0x0808080808080800 occupation)) in
  let roo := Z.lor roo (ExtractLSB (Z.land 0x0404040404040400 occupation)) in
  Z.lor roo (ExtractLSB (Z.land 0x00000000000000E0 occupation)).

Definition long_bishop_lines (occupation : Z) : Z :=
  let bis := ExtractLSB (Z.land 0x0000000102040800 occupation) in
  let bis := Z.lor bis (ExtractLSB (Z.land 0x0000000001020400 occupation)) in
  let bis := Z.lor bis (ExtractLSB (Z.land 0x0000000000010200 occupation)) in
  let bis := Z.lor bis (ExtractLSB (Z.land 0x0000000080402000 occupation)) in
  let bis := Z.lor bis (ExtractLSB (Z.land 0x0000008040201000 occupation)) in
  Z.lor bis (ExtractLSB (Z.land 0x0000804020100800 occupation)).

(** The pieces [castle_short_ok] and [castle_long_ok] find, before they
    are cut down to the opponent's. *)
Definition castle_attackers (p : TBoard) (roo bis knights pawns kings : Z) : Z :=
  Z.lor (Z.lor (Z.lor (Z.lor
    (Z.land roo (Z.lor (Rooks p) (Queens p)))
    (Z.land bis (Z.lor (Bishops p) (Queens p))))
    (Z.land knights (Knights p)))
    (Z.land pawns (Pawns p)))
    (Z.land (Kings p) kings).

Definition castle_short : TMove := mkMove (Z.lor KING CASTLE) 4 6 EMPTY.
Definition castle_long : TMove := mkMove (Z.lor KING CASTLE) 4 2 EMPTY.

(** An en-passant file over an occupied square: the board and the kings
    are in order, the en-passant field is not. *)
Definition fen_en_passant_occupied : string :=
  "4k3/8/4p3/3P4/8/8/8/4K3 w - e6 0 1".

(** Kings side by side, the mover's with the right to castle short: the
    encoding invariants hold, yet no game reaches this. *)
Definition fen_kings_adjacent : string := "8/8/8/8/8/8/3k4/4K2R w K - 0 1".

(** ** Games

    A position of a game is one reached from the root by moves that the
    generators offer and the legality filter lets through, each played by
    [Make]. *)
Inductive reachable (root : TBoard) : TBoard -> Prop :=
| reach_root : reachable root root
| reach_make p m :
    reachable root p ->
    In m (GenerateCapture p ++ GenerateQuiets p) ->
    legal p m = true ->
    reachable root (MakeBoard m p).

(** A move in coordinate notation, as [MoveToStr] prints it: origin and
    destination squares from White's side of the board and the promotion
    piece, 0 when there is none. *)
Definition parse_square (f r : ascii) : Z :=
  (code f - code "a") + 8 * (code r - code "1").

Definition parse_promotion (s : list ascii) : Z :=
  match s with
  | c :: _ =>
      if code c =? code "q" then QUEEN
      else if code c =? code "r" then ROOK
      else if code c =? code "b" then BISHOP
      else if code c =? code "n" then KNIGHT
      else EMPTY
  | [] => EMPTY
  end.

Definition parse_move (s : string) : Z * Z * Z :=
  match list_ascii_of_string s with
  | f1 :: r1 :: f2 :: r2 :: rest =>
      (parse_square f1 r1, parse_square f2 r2, parse_promotion rest)
  | _ => (0, 0, 0)
  end.

Definition AbsSq (sq col : Z) : Z := if col =? WHITE then sq else OppSq sq.

(** The legal move of [p] that goes between the two given squares. *)
Definition find_move (p : TBoard) (mv : Z * Z * Z) : option TMove :=
  let '(from, to, prom) := mv in
  List.find (fun m => (From m =? AbsSq from (STM p)) && (To m =? AbsSq to (STM p))
                      && (Prom m =? prom))
            (legal_moves p).

Fixpoint play (p : TBoard) (game : list string) : option TBoard :=
  match game with
  | [] => Some p
  | s :: rest =>
      match find_move p (parse_move s) with
      | Some m => play (MakeBoard m p) rest
      | None => None
      end
  end.

(** A game of 44 moves a side in which White takes four pawns with
    pieces and brings four of its own to the seventh rank. *)
Definition long_game : list string :=
  ([ "g1f3"; "e7e5";  "f3e5"; "e8e7";  "e5f3"; "e7f6";  "b1a3"; "g7g6";
    "a3c4"; "f6g7";  "e2e3"; "h7h5";  "f1d3"; "g7h6";  "d3g6"; "a7a5";
    "c4a5"; "c7c5";  "b2b3"; "b7b5";  "c1a3"; "c8b7";  "a3c5"; "b7e4";
    "g6h7"; "e4f5";  "g2g4"; "b5b4";  "g4g5"; "h6g7";  "g5g6"; "g7h6";
    "g6g7"; "a8a6";  "h7g6"; "a6d6";  "c5d4"; "d8e8";  "c2c4"; "e8d8";
    "c4c5"; "d8e8";  "c5c6"; "e8d8";  "c6c7"; "d8e8";  "a5c6"; "e8d8";
    "a2a4"; "d8e8";  "a4a5"; "e8d8";  "a5a6"; "d8e8";  "a6a7"; "e8d8";
    "e3e4"; "g8f6";  "e4e5"; "f6d5";  "e5e6"; "d8e8";  "e6e7"; "e8d8";
    "d4e5"; "h8g8";  "d1e2"; "g8h8";  "e2e4"; "h8g8";  "e1e2"; "g8h8";
    "a1c1"; "d5f4";  "e2e3"; "d6d4";  "c1c4"; "h8g8";  "h1g1"; "g8h8";
    "g1g4"; "h8g8";  "g4h4"; "g8h8";  "f3g5"; "h8g8";  "g5e6"; "g8h8" ])%string.

(** The position the game ends in, White to move. *)
Definition crowded_fen : string :=
  "1n1q1b1r/P1PpPpP1/2N1N1Bk/4Bb1p/1pRrQn1R/1P2K3/3P1P1P/8 w - - 0 45".

(** ** What Perft counts

    Not from the C file: the number of games of [depth] legal moves that
    start in [p], which is what a perft is meant to count. *)

Definition Zsum (l : list Z) : Z := fold_right Z.add 0 l.

Fixpoint games (depth : nat) (p : TBoard) : Z :=
  match depth with
  | O => 1
  | S d => Zsum (map (fun m => games d (MakeBoard m p)) (legal_moves p))
  end.

(** The moves generated fit the two buffers of [Perft] at every position
    [Perft(depth)] generates moves at. *)
Fixpoint buffers_fit_to (depth : nat) (p : TBoard) : bool :=
  buffers_fit p
  && match depth with
     | S (S d as d') => forallb (fun m => buffers_fit_to d' (MakeBoard m p))
                                (legal_moves p)
     | _ => true
     end.

(** The entries of the stack up to the cursor, and the cursor itself,
    are the same in the two states. *)
Definition same_below (st st' : State) : Prop :=
  Position st' = Position st
  /\ length (Game st') = length (Game st)
  /\ take (S (Position st)) (Game st') = take (S (Position st)) (Game st).

(** ** MoveToStr *)

(** [const char promo[7] = "\0\0nbrq"]: six characters and the closing
    NUL. *)
Definition promo : list Z := [0; 0; code "n"; code "b"; code "r"; code "q"; 0].

(** [MoveToStr(strmove, move, tomove)]: the six bytes written to
    [strmove].  Reading [promo] past its seven bytes is undefined in C
    and [None] here. *)
Definition MoveToStr (move : TMove) (tomove : Z) : option (list Z) :=
  match promo !! Z.to_nat (Prom move) with
  | Some c =>
      Some [ wrap8 (code "a" + AbsSq (From move) tomove mod 8);
             wrap8 (code "1" + AbsSq (From move) tomove / 8);
             wrap8 (code "a" + AbsSq (To move) tomove mod 8);
             wrap8 (code "1" + AbsSq (To move) tomove / 8);
             c;
             0 ]
  | None => None
  end.

(** The C string a buffer holds: its bytes up to the first NUL. *)
Fixpoint c_string (bytes : list Z) : string :=
  match bytes with
  | [] => EmptyString
  | b :: rest =>
      if b =? 0 then EmptyString
      else String (ascii_of_N (Z.to_N b)) (c_string rest)
  end.

(** The check of [MoveToStr] against [parse_move] for one pair of
    squares, every promotion piece and both sides. *)
Definition move_text_ok (from to : Z) : bool :=
  forallb (fun prom =>
    forallb (fun tomove =>
      match MoveToStr (mkMove PAWN from to prom) tomove with
      | Some bytes =>
          let '(f, t, c) := parse_move (c_string bytes) in
          (f =? AbsSq from tomove) && (t =? AbsSq to tomove) && (c =? prom)
          && Nat.eqb (String.length (c_string bytes))
                     (if prom =? EMPTY then 4%nat else 5%nat)
      | None => false
      end) [WHITE; BLACK])
    (EMPTY :: promotion_pieces).

(** ** The moves of the rules

    Not from the C file: the moves the rules of chess give the side to
    move, the safety of its own king after the move left aside, each
    with the move type the program gives it.  Squares are seen from the
    side to move, which advances up the board. *)
Inductive pseudo_legal (p : TBoard) : TMove -> Prop :=
| pl_piece c from to :
    KNIGHT <= c <= KING -> 0 <= from < 64 -> 0 <= to < 64 ->
    own p c from -> attack_of c true (Occupation p) from to = true ->
    vacant p to ->
    pseudo_legal p (mkMove c from to EMPTY)
| pl_piece_takes c from to :
    KNIGHT <= c <= KING -> 0 <= from < 64 -> 0 <= to < 64 ->
    own p c from -> attack_of c true (Occupation p) from to = true ->
    enemy p to ->
    pseudo_legal p (mkMove (Z.lor c CAPTURE) from to EMPTY)
| pl_push from :
    0 <= from < 48 -> own p PAWN from -> vacant p (from + 8) ->
    pseudo_legal p (mkMove PAWN from (from + 8) EMPTY)
| pl_double from :
    rank_of from = 1 -> own p PAWN from ->
    vacant p (from + 8) -> vacant p (from + 16) ->
    pseudo_legal p (mkMove PAWN from (from + 16) EMPTY)
| pl_pawn_takes from to :
    0 <= from < 64 -> 0 <= to < 56 -> own p PAWN from ->
    pawn_step true from to = true -> enemy p to ->
    pseudo_legal p (mkMove (Z.lor PAWN CAPTURE) from to EMPTY)
| pl_promotes from prom :
    rank_of from = 6 -> own p PAWN from -> vacant p (from + 8) ->
    In prom promotion_pieces ->
    pseudo_legal p (mkMove (Z.lor PAWN PROMO) from (from + 8) prom)
| pl_promotes_taking from to prom :
    0 <= from < 64 -> 56 <= to < 64 -> own p PAWN from ->
    pawn_step true from to = true -> enemy p to ->
    In prom promotion_pieces ->
    pseudo_legal p (mkMove (Z.lor (Z.lor PAWN PROMO) CAPTURE) from to prom)
| pl_en_passant from :
    0 <= EnPassant p < 8 -> rank_of from = 4 ->
    Z.abs (file_of from - EnPassant p) = 1 -> own p PAWN from ->
    pseudo_legal p (mkMove (Z.lor (Z.lor PAWN EP) CAPTURE) from
                           (40 + EnPassant p) EMPTY)
| pl_castle_short :
    CastleSM p <> 0 -> (forall s, In s [5; 6] -> vacant p s) ->
    (forall s, In s [4; 5; 6] -> attacked_by (board_of p) false s = false) ->
    pseudo_legal p castle_short
| pl_castle_long :
    CastleLM p <> 0 -> (forall s, In s [1; 2; 3] -> vacant p s) ->
    (forall s, In s [4; 3; 2] -> attacked_by (board_of p) false s = false) ->
    pseudo_legal p castle_long.

(** ** The text of a position

    Not from the C file: the fields of a FEN record that [LoadPosition]
    reads, as data, and the text that stands for them. *)

(** One item of the board field: a digit for [n] empty squares, a piece
    letter, or the stroke between two ranks. *)
Inductive fen_item : Type :=
| Skip (n : Z)
| Put (c : Z) (white : bool)
| Slash.

Definition piece_letter (c : Z) (white : bool) : ascii :=
  nth (Z.to_nat c)
      (list_ascii_of_string (if white then " PNBRQK" else " pnbrqk")) " "%char.

Definition item_char (i : fen_item) : ascii :=
  match i with
  | Skip n => ascii_of_N (Z.to_N (code "0" + n))
  | Put c white => piece_letter c white
  | Slash => "/"%char
  end.

(** The squares an item stands for, in the order of the text, which
    runs from a8 to h8, then a7 to h7, down to h1: the piece code and
    whether the piece is White's. *)
Definition item_squares (i : fen_item) : list (Z * bool) :=
  match i with
  | Skip n => repeat (EMPTY, false) (Z.to_nat n)
  | Put c white => [(c, white)]
  | Slash => []
  end.

Definition item_ok (i : fen_item) : bool :=
  match i with
  | Skip n => (1 <=? n) && (n <=? 8)
  | Put c _ => (PAWN <=? c) && (c <=? KING)
  | Slash => true
  end.

Definition castle_letters : list ascii := ["K"; "Q"; "k"; "q"]%char.

(** The text of a record: the board, the side to move, the castling
    rights ([-] when there are none), the en-passant square of which
    only the file letter is read ([-] when there is none), and whatever
    follows. *)
Definition fen_text (items : list fen_item) (white : bool) (rights : list ascii)
  (ep : option Z) (tail : list ascii) : string :=
  string_of_list_ascii
    (map item_char items
     ++ " "%char :: (if white then "w" else "b")%char :: " "%char
     :: (match rights with [] => ["-"%char] | _ => rights end)
     ++ " "%char
     :: (match ep with
         | None => "-"%char
         | Some f => ascii_of_N (Z.to_N (code "a" + f))
         end) :: tail).

(** What a piece letter does to the board in [LoadPosition]: the three
    planes take the bits of the piece code, and [PM] the square of a
    white piece. *)
Definition place (c : Z) (white : bool) (pos : Z) (p : TBoard) : TBoard :=
  let p := set_P0 (Z.lor (P0 p) (shl64 (Z.land c 1) pos)) p in
  let p := set_P1 (Z.lor (P1 p) (shl64 (Z.land (Z.shiftr c 1) 1) pos)) p in
  let p := set_P2 (Z.lor (P2 p) (shl64 (Z.shiftr c 2) pos)) p in
  if white then set_PM (Z.lor (PM p) (shl64 1 pos)) p else p.

(** The four bitboards of a position are 64-bit values. *)
Definition planes64 (p : TBoard) : Prop :=
  is64 (PM p) /\ is64 (P0 p) /\ is64 (P1 p) /\ is64 (P2 p).

(** * Properties *)

(** ** Bits of 64-bit values *)

Lemma mask64_ones : mask64 = Z.ones 64.
Proof. reflexivity. Qed.

Lemma testbit_wrap64 x i : Z.testbit (wrap64 x) i = Z.testbit x i && (i <? 64).
Proof.
  unfold wrap64. rewrite mask64_ones, Z.land_spec.
  destruct (Z.ltb_spec i 64) as [Hlt|Hge].
  - destruct (Z.neg_nonneg_cases i) as [Hn|Hn].
    + now rewrite !Z.testbit_neg_r by lia.
    + now rewrite Z.ones_spec_low by lia.
  - now rewrite Z.ones_spec_high by lia.
Qed.

Lemma testbit_shl64 a n i :
  0 <= n -> Z.testbit (shl64 a n) i = Z.testbit a (i - n) && (i <? 64).
Proof.
  intros Hn. unfold shl64. rewrite testbit_wrap64.
  destruct (Z.neg_nonneg_cases i) as [Hi|Hi].
  - now rewrite !Z.testbit_neg_r by lia.
  - now rewrite Z.shiftl_spec by lia.
Qed.

Lemma testbit_shr64 a n i :
  0 <= i -> Z.testbit (shr64 a n) i = Z.testbit a (i + n).
Proof. intros Hi. unfold shr64. now rewrite Z.shiftr_spec. Qed.

Lemma testbit_not64 a i :
  0 <= i -> Z.testbit (not64 a) i = xorb (Z.testbit a i) (i <? 64).
Proof.
  intros Hi. unfold not64. rewrite mask64_ones, Z.lxor_spec.
  destruct (Z.ltb_spec i 64).
  - now rewrite Z.ones_spec_low by lia.
  - now rewrite Z.ones_spec_high by lia.
Qed.

Lemma is64_high x i : is64 x -> 64 <= i -> Z.testbit x i = false.
Proof.
  intros [H0 H1] Hi.
  destruct (Z.eq_dec x 0) as [->|Hx]; [apply Z.testbit_0_l|].
  apply Z.bits_above_log2; [lia|].
  assert (Z.log2 x < 64) by (apply Z.log2_lt_pow2; lia). lia.
Qed.

Lemma is64_of_bits x :
  0 <= x -> (forall i, 64 <= i -> Z.testbit x i = false) -> is64 x.
Proof.
  intros H0 Hb. split; [exact H0|].
  destruct (Z.eq_dec x 0) as [->|Hx]; [reflexivity|].
  apply Z.log2_lt_pow2; [lia|].
  destruct (Z.lt_ge_cases (Z.log2 x) 64) as [|Hge]; [assumption|].
  specialize (Hb _ Hge). rewrite Z.bit_log2 in Hb by lia. discriminate.
Qed.

Lemma is64_wrap64 x : is64 (wrap64 x).
Proof.
  unfold wrap64. apply is64_of_bits.
  - apply Z.land_nonneg. right. unfold mask64. lia.
  - intros i Hi. fold (wrap64 x). rewrite testbit_wrap64.
    destruct (Z.ltb_spec i 64); [lia|apply andb_false_r].
Qed.

Lemma eq64 a b :
  is64 a -> is64 b ->
  (forall i, 0 <= i < 64 -> Z.testbit a i = Z.testbit b i) -> a = b.
Proof.
  intros Ha Hb H. apply Z.bits_inj'. intros i Hi.
  destruct (Z.lt_ge_cases i 64).
  - apply H. lia.
  - now rewrite !is64_high.
Qed.

Lemma in_squares i : 0 <= i < 64 -> In i squares.
Proof.
  intros Hi. unfold squares. apply in_map_iff. exists (Z.to_nat i).
  split; [lia|]. apply in_seq. lia.
Qed.

Lemma forall_squares (P : Z -> Prop) :
  Forall P squares -> forall i, 0 <= i < 64 -> P i.
Proof.
  intros H i Hi. rewrite List.Forall_forall in H. apply H, in_squares, Hi.
Qed.

Lemma bswap64_spec x i :
  0 <= i < 64 -> Z.testbit (bswap64 x) i = Z.testbit x (Z.lxor i 56).
Proof.
  revert i. apply forall_squares. unfold bswap64.
  repeat constructor;
    rewrite ?Z.lor_spec, ?Z.land_spec, ?testbit_shl64, ?testbit_shr64,
      ?Z.land_spec by lia;
    generalize (Z.testbit x); intros f; vm_compute;
    repeat match goal with |- context [f ?k] => destruct (f k) end; reflexivity.
Qed.

Lemma check_below (n : nat) (f : Z -> bool) :
  forallb f (map Z.of_nat (seq 0 n)) = true ->
  forall i, 0 <= i < Z.of_nat n -> f i = true.
Proof.
  intros H i Hi. rewrite forallb_forall in H. apply H.
  apply in_map_iff. exists (Z.to_nat i). split; [lia|]. apply in_seq. lia.
Qed.

Lemma check_squares (f : Z -> bool) :
  forallb f squares = true -> forall i, 0 <= i < 64 -> f i = true.
Proof. apply (check_below 64). Qed.

Lemma is64_lor a b : is64 a -> is64 b -> is64 (Z.lor a b).
Proof.
  intros Ha Hb. apply is64_of_bits.
  - apply Z.lor_nonneg. unfold is64 in *. lia.
  - intros i Hi. now rewrite Z.lor_spec, !is64_high.
Qed.

Lemma is64_lxor a b : is64 a -> is64 b -> is64 (Z.lxor a b).
Proof.
  intros Ha Hb. apply is64_of_bits.
  - apply Z.lxor_nonneg. unfold is64 in *. lia.
  - intros i Hi. now rewrite Z.lxor_spec, !is64_high.
Qed.

Lemma is64_land_l a b : is64 a -> is64 (Z.land a b).
Proof.
  intros Ha. apply is64_of_bits.
  - apply Z.land_nonneg. unfold is64 in *. lia.
  - intros i Hi. now rewrite Z.land_spec, is64_high.
Qed.

Lemma is64_land_r a b : is64 b -> is64 (Z.land a b).
Proof.
  intros Hb. apply is64_of_bits.
  - apply Z.land_nonneg. unfold is64 in *. lia.
  - intros i Hi. rewrite Z.land_spec, (is64_high b) by assumption.
    apply andb_false_r.
Qed.

Lemma is64_shl64 a n : is64 (shl64 a n).
Proof. apply is64_wrap64. Qed.

Lemma is64_bswap64 x : is64 (bswap64 x).
Proof.
  unfold bswap64.
  repeat apply is64_lor; try apply is64_shl64; apply is64_land_r; vm_compute;
    split; congruence.
Qed.

Lemma flip_index_range i : 0 <= i < 64 -> 0 <= Z.lxor i 56 < 64.
Proof.
  intros Hi.
  assert (H : (0 <=? Z.lxor i 56) && (Z.lxor i 56 <? 64) = true).
  { revert i Hi. apply check_squares. vm_compute. reflexivity. }
  apply andb_true_iff in H. destruct H as [H1 H2]. lia.
Qed.

Lemma flip_index_invol i : Z.lxor (Z.lxor i 56) 56 = i.
Proof. now rewrite Z.lxor_assoc, Z.lxor_nilpotent, Z.lxor_0_r. Qed.

Lemma RevBB_involutive x : is64 x -> RevBB (RevBB x) = x.
Proof.
  intros Hx. unfold RevBB. apply eq64; [apply is64_bswap64|assumption|].
  intros i Hi.
  rewrite bswap64_spec, bswap64_spec, flip_index_invol;
    auto using flip_index_range.
Qed.

Lemma RevBB_lxor a b : RevBB (Z.lxor a b) = Z.lxor (RevBB a) (RevBB b).
Proof.
  unfold RevBB. apply eq64; [apply is64_bswap64|apply is64_lxor; apply is64_bswap64|].
  intros i Hi. now rewrite Z.lxor_spec, !bswap64_spec, Z.lxor_spec.
Qed.

Lemma RevBB_lor a b : RevBB (Z.lor a b) = Z.lor (RevBB a) (RevBB b).
Proof.
  unfold RevBB. apply eq64; [apply is64_bswap64|apply is64_lor; apply is64_bswap64|].
  intros i Hi. now rewrite Z.lor_spec, !bswap64_spec, Z.lor_spec.
Qed.

Lemma RevBB_land a b : RevBB (Z.land a b) = Z.land (RevBB a) (RevBB b).
Proof.
  unfold RevBB. apply eq64; [apply is64_bswap64|apply is64_land_r; apply is64_bswap64|].
  intros i Hi. now rewrite Z.land_spec, !bswap64_spec, Z.land_spec.
Qed.

Lemma roll_involutive c : 0 <= c < 256 -> roll (roll c) = c.
Proof.
  intros Hc. apply Z.eqb_eq.
  revert c Hc. apply (check_below 256 (fun c => roll (roll c) =? c)).
  vm_compute. reflexivity.
Qed.

(** C8: the side change is an involution.  For every position whose
    fields fit their C types (64-bit bitboards, 8-bit flags), changing
    side twice gives back the same PM, P0, P1, P2, CastleFlags, EnPassant
    and STM. *)
Theorem ChangeSide_involutive (p : TBoard) :
  valid_fields p -> ChangeSide (ChangeSide p) = p.
Proof.
  destruct p as [pm p0 p1 p2 cf ep stm].
  intros (Hpm & H0 & H1 & H2 & Hcf & _ & _). simpl in *.
  cbv [ChangeSide Occupation set_PM set_P0 set_P1 set_P2 set_CastleFlags
       set_EnPassant set_STM PM P0 P1 P2 CastleFlags EnPassant STM].
  fold (roll cf). fold (roll (roll cf)).
  f_equal.
  - rewrite <- !RevBB_lor, <- RevBB_lxor, RevBB_involutive.
    + now rewrite Z.lxor_assoc, Z.lxor_nilpotent, Z.lxor_0_r.
    + repeat first [apply is64_lxor | apply is64_lor]; assumption.
  - now apply RevBB_involutive.
  - now apply RevBB_involutive.
  - now apply RevBB_involutive.
  - now apply roll_involutive.
  - now rewrite Z.lxor_assoc, Z.lxor_nilpotent, Z.lxor_0_r.
Qed.

(** ** Lowest set bit *)

Lemma ctz_pos_nonneg p : 0 <= ctz_pos p.
Proof. induction p; simpl; lia. Qed.

Lemma testbit_pos_succ (p : positive) (b : bool) i :
  0 < i ->
  Z.testbit (Zpos (if b then xI p else xO p)) i = Z.testbit (Zpos p) (i - 1).
Proof.
  intros Hi. replace i with (Z.succ (i - 1)) at 1 by lia.
  destruct b.
  - change (Zpos p~1) with (2 * Zpos p + 1). apply Z.testbit_odd_succ. lia.
  - change (Zpos p~0) with (2 * Zpos p). apply Z.testbit_even_succ. lia.
Qed.

Lemma ctz_pos_spec p :
  Z.testbit (Zpos p) (ctz_pos p) = true
  /\ forall j, 0 <= j < ctz_pos p -> Z.testbit (Zpos p) j = false.
Proof.
  induction p as [p IH|p [IH1 IH2]|]; simpl ctz_pos.
  - split; [reflexivity|lia].
  - pose proof (ctz_pos_nonneg p). split.
    + rewrite (testbit_pos_succ p false) by lia.
      now replace (Z.succ (ctz_pos p) - 1) with (ctz_pos p) by lia.
    + intros j Hj. destruct (Z.eq_dec j 0) as [->|Hne]; [reflexivity|].
      rewrite (testbit_pos_succ p false) by lia. apply IH2. lia.
  - split; [reflexivity|lia].
Qed.

Lemma clear_lowest_pos p i :
  0 <= i ->
  Z.testbit (Z.land (Zpos p) (Zpos p - 1)) i
  = Z.testbit (Zpos p) i && negb (i =? ctz_pos p).
Proof.
  revert i. induction p as [p IH|p IH|]; intros i Hi; simpl ctz_pos.
  - change (Zpos p~1 - 1) with (Zpos p~0). rewrite Z.land_spec.
    destruct (Z.eq_dec i 0) as [->|Hne]; [reflexivity|].
    rewrite (testbit_pos_succ p true), (testbit_pos_succ p false) by lia.
    destruct (Z.eqb_spec i 0); [lia|]. now destruct (Z.testbit _ _).
  - pose proof (ctz_pos_nonneg p).
    destruct (Z.eq_dec i 0) as [->|Hne].
    + rewrite Z.land_spec. reflexivity.
    + rewrite Z.land_spec.
      replace (Zpos p~0 - 1) with (2 * (Zpos p - 1) + 1) by lia.
      rewrite (testbit_pos_succ p false) by lia.
      replace i with (Z.succ (i - 1)) at 2 by lia.
      rewrite Z.testbit_odd_succ by lia.
      rewrite <- Z.land_spec, IH by lia.
      f_equal. f_equal.
      destruct (Z.eqb_spec (i - 1) (ctz_pos p)), (Z.eqb_spec i (Z.succ (ctz_pos p)));
        lia || reflexivity.
  - simpl. rewrite Z.testbit_0_l.
    destruct (Z.eqb_spec i 0) as [->|Hne]; [reflexivity|].
    change 1 with (Zpos (if true then 1%positive else 1%positive)).
    destruct i; try lia; reflexivity.
Qed.

Lemma LSB_spec bb :
  0 < bb ->
  0 <= LSB bb /\ Z.testbit bb (LSB bb) = true
  /\ forall j, 0 <= j < LSB bb -> Z.testbit bb j = false.
Proof.
  destruct bb as [|p|p]; try lia. intros _. unfold LSB, ctzll.
  pose proof (ctz_pos_spec p) as [H1 H2]. pose proof (ctz_pos_nonneg p). auto.
Qed.

Lemma LSB_lt64 bb : is64 bb -> 0 < bb -> 0 <= LSB bb < 64.
Proof.
  intros Hb Hpos. destruct (LSB_spec bb Hpos) as (H0 & H1 & _).
  split; [assumption|]. destruct (Z.lt_ge_cases (LSB bb) 64); [assumption|].
  rewrite is64_high in H1 by assumption. discriminate.
Qed.

Lemma LSB_unique bb k :
  0 <= bb -> 0 <= k -> Z.testbit bb k = true ->
  (forall j, 0 <= j < k -> Z.testbit bb j = false) -> LSB bb = k.
Proof.
  intros Hnn Hk Hb Hlow.
  assert (Hpos : 0 < bb).
  { destruct (Z.eq_dec bb 0) as [->|]; [now rewrite Z.testbit_0_l in Hb|lia]. }
  destruct (LSB_spec bb Hpos) as (H0 & H1 & H2).
  destruct (Z.lt_trichotomy (LSB bb) k) as [Hlt|[Heq|Hgt]]; [|assumption|].
  - rewrite Hlow in H1 by lia. discriminate.
  - rewrite H2 in Hb by lia. discriminate.
Qed.

Lemma testbit_ClearLSB bb i :
  is64 bb -> 0 <= i ->
  Z.testbit (ClearLSB bb) i = Z.testbit bb i && negb (i =? LSB bb).
Proof.
  intros Hb Hi. unfold ClearLSB. rewrite Z.land_spec, testbit_wrap64.
  destruct (Z.ltb_spec i 64) as [Hlt|Hge].
  - rewrite andb_true_r, <- Z.land_spec.
    destruct bb as [|p|p]; [now rewrite Z.land_0_l, !Z.testbit_0_l| |destruct Hb; lia].
    apply clear_lowest_pos, Hi.
  - now rewrite (is64_high bb).
Qed.

Lemma is64_ClearLSB bb : is64 bb -> is64 (ClearLSB bb).
Proof. intros. apply is64_land_r, is64_wrap64. Qed.

Lemma in_scan_bits fuel : forall bb s,
  is64 bb ->
  (forall j, 0 <= j < 64 - Z.of_nat fuel -> Z.testbit bb j = false) ->
  In s (scan_bits fuel bb) <-> 0 <= s /\ Z.testbit bb s = true.
Proof.
  induction fuel as [|n IH]; intros bb s Hb Hlow.
  - simpl. split; [tauto|]. intros [Hs Ht].
    destruct (Z.lt_ge_cases s 64).
    + rewrite Hlow in Ht by lia. discriminate.
    + rewrite is64_high in Ht by assumption. discriminate.
  - simpl scan_bits. destruct (Z.eqb_spec bb 0) as [->|Hne].
    + rewrite Z.testbit_0_l. simpl. intuition discriminate.
    + assert (Hpos : 0 < bb) by (destruct Hb; lia).
      destruct (LSB_spec bb Hpos) as (H0 & H1 & H2).
      assert (Hk : 64 - Z.of_nat (S n) <= LSB bb).
      { destruct (Z.lt_ge_cases (LSB bb) (64 - Z.of_nat (S n))); [|assumption].
        rewrite Hlow in H1 by lia. discriminate. }
      simpl In. rewrite IH.
      * split.
        -- intros [<-|[Hs Hr]]; [tauto|]. split; [assumption|].
           rewrite testbit_ClearLSB in Hr by assumption.
           apply andb_true_iff in Hr. tauto.
        -- intros [Hs Ht]. destruct (Z.eq_dec (LSB bb) s) as [|Hd]; [tauto|].
           right. split; [assumption|].
           rewrite testbit_ClearLSB, Ht by assumption.
           destruct (Z.eqb_spec s (LSB bb)); [congruence|reflexivity].
      * now apply is64_ClearLSB.
      * intros j Hj. rewrite testbit_ClearLSB by (assumption || lia).
        destruct (Z.eqb_spec j (LSB bb)); [apply andb_false_r|].
        rewrite andb_true_r. apply H2. lia.
Qed.

Lemma in_for_bits bb s :
  is64 bb -> In s (for_bits bb) <-> 0 <= s /\ Z.testbit bb s = true.
Proof. intros Hb. apply in_scan_bits; [assumption|]. simpl. lia. Qed.

Lemma for_bits_range bb s : is64 bb -> In s (for_bits bb) -> 0 <= s < 64.
Proof.
  intros Hb Hin. apply in_for_bits in Hin; [|assumption]. destruct Hin as [H0 Ht].
  split; [assumption|]. destruct (Z.lt_ge_cases s 64); [assumption|].
  rewrite is64_high in Ht by assumption. discriminate.
Qed.

(** ** The position stack *)

Lemma cur_lookup st : cur st = default zero_board (Game st !! Position st).
Proof. unfold cur. apply nth_lookup. Qed.

(** C7: with the cursor below the last entry of the stack, Make of any
    move followed by the retreat of the cursor succeeds and leaves the
    current position as it was before Make; Make writes the new top
    entry, whose content is [MakeBoard] of the previous one, and no other
    entry of the stack. *)
Theorem Make_then_retreat (st : State) (m : TMove) :
  (S (Position st) < length (Game st))%nat ->
  exists st1 st2,
    Make m st = Some (tt, st1) /\ Unmake st1 = Some (tt, st2)
    /\ Position st1 = S (Position st)
    /\ Position st2 = Position st
    /\ cur st2 = cur st
    /\ cur st1 = MakeBoard m (cur st)
    /\ length (Game st1) = length (Game st)
    /\ forall i, i <> S (Position st) -> Game st1 !! i = Game st !! i.
Proof.
  intros Hlt. unfold Make.
  destruct (Nat.ltb_spec (S (Position st)) (length (Game st))) as [_|]; [|lia].
  eexists _, _. split; [reflexivity|]. split; [reflexivity|]. simpl.
  repeat split.
  - rewrite !cur_lookup. simpl. now rewrite list_lookup_insert_ne by lia.
  - rewrite cur_lookup. simpl. now rewrite list_lookup_insert_eq by lia.
  - apply length_insert.
  - intros i Hi. now apply list_lookup_insert_ne.
Qed.

Lemma Make_then_retreat_witness :
  exists st1 st2,
    Make (mkMove PAWN 12 28 EMPTY) initial_state = Some (tt, st1)
    /\ Unmake st1 = Some (tt, st2)
    /\ Position st1 = S (Position initial_state)
    /\ Position st2 = Position initial_state
    /\ cur st2 = cur initial_state
    /\ cur st1 = MakeBoard (mkMove PAWN 12 28 EMPTY) (cur initial_state)
    /\ length (Game st1) = length (Game initial_state)
    /\ forall i, i <> S (Position initial_state) ->
                 Game st1 !! i = Game initial_state !! i.
Proof. apply Make_then_retreat. simpl. lia. Defined.

(** ** Perft at depth 0 and 1 *)

Lemma add64_in_range tot n st :
  INT64_MIN <= tot + n <= INT64_MAX -> add64 tot n st = Some (tot + n, st).
Proof.
  intros H. unfold add64.
  destruct (Z.leb_spec INT64_MIN (tot + n)); [|lia].
  destruct (Z.leb_spec (tot + n) INT64_MAX); [reflexivity|lia].
Qed.

Lemma fill_fits size moves st :
  (length moves <= size)%nat -> fill size moves st = Some (moves, st).
Proof.
  intros H. unfold fill.
  destruct (Nat.leb_spec (length moves) size); [reflexivity|lia].
Qed.

Lemma buffers_fit_lengths p :
  buffers_fit p = true ->
  (length (GenerateCapture p) <= 64)%nat /\ (length (GenerateQuiets p) <= 256)%nat.
Proof.
  unfold buffers_fit, CAPTURE_SIZE, QUIETS_SIZE. intros H.
  apply andb_true_iff in H. destruct H as [H1 H2].
  apply Nat.leb_le in H1, H2. split; assumption.
Qed.

Lemma perft_loop_count moves : forall tot st,
  0 <= tot -> tot + Z.of_nat (length moves) <= INT64_MAX ->
  perft_loop None moves tot st
  = Some (tot + Z.of_nat (length (List.filter (legal (cur st)) moves)), st).
Proof.
  induction moves as [|m rest IH]; intros tot st H0 Hmax.
  - cbn [perft_loop List.filter length]. unfold ret. now rewrite Z.add_0_r.
  - cbn [length] in Hmax. rewrite Nat2Z.inj_succ in Hmax.
    cbn [perft_loop List.filter]. unfold legal at 1.
    destruct (Illegal (cur st) m =? 0); cbn [negb].
    + unfold bind. rewrite add64_in_range by (unfold INT64_MIN; lia).
      rewrite IH by lia. cbn [length]. rewrite Nat2Z.inj_succ.
      do 2 f_equal. lia.
    + apply IH; lia.
Qed.

Lemma filter_rev_length {A} (f : A -> bool) (l : list A) :
  length (List.filter f (rev l)) = length (List.filter f l).
Proof.
  induction l as [|a l IH]; [reflexivity|]. simpl.
  rewrite List.filter_app, length_app, IH. simpl.
  destruct (f a); simpl; lia.
Qed.

Lemma PerftN_count (d : nat) (st : State) :
  (d <= 1)%nat ->
  buffers_fit (cur st) = true ->
  PerftN d st = Some (Z.of_nat (length (legal_moves (cur st))), st).
Proof.
  intros Hd Hfit. apply buffers_fit_lengths in Hfit. destruct Hfit as [Hc Hq].
  assert (E : PerftN d st
              = (do capture <- fill CAPTURE_SIZE (GenerateCapture (cur st));
                 do tot <- perft_loop None (rev capture) 0;
                 fun st' =>
                   (do quiets <- fill QUIETS_SIZE (GenerateQuiets (cur st'));
                    perft_loop None (rev quiets) tot) st') st).
  { destruct d as [|[|d]]; [reflexivity|reflexivity|lia]. }
  rewrite E. unfold bind.
  rewrite fill_fits by exact Hc.
  rewrite perft_loop_count
    by (rewrite ?length_rev; unfold INT64_MAX; lia).
  rewrite fill_fits by exact Hq.
  rewrite perft_loop_count
    by (rewrite ?length_rev; unfold INT64_MAX;
        pose proof (List.filter_length_le (legal (cur st))
                      (rev (GenerateCapture (cur st)))) as L;
        rewrite length_rev in L; lia).
  rewrite !filter_rev_length.
  unfold legal_moves. rewrite List.filter_app, length_app.
  do 2 f_equal. lia.
Qed.

(** C6, as the code has it: Perft at depth 0 does not return 1.  For
    every position that satisfies the encoding invariants and whose
    generated moves fit the two buffers, it returns what Perft at depth 1
    returns, the number of generated moves that pass the legality
    filter, and leaves the state as it was. *)
Theorem Perft_depth0_counts_moves (st : State) :
  encoding_ok (cur st) = true ->
  buffers_fit (cur st) = true ->
  Perft 0 st = Some (Z.of_nat (length (legal_moves (cur st))), st)
  /\ Perft 0 st = Perft 1 st.
Proof.
  intros _ Hfit. unfold Perft. simpl Z.to_nat.
  rewrite (PerftN_count 0), (PerftN_count (Pos.to_nat 1))
    by (assumption || (simpl; lia)).
  split; reflexivity.
Qed.

Lemma Perft_depth0_counts_moves_witness :
  let st := mkState (<[0%nat := LoadBoard startpos]> (Game initial_state)) 0 in
  Perft 0 st = Some (Z.of_nat (length (legal_moves (cur st))), st)
  /\ Perft 0 st = Perft 1 st.
Proof.
  apply Perft_depth0_counts_moves; vm_compute; reflexivity.
Defined.

(** ** Bitboards of square lists *)

Lemma testbit_bit s i : 0 <= s -> Z.testbit (Z.shiftl 1 s) i = (i =? s).
Proof.
  intros Hs. rewrite Z.shiftl_1_l.
  destruct (Z.neg_nonneg_cases i) as [Hi|Hi].
  - rewrite Z.testbit_neg_r by lia. destruct (Z.eqb_spec i s); [lia|reflexivity].
  - rewrite Z.pow2_bits_eqb by lia. apply Z.eqb_sym.
Qed.

Lemma shl64_1 s : 0 <= s < 64 -> shl64 1 s = Z.shiftl 1 s.
Proof.
  intros Hs. apply Z.bits_inj'. intros i Hi.
  rewrite testbit_shl64, <- (Z.shiftl_spec 1 s i), testbit_bit by lia.
  destruct (Z.eqb_spec i s), (Z.ltb_spec i 64); try reflexivity; lia.
Qed.

Lemma testbit_bb_of l i :
  Forall (fun s => 0 <= s) l ->
  Z.testbit (bb_of l) i = existsb (Z.eqb i) l.
Proof.
  induction 1 as [|s t Hs Ht IH]; simpl.
  - apply Z.testbit_0_l.
  - now rewrite Z.lor_spec, testbit_bit, IH.
Qed.

Lemma bb_of_nonneg l : Forall (fun s => 0 <= s) l -> 0 <= bb_of l.
Proof.
  induction 1 as [|s t Hs Ht IH]; simpl; [lia|].
  apply Z.lor_nonneg. split; [|assumption]. apply Z.shiftl_nonneg. lia.
Qed.

Lemma land_bit x s :
  0 <= s -> Z.land x (Z.shiftl 1 s) = if Z.testbit x s then Z.shiftl 1 s else 0.
Proof.
  intros Hs. apply Z.bits_inj'. intros i Hi.
  rewrite Z.land_spec, testbit_bit by assumption.
  destruct (Z.eqb_spec i s) as [->|Hne].
  - destruct (Z.testbit x s); rewrite ?testbit_bit, ?Z.eqb_refl, ?Z.testbit_0_l;
      auto.
  - rewrite andb_false_r. destruct (Z.testbit x s);
      rewrite ?testbit_bit, ?Z.testbit_0_l by assumption; [|reflexivity].
    symmetry. now apply Z.eqb_neq.
Qed.

Lemma in_subsets l : forall x,
  Forall (fun s => 0 <= s) l -> In (Z.land x (bb_of l)) (subsets l).
Proof.
  induction l as [|s t IH]; intros x Hl; simpl.
  - left. now rewrite Z.land_0_r.
  - inversion Hl as [|? ? Hs Ht]; subst.
    rewrite Z.land_lor_distr_r, land_bit by assumption.
    apply in_or_app. destruct (Z.testbit x s).
    + right. apply in_map. now apply IH.
    + left. rewrite Z.lor_0_l. now apply IH.
Qed.

Lemma upto_blocker_ext x y l :
  (forall s, In s l -> Z.testbit x s = Z.testbit y s) ->
  upto_blocker x l = upto_blocker y l.
Proof.
  induction l as [|s t IH]; intros H; simpl; [reflexivity|].
  rewrite (H s) by (now left). destruct (Z.testbit y s); [reflexivity|].
  f_equal. apply IH. intros s' Hs'. apply H. now right.
Qed.

Lemma on_board_range f r : on_board f r = true -> 0 <= 8 * r + f < 64.
Proof. unfold on_board. intros H. lia. Qed.

Lemma ray_from_range fuel : forall f r df dr,
  Forall (fun s => 0 <= s < 64) (ray_from fuel f r df dr).
Proof.
  induction fuel as [|n IH]; intros f r df dr; simpl; [constructor|].
  destruct (on_board (f + df) (r + dr)) eqn:E; constructor; auto using on_board_range.
Qed.

Lemma ray_range sq df dr : Forall (fun s => 0 <= s < 64) (ray sq df dr).
Proof. apply ray_from_range. Qed.

Lemma ray_nonneg sq df dr : Forall (fun s => 0 <= s) (ray sq df dr).
Proof. eapply List.Forall_impl; [|apply ray_range]. simpl. lia. Qed.

(** ** Scans that agree up to a sentinel *)

Lemma LSB_agree_low a b k :
  0 <= a -> 0 <= b -> 0 <= k -> Z.testbit a k = true ->
  (forall j, 0 <= j <= k -> Z.testbit a j = Z.testbit b j) ->
  LSB a = LSB b.
Proof.
  intros Ha Hb Hk Hak Hag.
  assert (Hpos : 0 < a).
  { destruct (Z.eq_dec a 0) as [->|]; [now rewrite Z.testbit_0_l in Hak|lia]. }
  destruct (LSB_spec a Hpos) as (H0 & H1 & H2).
  assert (Hle : LSB a <= k).
  { destruct (Z.le_gt_cases (LSB a) k); [assumption|].
    rewrite H2 in Hak by lia. discriminate. }
  symmetry. apply LSB_unique; try assumption.
  - now rewrite <- Hag by lia.
  - intros j Hj. rewrite <- Hag by lia. apply H2. lia.
Qed.

Lemma log2_agree_high a b k :
  0 <= a -> 0 <= b -> 0 <= k -> Z.testbit a k = true ->
  (forall j, k <= j -> Z.testbit a j = Z.testbit b j) ->
  Z.log2 a = Z.log2 b.
Proof.
  intros Ha Hb Hk Hak Hag.
  assert (Hbk : Z.testbit b k = true) by (now rewrite <- Hag by lia).
  assert (Hpa : 0 < a).
  { destruct (Z.eq_dec a 0) as [->|]; [now rewrite Z.testbit_0_l in Hak|lia]. }
  assert (Hpb : 0 < b).
  { destruct (Z.eq_dec b 0) as [->|]; [now rewrite Z.testbit_0_l in Hbk|lia]. }
  assert (Hla : k <= Z.log2 a).
  { destruct (Z.le_gt_cases k (Z.log2 a)); [assumption|].
    rewrite Z.bits_above_log2 in Hak by lia. discriminate. }
  assert (Hlb : k <= Z.log2 b).
  { destruct (Z.le_gt_cases k (Z.log2 b)); [assumption|].
    rewrite Z.bits_above_log2 in Hbk by lia. discriminate. }
  pose proof (Z.bit_log2 a Hpa) as Hta. pose proof (Z.bit_log2 b Hpb) as Htb.
  rewrite Hag in Hta by assumption. rewrite <- Hag in Htb by assumption.
  destruct (Z.lt_trichotomy (Z.log2 a) (Z.log2 b)) as [Hlt|[Heq|Hgt]];
    [|assumption|].
  - rewrite Z.bits_above_log2 in Htb by lia. discriminate.
  - rewrite Z.bits_above_log2 in Hta by lia. discriminate.
Qed.

Lemma bit_of_eq (a b : Z) i : a = b -> Z.testbit a i = Z.testbit b i.
Proof. now intros ->. Qed.

Section SlideRestrict.
Variables up_pat dn_pat sent_up sent_dn sq m piece occ : Z.
Let U := shl64 up_pat sq.
Let D := shr64 dn_pat (63 - sq).
Let ku := LSB (Z.land U sent_up).
Let kd := MSB (Z.land D sent_dn).
Hypothesis Hdn : 0 <= dn_pat.
Hypothesis Hsq : 0 <= sq < 64.
Hypothesis Hsu : 0 <= sent_up.
Hypothesis Hsd : 0 <= sent_dn.
Hypothesis Hocc : 0 <= occ.
Hypothesis Hm : 0 <= m.
Hypothesis Hpiece : 0 <= piece.
Hypothesis Hku : 0 <= ku.
Hypothesis Hbu : Z.testbit (Z.land U sent_up) ku = true.
Hypothesis Hkd : 0 <= kd.
Hypothesis Hbd : Z.testbit (Z.land D sent_dn) kd = true.
Hypothesis Hlow :
  Z.land (Z.land U (Z.ones (ku + 1))) (Z.lor m piece) = Z.land U (Z.ones (ku + 1)).
Hypothesis Hhigh :
  Z.land (Z.shiftl (Z.shiftr D kd) kd) (Z.lor m piece) = Z.shiftl (Z.shiftr D kd) kd.
Hypothesis Hdisj : Z.land m piece = 0.
Hypothesis Hin : Z.land occ piece = piece.

Lemma restrict_bit j :
  (Z.testbit m j = true \/ Z.testbit piece j = true) ->
  Z.testbit (Z.lxor occ piece) j = Z.testbit (Z.land occ m) j.
Proof.
  intros Hor.
  pose proof (bit_of_eq _ _ j Hdisj) as H1.
  pose proof (bit_of_eq _ _ j Hin) as H2.
  rewrite Z.land_spec in H1, H2. rewrite Z.testbit_0_l in H1.
  rewrite Z.lxor_spec, Z.land_spec.
  destruct (Z.testbit occ j), (Z.testbit m j), (Z.testbit piece j);
    simpl in *; intuition congruence.
Qed.

Lemma slide_restrict :
  slide up_pat dn_pat sent_up sent_dn sq (Z.lxor occ piece)
  = slide up_pat dn_pat sent_up sent_dn sq (Z.land occ m).
Proof.
  unfold slide. fold U D.
  assert (HU : 0 <= U) by (apply is64_shl64).
  assert (HD : 0 <= D) by (apply Z.shiftr_nonneg, Hdn).
  assert (Hx : 0 <= Z.lxor occ piece) by (apply Z.lxor_nonneg; lia).
  assert (Hy : 0 <= Z.land occ m) by (apply Z.land_nonneg; lia).
  assert (HL : LSB (Z.land U (Z.lor (Z.lxor occ piece) sent_up))
               = LSB (Z.land U (Z.lor (Z.land occ m) sent_up))).
  { apply (LSB_agree_low _ _ ku); try (apply Z.land_nonneg; lia); try assumption.
    - rewrite Z.land_spec, Z.lor_spec. rewrite Z.land_spec in Hbu.
      apply andb_true_iff in Hbu. destruct Hbu as [-> ->].
      now rewrite orb_true_r.
    - intros j Hj. rewrite !Z.land_spec, !Z.lor_spec.
      destruct (Z.testbit U j) eqn:EU; [simpl|reflexivity].
      f_equal. apply restrict_bit.
      pose proof (bit_of_eq _ _ j Hlow) as H.
      rewrite !Z.land_spec, Z.lor_spec, EU, Z.ones_spec_low in H by lia.
      simpl in H. now apply orb_true_iff. }
  assert (HM : MSB (Z.land D (Z.lor (Z.lxor occ piece) sent_dn))
               = MSB (Z.land D (Z.lor (Z.land occ m) sent_dn))).
  { unfold MSB, clzll. do 2 f_equal.
    apply (log2_agree_high _ _ kd); try (apply Z.land_nonneg; lia); try assumption.
    - rewrite Z.land_spec, Z.lor_spec. rewrite Z.land_spec in Hbd.
      apply andb_true_iff in Hbd. destruct Hbd as [-> ->].
      now rewrite orb_true_r.
    - intros j Hj. rewrite !Z.land_spec, !Z.lor_spec.
      destruct (Z.testbit D j) eqn:ED; [simpl|reflexivity].
      f_equal. apply restrict_bit.
      pose proof (bit_of_eq _ _ j Hhigh) as H.
      rewrite !Z.land_spec, Z.lor_spec, Z.shiftl_spec, Z.shiftr_spec in H by lia.
      replace (j - kd + kd) with j in H by lia. rewrite ED in H.
      simpl in H. now apply orb_true_iff. }
  now rewrite HL, HM.
Qed.
End SlideRestrict.

Section Line.
Variables up_pat dn_pat sent_up sent_dn df dr : Z.
Hypothesis Hdn : 0 <= dn_pat.
Hypothesis Hsu : 0 <= sent_up.
Hypothesis Hsd : 0 <= sent_dn.
Hypothesis Hok : forallb (line_ok up_pat dn_pat sent_up sent_dn df dr) squares = true.

Lemma slide_line sq occ :
  0 <= sq < 64 -> 0 <= occ -> Z.testbit occ sq = true ->
  let a := Z.lor (ray_attack sq occ df dr) (ray_attack sq occ (- df) (- dr)) in
  slide up_pat dn_pat sent_up sent_dn sq (Z.lxor occ (shl64 1 sq))
  = Z.lor a (shl64 1 sq)
  /\ Z.land a (shl64 1 sq) = 0.
Proof.
  intros Hsq Hocc Hbit a.
  pose proof (check_squares _ Hok sq Hsq) as H. unfold line_ok in H.
  repeat (apply andb_true_iff in H; destruct H as [H ?]).
  repeat match goal with
         | X : (_ =? _) = true |- _ => apply Z.eqb_eq in X
         | X : (_ <=? _) = true |- _ => apply Z.leb_le in X
         end.
  set (l := ray sq df dr ++ ray sq (- df) (- dr)) in *.
  assert (Hl : Forall (fun s => 0 <= s) l).
  { apply Forall_app. split; apply ray_nonneg. }
  assert (Hpiece : 0 <= shl64 1 sq) by apply is64_shl64.
  assert (Hin : Z.land occ (shl64 1 sq) = shl64 1 sq).
  { rewrite shl64_1, land_bit, Hbit by lia. reflexivity. }
  rewrite (slide_restrict up_pat dn_pat sent_up sent_dn sq (bb_of l)
             (shl64 1 sq) occ); try assumption; try (now apply bb_of_nonneg).
  match goal with X : forallb _ _ = true |- _ => rename X into Hall end.
  rewrite forallb_forall in Hall.
  specialize (Hall _ (in_subsets l occ Hl)).
  apply andb_true_iff in Hall. destruct Hall as [Ha Hb].
  apply Z.eqb_eq in Ha, Hb.
  assert (Hext : forall l', incl l' l ->
            upto_blocker (Z.land occ (bb_of l)) l' = upto_blocker occ l').
  { intros l' Hincl. apply upto_blocker_ext. intros s Hs.
    rewrite Z.land_spec, testbit_bb_of by assumption.
    replace (existsb (Z.eqb s) l) with true; [apply andb_true_r|].
    symmetry. apply existsb_exists. exists s. split; [auto|apply Z.eqb_refl]. }
  rewrite !Hext in Ha, Hb by (unfold l; auto using incl_appl, incl_appr, incl_refl).
  split; assumption.
Qed.
End Line.

(** ** [GenRook] and [GenBishop] against the rays *)

Lemma GenRook_slide sq occ :
  GenRook sq occ
  = Z.lxor
      (Z.lor (slide 0x0101010101010101 0x8080808080808080
                    0xFF00000000000000 0x00000000000000FF sq
                    (Z.lxor occ (shl64 1 sq)))
             (slide 0x00000000000000FF 0xFF00000000000000
                    0x8080808080808080 0x0101010101010101 sq
                    (Z.lxor occ (shl64 1 sq))))
      (shl64 1 sq).
Proof. reflexivity. Qed.

Lemma GenBishop_slide sq occ :
  GenBishop sq occ
  = Z.lxor
      (Z.lor (slide 0x8040201008040201 0x8040201008040201
                    0xFF80808080808080 0x01010101010101FF sq
                    (Z.lxor occ (shl64 1 sq)))
             (slide 0x8102040810204081 0x8102040810204081
                    0xFF01010101010101 0x80808080808080FF sq
                    (Z.lxor occ (shl64 1 sq))))
      (shl64 1 sq).
Proof. reflexivity. Qed.

Lemma join_lines a b p :
  Z.land a p = 0 -> Z.land b p = 0 ->
  Z.lxor (Z.lor (Z.lor a p) (Z.lor b p)) p = Z.lor a b.
Proof.
  intros Ha Hb. apply Z.bits_inj'. intros i Hi.
  pose proof (bit_of_eq _ _ i Ha) as H1. pose proof (bit_of_eq _ _ i Hb) as H2.
  rewrite Z.land_spec in H1, H2. rewrite Z.testbit_0_l in H1, H2.
  rewrite Z.lxor_spec, !Z.lor_spec.
  destruct (Z.testbit a i), (Z.testbit b i), (Z.testbit p i);
    simpl in *; congruence.
Qed.

Lemma slide_line' up_pat dn_pat sent_up sent_dn df dr :
  0 <= dn_pat -> 0 <= sent_up -> 0 <= sent_dn ->
  forallb (line_ok up_pat dn_pat sent_up sent_dn df dr) squares = true ->
  forall sq occ,
    0 <= sq < 64 -> 0 <= occ -> Z.testbit occ sq = true ->
    slide up_pat dn_pat sent_up sent_dn sq (Z.lxor occ (shl64 1 sq))
    = Z.lor (line_attack sq occ df dr) (shl64 1 sq)
    /\ Z.land (line_attack sq occ df dr) (shl64 1 sq) = 0.
Proof. intros. now apply slide_line. Qed.

Lemma file_line sq occ :
  0 <= sq < 64 -> 0 <= occ -> Z.testbit occ sq = true ->
  slide 0x0101010101010101 0x8080808080808080
        0xFF00000000000000 0x00000000000000FF sq (Z.lxor occ (shl64 1 sq))
  = Z.lor (line_attack sq occ 0 1) (shl64 1 sq)
  /\ Z.land (line_attack sq occ 0 1) (shl64 1 sq) = 0.
Proof. apply slide_line'; [lia|lia|lia|vm_compute; reflexivity]. Qed.

Lemma rank_line sq occ :
  0 <= sq < 64 -> 0 <= occ -> Z.testbit occ sq = true ->
  slide 0x00000000000000FF 0xFF00000000000000
        0x8080808080808080 0x0101010101010101 sq (Z.lxor occ (shl64 1 sq))
  = Z.lor (line_attack sq occ 1 0) (shl64 1 sq)
  /\ Z.land (line_attack sq occ 1 0) (shl64 1 sq) = 0.
Proof. apply slide_line'; [lia|lia|lia|vm_compute; reflexivity]. Qed.

Lemma diagonal_line sq occ :
  0 <= sq < 64 -> 0 <= occ -> Z.testbit occ sq = true ->
  slide 0x8040201008040201 0x8040201008040201
        0xFF80808080808080 0x01010101010101FF sq (Z.lxor occ (shl64 1 sq))
  = Z.lor (line_attack sq occ 1 1) (shl64 1 sq)
  /\ Z.land (line_attack sq occ 1 1) (shl64 1 sq) = 0.
Proof. apply slide_line'; [lia|lia|lia|vm_compute; reflexivity]. Qed.

Lemma antidiagonal_line sq occ :
  0 <= sq < 64 -> 0 <= occ -> Z.testbit occ sq = true ->
  slide 0x8102040810204081 0x8102040810204081
        0xFF01010101010101 0x80808080808080FF sq (Z.lxor occ (shl64 1 sq))
  = Z.lor (line_attack sq occ (-1) 1) (shl64 1 sq)
  /\ Z.land (line_attack sq occ (-1) 1) (shl64 1 sq) = 0.
Proof. apply slide_line'; [lia|lia|lia|vm_compute; reflexivity]. Qed.

Lemma GenRook_correct sq occ :
  0 <= sq < 64 -> 0 <= occ -> Z.testbit occ sq = true ->
  GenRook sq occ = spec_rook_attacks sq occ.
Proof.
  intros Hsq Hocc Hbit. rewrite GenRook_slide.
  destruct (file_line sq occ Hsq Hocc Hbit) as [-> H1].
  destruct (rank_line sq occ Hsq Hocc Hbit) as [-> H2].
  now rewrite join_lines.
Qed.

Lemma GenBishop_correct sq occ :
  0 <= sq < 64 -> 0 <= occ -> Z.testbit occ sq = true ->
  GenBishop sq occ = spec_bishop_attacks sq occ.
Proof.
  intros Hsq Hocc Hbit. rewrite GenBishop_slide.
  destruct (diagonal_line sq occ Hsq Hocc Hbit) as [-> H1].
  destruct (antidiagonal_line sq occ Hsq Hocc Hbit) as [-> H2].
  now rewrite join_lines.
Qed.

(** C3, as the code has it: for every square 0..63 and every 64-bit
    occupancy that contains the origin square, [GenRook] is the set of
    squares a rook attacks (each rank and file ray up to and including
    its first occupied square, the origin excluded), [GenBishop] the same
    for the diagonal rays, and the queen destinations are the union of
    the two. *)
Theorem sliding_attacks_correct (sq occ : Z) :
  0 <= sq < 64 -> is64 occ -> Z.testbit occ sq = true ->
  GenRook sq occ = spec_rook_attacks sq occ
  /\ GenBishop sq occ = spec_bishop_attacks sq occ
  /\ BBDestinations QUEEN sq occ = spec_queen_attacks sq occ.
Proof.
  intros Hsq [Hocc _] Hbit.
  pose proof (GenRook_correct sq occ Hsq Hocc Hbit) as HR.
  pose proof (GenBishop_correct sq occ Hsq Hocc Hbit) as HB.
  repeat split; try assumption.
  unfold BBDestinations, spec_queen_attacks. simpl. now rewrite HR, HB.
Qed.

Lemma sliding_attacks_correct_witness :
  GenRook 27 0x0008000008000100 = spec_rook_attacks 27 0x0008000008000100
  /\ GenBishop 27 0x0008000008000100 = spec_bishop_attacks 27 0x0008000008000100
  /\ BBDestinations QUEEN 27 0x0008000008000100
     = spec_queen_attacks 27 0x0008000008000100.
Proof.
  apply sliding_attacks_correct; [lia|unfold is64; lia|reflexivity].
Defined.

Lemma sliding_attacks_unoccupied_origin :
  0 <= 0 < 64 /\ is64 0 /\ GenRook 0 0 = 0
  /\ spec_rook_attacks 0 0 = 0x01010101010101FE
  /\ GenRook 0 0 <> spec_rook_attacks 0 0.
Proof.
  unfold is64. repeat split; try lia; try reflexivity. vm_compute. discriminate.
Qed.

(** ** Piece codes bit by bit *)

Lemma low_bit x s : 0 <= s -> Z.land (shr64 x s) 1 = Z.b2z (Z.testbit x s).
Proof.
  intros Hs. unfold shr64. change 1 with (Z.ones 1).
  rewrite Z.land_ones, <- Z.bit0_mod, Z.shiftr_spec by lia. reflexivity.
Qed.

Lemma Piece_bits p s :
  0 <= s ->
  Piece p s = 4 * Z.b2z (Z.testbit (P2 p) s) + 2 * Z.b2z (Z.testbit (P1 p) s)
              + Z.b2z (Z.testbit (P0 p) s).
Proof.
  intros Hs. unfold Piece. rewrite !low_bit by assumption.
  destruct (Z.testbit (P2 p) s), (Z.testbit (P1 p) s), (Z.testbit (P0 p) s);
    reflexivity.
Qed.

Lemma land_bb_of_eq0 l x :
  Forall (fun s => 0 <= s) l ->
  (Z.land (bb_of l) x =? 0) = negb (existsb (Z.testbit x) l).
Proof.
  induction 1 as [|s t Hs Ht IH]; simpl; [reflexivity|].
  rewrite Z.land_comm, Z.land_lor_distr_r, land_bit by assumption.
  rewrite Z.land_comm in IH.
  destruct (Z.testbit x s); simpl.
  - destruct (Z.eqb_spec (Z.lor (Z.shiftl 1 s) (Z.land x (bb_of t))) 0) as [E|];
      [|reflexivity].
    apply Z.lor_eq_0_iff in E. destruct E as [E _].
    apply (f_equal (fun z => Z.testbit z s)) in E.
    rewrite testbit_bit, Z.eqb_refl, Z.testbit_0_l in E by assumption.
    discriminate.
  - now rewrite Z.lor_0_l.
Qed.

(** ** En passant after a double push *)

Lemma EnPassant_ChangeSide p : EnPassant (ChangeSide p) = EnPassant p.
Proof. reflexivity. Qed.

Lemma EnPassantM_neighbours f :
  8 <= f < 16 -> EnPassantM (Z.land (f + 16) 7) = bb_of (neighbours (f + 16)).
Proof.
  intros Hf.
  assert (H : (f <? 8)
              || (EnPassantM (Z.land (f + 16) 7) =? bb_of (neighbours (f + 16)))
              = true).
  { assert (Hf' : 0 <= f < Z.of_nat 16) by lia. revert f Hf' Hf.
    intros f Hf' _. revert f Hf'. apply check_below. vm_compute. reflexivity. }
  apply orb_true_iff in H. destruct H as [H|H]; [lia|now apply Z.eqb_eq].
Qed.

Lemma neighbours_range t s :
  24 <= t < 32 -> In s (neighbours t) -> 24 <= s < 32 /\ s <> t.
Proof.
  intros Ht Hin.
  assert (Hc : In t [24; 25; 26; 27; 28; 29; 30; 31]) by (simpl; lia).
  simpl in Hc.
  repeat (destruct Hc as [<-|Hc]; [vm_compute in Hin; intuition lia|]).
  contradiction.
Qed.

Lemma existsb_ext_in {A} (f g : A -> bool) l :
  (forall a, In a l -> f a = g a) -> existsb f l = existsb g l.
Proof.
  induction l as [|a l IH]; intros H; simpl; [reflexivity|].
  rewrite H by (now left). f_equal. apply IH. intros b Hb. apply H. now right.
Qed.

(** C5, as the code has it: after Make of a pawn's double push from its
    second rank, EnPassant is the file of the pawn exactly when an
    opposing pawn stands beside it on the fourth rank, whether or not
    that pawn can legally capture, and the sentinel 8 otherwise. *)
Theorem double_push_en_passant (p : TBoard) (m : TMove) :
  MoveType m = PAWN -> 8 <= From m < 16 -> To m = From m + 16 ->
  EnPassant (MakeBoard m p)
  = if opp_pawn_beside p m then To m mod 8 else 8.
Proof.
  destruct m as [mt f t pr]. simpl. intros -> Hf ->.
  unfold MakeBoard; simpl MoveType; simpl From; simpl To.
  change (Z.land PAWN 7 =? PAWN) with true; cbv iota.
  rewrite EnPassant_ChangeSide.
  unfold MakePawn; simpl MoveType; simpl To; simpl From.
  change (Z.land PAWN EP =? 0) with true.
  change (Z.land PAWN CAPTURE =? 0) with true.
  change (Z.land PAWN PROMO =? 0) with true. cbv iota beta. simpl negb. cbv iota.
  unfold capture_rights; simpl MoveType.
  change (Z.land PAWN CAPTURE =? 0) with true; cbv iota.
  rewrite Z.eqb_refl, andb_true_l.
  rewrite EnPassantM_neighbours, <- Z.land_assoc, land_bb_of_eq0, negb_involutive
    by (assumption || (apply List.Forall_forall; intros s Hs;
                       apply neighbours_range in Hs; lia)).
  rewrite (existsb_ext_in _ (opp_pawn_at p)).
  - replace (existsb (opp_pawn_at p) (neighbours (f + 16)))
      with (opp_pawn_beside p (mkMove PAWN f (f + 16) pr)).
    + destruct (opp_pawn_beside p _); simpl; [|reflexivity].
      change 7 with (Z.ones 3). now rewrite Z.land_ones by lia.
    + unfold opp_pawn_beside, neighbours. simpl To.
      destruct ((f + 16) mod 8 =? 0), ((f + 16) mod 8 =? 7); simpl;
        rewrite ?orb_false_r; reflexivity.
  - intros s Hs. apply neighbours_range in Hs; [|lia]. destruct Hs as [Hs Hne].
    unfold opp_pawn_at. rewrite Piece_bits by lia.
    unfold Pawns, Occupation, set_EnPassant, set_P0, set_PM. simpl.
    rewrite !Z.land_spec, !Z.lxor_spec, !Z.lor_spec, !testbit_not64,
      !Z.lxor_spec, !Z.lor_spec, !shl64_1, !testbit_bit by lia.
    destruct (Z.eqb_spec s f); [lia|]. destruct (Z.eqb_spec s (f + 16)); [lia|].
    destruct (Z.ltb_spec s 64); [|lia].
    destruct (Z.testbit (P0 p) s), (Z.testbit (P1 p) s), (Z.testbit (P2 p) s),
      (Z.testbit (PM p) s); reflexivity.
Qed.

Lemma double_push_en_passant_witness :
  EnPassant (MakeBoard (mkMove PAWN 12 28 EMPTY) (LoadBoard fen_endgame))
  = if opp_pawn_beside (LoadBoard fen_endgame) (mkMove PAWN 12 28 EMPTY)
    then 28 mod 8 else 8.
Proof.
  apply (double_push_en_passant (LoadBoard fen_endgame) (mkMove PAWN 12 28 EMPTY));
    simpl; [reflexivity|lia|reflexivity].
Defined.

(** The en-passant file is stored although the capture it announces is
    illegal: after e2-e4 the black pawn on f4 is pinned to its king by
    the rook on b4. *)
Lemma en_passant_stored_for_illegal_capture :
  let p := LoadBoard fen_endgame in
  let m := mkMove PAWN 12 28 EMPTY in
  In m (GenerateQuiets p) /\ legal p m = true
  /\ To m = From m + 16
  /\ EnPassant (MakeBoard m p) = 4
  /\ negb (existsb (fun m' => negb (Z.land (MoveType m') EP =? 0))
                   (GenerateCapture (MakeBoard m p))) = false
  /\ ep_capture_legal (MakeBoard m p) = false.
Proof.
  vm_compute. repeat split; auto 20.
Qed.

(** ** Reading the invariants *)

Lemma is64b_spec x : is64b x = true <-> is64 x.
Proof. unfold is64b, is64. rewrite andb_true_iff, Z.leb_le, Z.ltb_lt. tauto. Qed.

Lemma encoding_fields p :
  encoding_ok p = true ->
  is64 (PM p) /\ is64 (P0 p) /\ is64 (P1 p) /\ is64 (P2 p)
  /\ 0 <= CastleFlags p < 256 /\ 0 <= EnPassant p <= 8 /\ 0 <= STM p < 256.
Proof.
  unfold encoding_ok, fields_ok. rewrite !andb_true_iff, !is64b_spec.
  rewrite !Z.leb_le, !Z.ltb_lt. tauto.
Qed.

Lemma encoding_valid_fields p : encoding_ok p = true -> valid_fields p.
Proof.
  intros H. apply encoding_fields in H. unfold valid_fields. intuition lia.
Qed.

Lemma encoding_codes p : encoding_ok p = true -> codes_ok p = true.
Proof. unfold encoding_ok. rewrite !andb_true_iff. tauto. Qed.

Lemma encoding_pm p : encoding_ok p = true -> pm_ok p = true.
Proof. unfold encoding_ok. rewrite !andb_true_iff. tauto. Qed.

Lemma encoding_kings p : encoding_ok p = true -> kings_ok p = true.
Proof. unfold encoding_ok. rewrite !andb_true_iff. tauto. Qed.

Lemma encoding_ep p : encoding_ok p = true -> ep_ok p = true.
Proof. unfold encoding_ok. rewrite !andb_true_iff. tauto. Qed.

Lemma encoding_castle p : encoding_ok p = true -> castle_ok p = true.
Proof. unfold encoding_ok. rewrite !andb_true_iff. tauto. Qed.

Lemma is64_not64 a : is64 a -> is64 (not64 a).
Proof. intros Ha. apply is64_lxor; [assumption|]. unfold is64, mask64. lia. Qed.

Lemma is64_Occupation p : encoding_ok p = true -> is64 (Occupation p).
Proof.
  intros H. apply encoding_fields in H. unfold Occupation.
  repeat apply is64_lor; tauto.
Qed.

(** ** Bitboards square by square *)

Lemma testbit_neg64 a s :
  0 <= s < 64 -> Z.testbit (not64 a) s = negb (Z.testbit a s).
Proof.
  intros Hs. rewrite testbit_not64 by lia.
  destruct (Z.ltb_spec s 64); [|lia]. now destruct (Z.testbit a s).
Qed.

Lemma testbit_Occupation p s :
  0 <= s -> Z.testbit (Occupation p) s = negb (Piece p s =? EMPTY).
Proof.
  intros Hs. unfold Occupation. rewrite !Z.lor_spec, Piece_bits by assumption.
  destruct (Z.testbit (P0 p) s), (Z.testbit (P1 p) s), (Z.testbit (P2 p) s);
    reflexivity.
Qed.

Lemma testbit_Pawns p s :
  0 <= s < 64 -> Z.testbit (Pawns p) s = (Piece p s =? PAWN).
Proof.
  intros Hs. unfold Pawns.
  rewrite !Z.land_spec, !testbit_neg64, Piece_bits by lia.
  destruct (Z.testbit (P0 p) s), (Z.testbit (P1 p) s), (Z.testbit (P2 p) s);
    reflexivity.
Qed.

Lemma testbit_Knights p s :
  0 <= s < 64 -> Z.testbit (Knights p) s = (Piece p s =? KNIGHT).
Proof.
  intros Hs. unfold Knights.
  rewrite !Z.land_spec, !testbit_neg64, Piece_bits by lia.
  destruct (Z.testbit (P0 p) s), (Z.testbit (P1 p) s), (Z.testbit (P2 p) s);
    reflexivity.
Qed.

Lemma testbit_Rooks p s :
  0 <= s < 64 -> Z.testbit (Rooks p) s = (Piece p s =? ROOK).
Proof.
  intros Hs. unfold Rooks.
  rewrite !Z.land_spec, !testbit_neg64, Piece_bits by lia.
  destruct (Z.testbit (P0 p) s), (Z.testbit (P1 p) s), (Z.testbit (P2 p) s);
    reflexivity.
Qed.

Lemma codes_ok_bit p s :
  codes_ok p = true ->
  Z.testbit (P0 p) s && Z.testbit (P1 p) s && Z.testbit (P2 p) s = false.
Proof.
  unfold codes_ok. intros H. apply Z.eqb_eq in H.
  apply (bit_of_eq _ _ s) in H. now rewrite !Z.land_spec, Z.testbit_0_l in H.
Qed.

Lemma testbit_Bishops p s :
  codes_ok p = true -> 0 <= s ->
  Z.testbit (Bishops p) s = (Piece p s =? BISHOP).
Proof.
  intros Hc Hs. pose proof (codes_ok_bit p s Hc) as H. revert H.
  unfold Bishops. rewrite !Z.land_spec, Piece_bits by lia.
  destruct (Z.testbit (P0 p) s), (Z.testbit (P1 p) s), (Z.testbit (P2 p) s);
    simpl; congruence.
Qed.

Lemma testbit_Queens p s :
  codes_ok p = true -> 0 <= s ->
  Z.testbit (Queens p) s = (Piece p s =? QUEEN).
Proof.
  intros Hc Hs. pose proof (codes_ok_bit p s Hc) as H. revert H.
  unfold Queens. rewrite !Z.land_spec, Piece_bits by lia.
  destruct (Z.testbit (P0 p) s), (Z.testbit (P1 p) s), (Z.testbit (P2 p) s);
    simpl; congruence.
Qed.

Lemma testbit_Kings p s :
  codes_ok p = true -> 0 <= s ->
  Z.testbit (Kings p) s = (Piece p s =? KING).
Proof.
  intros Hc Hs. pose proof (codes_ok_bit p s Hc) as H. revert H.
  unfold Kings. rewrite !Z.land_spec, Piece_bits by lia.
  destruct (Z.testbit (P0 p) s), (Z.testbit (P1 p) s), (Z.testbit (P2 p) s);
    simpl; congruence.
Qed.

Lemma Piece_range p s : 0 <= s -> 0 <= Piece p s <= 7.
Proof.
  intros Hs. rewrite Piece_bits by assumption.
  destruct (Z.testbit (P0 p) s), (Z.testbit (P1 p) s), (Z.testbit (P2 p) s);
    simpl; lia.
Qed.

Lemma Piece_not7 p s : codes_ok p = true -> 0 <= s -> Piece p s <> 7.
Proof.
  intros Hc Hs. pose proof (codes_ok_bit p s Hc) as H. revert H.
  rewrite Piece_bits by assumption.
  destruct (Z.testbit (P0 p) s), (Z.testbit (P1 p) s), (Z.testbit (P2 p) s);
    simpl; intros; congruence || lia.
Qed.

Lemma testbit_BBPieces p piece s :
  codes_ok p = true -> 0 <= s < 64 -> 1 <= piece <= 6 ->
  Z.testbit (BBPieces p piece) s = (Piece p s =? piece).
Proof.
  intros Hc Hs Hp.
  assert (Hcases : In piece [1; 2; 3; 4; 5; 6]) by (simpl; lia).
  simpl in Hcases.
  repeat (destruct Hcases as [<-|Hcases]; [|]); try contradiction;
    unfold BBPieces; simpl;
    auto using testbit_Pawns, testbit_Knights, testbit_Rooks, testbit_Bishops,
      testbit_Queens, testbit_Kings with zarith.
  all: first [apply testbit_Bishops | apply testbit_Queens | apply testbit_Kings];
    auto; lia.
Qed.

Lemma pm_ok_bit p s :
  pm_ok p = true -> 0 <= s < 64 ->
  Z.testbit (PM p) s = true -> Piece p s <> EMPTY.
Proof.
  unfold pm_ok. intros H Hs Hm. apply Z.eqb_eq in H.
  apply (bit_of_eq _ _ s) in H.
  rewrite Z.land_spec, testbit_neg64, Hm, testbit_Occupation, Z.testbit_0_l in H
    by lia.
  simpl in H. apply negb_false_iff in H. apply negb_true_iff in H.
  now apply Z.eqb_neq.
Qed.

(** The opponent's pieces, [PM ^ Occupation]. *)
Lemma testbit_opposing p s :
  pm_ok p = true -> 0 <= s < 64 ->
  Z.testbit (Z.lxor (PM p) (Occupation p)) s
  = negb (Piece p s =? EMPTY) && negb (Z.testbit (PM p) s).
Proof.
  intros Hpm Hs. rewrite Z.lxor_spec, testbit_Occupation by lia.
  destruct (Z.testbit (PM p) s) eqn:E.
  - apply pm_ok_bit in E; try assumption. apply Z.eqb_neq in E. now rewrite E.
  - now destruct (Piece p s =? EMPTY).
Qed.

(** ** Bitboards with a single bit *)

Lemma single_spec bb :
  is64 bb -> single bb = true ->
  0 <= LSB bb < 64 /\ forall s, 0 <= s -> Z.testbit bb s = (s =? LSB bb).
Proof.
  intros Hb H. unfold single in H. apply andb_true_iff in H.
  destruct H as [Hne Hc]. apply negb_true_iff, Z.eqb_neq in Hne.
  apply Z.eqb_eq in Hc.
  assert (Hpos : 0 < bb) by (destruct Hb; lia).
  destruct (LSB_spec bb Hpos) as (H0 & H1 & H2).
  split; [now apply LSB_lt64|]. intros s Hs.
  destruct (Z.eqb_spec s (LSB bb)) as [->|Hd]; [assumption|].
  pose proof (testbit_ClearLSB bb s Hb Hs) as Ht.
  rewrite Hc, Z.testbit_0_l in Ht.
  destruct (Z.eqb_spec s (LSB bb)); [contradiction|].
  now rewrite andb_true_r in Ht.
Qed.

Lemma single_eq bb :
  is64 bb -> single bb = true -> bb = shl64 1 (LSB bb).
Proof.
  intros Hb H. destruct (single_spec bb Hb H) as [Hk Ht].
  apply eq64; [assumption|apply is64_shl64|]. intros i Hi.
  rewrite Ht, shl64_1, testbit_bit by lia. reflexivity.
Qed.

(** ** Tables and rays, square against square *)

Lemma check_squares2 (f : Z -> Z -> bool) :
  forallb (fun a => forallb (f a) squares) squares = true ->
  forall a b, 0 <= a < 64 -> 0 <= b < 64 -> f a b = true.
Proof.
  intros H a b Ha Hb.
  pose proof (check_squares _ H a Ha) as H1. simpl in H1.
  exact (check_squares _ H1 b Hb).
Qed.

Lemma KnightDest_spec t k :
  0 <= t < 64 -> 0 <= k < 64 -> Z.testbit (KnightDest k) t = knight_jump t k.
Proof.
  intros Ht Hk. apply eqb_prop.
  refine (check_squares2
           (fun k t => Bool.eqb (Z.testbit (KnightDest k) t) (knight_jump t k))
           _ k t Hk Ht).
  vm_compute. reflexivity.
Qed.

Lemma KingDest_spec t k :
  0 <= t < 64 -> 0 <= k < 64 -> Z.testbit (KingDest k) t = king_step t k.
Proof.
  intros Ht Hk. apply eqb_prop.
  refine (check_squares2
           (fun k t => Bool.eqb (Z.testbit (KingDest k) t) (king_step t k))
           _ k t Hk Ht).
  vm_compute. reflexivity.
Qed.

Lemma pawn_attackers_spec t k :
  0 <= t < 64 -> 0 <= k < 64 ->
  Z.testbit (pawn_attackers (shl64 1 k)) t = pawn_step false t k.
Proof.
  intros Ht Hk. apply eqb_prop.
  refine (check_squares2
           (fun k t => Bool.eqb (Z.testbit (pawn_attackers (shl64 1 k)) t)
                                (pawn_step false t k))
           _ k t Hk Ht).
  vm_compute. reflexivity.
Qed.

Lemma ray_symmetric_all t k :
  0 <= t < 64 -> 0 <= k < 64 -> ray_symmetric t k = true.
Proof.
  apply (check_squares2 ray_symmetric). vm_compute. reflexivity.
Qed.

Lemma list_eqb_eq a : forall b, list_eqb a b = true -> a = b.
Proof.
  unfold list_eqb. induction a as [|x a IH]; intros [|y b] H; simpl in H;
    try reflexivity; try discriminate.
  apply andb_true_iff in H. destruct H as [Hl H].
  apply andb_true_iff in H. destruct H as [Hxy H].
  apply Z.eqb_eq in Hxy. subst y. f_equal. apply IH.
  now rewrite Hl, H.
Qed.

(** A square is reached along a ray when every square before it is
    empty. *)
Lemma reach_before occ k l :
  existsb (Z.eqb k) (upto_blocker occ l)
  = match before k l with
    | Some pre => forallb (fun s => negb (Z.testbit occ s)) pre
    | None => false
    end.
Proof.
  induction l as [|s t IH]; simpl; [reflexivity|].
  destruct (Z.eqb_spec k s) as [->|Hne].
  - destruct (Z.testbit occ s); simpl; now rewrite Z.eqb_refl.
  - destruct (Z.testbit occ s) eqn:E; simpl.
    + destruct (Z.eqb_spec k s); [contradiction|].
      destruct (before k t); simpl; rewrite ?E; reflexivity.
    + destruct (Z.eqb_spec k s); [contradiction|]. simpl. rewrite IH.
      destruct (before k t); simpl; rewrite ?E; reflexivity.
Qed.

Lemma forallb_rev {A} (f : A -> bool) l : forallb f (rev l) = forallb f l.
Proof.
  induction l as [|a l IH]; [reflexivity|]. simpl.
  rewrite forallb_app, IH. simpl. rewrite andb_true_r. apply andb_comm.
Qed.

Lemma testbit_ray_attack sq occ df dr k :
  Z.testbit (ray_attack sq occ df dr) k
  = existsb (Z.eqb k) (upto_blocker occ (ray sq df dr)).
Proof.
  unfold ray_attack. apply testbit_bb_of.
  assert (H : Forall (fun s => 0 <= s) (ray sq df dr)) by apply ray_nonneg.
  induction H as [|s t Hs Ht IH]; simpl; [constructor|].
  destruct (Z.testbit occ s); repeat constructor; assumption.
Qed.

Lemma ray_attack_symmetric t k occ df dr :
  0 <= t < 64 -> 0 <= k < 64 -> In (df, dr) directions ->
  Z.testbit (ray_attack t occ df dr) k
  = Z.testbit (ray_attack k occ (- df) (- dr)) t.
Proof.
  intros Ht Hk Hd. rewrite !testbit_ray_attack, !reach_before.
  pose proof (ray_symmetric_all t k Ht Hk) as H. unfold ray_symmetric in H.
  rewrite forallb_forall in H. specialize (H _ Hd). simpl in H.
  destruct (before k (ray t df dr)) as [a|], (before t (ray k (- df) (- dr))) as [b|];
    try discriminate; [|reflexivity].
  apply list_eqb_eq in H. subst b. now rewrite forallb_rev.
Qed.

Lemma spec_rook_symmetric t k occ :
  0 <= t < 64 -> 0 <= k < 64 ->
  Z.testbit (spec_rook_attacks t occ) k = Z.testbit (spec_rook_attacks k occ) t.
Proof.
  intros Ht Hk. unfold spec_rook_attacks. rewrite !Z.lor_spec.
  rewrite (ray_attack_symmetric t k occ 0 1), (ray_attack_symmetric t k occ 0 (-1)),
    (ray_attack_symmetric t k occ 1 0), (ray_attack_symmetric t k occ (-1) 0)
    by (assumption || (simpl; tauto)).
  change (- 0) with 0. change (- (1)) with (-1). change (- (-1)) with 1.
  destruct (Z.testbit (ray_attack k occ 0 1) t),
    (Z.testbit (ray_attack k occ 0 (-1)) t),
    (Z.testbit (ray_attack k occ 1 0) t),
    (Z.testbit (ray_attack k occ (-1) 0) t); reflexivity.
Qed.

Lemma spec_bishop_symmetric t k occ :
  0 <= t < 64 -> 0 <= k < 64 ->
  Z.testbit (spec_bishop_attacks t occ) k = Z.testbit (spec_bishop_attacks k occ) t.
Proof.
  intros Ht Hk. unfold spec_bishop_attacks. rewrite !Z.lor_spec.
  rewrite (ray_attack_symmetric t k occ 1 1), (ray_attack_symmetric t k occ (-1) (-1)),
    (ray_attack_symmetric t k occ (-1) 1), (ray_attack_symmetric t k occ 1 (-1))
    by (assumption || (simpl; tauto)).
  change (- 0) with 0. change (- (1)) with (-1). change (- (-1)) with 1.
  destruct (Z.testbit (ray_attack k occ 1 1) t),
    (Z.testbit (ray_attack k occ (-1) (-1)) t),
    (Z.testbit (ray_attack k occ (-1) 1) t),
    (Z.testbit (ray_attack k occ 1 (-1)) t); reflexivity.
Qed.

(** ** What the generators emit *)

Lemma wrap8_small x : 0 <= x < 256 -> wrap8 x = x.
Proof.
  intros Hx. unfold wrap8. change 0xFF with (Z.ones 8).
  rewrite Z.land_ones by lia. apply Z.mod_small. lia.
Qed.

Lemma testbit_true_nonneg x i : Z.testbit x i = true -> 0 <= i.
Proof.
  intros H. destruct (Z.neg_nonneg_cases i) as [Hn|]; [|assumption].
  rewrite Z.testbit_neg_r in H by assumption. discriminate.
Qed.

Lemma mask_below56 s :
  0 <= s < 64 -> Z.testbit 0x00FFFFFFFFFFFFFF s = (s <? 56).
Proof.
  intros Hs. apply eqb_prop. revert s Hs.
  apply (check_squares (fun s => Bool.eqb (Z.testbit 0x00FFFFFFFFFFFFFF s) (s <? 56))).
  vm_compute. reflexivity.
Qed.

Lemma mask_rank4 s :
  0 <= s < 64 -> Z.testbit 0x00000000FF000000 s = (24 <=? s) && (s <? 32).
Proof.
  intros Hs. apply eqb_prop. revert s Hs.
  apply (check_squares (fun s => Bool.eqb (Z.testbit 0x00000000FF000000 s)
                                          ((24 <=? s) && (s <? 32)))).
  vm_compute. reflexivity.
Qed.

Lemma mask_capture_right s :
  0 <= s < 64 ->
  Z.testbit 0x00FEFEFEFEFEFEFE s = (s <? 56) && negb (s mod 8 =? 0).
Proof.
  intros Hs. apply eqb_prop. revert s Hs.
  apply (check_squares (fun s => Bool.eqb (Z.testbit 0x00FEFEFEFEFEFEFE s)
                                          ((s <? 56) && negb (s mod 8 =? 0)))).
  vm_compute. reflexivity.
Qed.

Lemma mask_capture_left s :
  0 <= s < 64 ->
  Z.testbit 0x007F7F7F7F7F7F7F s = (s <? 56) && negb (s mod 8 =? 7).
Proof.
  intros Hs. apply eqb_prop. revert s Hs.
  apply (check_squares (fun s => Bool.eqb (Z.testbit 0x007F7F7F7F7F7F7F s)
                                          ((s <? 56) && negb (s mod 8 =? 7)))).
  vm_compute. reflexivity.
Qed.

Lemma mask_promo_right s :
  0 <= s < 64 ->
  Z.testbit 0xFE00000000000000 s = (56 <=? s) && negb (s mod 8 =? 0).
Proof.
  intros Hs. apply eqb_prop. revert s Hs.
  apply (check_squares (fun s => Bool.eqb (Z.testbit 0xFE00000000000000 s)
                                          ((56 <=? s) && negb (s mod 8 =? 0)))).
  vm_compute. reflexivity.
Qed.

Lemma mask_promo_left s :
  0 <= s < 64 ->
  Z.testbit 0x7F00000000000000 s = (56 <=? s) && negb (s mod 8 =? 7).
Proof.
  intros Hs. apply eqb_prop. revert s Hs.
  apply (check_squares (fun s => Bool.eqb (Z.testbit 0x7F00000000000000 s)
                                          ((56 <=? s) && negb (s mod 8 =? 7)))).
  vm_compute. reflexivity.
Qed.

Lemma mask_rank8 s :
  0 <= s < 64 -> Z.testbit 0xFF00000000000000 s = (56 <=? s).
Proof.
  intros Hs. apply eqb_prop. revert s Hs.
  apply (check_squares (fun s => Bool.eqb (Z.testbit 0xFF00000000000000 s) (56 <=? s))).
  vm_compute. reflexivity.
Qed.

Lemma for_bits_in bb s :
  is64 bb -> In s (for_bits bb) -> 0 <= s < 64 /\ Z.testbit bb s = true.
Proof.
  intros Hb Hin. split; [now apply (for_bits_range bb)|].
  now apply in_for_bits in Hin.
Qed.

Lemma is64_const c : is64b c = true -> is64 c.
Proof. apply is64b_spec. Qed.

Ltac solve_is64 :=
  repeat first
    [ assumption
    | apply is64_shl64
    | apply is64_wrap64
    | apply is64_const; reflexivity
    | apply is64_not64
    | apply is64_lor
    | apply is64_lxor
    | apply is64_land_r; solve [solve_is64]
    | apply is64_land_l; solve [solve_is64] ].

Ltac split_bits H :=
  repeat match type of H with
         | Z.testbit (Z.land _ _) _ = true =>
             rewrite Z.land_spec in H
         | (_ && _) = true =>
             let H1 := fresh H in
             apply andb_true_iff in H; destruct H as [H1 H];
             split_bits H1
         end.

Section Generated.
Variable p : TBoard.
Hypothesis Henc : encoding_ok p = true.

Let Hcodes := encoding_codes p Henc.
Let Hpm := encoding_pm p Henc.

Lemma is64_PM : is64 (PM p).
Proof. pose proof (encoding_fields p Henc). tauto. Qed.

Lemma own_of_bits c s :
  0 <= s < 64 -> 1 <= c <= 6 ->
  Z.testbit (Z.land (BBPieces p c) (PM p)) s = true -> own p c s.
Proof.
  intros Hs Hc H. rewrite Z.land_spec, testbit_BBPieces in H by assumption.
  apply andb_true_iff in H. destruct H as [H1 H2]. apply Z.eqb_eq in H1.
  now split.
Qed.

Lemma own_pawn_of_bits s :
  0 <= s < 64 -> Z.testbit (Z.land (Pawns p) (PM p)) s = true -> own p PAWN s.
Proof. intros Hs H. apply (own_of_bits PAWN); auto. unfold PAWN. lia. Qed.

Lemma vacant_of_bit s :
  0 <= s < 64 -> Z.testbit (not64 (Occupation p)) s = true -> vacant p s.
Proof.
  intros Hs H. rewrite testbit_neg64, testbit_Occupation in H by lia.
  rewrite negb_involutive in H. now apply Z.eqb_eq.
Qed.

Lemma enemy_of_bit s :
  0 <= s < 64 -> Z.testbit (Z.lxor (PM p) (Occupation p)) s = true -> enemy p s.
Proof.
  intros Hs H. rewrite testbit_opposing in H by assumption.
  apply andb_true_iff in H. destruct H as [H1 H2].
  apply negb_true_iff in H1, H2. apply Z.eqb_neq in H1. now split.
Qed.

Lemma king_to_knight_range c : In c king_to_knight -> 1 <= c <= 6.
Proof. unfold king_to_knight. simpl. unfold KING, QUEEN, ROOK, BISHOP, KNIGHT. lia. Qed.

Lemma in_piece_loop (mk : Z -> Z) (dests : Z -> Z -> Z) m :
  (forall c s, is64 (dests c s)) ->
  In m (flat_map (fun piece =>
          flat_map (fun sq =>
            map (fun dst => mkMove (mk piece) sq dst EMPTY)
                (for_bits (dests piece sq)))
            (for_bits (Z.land (BBPieces p piece) (PM p))))
          king_to_knight) ->
  exists piece sq dst,
    In piece king_to_knight /\ 0 <= sq < 64 /\ 0 <= dst < 64
    /\ own p piece sq /\ Z.testbit (dests piece sq) dst = true
    /\ m = mkMove (mk piece) sq dst EMPTY.
Proof.
  intros Hd Hin.
  apply List.in_flat_map in Hin. destruct Hin as (piece & Hp & Hin).
  apply List.in_flat_map in Hin. destruct Hin as (sq & Hsq & Hin).
  apply List.in_map_iff in Hin. destruct Hin as (dst & <- & Hdst).
  assert (H64 : is64 (Z.land (BBPieces p piece) (PM p)))
    by (apply is64_land_r, is64_PM).
  pose proof (for_bits_range _ _ H64 Hsq) as Hr.
  apply in_for_bits in Hsq; [|assumption]. destruct Hsq as [_ Hsq].
  pose proof (for_bits_range _ _ (Hd piece sq) Hdst) as Hr'.
  apply in_for_bits in Hdst; [|apply Hd]. destruct Hdst as [_ Hdst].
  exists piece, sq, dst. repeat split; try assumption; try lia.
  - apply own_of_bits in Hsq; auto using king_to_knight_range. apply Hsq.
  - apply own_of_bits in Hsq; auto using king_to_knight_range. apply Hsq.
Qed.

Lemma GenerateQuiets_gen m : In m (GenerateQuiets p) -> gen_move p m.
Proof.
  unfold GenerateQuiets. cbv zeta. intros Hin.
  pose proof (is64_Occupation p Henc) as Hocc.
  apply in_app_or in Hin. destruct Hin as [Hin|Hin];
    [|apply in_app_or in Hin; destruct Hin as [Hin|Hin];
      [|apply in_app_or in Hin; destruct Hin as [Hin|Hin];
        [|apply in_app_or in Hin; destruct Hin as [Hin|Hin]]]].
  - apply (in_piece_loop (fun c => c)
             (fun c s => Z.land (not64 (Occupation p))
                                (BBDestinations c s (Occupation p)))) in Hin.
    + destruct Hin as (piece & sq & dst & Hp & Hsq & Hdst & Hown & Hb & ->).
      rewrite Z.land_spec in Hb. apply andb_true_iff in Hb. destruct Hb as [Hb1 Hb2].
      apply gm_quiet; auto using vacant_of_bit.
    + intros c s. now apply is64_land_l, is64_not64.
  - apply List.in_map_iff in Hin. destruct Hin as (dst & <- & Hdst).
    apply for_bits_in in Hdst; [|solve_is64]. destruct Hdst as [Hr Hb].
    split_bits Hb.
    rewrite mask_below56 in Hb by assumption. apply Z.ltb_lt in Hb.
    rewrite testbit_shl64 in Hb1 by lia. apply andb_true_iff in Hb1.
    destruct Hb1 as [Hb1 _]. pose proof (testbit_true_nonneg _ _ Hb1).
    rewrite wrap8_small by lia.
    apply gm_push1; [lia| |now apply vacant_of_bit].
    apply own_pawn_of_bits; [lia|assumption].
  - apply List.in_map_iff in Hin. destruct Hin as (dst & <- & Hdst).
    apply for_bits_in in Hdst; [|solve_is64]. destruct Hdst as [Hr Hb].
    split_bits Hb.
    rewrite mask_rank4 in Hb by assumption. apply andb_true_iff in Hb.
    destruct Hb as [Hlo Hhi]. apply Z.leb_le in Hlo. apply Z.ltb_lt in Hhi.
    rewrite testbit_shl64 in Hb1 by lia. apply andb_true_iff in Hb1.
    destruct Hb1 as [Hb1 _]. split_bits Hb1.
    rewrite testbit_shl64 in Hb3 by lia. apply andb_true_iff in Hb3.
    destruct Hb3 as [Hb3 _]. replace (dst - 8 - 8) with (dst - 16) in Hb3 by lia.
    rewrite wrap8_small by lia.
    apply gm_push2; [lia| | |now apply vacant_of_bit].
    + apply own_pawn_of_bits; [lia|assumption].
    + apply vacant_of_bit; [lia|assumption].
  - destruct (negb (CastleLM p =? 0) && (Z.land (Occupation p) 14 =? 0)
              && castle_long_ok p (Occupation p) (Z.lxor (Occupation p) (PM p)))
      eqn:E; [|contradiction].
    destruct Hin as [<-|[]].
    apply andb_true_iff in E. destruct E as [E E3].
    apply andb_true_iff in E. destruct E as [E1 E2].
    apply negb_true_iff, Z.eqb_neq in E1. apply Z.eqb_eq in E2.
    now apply gm_long.
  - destruct (negb (CastleSM p =? 0) && (Z.land (Occupation p) 96 =? 0)
              && castle_short_ok p (Occupation p) (Z.lxor (Occupation p) (PM p)))
      eqn:E; [|contradiction].
    destruct Hin as [<-|[]].
    apply andb_true_iff in E. destruct E as [E E3].
    apply andb_true_iff in E. destruct E as [E1 E2].
    apply negb_true_iff, Z.eqb_neq in E1. apply Z.eqb_eq in E2.
    now apply gm_short.
Qed.
Lemma in_promotions mt delta dst m :
  In m (promotions mt delta dst) ->
  exists prom, In prom promotion_pieces
               /\ m = mkMove mt (wrap8 (dst - delta)) dst prom.
Proof.
  unfold promotions, rook_to_knight, promotion_pieces. simpl.
  intros [<-|[<-|[<-|[<-|[]]]]]; eexists; split; try reflexivity; simpl; tauto.
Qed.

Lemma pawn_capture_gen delta dst mask (f : Z -> bool) :
  (delta = 9 \/ delta = 7) ->
  (forall s, 0 <= s < 64 -> Z.testbit mask s = f s) ->
  In dst (for_bits (Z.land (Z.land (shl64 (Z.land (Pawns p) (PM p)) delta) mask)
                           (Z.lxor (PM p) (Occupation p)))) ->
  0 <= dst < 64 /\ delta <= dst /\ f dst = true
  /\ own p PAWN (dst - delta) /\ enemy p dst /\ wrap8 (dst - delta) = dst - delta.
Proof.
  intros Hd Hmask Hdst.
  pose proof (is64_Occupation p Henc) as Hocc. pose proof is64_PM as HPM.
  apply for_bits_in in Hdst; [|solve_is64]. destruct Hdst as [Hr Hb].
  split_bits Hb. rewrite Hmask in Hb0 by assumption.
  rewrite testbit_shl64 in Hb1 by lia. apply andb_true_iff in Hb1.
  destruct Hb1 as [Hb1 _]. pose proof (testbit_true_nonneg _ _ Hb1).
  repeat split; try lia; try assumption.
  - apply own_pawn_of_bits; [lia|assumption].
  - apply own_pawn_of_bits; [lia|assumption].
  - now apply enemy_of_bit.
  - now apply enemy_of_bit.
  - apply wrap8_small. lia.
Qed.

Lemma GenerateCapture_gen m : In m (GenerateCapture p) -> gen_move p m.
Proof.
  unfold GenerateCapture. cbv zeta. intros Hin.
  pose proof (is64_Occupation p Henc) as Hocc. pose proof is64_PM as HPM.
  apply in_app_or in Hin. destruct Hin as [Hin|Hin];
    [|apply in_app_or in Hin; destruct Hin as [Hin|Hin];
      [|apply in_app_or in Hin; destruct Hin as [Hin|Hin];
        [|apply in_app_or in Hin; destruct Hin as [Hin|Hin]]]].
  - apply (in_piece_loop (fun c => Z.lor c CAPTURE)
             (fun c s => Z.land (Z.lxor (PM p) (Occupation p))
                                (BBDestinations c s (Occupation p)))) in Hin.
    + destruct Hin as (piece & sq & dst & Hp & Hsq & Hdst & Hown & Hb & ->).
      rewrite Z.land_spec in Hb. apply andb_true_iff in Hb. destruct Hb as [Hb1 Hb2].
      apply gm_capture; auto using enemy_of_bit.
    + intros c s. apply is64_land_l. solve_is64.
  - apply List.in_map_iff in Hin. destruct Hin as (dst & <- & Hdst).
    apply (pawn_capture_gen 9 dst _ _ (or_introl eq_refl) mask_capture_right) in Hdst.
    destruct Hdst as (Hr & Hd & Hf & Hown & Hen & ->).
    apply andb_true_iff in Hf. destruct Hf as [Hf1 Hf2].
    apply Z.ltb_lt in Hf1. apply negb_true_iff, Z.eqb_neq in Hf2.
    apply gm_pawn_capture; try assumption; [left; tauto|lia].
  - apply List.in_map_iff in Hin. destruct Hin as (dst & <- & Hdst).
    apply (pawn_capture_gen 7 dst _ _ (or_intror eq_refl) mask_capture_left) in Hdst.
    destruct Hdst as (Hr & Hd & Hf & Hown & Hen & ->).
    apply andb_true_iff in Hf. destruct Hf as [Hf1 Hf2].
    apply Z.ltb_lt in Hf1. apply negb_true_iff, Z.eqb_neq in Hf2.
    apply gm_pawn_capture; try assumption; [right; tauto|lia].
  - destruct (Z.land (Z.land (Pawns p) (PM p)) 71776119061217280 =? 0);
      [contradiction|].
    apply in_app_or in Hin. destruct Hin as [Hin|Hin];
      [|apply in_app_or in Hin; destruct Hin as [Hin|Hin]].
    + apply List.in_flat_map in Hin. destruct Hin as (dst & Hdst & Hin).
      apply in_promotions in Hin. destruct Hin as (prom & Hprom & ->).
      apply (pawn_capture_gen 9 dst _ _ (or_introl eq_refl) mask_promo_right) in Hdst.
      destruct Hdst as (Hr & Hd & Hf & Hown & Hen & ->).
      apply andb_true_iff in Hf. destruct Hf as [Hf1 Hf2].
      apply Z.leb_le in Hf1. apply negb_true_iff, Z.eqb_neq in Hf2.
      apply gm_promo_capture; try assumption; [left; tauto|lia].
    + apply List.in_flat_map in Hin. destruct Hin as (dst & Hdst & Hin).
      apply in_promotions in Hin. destruct Hin as (prom & Hprom & ->).
      apply (pawn_capture_gen 7 dst _ _ (or_intror eq_refl) mask_promo_left) in Hdst.
      destruct Hdst as (Hr & Hd & Hf & Hown & Hen & ->).
      apply andb_true_iff in Hf. destruct Hf as [Hf1 Hf2].
      apply Z.leb_le in Hf1. apply negb_true_iff, Z.eqb_neq in Hf2.
      apply gm_promo_capture; try assumption; [right; tauto|lia].
    + apply List.in_flat_map in Hin. destruct Hin as (dst & Hdst & Hin).
      apply in_promotions in Hin. destruct Hin as (prom & Hprom & ->).
      apply for_bits_in in Hdst; [|solve_is64]. destruct Hdst as [Hr Hb].
      split_bits Hb. rewrite mask_rank8 in Hb by assumption. apply Z.leb_le in Hb.
      rewrite testbit_shl64 in Hb1 by lia. apply andb_true_iff in Hb1.
      destruct Hb1 as [Hb1 _]. rewrite wrap8_small by lia.
      apply gm_promo_push; [lia| |now apply vacant_of_bit|assumption].
      apply own_pawn_of_bits; [lia|assumption].
  - destruct (Z.eqb_spec (EnPassant p) 8) as [|Hne]; [contradiction|].
    apply List.in_map_iff in Hin. destruct Hin as (sq & <- & Hsq).
    pose proof (encoding_fields p Henc) as (_ & _ & _ & _ & _ & Hep & _).
    apply for_bits_in in Hsq; [|apply is64_land_l; solve_is64].
    destruct Hsq as [Hr Hb]. split_bits Hb.
    rewrite wrap8_small by lia.
    apply gm_ep; [lia|assumption| |assumption].
    apply own_pawn_of_bits; [lia|]. rewrite Z.land_spec.
    now apply andb_true_iff.
Qed.

Lemma generated_gen m :
  In m (GenerateCapture p ++ GenerateQuiets p) -> gen_move p m.
Proof.
  intros H. apply in_app_or in H.
  destruct H; auto using GenerateCapture_gen, GenerateQuiets_gen.
Qed.
End Generated.

(** ** The shape of a generated move *)

Section Shape.
Variable p : TBoard.
Hypothesis Henc : encoding_ok p = true.

Lemma vacant_not_mine s :
  0 <= s < 64 -> vacant p s -> Z.testbit (PM p) s = false.
Proof.
  intros Hs Hv. destruct (Z.testbit (PM p) s) eqn:E; [|reflexivity].
  apply pm_ok_bit in E; auto using encoding_pm. contradiction.
Qed.

Lemma land_zero_bit x c s :
  Z.land x c = 0 -> Z.testbit c s = true -> Z.testbit x s = false.
Proof.
  intros H Hc. apply (bit_of_eq _ _ s) in H.
  rewrite Z.land_spec, Hc, andb_true_r, Z.testbit_0_l in H. exact H.
Qed.

Lemma vacant_of_land_zero c s :
  Z.land (Occupation p) c = 0 -> 0 <= s -> Z.testbit c s = true -> vacant p s.
Proof.
  intros H Hs Hc. pose proof (land_zero_bit _ _ _ H Hc) as Ho.
  rewrite testbit_Occupation in Ho by assumption.
  apply negb_false_iff in Ho. now apply Z.eqb_eq.
Qed.

Lemma own_king_e1_long : CastleLM p <> 0 -> own p KING 4.
Proof.
  intros H. pose proof (encoding_castle p Henc) as Hc. unfold castle_ok in Hc.
  rewrite !andb_true_iff in Hc. destruct Hc as [[[_ Hc] _] _].
  apply orb_true_iff in Hc. destruct Hc as [Hc|Hc];
    [apply Z.eqb_eq in Hc; contradiction|].
  apply andb_true_iff in Hc. destruct Hc as [Hc _].
  rewrite Z.land_spec, testbit_Kings in Hc by (auto using encoding_codes || lia).
  apply andb_true_iff in Hc. destruct Hc as [H1 H2]. apply Z.eqb_eq in H1.
  now split.
Qed.

Lemma own_king_e1_short : CastleSM p <> 0 -> own p KING 4.
Proof.
  intros H. pose proof (encoding_castle p Henc) as Hc. unfold castle_ok in Hc.
  rewrite !andb_true_iff in Hc. destruct Hc as [[[Hc _] _] _].
  apply orb_true_iff in Hc. destruct Hc as [Hc|Hc];
    [apply Z.eqb_eq in Hc; contradiction|].
  apply andb_true_iff in Hc. destruct Hc as [Hc _].
  rewrite Z.land_spec, testbit_Kings in Hc by (auto using encoding_codes || lia).
  apply andb_true_iff in Hc. destruct Hc as [H1 H2]. apply Z.eqb_eq in H1.
  now split.
Qed.

Lemma en_passant_target :
  0 <= EnPassant p < 8 ->
  vacant p (40 + EnPassant p) /\ Piece p (32 + EnPassant p) = PAWN
  /\ Z.testbit (PM p) (32 + EnPassant p) = false.
Proof.
  intros Hep. pose proof (encoding_ep p Henc) as H. unfold ep_ok in H.
  apply orb_true_iff in H. destruct H as [H|H]; [apply Z.eqb_eq in H; lia|].
  apply andb_true_iff in H. destruct H as [H1 H2].
  rewrite Z.land_spec, testbit_Pawns, testbit_neg64 in H1 by lia.
  apply andb_true_iff in H1. destruct H1 as [H1 H3].
  rewrite testbit_Occupation, negb_involutive in H2 by lia.
  apply Z.eqb_eq in H1, H2. apply negb_true_iff in H3. now repeat split.
Qed.

Lemma gen_move_shape m : gen_move p m -> move_shape p m.
Proof.
  intros H. destruct H.
  - (* quiet piece move *)
    pose proof (king_to_knight_range _ H) as Hk.
    assert (Hl : Z.land piece 7 = piece /\ Z.land piece EP = 0).
    { unfold king_to_knight in H. simpl in H.
      repeat (destruct H as [<-|H]; [split; reflexivity|]). contradiction. }
    destruct Hl as [Hl1 Hl2].
    constructor; cbn [From To MoveType Prom]; rewrite ?Hl1, ?Hl2; try assumption; try lia;
      try (intros Hc; now contradiction Hc).
    apply vacant_not_mine; assumption.
  - (* capture by a piece *)
    pose proof (king_to_knight_range _ H) as Hk.
    assert (Hl : Z.land (Z.lor piece CAPTURE) 7 = piece
                 /\ Z.land (Z.lor piece CAPTURE) EP = 0).
    { unfold king_to_knight in H. simpl in H.
      repeat (destruct H as [<-|H]; [split; reflexivity|]). contradiction. }
    destruct Hl as [Hl1 Hl2].
    constructor; cbn [From To MoveType Prom]; rewrite ?Hl1, ?Hl2; try assumption; try lia;
      try (intros Hc; now contradiction Hc).
    apply H4.
  - constructor; cbn [From To MoveType Prom]; try assumption; try lia.
    + change (Z.land PAWN 7) with 1. lia.
    + apply vacant_not_mine; assumption || lia.
    + intros Hc. now contradiction Hc.
  - constructor; cbn [From To MoveType Prom]; try assumption; try lia.
    + change (Z.land PAWN 7) with 1. lia.
    + apply vacant_not_mine; assumption || lia.
    + intros Hc. now contradiction Hc.
  - constructor; cbn [From To MoveType Prom]; try lia.
    + change (Z.land (Z.lor KING CASTLE) 7) with 6. lia.
    + now apply own_king_e1_long.
    + apply vacant_not_mine; [lia|]. now apply (vacant_of_land_zero 0x0E).
    + intros Hc. now contradiction Hc.
  - constructor; cbn [From To MoveType Prom]; try lia.
    + change (Z.land (Z.lor KING CASTLE) 7) with 6. lia.
    + now apply own_king_e1_short.
    + apply vacant_not_mine; [lia|]. now apply (vacant_of_land_zero 0x60).
    + intros Hc. now contradiction Hc.
  - assert (delta = 9 \/ delta = 7) by (unfold capture_step in H; tauto).
    constructor; cbn [From To MoveType Prom]; try assumption; try lia.
    + change (Z.land (Z.lor PAWN CAPTURE) 7) with 1. lia.
    + apply H2.
    + intros Hc. now contradiction Hc.
  - assert (delta = 9 \/ delta = 7) by (unfold capture_step in H; tauto).
    constructor; cbn [From To MoveType Prom]; try assumption; try lia.
    + change (Z.land (Z.lor (Z.lor PAWN PROMO) CAPTURE) 7) with 1. lia.
    + apply H2.
    + intros Hc. now contradiction Hc.
  - constructor; cbn [From To MoveType Prom]; try assumption; try lia.
    + change (Z.land (Z.lor PAWN PROMO) 7) with 1. lia.
    + apply vacant_not_mine; assumption || lia.
    + intros Hc. now contradiction Hc.
  - destruct (en_passant_target H) as (Hv & Hp & Hm).
    constructor; cbn [From To MoveType Prom]; try assumption; try lia.
    + change (Z.land (Z.lor (Z.lor PAWN EP) CAPTURE) 7) with 1. lia.
    + apply vacant_not_mine; [lia|assumption].
    + intros _. replace (40 + EnPassant p - 8) with (32 + EnPassant p) by lia.
      repeat split; try assumption; lia.
Qed.
End Shape.

(** ** The legality filter *)

Lemma Illegal_unfold p m :
  Illegal p m
  = Z.land (attackers p (king_after p m)
              (if Z.land (MoveType m) 0x07 =? KING then shl64 1 (To m)
               else Z.land (Kings p) (PM p))
              (occupancy_after p m))
           (opposing_after p m).
Proof.
  unfold Illegal, king_after, occupancy_after, opposing_after, attackers,
    pawn_attackers.
  destruct (Z.land (MoveType m) 7 =? KING); simpl; [reflexivity|].
  destruct (Z.land (MoveType m) EP =? 0); reflexivity.
Qed.

Lemma existsb_filter_mem (f : Z -> bool) s l :
  In s l -> existsb (Z.eqb s) (List.filter f l) = f s.
Proof.
  intros Hin. destruct (f s) eqn:E.
  - apply existsb_exists. exists s. split; [|apply Z.eqb_refl].
    apply List.filter_In. now split.
  - apply not_true_is_false. intros H. apply existsb_exists in H.
    destruct H as (x & Hx & Heq). apply Z.eqb_eq in Heq. subst x.
    apply List.filter_In in Hx. destruct Hx as [_ Hx]. congruence.
Qed.

Lemma squares_range s : In s squares -> 0 <= s < 64.
Proof.
  unfold squares. intros H. apply List.in_map_iff in H.
  destruct H as (n & <- & Hn). apply in_seq in Hn. lia.
Qed.

Lemma filter_squares_nonneg f :
  Forall (fun s => 0 <= s) (List.filter f squares).
Proof.
  apply List.Forall_forall. intros s Hs. apply List.filter_In in Hs.
  destruct Hs as [Hs _]. apply squares_range in Hs. lia.
Qed.

Lemma occupancy_bit (b : board) s :
  0 <= s < 64 -> Z.testbit (occupancy b) s = negb (fst (b s) =? EMPTY).
Proof.
  intros Hs. unfold occupancy.
  rewrite testbit_bb_of by apply filter_squares_nonneg.
  now rewrite existsb_filter_mem by now apply in_squares.
Qed.

Lemma is64_occupancy (b : board) : is64 (occupancy b).
Proof.
  unfold occupancy. apply is64_of_bits.
  - apply bb_of_nonneg, filter_squares_nonneg.
  - intros i Hi. rewrite testbit_bb_of by apply filter_squares_nonneg.
    apply not_true_is_false. intros H. apply existsb_exists in H.
    destruct H as (x & Hx & Heq). apply Z.eqb_eq in Heq. subst x.
    apply List.filter_In in Hx. destruct Hx as [Hx _].
    apply squares_range in Hx. lia.
Qed.

Lemma nonzero_bits x :
  is64 x -> (x <> 0 <-> existsb (Z.testbit x) squares = true).
Proof.
  intros Hx. split.
  - intros Hne. apply existsb_exists.
    assert (Hpos : 0 < x) by (destruct Hx; lia).
    destruct (LSB_spec x Hpos) as (H0 & H1 & _).
    exists (LSB x). split; [|assumption]. apply in_squares.
    now apply LSB_lt64.
  - intros H Hz. subst x. apply existsb_exists in H.
    destruct H as (s & _ & Hs). now rewrite Z.testbit_0_l in Hs.
Qed.

Lemma find_unique (f : Z -> bool) k l :
  In k l -> f k = true -> (forall s, In s l -> f s = true -> s = k) ->
  List.find f l = Some k.
Proof.
  induction l as [|a l IH]; intros Hin Hk Hu; [contradiction|]. simpl.
  destruct (f a) eqn:E.
  - f_equal. apply Hu; [now left|assumption].
  - destruct Hin as [->|Hin]; [congruence|].
    apply IH; auto. intros s Hs. apply Hu. now right.
Qed.

(** One bit of the attacker union: the piece on [t] attacks the king's
    square on the occupancy given. *)
Lemma attackers_bit p k occ t :
  codes_ok p = true -> 0 <= k < 64 -> 0 <= t < 64 ->
  0 <= occ -> Z.testbit occ k = true ->
  Z.testbit (attackers p k (shl64 1 k) occ) t
  = attack_of (Piece p t) false occ t k.
Proof.
  intros Hc Hk Ht Hocc Hbit. unfold attackers.
  rewrite !Z.lor_spec, !Z.land_spec, !Z.lor_spec.
  rewrite GenRook_correct, GenBishop_correct by assumption.
  rewrite KnightDest_spec, KingDest_spec, pawn_attackers_spec by assumption.
  rewrite testbit_Knights, testbit_Rooks, testbit_Pawns by assumption.
  rewrite testbit_Queens, testbit_Bishops, testbit_Kings by (assumption || lia).
  unfold attack_of, spec_queen_attacks. rewrite Z.lor_spec.
  rewrite <- (spec_rook_symmetric t k), <- (spec_bishop_symmetric t k)
    by assumption.
  pose proof (Piece_range p t ltac:(lia)) as Hr.
  pose proof (Piece_not7 p t Hc ltac:(lia)) as H7.
  assert (Hcases : In (Piece p t) [0; 1; 2; 3; 4; 5; 6]) by (simpl; lia).
  simpl in Hcases.
  repeat (destruct Hcases as [<-|Hcases];
          [simpl; rewrite ?andb_false_r, ?andb_true_r, ?orb_false_r; reflexivity|]).
  contradiction.
Qed.

Lemma is64_shr64 a n : is64 a -> 0 <= n -> is64 (shr64 a n).
Proof.
  intros Ha Hn. apply is64_of_bits.
  - apply Z.shiftr_nonneg. destruct Ha. lia.
  - intros i Hi. rewrite testbit_shr64 by lia. apply is64_high; [assumption|lia].
Qed.

Lemma testbit_behind t i :
  0 <= t < 64 -> 0 <= i ->
  Z.testbit (shr64 (shl64 1 t) 8) i = (i =? t - 8).
Proof.
  intros Ht Hi. rewrite testbit_shr64, shl64_1, testbit_bit by lia.
  destruct (Z.eqb_spec (i + 8) t), (Z.eqb_spec i (t - 8)); lia || reflexivity.
Qed.

Lemma mover_king p :
  encoding_ok p = true ->
  let ks := LSB (Z.land (Kings p) (PM p)) in
  0 <= ks < 64 /\ own p KING ks
  /\ (forall s, 0 <= s < 64 -> own p KING s -> s = ks)
  /\ Z.land (Kings p) (PM p) = shl64 1 ks.
Proof.
  intros Henc ks.
  pose proof (encoding_kings p Henc) as Hk. unfold kings_ok in Hk.
  apply andb_true_iff in Hk. destruct Hk as [Hk _].
  assert (H64 : is64 (Z.land (Kings p) (PM p))).
  { apply is64_land_r. pose proof (encoding_fields p Henc). tauto. }
  destruct (single_spec _ H64 Hk) as [Hr Hb]. fold ks in Hr, Hb.
  assert (Hown : forall s, 0 <= s < 64 ->
            Z.testbit (Z.land (Kings p) (PM p)) s = true <-> own p KING s).
  { intros s Hs.
    rewrite Z.land_spec, testbit_Kings by (auto using encoding_codes || lia).
    unfold own. rewrite andb_true_iff, Z.eqb_eq. tauto. }
  repeat split.
  - lia.
  - lia.
  - apply Hown; [assumption|]. rewrite Hb by lia. apply Z.eqb_refl.
  - apply Hown; [assumption|]. rewrite Hb by lia. apply Z.eqb_refl.
  - intros s Hs Ho. apply Hown in Ho; [|assumption]. rewrite Hb in Ho by lia.
    now apply Z.eqb_eq.
  - now apply single_eq.
Qed.

Section Filter.
Variables (p : TBoard) (m : TMove).
Hypothesis Henc : encoding_ok p = true.
Hypothesis Hshape : move_shape p m.

Local Abbreviation b := (spec_after p m).
Local Abbreviation k := (king_after p m).

Lemma ep_not_king : is_ep m = true -> (Z.land (MoveType m) 7 =? KING) = false.
Proof.
  unfold is_ep. intros H. apply negb_true_iff, Z.eqb_neq in H.
  destruct (ms_ep _ _ Hshape H) as (_ & -> & _). reflexivity.
Qed.

Lemma from_not_to : From m <> To m.
Proof.
  intros E. pose proof (ms_own _ _ Hshape) as [_ H1].
  pose proof (ms_dest _ _ Hshape) as H2. rewrite E in H1. congruence.
Qed.

Lemma testbit_occupancy_after s :
  0 <= s < 64 ->
  Z.testbit (occupancy_after p m) s
  = xorb (xorb (negb (Piece p s =? EMPTY)) (s =? From m) || (s =? To m))
         (is_ep m && (s =? To m - 8)).
Proof.
  intros Hs. pose proof (ms_from _ _ Hshape). pose proof (ms_to _ _ Hshape).
  unfold occupancy_after.
  destruct (is_ep m) eqn:E.
  - rewrite (ep_not_king E). unfold is_ep in E.
    apply negb_true_iff in E. rewrite E. simpl.
    rewrite Z.lxor_spec, Z.lor_spec, Z.lxor_spec, testbit_Occupation,
      testbit_behind, !shl64_1, !testbit_bit by lia.
    reflexivity.
  - unfold is_ep in E. apply negb_false_iff in E. rewrite E, orb_true_r.
    rewrite Z.lor_spec, Z.lxor_spec, testbit_Occupation,
      !shl64_1, !testbit_bit by lia.
    now rewrite xorb_false_r.
Qed.

Lemma testbit_opposing_after s :
  0 <= s < 64 ->
  Z.testbit (opposing_after p m) s
  = xorb (negb (Piece p s =? EMPTY) && negb (Z.testbit (PM p) s)
          && negb (s =? To m))
         (is_ep m && (s =? To m - 8)).
Proof.
  intros Hs. pose proof (ms_from _ _ Hshape). pose proof (ms_to _ _ Hshape).
  pose proof (encoding_pm p Henc) as Hpm.
  unfold opposing_after.
  destruct (is_ep m) eqn:E.
  - rewrite (ep_not_king E). unfold is_ep in E.
    apply negb_true_iff in E. rewrite E. simpl.
    rewrite Z.lxor_spec, Z.land_spec, testbit_opposing, testbit_neg64,
      testbit_behind, !shl64_1, !testbit_bit by (assumption || lia).
    reflexivity.
  - unfold is_ep in E. apply negb_false_iff in E. rewrite E, orb_true_r.
    rewrite Z.land_spec, testbit_opposing, testbit_neg64,
      !shl64_1, !testbit_bit by (assumption || lia).
    now rewrite xorb_false_r.
Qed.

Lemma is64_occupancy_after : is64 (occupancy_after p m).
Proof.
  pose proof (is64_Occupation p Henc). unfold occupancy_after.
  destruct (_ || _); solve_is64. apply is64_shr64; [solve_is64|lia].
Qed.

Lemma is64_opposing_after : is64 (opposing_after p m).
Proof.
  pose proof (is64_Occupation p Henc).
  pose proof (encoding_fields p Henc) as (HPM & _).
  unfold opposing_after.
  destruct (_ || _); solve_is64. apply is64_shr64; [solve_is64|lia].
Qed.

(** The en-passant victim is neither the moving pawn nor on the
    destination. *)
Lemma ep_square :
  is_ep m = true ->
  To m - 8 <> From m /\ To m - 8 <> To m /\ 0 <= To m - 8 < 64
  /\ Piece p (To m - 8) = PAWN /\ Z.testbit (PM p) (To m - 8) = false
  /\ vacant p (To m).
Proof.
  unfold is_ep. intros H. apply negb_true_iff, Z.eqb_neq in H.
  destruct (ms_ep _ _ Hshape H) as (Hr & _ & Hv & Hp & Hm).
  pose proof (ms_own _ _ Hshape) as [_ Ho].
  repeat split; try assumption; try lia. intros E. rewrite E in Hm. congruence.
Qed.

Lemma spec_after_view s :
  0 <= s < 64 ->
  b s = if s =? To m then (Z.land (MoveType m) 7, true)
        else if (s =? From m) || (is_ep m && (s =? To m - 8)) then (EMPTY, false)
        else (Piece p s, Z.testbit (PM p) s).
Proof.
  intros Hs. unfold spec_after.
  destruct (Z.eqb_spec s (To m)) as [->|Hne].
  - unfold board_of. destruct (ms_own _ _ Hshape) as [-> ->]. reflexivity.
  - destruct (s =? From m); [reflexivity|]. simpl.
    destruct (is_ep m && (s =? To m - 8)); reflexivity.
Qed.

Lemma occupancy_spec_after : occupancy b = occupancy_after p m.
Proof.
  apply eq64; [apply is64_occupancy|apply is64_occupancy_after|].
  intros s Hs. rewrite occupancy_bit, testbit_occupancy_after, spec_after_view
    by assumption.
  pose proof (ms_kind _ _ Hshape) as Hk. pose proof from_not_to as Hft.
  destruct (Z.eqb_spec s (To m)) as [->|Hne].
  - simpl. destruct (Z.eqb_spec (Z.land (MoveType m) 7) EMPTY) as [E|_];
      [unfold EMPTY in E; lia|].
    rewrite orb_true_r.
    destruct (is_ep m) eqn:E; [|reflexivity].
    destruct (ep_square E) as (_ & H & _).
    destruct (Z.eqb_spec (To m) (To m - 8)); [lia|reflexivity].
  - rewrite orb_false_r.
    destruct (Z.eqb_spec s (From m)) as [->|Hnf].
    + simpl. destruct (ms_own _ _ Hshape) as [Hp _].
      rewrite Hp. destruct (Z.eqb_spec (Z.land (MoveType m) 7) EMPTY) as [E|_];
        [unfold EMPTY in E; lia|].
      simpl. destruct (is_ep m) eqn:E; [|reflexivity].
      destruct (ep_square E) as (H & _).
      destruct (Z.eqb_spec (From m) (To m - 8)); [lia|reflexivity].
    + simpl. rewrite xorb_false_r. destruct (is_ep m) eqn:E; simpl.
      * destruct (ep_square E) as (_ & _ & _ & Hp & _).
        destruct (Z.eqb_spec s (To m - 8)) as [->|]; simpl.
        -- now rewrite Hp.
        -- now rewrite xorb_false_r.
      * now rewrite xorb_false_r.
Qed.

Lemma king_after_range : 0 <= k < 64.
Proof.
  unfold king_after. destruct (_ =? KING).
  - apply (ms_to _ _ Hshape).
  - apply (mover_king p Henc).
Qed.

Lemma king_after_view : b k = (KING, true).
Proof.
  pose proof king_after_range as Hr. rewrite spec_after_view by assumption.
  unfold king_after in *.
  destruct (Z.eqb_spec (Z.land (MoveType m) 7) KING) as [E|E].
  - now rewrite Z.eqb_refl, E.
  - destruct (mover_king p Henc) as (Hks & [Hp Hm] & _).
    set (ks := LSB (Z.land (Kings p) (PM p))) in *.
    destruct (Z.eqb_spec ks (To m)) as [E1|_].
    { rewrite E1, (ms_dest _ _ Hshape) in Hm. discriminate. }
    destruct (Z.eqb_spec ks (From m)) as [E2|_].
    { destruct (ms_own _ _ Hshape) as [Hp' _]. rewrite <- E2, Hp in Hp'.
      congruence. }
    simpl. destruct (is_ep m) eqn:Eep; simpl.
    + destruct (ep_square Eep) as (_ & _ & _ & _ & Hm' & _).
      destruct (Z.eqb_spec ks (To m - 8)) as [E3|_].
      { rewrite <- E3, Hm in Hm'. discriminate. }
      now rewrite Hp, Hm.
    + now rewrite Hp, Hm.
Qed.

Lemma king_square_after : king_square b true = Some k.
Proof.
  pose proof king_after_range as Hr. pose proof king_after_view as Hv.
  apply find_unique.
  - now apply in_squares.
  - rewrite Hv. reflexivity.
  - intros s Hs Hf. apply squares_range in Hs.
    apply andb_true_iff in Hf. destruct Hf as [Hf1 Hf2].
    apply Z.eqb_eq in Hf1. apply eqb_prop in Hf2.
    rewrite spec_after_view in Hf1, Hf2 by assumption.
    unfold king_after in *.
    destruct (Z.eqb_spec s (To m)) as [->|Hne].
    + simpl in Hf1. rewrite Hf1, Z.eqb_refl. reflexivity.
    + destruct ((s =? From m) || (is_ep m && (s =? To m - 8))) eqn:E;
        [discriminate|].
      simpl in Hf1, Hf2. apply orb_false_iff in E. destruct E as [E _].
      apply Z.eqb_neq in E.
      destruct (mover_king p Henc) as (_ & _ & Hu & _).
      assert (Hs' : s = LSB (Z.land (Kings p) (PM p))) by (apply Hu; now split).
      destruct (Z.eqb_spec (Z.land (MoveType m) 7) KING) as [Ek|Ek];
        [|assumption].
      exfalso. apply E. symmetry.
      rewrite Hs'. apply Hu; [apply (ms_from _ _ Hshape)|].
      rewrite <- Ek. apply (ms_own _ _ Hshape).
Qed.

Lemma king_bitboard :
  (if Z.land (MoveType m) 7 =? KING then shl64 1 (To m)
   else Z.land (Kings p) (PM p)) = shl64 1 k.
Proof.
  unfold king_after. destruct (_ =? KING); [reflexivity|].
  apply (mover_king p Henc).
Qed.

Lemma king_on_occupancy_after : Z.testbit (occupancy_after p m) k = true.
Proof.
  rewrite <- occupancy_spec_after, occupancy_bit, king_after_view
    by apply king_after_range.
  reflexivity.
Qed.

(** One square of the answer of [Illegal]: an opposing piece stands
    there after the move and attacks the king. *)
Lemma Illegal_bit t :
  0 <= t < 64 ->
  Z.testbit (Illegal p m) t
  = negb (fst (b t) =? EMPTY) && Bool.eqb (snd (b t)) false
    && piece_attacks b t k.
Proof.
  intros Ht. rewrite Illegal_unfold, king_bitboard.
  rewrite Z.land_spec, attackers_bit, testbit_opposing_after;
    auto using encoding_codes, king_after_range, king_on_occupancy_after;
    [|apply is64_occupancy_after].
  unfold piece_attacks. rewrite occupancy_spec_after, spec_after_view by assumption.
  destruct (Z.eqb_spec t (To m)) as [->|Hne]; simpl.
  - destruct (is_ep m) eqn:E; simpl; [|btauto].
    destruct (ep_square E) as (_ & H & _).
    destruct (Z.eqb_spec (To m) (To m - 8)); [lia|btauto].
  - destruct (Z.eqb_spec t (From m)) as [->|Hnf]; simpl.
    + destruct (ms_own _ _ Hshape) as [_ ->].
      destruct (is_ep m) eqn:E; simpl; [|btauto].
      destruct (ep_square E) as (H & _).
      destruct (Z.eqb_spec (From m) (To m - 8)); [lia|btauto].
    + destruct (is_ep m) eqn:E; simpl.
      * destruct (ep_square E) as (_ & _ & _ & Hp & Hm & _).
        destruct (Z.eqb_spec t (To m - 8)) as [->|_]; simpl.
        -- rewrite Hp, Hm. simpl. btauto.
        -- destruct (Z.testbit (PM p) t), (Piece p t =? EMPTY); simpl; btauto.
      * destruct (Z.testbit (PM p) t), (Piece p t =? EMPTY); simpl; btauto.
Qed.

Lemma is64_Illegal : is64 (Illegal p m).
Proof. rewrite Illegal_unfold. apply is64_land_r, is64_opposing_after. Qed.

Lemma Illegal_in_check :
  Illegal p m <> 0 <-> in_check (spec_after p m) true = true.
Proof.
  rewrite (nonzero_bits _ is64_Illegal).
  unfold in_check. rewrite king_square_after. unfold attacked_by. simpl negb.
  rewrite (existsb_ext_in (Z.testbit (Illegal p m))
             (fun t => negb (fst (b t) =? EMPTY) && Bool.eqb (snd (b t)) false
                       && piece_attacks b t k)).
  - reflexivity.
  - intros t Ht. apply Illegal_bit. now apply squares_range.
Qed.
End Filter.

(** C2: for every position that satisfies the encoding invariants and
    every move the generators emit from it, [Illegal] is nonzero exactly
    when, on the board after the move (the piece gone from From to To,
    the captured piece removed, the pawn behind the destination too for
    an en-passant capture), the mover's king stands on a square attacked
    by an opposing piece.  [Illegal] is a function of the position and
    the move and writes to neither. *)
Theorem Illegal_iff_king_attacked (p : TBoard) (m : TMove) :
  encoding_ok p = true ->
  In m (GenerateCapture p ++ GenerateQuiets p) ->
  Illegal p m <> 0 <-> in_check (spec_after p m) true = true.
Proof.
  intros Henc Hin. apply Illegal_in_check; [assumption|].
  apply gen_move_shape; [assumption|]. now apply generated_gen.
Qed.

Lemma Illegal_iff_king_attacked_witness :
  Illegal (LoadBoard fen_endgame) (mkMove PAWN 12 28 EMPTY) <> 0
  <-> in_check (spec_after (LoadBoard fen_endgame) (mkMove PAWN 12 28 EMPTY)) true
      = true.
Proof.
  apply Illegal_iff_king_attacked; [vm_compute; reflexivity|].
  vm_compute. auto 20.
Defined.

(** ** Games and the move buffers *)

Lemma find_move_legal p mv m :
  find_move p mv = Some m ->
  In m (GenerateCapture p ++ GenerateQuiets p) /\ legal p m = true.
Proof.
  unfold find_move. destruct mv as [[from to] prom]. intros H.
  apply List.find_some in H. destruct H as [H _].
  unfold legal_moves in H. apply List.filter_In in H. exact H.
Qed.

Lemma play_reachable game : forall p q, play p game = Some q -> reachable p q.
Proof.
  induction game as [|s rest IH]; intros p q H; simpl in H.
  - injection H as <-. constructor.
  - destruct (find_move p (parse_move s)) as [m|] eqn:E; [|discriminate].
    apply find_move_legal in E. destruct E as [Hin Hl].
    apply IH in H. clear IH.
    induction H as [|p' m' Hr IHr Hin' Hl'].
    + apply reach_make; [constructor|assumption|assumption].
    + apply reach_make; assumption.
Qed.

(** C10 fails: a legal position, reached from the start position by
    moves that are generated and pass the legality filter, in which
    [GenerateCapture] emits 66 moves, two more than [capture[64]]
    holds. *)
Theorem capture_list_exceeds_buffer :
  reachable (LoadBoard startpos) (LoadBoard crowded_fen)
  /\ legal_position (LoadBoard crowded_fen) = true
  /\ length (GenerateCapture (LoadBoard crowded_fen)) = 66%nat
  /\ (64 < length (GenerateCapture (LoadBoard crowded_fen)))%nat.
Proof.
  split; [|split; [|split]].
  - apply (play_reachable long_game). vm_compute. reflexivity.
  - vm_compute. reflexivity.
  - vm_compute. reflexivity.
  - vm_compute. lia.
Qed.

(** There [Perft] goes wrong, at depth 0 and 1 already: the moves
    generated at the root do not fit [capture]. *)
Lemma Perft_overruns_capture_buffer :
  buffers_fit (LoadBoard crowded_fen) = false
  /\ perft_of crowded_fen 0 = None
  /\ perft_of crowded_fen 1 = None.
Proof. vm_compute. repeat split. Qed.

(** ** The self-test suite *)

(** The one entry of the suite within reach of evaluation. *)
Lemma Perft_talkchess_depth3 : perft_of fen_talkchess 3 = Some 53392.
Proof. vm_compute. reflexivity. Qed.

(** The first plies of the other entries, against the published counts. *)
Lemma Perft_suite_shallow :
  map (perft_of startpos) [1; 2; 3] = [Some 20; Some 400; Some 8902]
  /\ map (perft_of fen_kiwipete) [1; 2] = [Some 48; Some 2039]
  /\ map (perft_of fen_endgame) [1; 2; 3] = [Some 14; Some 191; Some 2812]
  /\ map (perft_of fen_promotions) [1; 2] = [Some 6; Some 264]
  /\ map (perft_of fen_middlegame) [1; 2] = [Some 46; Some 2079].
Proof. vm_compute. repeat split. Qed.

(** ** Perft at depth 0 *)

Lemma Perft_depth0_startpos :
  encoding_ok (LoadBoard startpos) = true
  /\ perft_of startpos 0 = Some 20
  /\ perft_of startpos 0 <> Some 1.
Proof. vm_compute. repeat split. discriminate. Qed.

(** ** Witnesses *)

Lemma ChangeSide_involutive_witness :
  ChangeSide (ChangeSide (LoadBoard startpos)) = LoadBoard startpos.
Proof.
  apply ChangeSide_involutive. apply encoding_valid_fields.
  vm_compute. reflexivity.
Defined.

(** ** Make, bit by bit *)

Lemma flag_bit x i :
  0 <= i -> (Z.land x (Z.shiftl 1 i) =? 0) = negb (Z.testbit x i).
Proof.
  intros Hi. rewrite land_bit by assumption.
  destruct (Z.testbit x i); simpl; [|reflexivity].
  apply Z.eqb_neq. rewrite Z.shiftl_1_l. apply Z.pow_nonzero; lia.
Qed.

Lemma flag1 x : (Z.land x 1 =? 0) = negb (Z.testbit x 0).
Proof. apply (flag_bit x 0). lia. Qed.
Lemma flag2 x : (Z.land x 2 =? 0) = negb (Z.testbit x 1).
Proof. apply (flag_bit x 1). lia. Qed.
Lemma flag4 x : (Z.land x 4 =? 0) = negb (Z.testbit x 2).
Proof. apply (flag_bit x 2). lia. Qed.

Lemma low3 x :
  Z.land x 7 = 4 * Z.b2z (Z.testbit x 2) + 2 * Z.b2z (Z.testbit x 1)
               + Z.b2z (Z.testbit x 0).
Proof.
  transitivity (Z.lor (Z.lor (Z.land x 4) (Z.land x 2)) (Z.land x 1)).
  - rewrite <- !Z.land_lor_distr_r. reflexivity.
  - assert (E4 : Z.land x 4 = if Z.testbit x 2 then 4 else 0)
      by (apply (land_bit x 2); lia).
    assert (E2 : Z.land x 2 = if Z.testbit x 1 then 2 else 0)
      by (apply (land_bit x 1); lia).
    assert (E1 : Z.land x 1 = if Z.testbit x 0 then 1 else 0)
      by (apply (land_bit x 0); lia).
    rewrite E4, E2, E1.
    destruct (Z.testbit x 2), (Z.testbit x 1), (Z.testbit x 0); reflexivity.
Qed.

Lemma code_bits_inj (a2 a1 a0 c2 c1 c0 : bool) :
  4 * Z.b2z a2 + 2 * Z.b2z a1 + Z.b2z a0 = 4 * Z.b2z c2 + 2 * Z.b2z c1 + Z.b2z c0 ->
  a2 = c2 /\ a1 = c1 /\ a0 = c0.
Proof.
  destruct a2, a1, a0, c2, c1, c0; simpl; intros H;
    try discriminate H; repeat split.
Qed.

(** The planes of a square that holds the piece of code [c]. *)
Lemma Piece_planes p s c :
  0 <= s -> Piece p s = Z.land c 7 ->
  Z.testbit (P2 p) s = Z.testbit c 2 /\ Z.testbit (P1 p) s = Z.testbit c 1
  /\ Z.testbit (P0 p) s = Z.testbit c 0.
Proof.
  intros Hs H. rewrite Piece_bits, low3 in H by assumption.
  now apply code_bits_inj.
Qed.

Lemma testbit_one_at t s :
  0 <= t < 64 -> 0 <= s < 64 -> Z.testbit (shl64 1 t) s = (s =? t).
Proof. intros Ht Hs. rewrite shl64_1, testbit_bit by lia. reflexivity. Qed.

Lemma capture_rights_planes m p :
  P0 (capture_rights m p) = P0 p /\ P1 (capture_rights m p) = P1 p
  /\ P2 (capture_rights m p) = P2 p /\ PM (capture_rights m p) = PM p
  /\ EnPassant (capture_rights m p) = EnPassant p.
Proof.
  unfold capture_rights.
  destruct (_ =? 0); [tauto|]. destruct (_ =? 63); [simpl; tauto|].
  destruct (_ =? 56); simpl; tauto.
Qed.

Lemma squares_agree (f g : Z -> bool) :
  forallb (fun s => Bool.eqb (f s) (g s)) squares = true ->
  forall s, 0 <= s < 64 -> f s = g s.
Proof.
  intros H s Hs. apply eqb_prop.
  exact (check_squares (fun s => Bool.eqb (f s) (g s)) H s Hs).
Qed.

Section MakeBits.
Variables (p : TBoard) (m : TMove) (s : Z).
Hypothesis Hfrom : 0 <= From m < 64.
Hypothesis Hto : 0 <= To m < 64.
Hypothesis Hs : 0 <= s < 64.

Local Abbreviation part := (shl64 1 (From m)).
Local Abbreviation dest := (shl64 1 (To m)).
Local Abbreviation d := ((s =? From m) || (s =? To m)).
Local Abbreviation keep := (negb (is_capture m && (s =? To m))).

Lemma delete_captured_bits (q : TBoard) :
  let r := if Z.land (MoveType m) CAPTURE =? 0 then q else delete_captured dest q in
  Z.testbit (P0 r) s = Z.testbit (P0 q) s && keep
  /\ Z.testbit (P1 r) s = Z.testbit (P1 q) s && keep
  /\ Z.testbit (P2 r) s = Z.testbit (P2 q) s && keep
  /\ PM r = PM q /\ CastleFlags r = CastleFlags q /\ EnPassant r = EnPassant q.
Proof.
  unfold is_capture. destruct (_ =? 0); simpl.
  - rewrite !andb_true_r. tauto.
  - rewrite !Z.land_spec, testbit_neg64, testbit_one_at by lia. tauto.
Qed.

Lemma MakePiece_bits :
  let q := MakePiece m part dest p in
  Z.testbit (P0 q) s
  = xorb (Z.testbit (P0 p) s && keep) (Z.testbit (MoveType m) 0 && d)
  /\ Z.testbit (P1 q) s
     = xorb (Z.testbit (P1 p) s && keep) (Z.testbit (MoveType m) 1 && d)
  /\ Z.testbit (P2 q) s
     = xorb (Z.testbit (P2 p) s && keep) (Z.testbit (MoveType m) 2 && d)
  /\ Z.testbit (PM q) s = xorb (Z.testbit (PM p) s) d.
Proof.
  intros q. subst q. unfold MakePiece.
  cbv zeta.
  match goal with
  | |- context [capture_rights m ?x] =>
      destruct (capture_rights_planes m x) as (-> & -> & -> & -> & _)
  end.
  destruct (delete_captured_bits p) as (E0 & E1 & E2 & EM & _).
  set (r := if Z.land (MoveType m) CAPTURE =? 0 then p else delete_captured dest p)
    in *.
  assert (Hd : Z.testbit (Z.lor part dest) s = d).
  { rewrite Z.lor_spec, !testbit_one_at by lia. reflexivity. }
  rewrite flag1, flag2, flag4.
  destruct (Z.land (MoveType m) 7 =? ROOK), (From m =? 7), (From m =? 0);
    cbn [P0 P1 P2 PM set_P0 set_P1 set_P2 set_PM set_EnPassant
         ResetCastleSM ResetCastleLM set_CastleFlags];
    rewrite !Z.lxor_spec, E0, E1, E2, EM;
    destruct (Z.testbit (MoveType m) 0), (Z.testbit (MoveType m) 1),
      (Z.testbit (MoveType m) 2); cbn [negb andb];
    rewrite ?Hd, ?Z.testbit_0_l; tauto.
Qed.

Lemma MakeKing_bits :
  let q := MakeKing m part dest p in
  let c := negb (is_capture m) && is_castle m
           && (if To m =? 6 then (s =? 5) || (s =? 7) else (s =? 0) || (s =? 3)) in
  Z.testbit (P0 q) s = Z.testbit (P0 p) s && keep
  /\ Z.testbit (P1 q) s = xorb (Z.testbit (P1 p) s && keep) d
  /\ Z.testbit (P2 q) s = xorb (xorb (Z.testbit (P2 p) s && keep) d) c
  /\ Z.testbit (PM q) s = xorb (xorb (Z.testbit (PM p) s) d) c.
Proof.
  intros q c. subst q c. unfold MakeKing.
  destruct (delete_captured_bits p) as (E0 & E1 & E2 & EM & _).
  set (r := if Z.land (MoveType m) CAPTURE =? 0 then p else delete_captured dest p)
    in *.
  cbv zeta.
  assert (Hd : Z.testbit (Z.lor part dest) s = d).
  { rewrite Z.lor_spec, !testbit_one_at by lia. reflexivity. }
  assert (HA : Z.testbit 0xA0 s = (s =? 5) || (s =? 7)).
  { apply (squares_agree (Z.testbit 0xA0) (fun s => (s =? 5) || (s =? 7)));
      [vm_compute; reflexivity|assumption]. }
  assert (H9 : Z.testbit 0x09 s = (s =? 0) || (s =? 3)).
  { apply (squares_agree (Z.testbit 0x09) (fun s => (s =? 0) || (s =? 3)));
      [vm_compute; reflexivity|assumption]. }
  clearbody r. unfold is_capture, is_castle in *.
  destruct (Z.land (MoveType m) CAPTURE =? 0); cbn [negb andb] in *.
  - destruct (Z.land (MoveType m) CASTLE =? 0); cbn [negb andb];
      [|destruct (To m =? 6)];
      cbn [P0 P1 P2 PM set_P0 set_P1 set_P2 set_PM set_EnPassant
           ResetCastleSM ResetCastleLM set_CastleFlags];
      rewrite ?Z.lxor_spec, E0, E1, E2, EM, ?Hd, ?HA, ?H9, ?xorb_false_r; tauto.
  - destruct (_ && (To m =? 63)); [|destruct (_ && (To m =? 56))];
      cbn [P0 P1 P2 PM set_P0 set_P1 set_P2 set_PM set_EnPassant
           ResetCastleSM ResetCastleLM ResetCastleSO ResetCastleLO set_CastleFlags];
      rewrite ?Z.lxor_spec, E0, E1, E2, EM, ?Hd, ?xorb_false_r; tauto.
Qed.

Lemma testbit_at (x : Z) :
  0 <= x <= 1 -> Z.testbit (shl64 x (To m)) s = (s =? To m) && (x =? 1).
Proof.
  intros Hx. rewrite testbit_shl64 by lia.
  assert (E : x = 0 \/ x = 1) by lia. destruct E as [-> | ->].
  - rewrite Z.testbit_0_l, andb_false_r. reflexivity.
  - destruct (Z.eqb_spec s (To m)) as [->|Hne].
    + rewrite Z.sub_diag. simpl. destruct (Z.ltb_spec (To m) 64); [reflexivity|lia].
    + destruct (Z.ltb_spec (s - To m) 0).
      * rewrite Z.testbit_neg_r by lia. reflexivity.
      * assert (Z.testbit 1 (s - To m) = false) as ->; [|reflexivity].
        apply Z.bits_above_log2; simpl; lia.
Qed.

Lemma MakePawn_bits :
  0 <= Prom m < 8 ->
  let q := MakePawn m part dest p in
  Z.testbit (PM q) s = xorb (Z.testbit (PM p) s) d
  /\ if is_ep m then
       Z.testbit (P0 q) s = xorb (xorb (Z.testbit (P0 p) s) d) (s =? To m - 8)
       /\ Z.testbit (P1 q) s = Z.testbit (P1 p) s
       /\ Z.testbit (P2 q) s = Z.testbit (P2 p) s
     else if is_promo m then
       Z.testbit (P0 q) s
       = xorb (Z.testbit (P0 p) s && keep) (s =? From m)
         || (s =? To m) && Z.testbit (Prom m) 0
       /\ Z.testbit (P1 q) s
          = Z.testbit (P1 p) s && keep || (s =? To m) && Z.testbit (Prom m) 1
       /\ Z.testbit (P2 q) s
          = Z.testbit (P2 p) s && keep || (s =? To m) && Z.testbit (Prom m) 2
     else
       Z.testbit (P0 q) s = xorb (Z.testbit (P0 p) s && keep) d
       /\ Z.testbit (P1 q) s = Z.testbit (P1 p) s && keep
       /\ Z.testbit (P2 q) s = Z.testbit (P2 p) s && keep.
Proof.
  intros Hprom q. subst q. unfold MakePawn, is_ep, is_promo.
  assert (Hd : Z.testbit (Z.lor part dest) s = d).
  { rewrite Z.lor_spec, !testbit_one_at by lia. reflexivity. }
  destruct (Z.land (MoveType m) EP =? 0); cbn [negb].
  - destruct (delete_captured_bits p) as (E0 & E1 & E2 & EM & _).
    set (r := if Z.land (MoveType m) CAPTURE =? 0 then p
              else delete_captured dest p) in *.
    cbv zeta.
    match goal with
    | |- context [capture_rights m ?x] =>
        destruct (capture_rights_planes m x) as (-> & -> & -> & -> & _)
    end.
    destruct (Z.land (MoveType m) PROMO =? 0); cbn [negb].
    + match goal with
      | |- context [if ?c then set_EnPassant _ _ else _] => destruct c
      end;
        cbn [P0 P1 P2 PM set_P0 set_P1 set_P2 set_PM set_EnPassant];
        rewrite ?Z.lxor_spec, E0, E1, E2, EM, ?Hd; tauto.
    + cbn [P0 P1 P2 PM set_P0 set_P1 set_P2 set_PM set_EnPassant].
      rewrite !Z.lor_spec, !Z.lxor_spec, E0, E1, E2, EM, ?Hd.
      assert (B0 : Z.land (Prom m) 1 = Z.b2z (Z.testbit (Prom m) 0))
        by (apply (low_bit (Prom m) 0); lia).
      assert (B1 : Z.land (Z.shiftr (Prom m) 1) 1 = Z.b2z (Z.testbit (Prom m) 1))
        by (apply (low_bit (Prom m) 1); lia).
      assert (B2 : Z.shiftr (Prom m) 2 = Z.b2z (Z.testbit (Prom m) 2)).
      { assert (E : Z.shiftr (Prom m) 2 = Z.land (shr64 (Prom m) 2) 1).
        { unfold shr64. change 1 with (Z.ones 1). rewrite Z.land_ones by lia.
          rewrite Z.shiftr_div_pow2 by lia. symmetry. apply Z.mod_small.
          change (2 ^ 2) with 4. change (2 ^ 1) with 2.
          clear - Hprom. Z.div_mod_to_equations. lia. }
        rewrite E. apply low_bit. lia. }
      rewrite B0, B1, B2.
      rewrite !testbit_at
        by (match goal with |- context [Z.b2z ?b] => destruct b end; simpl; lia).
      rewrite testbit_one_at by lia.
      destruct (Z.testbit (Prom m) 0), (Z.testbit (Prom m) 1),
        (Z.testbit (Prom m) 2); cbn [Z.b2z Z.eqb]; tauto.
  - cbn [P0 P1 P2 PM set_P0 set_P1 set_P2 set_PM set_EnPassant].
    rewrite !Z.lxor_spec, Hd, testbit_behind by lia. tauto.
Qed.

End MakeBits.

(** ** The flags of generated moves *)

Section Flags.
Variable p : TBoard.
Hypothesis Henc : encoding_ok p = true.

Lemma own_rook_h1 : CastleSM p <> 0 -> own p ROOK 7.
Proof.
  intros H. pose proof (encoding_castle p Henc) as Hc. unfold castle_ok in Hc.
  rewrite !andb_true_iff in Hc. destruct Hc as [[[Hc _] _] _].
  apply orb_true_iff in Hc. destruct Hc as [Hc|Hc];
    [apply Z.eqb_eq in Hc; contradiction|].
  apply andb_true_iff in Hc. destruct Hc as [_ Hc].
  rewrite Z.land_spec, testbit_Rooks in Hc by lia.
  apply andb_true_iff in Hc. destruct Hc as [H1 H2]. apply Z.eqb_eq in H1.
  now split.
Qed.

Lemma own_rook_a1 : CastleLM p <> 0 -> own p ROOK 0.
Proof.
  intros H. pose proof (encoding_castle p Henc) as Hc. unfold castle_ok in Hc.
  rewrite !andb_true_iff in Hc. destruct Hc as [[[_ Hc] _] _].
  apply orb_true_iff in Hc. destruct Hc as [Hc|Hc];
    [apply Z.eqb_eq in Hc; contradiction|].
  apply andb_true_iff in Hc. destruct Hc as [_ Hc].
  rewrite Z.land_spec, testbit_Rooks in Hc by lia.
  apply andb_true_iff in Hc. destruct Hc as [H1 H2]. apply Z.eqb_eq in H1.
  now split.
Qed.

Lemma promotion_piece_range c : In c promotion_pieces -> 0 <= c < 8.
Proof.
  unfold promotion_pieces. simpl.
  intros H. repeat (destruct H as [<-|H]; [vm_compute; split; congruence|]).
  contradiction.
Qed.

Ltac flag_values :=
  match goal with
  | |- move_flags _ ?m =>
      let c := eval vm_compute in (is_capture m) in
      let pr := eval vm_compute in (is_promo m) in
      let ca := eval vm_compute in (is_castle m) in
      let k := eval vm_compute in (Z.land (MoveType m) 7) in
      constructor;
      change (is_capture m) with c; change (is_promo m) with pr;
      change (is_castle m) with ca; change (Z.land (MoveType m) 7) with k;
      cbn [From To Prom];
      try (intros Hx; discriminate Hx);
      try (intros ? Hx; discriminate Hx);
      try (intros; assumption);
      try (unfold EMPTY; intros; lia)
  end.

Lemma gen_move_flags m : gen_move p m -> move_flags p m.
Proof.
  intros H. destruct H.
  - unfold king_to_knight in H. simpl in H.
    repeat (destruct H as [<-|H]; [flag_values|]). contradiction.
  - unfold king_to_knight in H. simpl in H.
    repeat (destruct H as [<-|H]; [flag_values|]). contradiction.
  - flag_values.
  - flag_values. intros _ _. split; [lia|assumption].
  - flag_values.
    + intros _. now apply (vacant_of_land_zero p 0x0E).
    + intros _. repeat split. right. repeat split; try reflexivity.
      * apply (own_rook_a1 H).
      * apply (own_rook_a1 H).
      * now apply (vacant_of_land_zero p 0x0E).
      * now apply (vacant_of_land_zero p 0x0E).
  - flag_values.
    + intros _. now apply (vacant_of_land_zero p 0x60).
    + intros _. repeat split. left. repeat split; try reflexivity.
      * apply (own_rook_h1 H).
      * apply (own_rook_h1 H).
      * now apply (vacant_of_land_zero p 0x60).
  - assert (delta = 9 \/ delta = 7) by (unfold capture_step in H; tauto).
    flag_values.
  - assert (delta = 9 \/ delta = 7) by (unfold capture_step in H; tauto).
    flag_values.
    + now apply promotion_piece_range.
    + intros _. repeat split; [lia|assumption].
  - flag_values.
    + now apply promotion_piece_range.
    + intros _. repeat split; [lia|assumption].
  - flag_values.
    intros _ E. exfalso.
    pose proof (squares_agree
      (fun s => Z.testbit (EnPassantG 0) s || Z.testbit (EnPassantG 1) s
                || Z.testbit (EnPassantG 2) s || Z.testbit (EnPassantG 3) s
                || Z.testbit (EnPassantG 4) s || Z.testbit (EnPassantG 5) s
                || Z.testbit (EnPassantG 6) s || Z.testbit (EnPassantG 7) s)
      (fun s => (32 <=? s) && (s <? 40)) ltac:(vm_compute; reflexivity) sq H0)
      as Hr.
    cbv beta in Hr.
    assert (He : EnPassant p = 0 \/ EnPassant p = 1 \/ EnPassant p = 2
                 \/ EnPassant p = 3 \/ EnPassant p = 4 \/ EnPassant p = 5
                 \/ EnPassant p = 6 \/ EnPassant p = 7) by lia.
    assert (Hb : (32 <=? sq) && (sq <? 40) = true).
    { rewrite <- Hr.
      repeat (destruct He as [He|He];
              [rewrite He in H2; rewrite H2, ?orb_true_r; reflexivity|]).
      rewrite He in H2. rewrite H2, ?orb_true_r. reflexivity. }
    apply andb_true_iff in Hb. destruct Hb as [Hb1 Hb2].
    apply Z.leb_le in Hb1. apply Z.ltb_lt in Hb2. lia.
Qed.

End Flags.

(** ** The board after Make, before the side changes *)

Lemma board_of_planes q s c mine :
  0 <= s ->
  Z.testbit (P2 q) s = Z.testbit c 2 -> Z.testbit (P1 q) s = Z.testbit c 1 ->
  Z.testbit (P0 q) s = Z.testbit c 0 -> Z.testbit (PM q) s = mine ->
  board_of q s = (Z.land c 7, mine).
Proof.
  intros Hs H2 H1 H0 HM. unfold board_of.
  rewrite Piece_bits, low3, H2, H1, H0, HM by assumption. reflexivity.
Qed.

Lemma board_of_same q p s :
  0 <= s ->
  Z.testbit (P2 q) s = Z.testbit (P2 p) s ->
  Z.testbit (P1 q) s = Z.testbit (P1 p) s ->
  Z.testbit (P0 q) s = Z.testbit (P0 p) s ->
  Z.testbit (PM q) s = Z.testbit (PM p) s ->
  board_of q s = board_of p s.
Proof.
  intros Hs H2 H1 H0 HM. unfold board_of.
  rewrite !Piece_bits, H2, H1, H0, HM by assumption. reflexivity.
Qed.

Lemma vacant_planes p s :
  0 <= s -> vacant p s ->
  Z.testbit (P2 p) s = false /\ Z.testbit (P1 p) s = false
  /\ Z.testbit (P0 p) s = false.
Proof.
  intros Hs Hv. destruct (Piece_planes p s 0 Hs Hv) as (H2 & H1 & H0).
  rewrite Z.testbit_0_l in H2, H1, H0. tauto.
Qed.

Section View.
Variables (p : TBoard) (m : TMove).
Hypothesis Henc : encoding_ok p = true.
Hypothesis Hshape : move_shape p m.
Hypothesis Hflags : move_flags p m.

Lemma from_planes :
  Z.testbit (P2 p) (From m) = Z.testbit (MoveType m) 2
  /\ Z.testbit (P1 p) (From m) = Z.testbit (MoveType m) 1
  /\ Z.testbit (P0 p) (From m) = Z.testbit (MoveType m) 0
  /\ Z.testbit (PM p) (From m) = true.
Proof.
  pose proof (ms_from _ _ Hshape) as Hf.
  destruct (ms_own _ _ Hshape) as [Ho Hm].
  destruct (Piece_planes p (From m) (MoveType m) ltac:(lia) Ho) as (H2 & H1 & H0).
  tauto.
Qed.

(** The planes of the destination, once the captured piece is gone. *)
Lemma to_planes :
  Z.testbit (P2 p) (To m) && negb (is_capture m) = false
  /\ Z.testbit (P1 p) (To m) && negb (is_capture m) = false
  /\ Z.testbit (P0 p) (To m) && negb (is_capture m) = false
  /\ Z.testbit (PM p) (To m) = false.
Proof.
  pose proof (ms_to _ _ Hshape) as Ht.
  pose proof (ms_dest _ _ Hshape) as Hd.
  destruct (is_capture m) eqn:E; cbn [negb]; rewrite ?andb_false_r.
  - tauto.
  - destruct (vacant_planes p (To m) ltac:(lia) (mf_quiet _ _ Hflags E))
      as (-> & -> & ->). tauto.
Qed.

(** A move that is neither a castling, nor a promotion, nor an
    en-passant capture: the piece leaves [From] and lands on [To]. *)
Lemma plain_view q s :
  0 <= s < 64 ->
  is_castle m = false -> is_promo m = false -> is_ep m = false ->
  let d := (s =? From m) || (s =? To m) in
  let keep := negb (is_capture m && (s =? To m)) in
  Z.testbit (P0 q) s
  = xorb (Z.testbit (P0 p) s && keep) (Z.testbit (MoveType m) 0 && d) ->
  Z.testbit (P1 q) s
  = xorb (Z.testbit (P1 p) s && keep) (Z.testbit (MoveType m) 1 && d) ->
  Z.testbit (P2 q) s
  = xorb (Z.testbit (P2 p) s && keep) (Z.testbit (MoveType m) 2 && d) ->
  Z.testbit (PM q) s = xorb (Z.testbit (PM p) s) d ->
  board_of q s = after_move p m s.
Proof.
  intros Hs Hc Hp He d keep H0 H1 H2 HM. subst d keep.
  unfold after_move. rewrite Hc, Hp. cbn [andb].
  rewrite spec_after_view by assumption. rewrite He. cbn [andb]. rewrite orb_false_r.
  destruct from_planes as (F2 & F1 & F0 & FM).
  destruct to_planes as (T2 & T1 & T0 & TM).
  pose proof (from_not_to p m Hshape) as Hne.
  destruct (Z.eqb_spec s (To m)) as [->|Hnt].
  - rewrite orb_true_r, andb_true_r in *.
    apply board_of_planes; [lia|..].
    + rewrite H2, T2, andb_true_r. reflexivity.
    + rewrite H1, T1, andb_true_r. reflexivity.
    + rewrite H0, T0, andb_true_r. reflexivity.
    + rewrite HM, TM. reflexivity.
  - rewrite andb_false_r, orb_false_r in *. cbn [negb] in *.
    rewrite andb_true_r in *.
    destruct (Z.eqb_spec s (From m)) as [->|Hnf].
    + apply (board_of_planes q (From m) 0); [lia|..];
        rewrite ?Z.testbit_0_l, ?H2, ?H1, ?H0, ?HM, ?F2, ?F1, ?F0, ?FM,
          ?andb_true_r; apply xorb_nilpotent.
    + apply board_of_same; [lia|..];
        rewrite ?H2, ?H1, ?H0, ?HM, ?andb_false_r, ?xorb_false_r; reflexivity.
Qed.

Lemma kind_bits (c2 c1 c0 : bool) :
  Z.land (MoveType m) 7 = 4 * Z.b2z c2 + 2 * Z.b2z c1 + Z.b2z c0 ->
  Z.testbit (MoveType m) 2 = c2 /\ Z.testbit (MoveType m) 1 = c1
  /\ Z.testbit (MoveType m) 0 = c0.
Proof. rewrite low3. apply code_bits_inj. Qed.

Lemma not_castle : Z.land (MoveType m) 7 <> KING -> is_castle m = false.
Proof.
  intros H. destruct (is_castle m) eqn:E; [|reflexivity].
  destruct (mf_castle _ _ Hflags E) as (Hk & _). contradiction.
Qed.

Lemma not_promo : Z.land (MoveType m) 7 <> PAWN -> is_promo m = false.
Proof.
  intros H. destruct (is_promo m) eqn:E; [|reflexivity].
  destruct (mf_promo _ _ Hflags E) as (Hk & _). contradiction.
Qed.

Lemma not_ep : Z.land (MoveType m) 7 <> PAWN -> is_ep m = false.
Proof.
  intros H. destruct (is_ep m) eqn:E; [|reflexivity].
  unfold is_ep in E. apply negb_true_iff, Z.eqb_neq in E.
  destruct (ms_ep _ _ Hshape E) as (_ & Hk & _). contradiction.
Qed.

Lemma ep_not_promo : is_ep m = true -> is_promo m = false.
Proof.
  intros E. destruct (is_promo m) eqn:Ep; [|reflexivity].
  destruct (mf_promo _ _ Hflags Ep) as (_ & Ht & _).
  unfold is_ep in E. apply negb_true_iff, Z.eqb_neq in E.
  destruct (ms_ep _ _ Hshape E) as (Hr & _). lia.
Qed.

Lemma ep_view q s :
  0 <= s < 64 -> is_ep m = true ->
  let d := (s =? From m) || (s =? To m) in
  Z.testbit (P0 q) s = xorb (xorb (Z.testbit (P0 p) s) d) (s =? To m - 8) ->
  Z.testbit (P1 q) s = Z.testbit (P1 p) s ->
  Z.testbit (P2 q) s = Z.testbit (P2 p) s ->
  Z.testbit (PM q) s = xorb (Z.testbit (PM p) s) d ->
  board_of q s = after_move p m s.
Proof.
  intros Hs He d H0 H1 H2 HM. subst d.
  assert (Hk : Z.land (MoveType m) 7 = PAWN).
  { destruct (Z.eq_dec (Z.land (MoveType m) 7) PAWN) as [E|E]; [exact E|].
    apply not_ep in E. congruence. }
  unfold after_move. rewrite not_castle, (ep_not_promo He) by (rewrite Hk; discriminate).
  cbn [andb].
  rewrite spec_after_view by assumption. rewrite He. cbn [andb].
  destruct from_planes as (F2 & F1 & F0 & FM).
  destruct (kind_bits false false true Hk) as (K2 & K1 & K0).
  rewrite K2 in F2. rewrite K1 in F1. rewrite K0 in F0.
  destruct (ep_square p m Hshape He) as (N1 & N2 & Hr & Hp & Hm & Hv).
  pose proof (ms_to _ _ Hshape) as Ht.
  destruct (vacant_planes p (To m) ltac:(lia) Hv) as (T2 & T1 & T0).
  pose proof (ms_dest _ _ Hshape) as TM.
  pose proof (from_not_to p m Hshape) as Hne.
  destruct (Z.eqb_spec s (To m)) as [->|Hnt].
  - rewrite Hk. apply (board_of_planes q (To m) 1); [lia|..];
      rewrite ?H2, ?H1, ?H0, ?HM, ?T2, ?T1, ?T0, ?TM, ?orb_true_r; try reflexivity.
    destruct (Z.eqb_spec (To m) (To m - 8)); [lia|reflexivity].
  - rewrite orb_false_r in *.
    destruct (Z.eqb_spec s (From m)) as [->|Hnf]; cbn [orb].
    + apply (board_of_planes q (From m) 0); [lia|..];
        rewrite ?H2, ?H1, ?H0, ?HM, ?F2, ?F1, ?F0, ?FM; try reflexivity.
      destruct (Z.eqb_spec (From m) (To m - 8)); [lia|reflexivity].
    + destruct (Z.eqb_spec s (To m - 8)) as [->|Hnb].
      * destruct (Piece_planes p (To m - 8) 1 ltac:(lia) Hp) as (B2 & B1 & B0).
        apply (board_of_planes q (To m - 8) 0); [lia|..];
          rewrite ?H2, ?H1, ?H0, ?HM, ?B2, ?B1, ?B0, ?Hm; reflexivity.
      * apply board_of_same; [lia|..];
          rewrite ?H2, ?H1, ?H0, ?HM, ?xorb_false_r; reflexivity.
Qed.

Lemma promo_view q s :
  0 <= s < 64 -> is_promo m = true ->
  let d := (s =? From m) || (s =? To m) in
  let keep := negb (is_capture m && (s =? To m)) in
  Z.testbit (P0 q) s
  = xorb (Z.testbit (P0 p) s && keep) (s =? From m)
    || (s =? To m) && Z.testbit (Prom m) 0 ->
  Z.testbit (P1 q) s
  = Z.testbit (P1 p) s && keep || (s =? To m) && Z.testbit (Prom m) 1 ->
  Z.testbit (P2 q) s
  = Z.testbit (P2 p) s && keep || (s =? To m) && Z.testbit (Prom m) 2 ->
  Z.testbit (PM q) s = xorb (Z.testbit (PM p) s) d ->
  board_of q s = after_move p m s.
Proof.
  intros Hs Hp d keep H0 H1 H2 HM. subst d keep.
  destruct (mf_promo _ _ Hflags Hp) as (Hk & Ht56 & Hin).
  assert (He : is_ep m = false).
  { destruct (is_ep m) eqn:E; [|reflexivity].
    apply ep_not_promo in E. congruence. }
  unfold after_move. rewrite not_castle, Hp by (rewrite Hk; discriminate).
  cbn [andb].
  destruct from_planes as (F2 & F1 & F0 & FM).
  destruct (kind_bits false false true Hk) as (K2 & K1 & K0).
  rewrite K2 in F2. rewrite K1 in F1. rewrite K0 in F0.
  destruct to_planes as (T2 & T1 & T0 & TM).
  pose proof (from_not_to p m Hshape) as Hne.
  pose proof (mf_prom _ _ Hflags) as Hpr.
  destruct (Z.eqb_spec s (To m)) as [->|Hnt].
  - rewrite ?andb_true_r in *. cbn [andb] in *.
    replace (Prom m) with (Z.land (Prom m) 7) at 1.
    2:{ change 7 with (Z.ones 3). rewrite Z.land_ones by lia.
        apply Z.mod_small. change (2 ^ 3) with 8. lia. }
    apply board_of_planes; [lia|..];
      rewrite ?H2, ?H1, ?H0, ?HM, ?T2, ?T1, ?T0, ?TM, ?orb_true_r; try reflexivity.
    destruct (Z.eqb_spec (To m) (From m)); [congruence|reflexivity].
  - rewrite spec_after_view by assumption. rewrite He. cbn [andb].
    rewrite ?orb_false_r in *.
    destruct (Z.eqb_spec s (To m)); [contradiction|].
    rewrite ?andb_false_r in *. cbn [negb andb] in *.
    rewrite ?andb_true_r, ?orb_false_r in *.
    destruct (Z.eqb_spec s (From m)) as [->|Hnf].
    + apply (board_of_planes q (From m) 0); [lia|..];
        rewrite ?H2, ?H1, ?H0, ?HM, ?F2, ?F1, ?F0, ?FM; reflexivity.
    + apply board_of_same; [lia|..];
        rewrite ?H2, ?H1, ?H0, ?HM, ?xorb_false_r; reflexivity.
Qed.

Lemma castle_view q s :
  0 <= s < 64 -> is_castle m = true ->
  let d := (s =? From m) || (s =? To m) in
  let c := if To m =? 6 then (s =? 5) || (s =? 7) else (s =? 0) || (s =? 3) in
  Z.testbit (P0 q) s = Z.testbit (P0 p) s ->
  Z.testbit (P1 q) s = xorb (Z.testbit (P1 p) s) d ->
  Z.testbit (P2 q) s = xorb (xorb (Z.testbit (P2 p) s) d) c ->
  Z.testbit (PM q) s = xorb (xorb (Z.testbit (PM p) s) d) c ->
  board_of q s = after_move p m s.
Proof.
  intros Hs Hc d c H0 H1 H2 HM. subst d c.
  destruct (mf_castle _ _ Hflags Hc) as (Hk & Hcap & Hf & Hside).
  unfold after_move. rewrite Hc, not_promo by (rewrite Hk; discriminate).
  cbn [andb].
  rewrite spec_after_view by assumption.
  rewrite not_ep by (rewrite Hk; discriminate). cbn [andb].
  rewrite orb_false_r.
  destruct from_planes as (F2 & F1 & F0 & FM).
  destruct (kind_bits true true false Hk) as (K2 & K1 & K0).
  rewrite K2 in F2. rewrite K1 in F1. rewrite K0 in F0.
  destruct (vacant_planes p (To m) ltac:(pose proof (ms_to _ _ Hshape); lia)
              (mf_quiet _ _ Hflags Hcap)) as (T2 & T1 & T0).
  pose proof (ms_dest _ _ Hshape) as TM.
  unfold rook_castled, rook_home. rewrite Hk.
  rewrite Hf in *.
  destruct Hside as [(Ht & [Hr HrM] & Hv)|(Ht & [Hr HrM] & Hv & _)];
    rewrite Ht in *; cbn [Z.eqb Pos.eqb] in *.
  - destruct (vacant_planes p 5 ltac:(lia) Hv) as (V2 & V1 & V0).
    pose proof (vacant_not_mine p Henc 5 ltac:(lia) Hv) as VM.
    destruct (Piece_planes p 7 4 ltac:(lia) Hr) as (R2 & R1 & R0).
    destruct (Z.eqb_spec s 5) as [->|N5].
    { apply (board_of_planes q 5 4); [lia|..];
        rewrite ?H2, ?H1, ?H0, ?HM, ?V2, ?V1, ?V0, ?VM; reflexivity. }
    destruct (Z.eqb_spec s 7) as [->|N7].
    { apply (board_of_planes q 7 0); [lia|..];
        rewrite ?H2, ?H1, ?H0, ?HM, ?R2, ?R1, ?R0, ?HrM; reflexivity. }
    cbn [orb] in *. rewrite ?xorb_false_r in *.
    destruct (Z.eqb_spec s 6) as [->|N6].
    { apply (board_of_planes q 6 6); [lia|..];
        rewrite ?H2, ?H1, ?H0, ?HM, ?T2, ?T1, ?T0, ?TM; reflexivity. }
    destruct (Z.eqb_spec s 4) as [->|N4].
    { apply (board_of_planes q 4 0); [lia|..];
        rewrite ?H2, ?H1, ?H0, ?HM, ?F2, ?F1, ?F0, ?FM; reflexivity. }
    apply board_of_same; [lia|..];
      rewrite ?H2, ?H1, ?H0, ?HM, ?xorb_false_r; reflexivity.
  - destruct (vacant_planes p 3 ltac:(lia) Hv) as (V2 & V1 & V0).
    pose proof (vacant_not_mine p Henc 3 ltac:(lia) Hv) as VM.
    destruct (Piece_planes p 0 4 ltac:(lia) Hr) as (R2 & R1 & R0).
    destruct (Z.eqb_spec s 3) as [->|N3].
    { apply (board_of_planes q 3 4); [lia|..];
        rewrite ?H2, ?H1, ?H0, ?HM, ?V2, ?V1, ?V0, ?VM; reflexivity. }
    destruct (Z.eqb_spec s 0) as [->|N0].
    { apply (board_of_planes q 0 0); [lia|..];
        rewrite ?H2, ?H1, ?H0, ?HM, ?R2, ?R1, ?R0, ?HrM; reflexivity. }
    cbn [orb] in *. rewrite ?xorb_false_r in *.
    destruct (Z.eqb_spec s 2) as [->|N2].
    { apply (board_of_planes q 2 6); [lia|..];
        rewrite ?H2, ?H1, ?H0, ?HM, ?T2, ?T1, ?T0, ?TM; reflexivity. }
    destruct (Z.eqb_spec s 4) as [->|N4].
    { apply (board_of_planes q 4 0); [lia|..];
        rewrite ?H2, ?H1, ?H0, ?HM, ?F2, ?F1, ?F0, ?FM; reflexivity. }
    apply board_of_same; [lia|..];
      rewrite ?H2, ?H1, ?H0, ?HM, ?xorb_false_r; reflexivity.
Qed.

Lemma moved_view s : 0 <= s < 64 -> board_of (moved m p) s = after_move p m s.
Proof.
  intros Hs. pose proof (ms_from _ _ Hshape) as Hf.
  pose proof (ms_to _ _ Hshape) as Ht. pose proof (ms_kind _ _ Hshape) as Hk.
  unfold moved. cbv zeta.
  destruct (Z.eqb_spec (Z.land (MoveType m) 7) PAWN) as [Ep|Ep].
  - destruct (MakePawn_bits p m s Hf Ht Hs (mf_prom _ _ Hflags)) as (HM & HP).
    destruct (kind_bits false false true Ep) as (K2 & K1 & K0).
    destruct (is_ep m) eqn:Eep.
    + destruct HP as (H0 & H1 & H2). now apply ep_view.
    + destruct (is_promo m) eqn:Epr; destruct HP as (H0 & H1 & H2).
      * now apply promo_view.
      * apply plain_view; try assumption.
        -- apply not_castle. rewrite Ep. discriminate.
        -- rewrite K0. exact H0.
        -- rewrite K1. cbn [andb]. rewrite xorb_false_r. exact H1.
        -- rewrite K2. cbn [andb]. rewrite xorb_false_r. exact H2.
  - destruct (Z.eqb_spec (Z.land (MoveType m) 7) KING) as [Ek|Ek].
    + destruct (MakeKing_bits p m s Hf Ht Hs) as (H0 & H1 & H2 & HM).
      destruct (kind_bits true true false Ek) as (K2 & K1 & K0).
      destruct (is_castle m) eqn:Eca.
      * destruct (mf_castle _ _ Hflags Eca) as (_ & Hcap & _).
        rewrite Hcap in *. cbn [negb andb] in *. rewrite andb_true_r in *.
        now apply castle_view.
      * rewrite andb_false_r in *. cbn [andb] in *. rewrite xorb_false_r in *.
        apply plain_view; try assumption.
        -- now apply not_promo.
        -- now apply not_ep.
        -- rewrite K0. cbn [andb]. rewrite xorb_false_r. exact H0.
        -- rewrite K1. exact H1.
        -- rewrite K2. exact H2.
    + destruct (MakePiece_bits p m s Hf Ht Hs) as (H0 & H1 & H2 & HM).
      apply plain_view; try assumption.
      * now apply not_castle.
      * now apply not_promo.
      * now apply not_ep.
Qed.

End View.

(** ** The side change, square by square *)

Lemma OppSq_range s : 0 <= s < 64 -> 0 <= OppSq s < 64.
Proof. apply flip_index_range. Qed.

Lemma OppSq_involutive s : OppSq (OppSq s) = s.
Proof. apply flip_index_invol. Qed.

Lemma testbit_RevBB x s : 0 <= s < 64 -> Z.testbit (RevBB x) s = Z.testbit x (OppSq s).
Proof. apply bswap64_spec. Qed.

Lemma ChangeSide_view q s :
  0 <= s < 64 -> board_of (ChangeSide q) s = turn_board (board_of q) s.
Proof.
  intros Hs. pose proof (OppSq_range s Hs) as Ho.
  unfold turn_board, board_of.
  rewrite (Piece_bits _ s), (Piece_bits _ (OppSq s)) by lia.
  unfold ChangeSide.
  cbn [P0 P1 P2 PM set_P0 set_P1 set_P2 set_PM set_CastleFlags set_STM].
  rewrite !testbit_RevBB, Z.lxor_spec, testbit_Occupation by lia.
  rewrite (Piece_bits _ (OppSq s)) by lia. reflexivity.
Qed.

Lemma MakeBoard_moved m p :
  1 <= Z.land (MoveType m) 7 <= 6 -> MakeBoard m p = ChangeSide (moved m p).
Proof.
  intros H. unfold MakeBoard, moved. cbv zeta.
  destruct (Z.eqb_spec (Z.land (MoveType m) 7) PAWN) as [E|E]; [reflexivity|].
  destruct (Z.eqb_spec (Z.land (MoveType m) 7) KNIGHT) as [E2|E2].
  { rewrite E2. reflexivity. }
  destruct (Z.eqb_spec (Z.land (MoveType m) 7) BISHOP) as [E3|E3].
  { rewrite E3. reflexivity. }
  destruct (Z.eqb_spec (Z.land (MoveType m) 7) ROOK) as [E4|E4].
  { rewrite E4. reflexivity. }
  destruct (Z.eqb_spec (Z.land (MoveType m) 7) QUEEN) as [E5|E5].
  { rewrite E5. reflexivity. }
  destruct (Z.eqb_spec (Z.land (MoveType m) 7) KING) as [E6|E6]; [reflexivity|].
  unfold PAWN, KNIGHT, BISHOP, ROOK, QUEEN, KING in *. lia.
Qed.

Lemma MakeBoard_view p m s :
  encoding_ok p = true -> gen_move p m -> 0 <= s < 64 ->
  board_of (MakeBoard m p) s = turn_board (after_move p m) s.
Proof.
  intros Henc Hgen Hs.
  pose proof (gen_move_shape p Henc m Hgen) as Hshape.
  pose proof (gen_move_flags p Henc m Hgen) as Hflags.
  rewrite MakeBoard_moved by apply (ms_kind _ _ Hshape).
  rewrite ChangeSide_view by assumption.
  unfold turn_board.
  rewrite (moved_view p m Henc Hshape Hflags) by now apply OppSq_range.
  reflexivity.
Qed.

(** ** Attacks seen from the other side *)

Lemma existsb_squares (f : Z -> bool) :
  existsb f squares = true <-> exists t, 0 <= t < 64 /\ f t = true.
Proof.
  rewrite existsb_exists.
  split; intros (t & H1 & H2); exists t; split;
    auto using squares_range, in_squares.
Qed.

Lemma existsb_turn (f : Z -> bool) :
  existsb (fun t => f (OppSq t)) squares = existsb f squares.
Proof.
  apply eq_true_iff_eq. rewrite !existsb_squares.
  split; intros (t & H1 & H2).
  - exists (OppSq t). split; [now apply OppSq_range|assumption].
  - exists (OppSq t). split; [now apply OppSq_range|].
    now rewrite OppSq_involutive.
Qed.

Lemma OppSq_eqb a c : (OppSq a =? OppSq c) = (a =? c).
Proof.
  destruct (Z.eqb_spec a c) as [->|Hne]; [apply Z.eqb_refl|].
  apply Z.eqb_neq. intros E. apply Hne.
  rewrite <- (OppSq_involutive a), <- (OppSq_involutive c). now f_equal.
Qed.

Lemma ray_turn t df dr :
  0 <= t < 64 -> In (df, dr) directions ->
  ray (OppSq t) df (- dr) = map OppSq (ray t df dr).
Proof.
  intros Ht Hd.
  pose proof (check_squares ray_turns ltac:(vm_compute; reflexivity) t Ht) as H.
  unfold ray_turns in H. rewrite forallb_forall in H.
  specialize (H _ Hd). simpl in H. now apply list_eqb_eq.
Qed.

Lemma upto_blocker_turn occ occ' l :
  (forall s, In s l -> Z.testbit occ' (OppSq s) = Z.testbit occ s) ->
  upto_blocker occ' (map OppSq l) = map OppSq (upto_blocker occ l).
Proof.
  induction l as [|s t IH]; intros H; simpl; [reflexivity|].
  rewrite (H s) by (left; reflexivity).
  destruct (Z.testbit occ s); simpl; [reflexivity|].
  f_equal. apply IH. intros x Hx. apply H. now right.
Qed.

Lemma existsb_map_OppSq k l :
  existsb (Z.eqb (OppSq k)) (map OppSq l) = existsb (Z.eqb k) l.
Proof.
  induction l as [|s t IH]; simpl; [reflexivity|].
  now rewrite OppSq_eqb, IH.
Qed.

Section Turn.
Variables occ occ' : Z.
Hypothesis Hocc : forall s, 0 <= s < 64 ->
  Z.testbit occ' (OppSq s) = Z.testbit occ s.

Lemma ray_attack_turn t k df dr dr' :
  0 <= t < 64 -> In (df, dr) directions -> dr' = - dr ->
  Z.testbit (ray_attack (OppSq t) occ' df dr') (OppSq k)
  = Z.testbit (ray_attack t occ df dr) k.
Proof.
  intros Ht Hd ->. rewrite !testbit_ray_attack, ray_turn by assumption.
  rewrite (upto_blocker_turn occ occ'), existsb_map_OppSq; [reflexivity|].
  intros s Hs. apply Hocc.
  pose proof (ray_range t df dr) as Hr. rewrite List.Forall_forall in Hr.
  now apply Hr.
Qed.

Lemma spec_rook_turn t k :
  0 <= t < 64 ->
  Z.testbit (spec_rook_attacks (OppSq t) occ') (OppSq k)
  = Z.testbit (spec_rook_attacks t occ) k.
Proof.
  intros Ht. unfold spec_rook_attacks. rewrite !Z.lor_spec.
  rewrite (ray_attack_turn t k 0 (-1) 1), (ray_attack_turn t k 0 1 (-1)),
    (ray_attack_turn t k 1 0 0), (ray_attack_turn t k (-1) 0 0)
    by (assumption || reflexivity || (simpl; tauto)).
  destruct (Z.testbit (ray_attack t occ 0 1) k),
    (Z.testbit (ray_attack t occ 0 (-1)) k); reflexivity.
Qed.

Lemma spec_bishop_turn t k :
  0 <= t < 64 ->
  Z.testbit (spec_bishop_attacks (OppSq t) occ') (OppSq k)
  = Z.testbit (spec_bishop_attacks t occ) k.
Proof.
  intros Ht. unfold spec_bishop_attacks. rewrite !Z.lor_spec.
  rewrite (ray_attack_turn t k 1 (-1) 1), (ray_attack_turn t k (-1) 1 (-1)),
    (ray_attack_turn t k (-1) (-1) 1), (ray_attack_turn t k 1 1 (-1))
    by (assumption || reflexivity || (simpl; tauto)).
  destruct (Z.testbit (ray_attack t occ 1 1) k),
    (Z.testbit (ray_attack t occ (-1) (-1)) k),
    (Z.testbit (ray_attack t occ (-1) 1) k),
    (Z.testbit (ray_attack t occ 1 (-1)) k); reflexivity.
Qed.

Lemma attack_of_turn c mine t k :
  0 <= t < 64 -> 0 <= k < 64 ->
  attack_of c (negb mine) occ' (OppSq t) (OppSq k) = attack_of c mine occ t k.
Proof.
  intros Ht Hk. unfold attack_of, spec_queen_attacks.
  rewrite !Z.lor_spec, !spec_rook_turn, !spec_bishop_turn by assumption.
  assert (Hp : pawn_step (negb mine) (OppSq t) (OppSq k) = pawn_step mine t k).
  { apply eqb_prop. destruct mine.
    - exact (check_squares2
               (fun t k => Bool.eqb (pawn_step false (OppSq t) (OppSq k))
                                    (pawn_step true t k))
               ltac:(vm_compute; reflexivity) t k Ht Hk).
    - exact (check_squares2
               (fun t k => Bool.eqb (pawn_step true (OppSq t) (OppSq k))
                                    (pawn_step false t k))
               ltac:(vm_compute; reflexivity) t k Ht Hk). }
  assert (Hn : knight_jump (OppSq t) (OppSq k) = knight_jump t k).
  { apply eqb_prop.
    exact (check_squares2
             (fun t k => Bool.eqb (knight_jump (OppSq t) (OppSq k)) (knight_jump t k))
             ltac:(vm_compute; reflexivity) t k Ht Hk). }
  assert (Hg : king_step (OppSq t) (OppSq k) = king_step t k).
  { apply eqb_prop.
    exact (check_squares2
             (fun t k => Bool.eqb (king_step (OppSq t) (OppSq k)) (king_step t k))
             ltac:(vm_compute; reflexivity) t k Ht Hk). }
  rewrite Hp, Hn, Hg. reflexivity.
Qed.

End Turn.

Lemma occupancy_turn b s :
  0 <= s < 64 ->
  Z.testbit (occupancy (turn_board b)) (OppSq s) = Z.testbit (occupancy b) s.
Proof.
  intros Hs. rewrite !occupancy_bit by (assumption || now apply OppSq_range).
  unfold turn_board. rewrite OppSq_involutive. destruct (b s). reflexivity.
Qed.

Lemma attacked_by_turn b mover k :
  0 <= k < 64 ->
  attacked_by (turn_board b) mover (OppSq k) = attacked_by b (negb mover) k.
Proof.
  intros Hk. unfold attacked_by. rewrite <- existsb_turn.
  apply existsb_ext_in. intros t Ht. apply squares_range in Ht.
  unfold piece_attacks.
  assert (E : turn_board b (OppSq t)
              = (fst (b t), xorb (snd (b t)) (negb (fst (b t) =? EMPTY)))).
  { unfold turn_board. rewrite OppSq_involutive. destruct (b t). reflexivity. }
  rewrite E. cbn [fst snd].
  destruct (fst (b t) =? EMPTY); cbn [negb andb]; [reflexivity|].
  rewrite xorb_true_r.
  rewrite (attack_of_turn (occupancy b) (occupancy (turn_board b))
             (occupancy_turn b)) by assumption.
  destruct (snd (b t)), mover; reflexivity.
Qed.

Lemma king_square_at b mover k : king_at b mover k -> king_square b mover = Some k.
Proof.
  intros [Hk H]. unfold king_square. apply find_unique.
  - now apply in_squares.
  - now apply H.
  - intros s Hs Hf. apply squares_range in Hs. now apply H.
Qed.

Lemma king_at_turn b mover k :
  king_at b mover k -> king_at (turn_board b) (negb mover) (OppSq k).
Proof.
  intros [Hk H]. split; [now apply OppSq_range|].
  intros s Hs. pose proof (OppSq_range s Hs) as Ho.
  specialize (H (OppSq s) Ho).
  unfold turn_board. destruct (b (OppSq s)) as [c mine]. cbn [fst snd] in *.
  assert (E : (s = OppSq k) <-> (OppSq s = k)).
  { split; [intros ->|intros <-]; now rewrite OppSq_involutive. }
  rewrite E, <- H.
  destruct (Z.eqb_spec c KING) as [->|]; [|tauto]. cbn [andb].
  change (KING =? EMPTY) with false. cbn [negb]. rewrite xorb_true_r.
  destruct mine, mover; simpl; tauto.
Qed.

Lemma in_check_turn b mover k :
  king_at b mover k -> in_check (turn_board b) (negb mover) = in_check b mover.
Proof.
  intros H. unfold in_check.
  rewrite (king_square_at _ _ _ H), (king_square_at _ _ _ (king_at_turn _ _ _ H)).
  rewrite negb_involutive. apply attacked_by_turn. apply H.
Qed.

Lemma find_ext_in {A} (f g : A -> bool) l :
  (forall a, In a l -> f a = g a) -> List.find f l = List.find g l.
Proof.
  induction l as [|a l IH]; intros H; simpl; [reflexivity|].
  rewrite <- (H a) by (left; reflexivity).
  destruct (f a); [reflexivity|]. apply IH. intros x Hx. apply H. now right.
Qed.

Lemma occupancy_ext b b' :
  (forall s, 0 <= s < 64 -> fst (b s) = fst (b' s)) -> occupancy b = occupancy b'.
Proof.
  intros H. unfold occupancy. f_equal. apply List.filter_ext_in.
  intros s Hs. apply squares_range in Hs. now rewrite H.
Qed.

Lemma in_check_ext b b' mover :
  (forall s, 0 <= s < 64 -> b s = b' s) -> in_check b mover = in_check b' mover.
Proof.
  intros H. unfold in_check, king_square.
  rewrite (find_ext_in _ (fun s => (fst (b' s) =? KING) && Bool.eqb (snd (b' s)) mover)).
  2:{ intros s Hs. apply squares_range in Hs. now rewrite H. }
  destruct (List.find _ _) as [k|]; [|reflexivity].
  unfold attacked_by. apply existsb_ext_in. intros t Ht.
  apply squares_range in Ht. unfold piece_attacks.
  rewrite (occupancy_ext b b') by (intros; now rewrite H).
  now rewrite H.
Qed.

Lemma occupancy_ext_bits b b' :
  (forall s, 0 <= s < 64 ->
     Z.testbit (occupancy b) s = Z.testbit (occupancy b') s) ->
  occupancy b = occupancy b'.
Proof. intros H. apply eq64; auto using is64_occupancy. Qed.

(** ** The kings of a position *)

Lemma occupancy_board_of p :
  encoding_ok p = true -> occupancy (board_of p) = Occupation p.
Proof.
  intros Henc. apply eq64; [apply is64_occupancy|now apply is64_Occupation|].
  intros s Hs. rewrite occupancy_bit, testbit_Occupation by lia. reflexivity.
Qed.

Lemma opponent_king p :
  encoding_ok p = true ->
  let ko := LSB (Z.land (Kings p) (not64 (PM p))) in
  0 <= ko < 64 /\ Piece p ko = KING /\ Z.testbit (PM p) ko = false
  /\ (forall s, 0 <= s < 64 -> Piece p s = KING -> Z.testbit (PM p) s = false ->
                s = ko).
Proof.
  intros Henc ko.
  pose proof (encoding_kings p Henc) as Hk. unfold kings_ok in Hk.
  apply andb_true_iff in Hk. destruct Hk as [_ Hk].
  pose proof (encoding_fields p Henc) as (HPM & _).
  assert (H64 : is64 (Z.land (Kings p) (not64 (PM p)))).
  { apply is64_land_r. now apply is64_not64. }
  destruct (single_spec _ H64 Hk) as [Hr Hb]. fold ko in Hr, Hb.
  assert (Hown : forall s, 0 <= s < 64 ->
            Z.testbit (Z.land (Kings p) (not64 (PM p))) s = true
            <-> Piece p s = KING /\ Z.testbit (PM p) s = false).
  { intros s Hs.
    rewrite Z.land_spec, testbit_Kings, testbit_neg64
      by (auto using encoding_codes || lia).
    rewrite andb_true_iff, Z.eqb_eq, negb_true_iff. tauto. }
  assert (Hko : Piece p ko = KING /\ Z.testbit (PM p) ko = false).
  { apply Hown; [assumption|]. rewrite Hb by lia. apply Z.eqb_refl. }
  repeat split; try tauto; try lia.
  intros s Hs H1 H2. apply Z.eqb_eq. rewrite <- Hb by lia. apply Hown; tauto.
Qed.

Lemma king_at_board_of p :
  encoding_ok p = true ->
  king_at (board_of p) true (LSB (Z.land (Kings p) (PM p)))
  /\ king_at (board_of p) false (LSB (Z.land (Kings p) (not64 (PM p)))).
Proof.
  intros Henc.
  destruct (mover_king p Henc) as (Hr & [Hp Hm] & Hu & _).
  destruct (opponent_king p Henc) as (Hr' & Hp' & Hm' & Hu').
  split; (split; [assumption|]); intros s Hs; unfold board_of; cbn [fst snd];
    rewrite andb_true_iff, Z.eqb_eq.
  - split.
    + intros [H1 H2]. apply eqb_prop in H2. apply Hu; [assumption|now split].
    + intros ->. now rewrite Hm.
  - split.
    + intros [H1 H2]. apply eqb_prop in H2. now apply Hu'.
    + intros ->. now rewrite Hm'.
Qed.

(** ** Captures are attacks *)

Lemma abs_sub_comm a b : Z.abs (a - b) = Z.abs (b - a).
Proof. lia. Qed.

Lemma knight_jump_sym t k : knight_jump t k = knight_jump k t.
Proof.
  unfold knight_jump.
  now rewrite (abs_sub_comm (file_of t)), (abs_sub_comm (rank_of t)).
Qed.

Lemma king_step_sym t k : king_step t k = king_step k t.
Proof.
  unfold king_step.
  now rewrite (abs_sub_comm (file_of t)), (abs_sub_comm (rank_of t)).
Qed.

Lemma pawn_capture_step delta dst :
  capture_step delta dst -> delta <= dst < 64 ->
  pawn_step true (dst - delta) dst = true.
Proof.
  intros [[-> H]|[-> H]] Hr.
  - pose proof (check_squares
      (fun dst => implb ((9 <=? dst) && negb (dst mod 8 =? 0))
                        (pawn_step true (dst - 9) dst))
      ltac:(vm_compute; reflexivity) dst ltac:(lia)) as Hc.
    cbv beta in Hc.
    destruct (Z.leb_spec 9 dst); [|lia].
    destruct (Z.eqb_spec (dst mod 8) 0); [contradiction|]. exact Hc.
  - pose proof (check_squares
      (fun dst => implb ((7 <=? dst) && negb (dst mod 8 =? 7))
                        (pawn_step true (dst - 7) dst))
      ltac:(vm_compute; reflexivity) dst ltac:(lia)) as Hc.
    cbv beta in Hc.
    destruct (Z.leb_spec 7 dst); [|lia].
    destruct (Z.eqb_spec (dst mod 8) 7); [contradiction|]. exact Hc.
Qed.

Section Captures.
Variable p : TBoard.
Hypothesis Henc : encoding_ok p = true.

Lemma capture_attacks m :
  gen_move p m -> enemy p (To m) ->
  attack_of (Piece p (From m)) true (Occupation p) (From m) (To m) = true.
Proof.
  intros Hgen [Hen _].
  pose proof (is64_Occupation p Henc) as [Hocc _].
  destruct Hgen; cbn [From To] in *; try contradiction.
  - (* a piece *)
    destruct H2 as [Hp Hm]. rewrite Hp.
    assert (Hb : Z.testbit (Occupation p) sq = true).
    { rewrite testbit_Occupation, Hp by lia.
      pose proof (king_to_knight_range _ H). apply negb_true_iff, Z.eqb_neq.
      unfold EMPTY. lia. }
    unfold king_to_knight in H. simpl in H.
    destruct H as [<-|[<-|[<-|[<-|[<-|[]]]]]];
      unfold BBDestinations in H3; unfold attack_of; simpl in H3 |- *.
    + rewrite KingDest_spec in H3 by assumption. now rewrite king_step_sym.
    + rewrite GenRook_correct, GenBishop_correct in H3 by assumption. exact H3.
    + rewrite GenRook_correct in H3 by assumption. exact H3.
    + rewrite GenBishop_correct in H3 by assumption. exact H3.
    + rewrite KnightDest_spec in H3 by assumption. now rewrite knight_jump_sym.
  - elim Hen. apply (vacant_of_land_zero p 0x0E); [assumption|lia|reflexivity].
  - elim Hen. apply (vacant_of_land_zero p 0x60); [assumption|lia|reflexivity].
  - destruct H1 as [-> _]. unfold attack_of. simpl.
    apply pawn_capture_step; [assumption|].
    destruct H as [[-> _]|[-> _]]; lia.
  - destruct H1 as [-> _]. unfold attack_of. simpl.
    apply pawn_capture_step; [assumption|].
    destruct H as [[-> _]|[-> _]]; lia.
  - destruct (en_passant_target p Henc H) as (Hv & _). contradiction.
Qed.

Lemma no_king_capture m :
  in_check (board_of p) false = false -> gen_move p m -> Piece p (To m) <> KING.
Proof.
  intros Hchk Hgen Hk.
  pose proof (gen_move_shape p Henc m Hgen) as Hshape.
  assert (Hen : enemy p (To m)).
  { split; [rewrite Hk; discriminate|apply (ms_dest _ _ Hshape)]. }
  pose proof (capture_attacks m Hgen Hen) as Ha.
  destruct (king_at_board_of p Henc) as [_ Hko].
  destruct (opponent_king p Henc) as (_ & _ & _ & Hu).
  assert (E : To m = LSB (Z.land (Kings p) (not64 (PM p)))).
  { apply Hu; [apply (ms_to _ _ Hshape)|assumption|apply (ms_dest _ _ Hshape)]. }
  unfold in_check in Hchk. rewrite (king_square_at _ _ _ Hko), <- E in Hchk.
  cbn [negb] in Hchk.
  assert (Ht : attacked_by (board_of p) true (To m) = true).
  { unfold attacked_by. apply existsb_squares. exists (From m).
    split; [apply (ms_from _ _ Hshape)|].
    unfold piece_attacks. rewrite (occupancy_board_of p Henc).
    unfold board_of. cbn [fst snd].
    destruct (ms_own _ _ Hshape) as [Hp Hm].
    rewrite Hm, Ha, Hp. pose proof (ms_kind _ _ Hshape).
    destruct (Z.eqb_spec (Z.land (MoveType m) 7) EMPTY) as [E0|]; [|reflexivity].
    unfold EMPTY in E0. lia. }
  congruence.
Qed.

End Captures.

(** ** The kings after a move *)

Section Kings.
Variables (p : TBoard) (m : TMove).
Hypothesis Henc : encoding_ok p = true.
Hypothesis Hshape : move_shape p m.
Hypothesis Hflags : move_flags p m.

Local Abbreviation k := (king_after p m).
Local Abbreviation ko := (LSB (Z.land (Kings p) (not64 (PM p)))).

Lemma king_at_spec_after : king_at (spec_after p m) true k.
Proof.
  split; [now apply king_after_range|]. intros s Hs. split.
  - intros Hf.
    apply andb_true_iff in Hf. destruct Hf as [Hf1 Hf2].
    apply Z.eqb_eq in Hf1. apply eqb_prop in Hf2.
    rewrite spec_after_view in Hf1, Hf2 by assumption.
    unfold king_after in *.
    destruct (Z.eqb_spec s (To m)) as [->|Hne].
    + simpl in Hf1. rewrite Hf1, Z.eqb_refl. reflexivity.
    + destruct ((s =? From m) || (is_ep m && (s =? To m - 8))) eqn:E;
        [discriminate|].
      simpl in Hf1, Hf2. apply orb_false_iff in E. destruct E as [E _].
      apply Z.eqb_neq in E.
      destruct (mover_king p Henc) as (_ & _ & Hu & _).
      assert (Hs' : s = LSB (Z.land (Kings p) (PM p))) by (apply Hu; now split).
      destruct (Z.eqb_spec (Z.land (MoveType m) 7) KING) as [Ek|Ek];
        [|assumption].
      exfalso. apply E. symmetry.
      rewrite Hs'. apply Hu; [apply (ms_from _ _ Hshape)|].
      rewrite <- Ek. apply (ms_own _ _ Hshape).
  - intros ->. rewrite king_after_view by assumption. reflexivity.
Qed.

Lemma king_at_spec_after_opponent :
  Piece p (To m) <> KING -> king_at (spec_after p m) false ko.
Proof.
  intros Hnk.
  destruct (opponent_king p Henc) as (Hr & Hp & Hm & Hu).
  split; [assumption|]. intros s Hs.
  rewrite spec_after_view by assumption.
  destruct (Z.eqb_spec s (To m)) as [->|Hne].
  - cbn [fst snd]. rewrite andb_false_r. split; [discriminate|].
    intros E. rewrite E in Hnk. contradiction.
  - destruct (Z.eqb_spec s (From m)) as [->|Hnf]; cbn [orb].
    + cbn [fst snd]. split; [discriminate|].
      intros E. destruct (ms_own _ _ Hshape) as [_ Ho]. rewrite E in Ho. congruence.
    + destruct (is_ep m) eqn:Eep; cbn [andb].
      * destruct (ep_square p m Hshape Eep) as (_ & _ & _ & Hpw & _).
        destruct (Z.eqb_spec s (To m - 8)) as [->|Hnb]; cbn [fst snd].
        -- split; [discriminate|]. intros E. rewrite E, Hp in Hpw. discriminate.
        -- rewrite andb_true_iff, Z.eqb_eq. split.
           ++ intros [H1 H2]. apply eqb_prop in H2. now apply Hu.
           ++ intros ->. now rewrite Hm.
      * cbn [fst snd]. rewrite andb_true_iff, Z.eqb_eq. split.
        -- intros [H1 H2]. apply eqb_prop in H2. now apply Hu.
        -- intros ->. now rewrite Hm.
Qed.

(** Where the board after the move differs from the one the legality
    filter looks at. *)
Lemma after_move_cases s :
  0 <= s < 64 ->
  (is_castle m = true /\ s = rook_castled m
   /\ after_move p m s = (ROOK, true) /\ spec_after p m s = (EMPTY, false))
  \/ (is_castle m = true /\ s = rook_home m
      /\ after_move p m s = (EMPTY, false) /\ spec_after p m s = (ROOK, true))
  \/ (is_promo m = true /\ s = To m
      /\ after_move p m s = (Prom m, true) /\ spec_after p m s = (PAWN, true))
  \/ after_move p m s = spec_after p m s.
Proof.
  intros Hs. unfold after_move.
  destruct (is_castle m) eqn:Ec; cbn [andb].
  - destruct (mf_castle _ _ Hflags Ec) as (Hk & Hcap & Hf & Hside).
    rewrite (not_promo p m Hflags) by (rewrite Hk; discriminate). cbn [andb].
    assert (Hep : is_ep m = false) by (apply (not_ep p m Hshape); rewrite Hk; discriminate).
    unfold rook_castled, rook_home.
    destruct Hside as [(Ht & [Hr HrM] & Hv)|(Ht & [Hr HrM] & Hv & _)];
      rewrite Ht; cbn [Z.eqb Pos.eqb].
    + destruct (Z.eqb_spec s 5) as [->|N5].
      { left. repeat split. rewrite spec_after_view by assumption.
        rewrite Ht, Hf, Hep. cbn [Z.eqb Pos.eqb orb andb]. unfold vacant in Hv. rewrite Hv.
        now rewrite (vacant_not_mine p Henc 5). }
      destruct (Z.eqb_spec s 7) as [->|N7]; [|tauto].
      right. left. repeat split. rewrite spec_after_view by assumption.
      rewrite Ht, Hf, Hep. cbn [Z.eqb Pos.eqb orb andb]. now rewrite Hr, HrM.
    + destruct (Z.eqb_spec s 3) as [->|N3].
      { left. repeat split. rewrite spec_after_view by assumption.
        rewrite Ht, Hf, Hep. cbn [Z.eqb Pos.eqb orb andb]. unfold vacant in Hv. rewrite Hv.
        now rewrite (vacant_not_mine p Henc 3). }
      destruct (Z.eqb_spec s 0) as [->|N0]; [|tauto].
      right. left. repeat split. rewrite spec_after_view by assumption.
      rewrite Ht, Hf, Hep. cbn [Z.eqb Pos.eqb orb andb]. now rewrite Hr, HrM.
  - destruct (is_promo m) eqn:Ep; cbn [andb]; [|tauto].
    destruct (Z.eqb_spec s (To m)) as [->|Hne]; [|tauto].
    right. right. left. repeat split.
    rewrite spec_after_view, Z.eqb_refl by assumption.
    destruct (mf_promo _ _ Hflags Ep) as (-> & _). reflexivity.
Qed.

Lemma promotion_piece_code c :
  In c promotion_pieces -> c <> EMPTY /\ c <> KING.
Proof.
  unfold promotion_pieces. simpl.
  intros H. repeat (destruct H as [<-|H]; [split; discriminate|]). contradiction.
Qed.

Lemma king_at_after_move : king_at (after_move p m) true k.
Proof.
  destruct king_at_spec_after as [Hk H]. split; [assumption|].
  intros s Hs. rewrite <- (H s Hs).
  destruct (after_move_cases s Hs)
    as [(_ & _ & -> & ->)|[(_ & _ & -> & ->)|[(Ep & _ & -> & ->)| ->]]];
    cbn [fst snd]; try (split; discriminate); try tauto.
  destruct (mf_promo _ _ Hflags Ep) as (_ & _ & Hin).
  apply promotion_piece_code in Hin. destruct Hin as [_ Hin].
  destruct (Z.eqb_spec (Prom m) KING); [contradiction|]. split; discriminate.
Qed.

Lemma king_at_after_move_opponent :
  Piece p (To m) <> KING -> king_at (after_move p m) false ko.
Proof.
  intros Hnk. destruct (king_at_spec_after_opponent Hnk) as [Hk H].
  split; [assumption|].
  intros s Hs. rewrite <- (H s Hs).
  destruct (after_move_cases s Hs)
    as [(_ & _ & -> & ->)|[(_ & _ & -> & ->)|[(Ep & _ & -> & ->)| ->]]];
    cbn [fst snd]; try (split; discriminate); try tauto.
  rewrite andb_false_r. tauto.
Qed.

End Kings.

(** ** The castled rook shields the king *)

Lemma upto_blocker_ext_front x y l :
  (forall s, In s (removelast l) -> Z.testbit x s = Z.testbit y s) ->
  upto_blocker x l = upto_blocker y l.
Proof.
  induction l as [|s t IH]; intros H; [reflexivity|].
  destruct t as [|u t].
  - simpl. destruct (Z.testbit x s), (Z.testbit y s); reflexivity.
  - change (upto_blocker x (s :: u :: t))
      with (if Z.testbit x s then [s] else s :: upto_blocker x (u :: t)).
    change (upto_blocker y (s :: u :: t))
      with (if Z.testbit y s then [s] else s :: upto_blocker y (u :: t)).
    rewrite (H s) by (left; reflexivity).
    destruct (Z.testbit y s); [reflexivity|]. f_equal. apply IH.
    intros z Hz. apply H. right. exact Hz.
Qed.

Section Castled.
Variables (k a h occ occ' : Z).
Hypothesis Hrays : castle_rays_ok k a h = true.
Hypothesis Hagree : forall s, 0 <= s < 64 -> s <> a -> s <> h ->
  Z.testbit occ' s = Z.testbit occ s.
Hypothesis Hrook : Z.testbit occ' a = true.

Lemma ray_attack_castled t df dr :
  In (df, dr) directions ->
  Z.testbit (ray_attack k occ' df dr) t = true ->
  Z.testbit (ray_attack k occ df dr) t = true.
Proof.
  intros Hd. rewrite !testbit_ray_attack.
  unfold castle_rays_ok in Hrays. rewrite forallb_forall in Hrays.
  specialize (Hrays _ Hd). cbv beta iota zeta in Hrays.
  apply orb_true_iff in Hrays. destruct Hrays as [Hh|Hc].
  - destruct (ray k df dr) as [|x r]; [discriminate|].
    apply Z.eqb_eq in Hh. subst x. simpl. rewrite Hrook. simpl.
    rewrite orb_false_r. intros E.
    destruct (Z.testbit occ a); simpl; now rewrite E.
  - rewrite (upto_blocker_ext_front occ' occ); [tauto|].
    rewrite forallb_forall in Hc. intros s Hs. specialize (Hc s Hs).
    rewrite !andb_true_iff, !negb_true_iff in Hc.
    destruct Hc as [[[H1 H2] H3] H4].
    apply Z.leb_le in H1. apply Z.ltb_lt in H2.
    apply Z.eqb_neq in H3, H4. apply Hagree; lia.
Qed.

Lemma spec_rook_castled t :
  Z.testbit (spec_rook_attacks k occ') t = true ->
  Z.testbit (spec_rook_attacks k occ) t = true.
Proof.
  unfold spec_rook_attacks. rewrite !Z.lor_spec, !orb_true_iff.
  intros [[H|H]|[H|H]]; apply ray_attack_castled in H;
    try (simpl; tauto); tauto.
Qed.

Lemma spec_bishop_castled t :
  Z.testbit (spec_bishop_attacks k occ') t = true ->
  Z.testbit (spec_bishop_attacks k occ) t = true.
Proof.
  unfold spec_bishop_attacks. rewrite !Z.lor_spec, !orb_true_iff.
  intros [[H|H]|[H|H]]; apply ray_attack_castled in H;
    try (simpl; tauto); tauto.
Qed.

Lemma attack_of_castled c mine t :
  0 <= t < 64 -> 0 <= k < 64 ->
  attack_of c mine occ' t k = true -> attack_of c mine occ t k = true.
Proof.
  intros Ht Hk. unfold attack_of, spec_queen_attacks.
  rewrite !Z.lor_spec.
  rewrite !(spec_rook_symmetric t k), !(spec_bishop_symmetric t k) by assumption.
  destruct (c =? PAWN); [tauto|]. destruct (c =? KNIGHT); [tauto|].
  destruct (c =? BISHOP); [apply spec_bishop_castled|].
  destruct (c =? ROOK); [apply spec_rook_castled|].
  destruct (c =? QUEEN); [|tauto].
  rewrite !orb_true_iff.
  intros [H|H]; [left; now apply spec_rook_castled
                |right; now apply spec_bishop_castled].
Qed.

End Castled.

(** ** The mover's king after Make *)

Section Safe.
Variables (p : TBoard) (m : TMove).
Hypothesis Henc : encoding_ok p = true.
Hypothesis Hshape : move_shape p m.
Hypothesis Hflags : move_flags p m.

Local Abbreviation k := (king_after p m).

Lemma occupancy_after_move s :
  0 <= s < 64 ->
  (is_castle m = true -> s <> rook_castled m /\ s <> rook_home m) ->
  Z.testbit (occupancy (after_move p m)) s
  = Z.testbit (occupancy (spec_after p m)) s.
Proof.
  intros Hs Hc. rewrite !occupancy_bit by assumption.
  destruct (after_move_cases p m Henc Hshape Hflags s Hs)
    as [(E & -> & _)|[(E & -> & _)|[(Ep & _ & -> & ->)| ->]]];
    try (specialize (Hc E); lia); [|reflexivity].
  cbn [fst]. destruct (mf_promo _ _ Hflags Ep) as (_ & _ & Hin).
  apply promotion_piece_code in Hin. destruct Hin as [Hin _].
  destruct (Z.eqb_spec (Prom m) EMPTY); [contradiction|reflexivity].
Qed.

Lemma attacked_after_move :
  attacked_by (after_move p m) false k = true ->
  attacked_by (spec_after p m) false k = true.
Proof.
  unfold attacked_by. rewrite !existsb_squares.
  intros (t & Ht & H). exists t. split; [assumption|].
  rewrite !andb_true_iff in H. destruct H as [[H1 H2] H3].
  apply eqb_prop in H2. apply negb_true_iff, Z.eqb_neq in H1.
  pose proof (king_after_range p m Henc Hshape) as Hk.
  destruct (after_move_cases p m Henc Hshape Hflags t Ht)
    as [(_ & _ & E & _)|[(_ & _ & E & _)|[(_ & _ & E & _)|E]]];
    try (rewrite E in H2; discriminate H2);
    try (rewrite E in H1; now elim H1).
  unfold piece_attacks in *. rewrite E in *.
  apply Z.eqb_neq in H1. rewrite H2 in H3. rewrite H1, H2. cbn [negb andb Bool.eqb].
  destruct (is_castle m) eqn:Ec.
  - destruct (mf_castle _ _ Hflags Ec) as (Hkind & _ & _ & Hside).
    assert (Hk' : k = To m).
    { unfold king_after. now rewrite Hkind. }
    assert (Hok : castle_rays_ok k (rook_castled m) (rook_home m) = true).
    { rewrite Hk'. unfold rook_castled, rook_home.
      destruct Hside as [(-> & _)|(-> & _)]; vm_compute; reflexivity. }
    apply (attack_of_castled k (rook_castled m) (rook_home m)
             (occupancy (spec_after p m)) (occupancy (after_move p m)) Hok);
      try assumption.
    + intros s Hs Ha Hh. apply occupancy_after_move; [assumption|tauto].
    + assert (Hr : 0 <= rook_castled m < 64).
      { unfold rook_castled. destruct (To m =? 6); lia. }
      rewrite occupancy_bit by assumption.
      unfold after_move. rewrite Ec, Z.eqb_refl. reflexivity.
  - rewrite (occupancy_ext_bits (after_move p m) (spec_after p m)) in H3;
      [exact H3|].
    intros s Hs. apply occupancy_after_move; [assumption|].
    intros Hx. rewrite Ec in Hx. discriminate Hx.
Qed.

End Safe.

(** ** The small fields after Make *)

Lemma delete_captured_fields d q :
  CastleFlags (delete_captured d q) = CastleFlags q
  /\ EnPassant (delete_captured d q) = EnPassant q
  /\ STM (delete_captured d q) = STM q.
Proof. repeat split. Qed.

Lemma delete_captured_flags (c : bool) d q :
  CastleFlags (if c then q else delete_captured d q) = CastleFlags q.
Proof. now destruct c. Qed.

Lemma wrap8_range c : wrap8 c = c <-> 0 <= c < 256.
Proof.
  unfold wrap8. change 0xFF with (Z.ones 8). rewrite Z.land_ones by lia.
  change (2 ^ 8) with 256. split.
  - intros <-. apply Z.mod_pos_bound. lia.
  - intros H. now apply Z.mod_small.
Qed.

Lemma land_range c mask : 0 <= c < 256 -> 0 <= Z.land c mask < 256.
Proof.
  intros H. apply wrap8_range. apply wrap8_range in H. unfold wrap8 in *.
  rewrite <- Z.land_assoc, (Z.land_comm mask), Z.land_assoc, H. reflexivity.
Qed.

Ltac bit_consts :=
  repeat match goal with
         | |- context [Z.testbit (Zpos ?a) ?i] =>
             let v := eval vm_compute in (Z.testbit (Zpos a) i) in
             change (Z.testbit (Zpos a) i) with v
         end.

Lemma CastleSM_bit q : CastleSM q <> 0 <-> Z.testbit (CastleFlags q) 1 = true.
Proof.
  unfold CastleSM. rewrite <- Z.eqb_neq.
  assert (E : (Z.land (CastleFlags q) 2 =? 0) = negb (Z.testbit (CastleFlags q) 1))
    by (apply (flag_bit _ 1); lia).
  rewrite E. destruct (Z.testbit _ 1); simpl; split; congruence.
Qed.

Lemma CastleLM_bit q : CastleLM q <> 0 <-> Z.testbit (CastleFlags q) 0 = true.
Proof.
  unfold CastleLM. rewrite <- Z.eqb_neq.
  assert (E : (Z.land (CastleFlags q) 1 =? 0) = negb (Z.testbit (CastleFlags q) 0))
    by (apply (flag_bit _ 0); lia).
  rewrite E. destruct (Z.testbit _ 0); simpl; split; congruence.
Qed.

Lemma CastleSO_bit q : CastleSO q <> 0 <-> Z.testbit (CastleFlags q) 5 = true.
Proof.
  unfold CastleSO. rewrite <- Z.eqb_neq.
  assert (E : (Z.land (CastleFlags q) 0x20 =? 0) = negb (Z.testbit (CastleFlags q) 5))
    by (apply (flag_bit _ 5); lia).
  rewrite E. destruct (Z.testbit _ 5); simpl; split; congruence.
Qed.

Lemma CastleLO_bit q : CastleLO q <> 0 <-> Z.testbit (CastleFlags q) 4 = true.
Proof.
  unfold CastleLO. rewrite <- Z.eqb_neq.
  assert (E : (Z.land (CastleFlags q) 0x10 =? 0) = negb (Z.testbit (CastleFlags q) 4))
    by (apply (flag_bit _ 4); lia).
  rewrite E. destruct (Z.testbit _ 4); simpl; split; congruence.
Qed.

Lemma capture_rights_flags m q :
  0 <= CastleFlags q < 256 ->
  let r := capture_rights m q in
  0 <= CastleFlags r < 256 /\ STM r = STM q
  /\ Z.testbit (CastleFlags r) 0 = Z.testbit (CastleFlags q) 0
  /\ Z.testbit (CastleFlags r) 1 = Z.testbit (CastleFlags q) 1
  /\ Z.testbit (CastleFlags r) 5
     = Z.testbit (CastleFlags q) 5 && negb (is_capture m && (To m =? 63))
  /\ Z.testbit (CastleFlags r) 4
     = Z.testbit (CastleFlags q) 4 && negb (is_capture m && (To m =? 56)).
Proof.
  intros Hq r. subst r. unfold capture_rights, is_capture.
  destruct (Z.land (MoveType m) CAPTURE =? 0); cbn [negb andb].
  { rewrite !andb_true_r. tauto. }
  destruct (Z.eqb_spec (To m) 63) as [E|E].
  { unfold ResetCastleSO. cbn [CastleFlags STM set_CastleFlags].
    rewrite !Z.land_spec. bit_consts. rewrite E. cbn [Z.eqb Pos.eqb negb].
    rewrite ?andb_true_r, ?andb_false_r. repeat split; try apply land_range; tauto. }
  destruct (Z.eqb_spec (To m) 56) as [E'|E'].
  { unfold ResetCastleLO. cbn [CastleFlags STM set_CastleFlags].
    rewrite !Z.land_spec. bit_consts. cbn [negb].
    rewrite ?andb_true_r, ?andb_false_r. repeat split; try apply land_range; tauto. }
  cbn [negb]. rewrite !andb_true_r. tauto.
Qed.

Section Fields.
Variables (p : TBoard) (m : TMove).
Hypothesis Hcf : 0 <= CastleFlags p < 256.

Local Abbreviation kind := (Z.land (MoveType m) 7).
Local Abbreviation q := (moved m p).

Lemma moved_STM : STM q = STM p.
Proof.
  unfold moved, MakePawn, MakePiece, MakeKing, capture_rights. cbv zeta.
  repeat match goal with
         | |- context [if ?c then _ else _] => destruct c
         end; reflexivity.
Qed.

Lemma moved_EnPassant :
  EnPassant q = 8
  \/ (EnPassant q = Z.land (To m) 7 /\ kind = PAWN /\ is_ep m = false
      /\ is_promo m = false /\ To m = From m + 16).
Proof.
  unfold moved. cbv zeta.
  destruct (Z.eqb_spec kind PAWN) as [Ek|Ek].
  - unfold MakePawn, is_ep, is_promo. cbv zeta.
    destruct (Z.land (MoveType m) EP =? 0); cbn [negb]; [|left; reflexivity].
    match goal with
    | |- context [capture_rights m ?x] =>
        destruct (capture_rights_planes m x) as (_ & _ & _ & _ & ->)
    end.
    destruct (Z.land (MoveType m) PROMO =? 0); cbn [negb]; [|left; reflexivity].
    match goal with
    | |- context [if ?c then set_EnPassant _ _ else _] => destruct c eqn:E
    end; [|left; reflexivity].
    right. apply andb_true_iff in E. destruct E as [E _]. apply Z.eqb_eq in E.
    repeat split; assumption.
  - left. destruct (kind =? KING).
    + unfold MakeKing. cbv zeta.
      repeat match goal with
             | |- context [if ?c then _ else _] => destruct c
             end; reflexivity.
    + unfold MakePiece. cbv zeta.
      match goal with
      | |- context [capture_rights m ?x] =>
          destruct (capture_rights_planes m x) as (_ & _ & _ & _ & ->)
      end.
      repeat match goal with
             | |- context [if ?c then _ else _] => destruct c
             end; reflexivity.
Qed.

Lemma moved_castle_flags :
  0 <= CastleFlags q < 256
  /\ (Z.testbit (CastleFlags q) 1 = true ->
      Z.testbit (CastleFlags p) 1 = true /\ kind <> KING
      /\ ~ (kind = ROOK /\ From m = 7))
  /\ (Z.testbit (CastleFlags q) 0 = true ->
      Z.testbit (CastleFlags p) 0 = true /\ kind <> KING
      /\ ~ (kind = ROOK /\ From m = 0))
  /\ (Z.testbit (CastleFlags q) 5 = true ->
      Z.testbit (CastleFlags p) 5 = true
      /\ ~ (is_capture m = true /\ is_ep m = false /\ To m = 63))
  /\ (Z.testbit (CastleFlags q) 4 = true ->
      Z.testbit (CastleFlags p) 4 = true
      /\ ~ (is_capture m = true /\ is_ep m = false /\ To m = 56)).
Proof.
  unfold moved. cbv zeta.
  destruct (Z.eqb_spec kind PAWN) as [Ek|Ek].
  - (* a pawn *)
    rewrite Ek. unfold MakePawn, is_ep. cbv zeta.
    destruct (Z.land (MoveType m) EP =? 0) eqn:Eep; cbn [negb].
    + match goal with
      | |- context [capture_rights m ?x] =>
          assert (Hx : CastleFlags x = CastleFlags p);
          [|destruct (capture_rights_flags m x ltac:(rewrite Hx; exact Hcf))
              as (Hr & _ & H0 & H1 & H5 & H4); rewrite Hx in *]
      end.
      { repeat match goal with
               | |- context [if ?c then _ else _] => destruct c
               end; reflexivity. }
      rewrite H0, H1, H5, H4. split; [exact Hr|].
      repeat split; try tauto; try discriminate.
      * intros (E & _). discriminate E.
      * intros (E & _). discriminate E.
      * apply andb_true_iff in H. tauto.
      * apply andb_true_iff in H. destruct H as [_ H].
        intros (Hc & _ & Ht). rewrite Hc, Ht in H. discriminate H.
      * apply andb_true_iff in H. tauto.
      * apply andb_true_iff in H. destruct H as [_ H].
        intros (Hc & _ & Ht). rewrite Hc, Ht in H. discriminate H.
    + cbn [CastleFlags set_EnPassant set_P0 set_PM].
      split; [exact Hcf|].
      repeat split; try tauto; try discriminate;
        try (intros (E & _); discriminate E);
        try (intros (_ & E & _); discriminate E).
  - destruct (Z.eqb_spec kind KING) as [Ek'|Ek'].
    + (* the king *)
      rewrite Ek'. unfold MakeKing, is_capture. cbv zeta.
      destruct (Z.land (MoveType m) CAPTURE =? 0) eqn:Ec; cbn [negb].
      * assert (E : forall x y,
                  CastleFlags (if negb (Z.land (MoveType m) CASTLE =? 0) then x else y)
                  = (if negb (Z.land (MoveType m) CASTLE =? 0)
                     then CastleFlags x else CastleFlags y)).
        { intros x y. now destruct (negb _). }
        rewrite E. clear E.
        assert (E : forall x y : TBoard,
                  CastleFlags (if To m =? 6 then x else y)
                  = (if To m =? 6 then CastleFlags x else CastleFlags y)).
        { intros x y. now destruct (To m =? 6). }
        rewrite E. clear E.
        cbn [CastleFlags set_EnPassant set_P0 set_P1 set_P2 set_PM
             ResetCastleSM ResetCastleLM set_CastleFlags].
        rewrite !Tauto.if_same. rewrite !Z.land_spec. bit_consts.
        rewrite ?andb_true_r, ?andb_false_r.
        split; [now apply land_range, land_range|].
        repeat split; try tauto; try discriminate;
          intros (E & _); discriminate E.
      * set (r := set_EnPassant 8 _).
        assert (Hr : CastleFlags r = Z.land (Z.land (CastleFlags p) 0xFD) 0xFE)
          by reflexivity.
        assert (Hrr : 0 <= CastleFlags r < 256)
          by (rewrite Hr; now apply land_range, land_range).
        assert (H5 : Z.testbit (CastleFlags r) 5 = Z.testbit (CastleFlags p) 5).
        { rewrite Hr, !Z.land_spec. bit_consts. now rewrite !andb_true_r. }
        assert (H4 : Z.testbit (CastleFlags r) 4 = Z.testbit (CastleFlags p) 4).
        { rewrite Hr, !Z.land_spec. bit_consts. now rewrite !andb_true_r. }
        assert (H1 : Z.testbit (CastleFlags r) 1 = false).
        { rewrite Hr, !Z.land_spec. bit_consts. now rewrite ?andb_false_r. }
        assert (H0 : Z.testbit (CastleFlags r) 0 = false).
        { rewrite Hr, !Z.land_spec. bit_consts. now rewrite ?andb_false_r. }
        clearbody r.
        assert (S5 : negb (CastleSO r =? 0) = Z.testbit (CastleFlags r) 5).
        { unfold CastleSO. change 0x20 with (Z.shiftl 1 5).
          rewrite flag_bit by lia. apply negb_involutive. }
        assert (S4 : negb (CastleLO r =? 0) = Z.testbit (CastleFlags r) 4).
        { unfold CastleLO. change 0x10 with (Z.shiftl 1 4).
          rewrite flag_bit by lia. apply negb_involutive. }
        rewrite S5, S4, H5, H4.
        destruct (Z.testbit (CastleFlags p) 5) eqn:B5,
          (Z.testbit (CastleFlags p) 4) eqn:B4,
          (Z.eqb_spec (To m) 63) as [E63|E63],
          (Z.eqb_spec (To m) 56) as [E56|E56];
          cbn [andb]; try lia;
          unfold ResetCastleSO, ResetCastleLO;
          cbn [CastleFlags set_CastleFlags];
          rewrite ?Z.land_spec, ?H0, ?H1, ?H5, ?H4; bit_consts;
          rewrite ?andb_true_r, ?andb_false_r;
          (split; [try apply land_range; exact Hrr|]);
          repeat split; try tauto; try discriminate; try lia;
          try (intros (_ & _ & E); lia).
    + (* another piece *)
      unfold MakePiece. cbv zeta.
      match goal with
      | |- context [capture_rights m ?x] =>
          assert (Hx : 0 <= CastleFlags x < 256
                       /\ (Z.testbit (CastleFlags x) 1 = true ->
                           Z.testbit (CastleFlags p) 1 = true
                           /\ ~ (kind = ROOK /\ From m = 7))
                       /\ (Z.testbit (CastleFlags x) 0 = true ->
                           Z.testbit (CastleFlags p) 0 = true
                           /\ ~ (kind = ROOK /\ From m = 0))
                       /\ Z.testbit (CastleFlags x) 5 = Z.testbit (CastleFlags p) 5
                       /\ Z.testbit (CastleFlags x) 4 = Z.testbit (CastleFlags p) 4);
          [|destruct Hx as (Hr & X1 & X0 & X5 & X4);
            destruct (capture_rights_flags m x Hr)
              as (Hr' & _ & H0 & H1 & H5 & H4)]
      end.
      { destruct (Z.eqb_spec kind ROOK) as [Er|Er].
        - destruct (Z.eqb_spec (From m) 7) as [E7|E7];
            [|destruct (Z.eqb_spec (From m) 0) as [E0|E0]];
            unfold ResetCastleSM, ResetCastleLM;
            cbn [CastleFlags set_EnPassant set_P0 set_P1 set_P2 set_PM set_CastleFlags];
            rewrite ?delete_captured_flags, ?Z.land_spec; bit_consts;
            rewrite ?andb_true_r, ?andb_false_r;
            (split; [try apply land_range; exact Hcf|]);
            repeat split; try tauto; try discriminate; try lia.
        - cbn [CastleFlags set_EnPassant set_P0 set_P1 set_P2 set_PM set_CastleFlags].
          rewrite ?delete_captured_flags.
          split; [exact Hcf|]. repeat split; tauto. }
      rewrite H0, H1, H5, H4, X5, X4. split; [exact Hr'|].
      repeat split; try tauto.
      * apply andb_true_iff in H. tauto.
      * apply andb_true_iff in H. destruct H as [_ H].
        intros (Hc & _ & Ht). rewrite Hc, Ht in H. discriminate H.
      * apply andb_true_iff in H. tauto.
      * apply andb_true_iff in H. destruct H as [_ H].
        intros (Hc & _ & Ht). rewrite Hc, Ht in H. discriminate H.
Qed.

End Fields.

(** ** The invariants, from the squares *)

Lemma codes_ok_intro q :
  is64 (P0 q) -> (forall s, 0 <= s < 64 -> Piece q s <> 7) -> codes_ok q = true.
Proof.
  intros H0 H. unfold codes_ok. apply Z.eqb_eq.
  apply eq64; [now apply is64_land_l, is64_land_l|split; lia|].
  intros s Hs. rewrite !Z.land_spec, Z.testbit_0_l.
  specialize (H s Hs). rewrite Piece_bits in H by lia.
  destruct (Z.testbit (P0 q) s), (Z.testbit (P1 q) s), (Z.testbit (P2 q) s);
    try reflexivity.
  now elim H.
Qed.

Lemma pm_ok_intro q :
  is64 (PM q) ->
  (forall s, 0 <= s < 64 -> Z.testbit (PM q) s = true -> Piece q s <> EMPTY) ->
  pm_ok q = true.
Proof.
  intros H0 H. unfold pm_ok. apply Z.eqb_eq.
  apply eq64; [now apply is64_land_l|split; lia|].
  intros s Hs. rewrite Z.land_spec, Z.testbit_0_l, testbit_neg64, testbit_Occupation
    by lia.
  specialize (H s Hs). rewrite negb_involutive.
  destruct (Z.testbit (PM q) s); [|reflexivity].
  destruct (Z.eqb_spec (Piece q s) EMPTY) as [E|E]; [|reflexivity].
  now elim (H eq_refl).
Qed.

Lemma single_intro bb k :
  is64 bb -> 0 <= k < 64 ->
  (forall s, 0 <= s < 64 -> Z.testbit bb s = true <-> s = k) ->
  single bb = true.
Proof.
  intros Hb Hk H.
  assert (E : bb = shl64 1 k).
  { apply eq64; [assumption|apply is64_shl64|]. intros s Hs.
    rewrite testbit_one_at by assumption. apply eq_true_iff_eq.
    rewrite (H s Hs), Z.eqb_eq. reflexivity. }
  rewrite E. clear H E. revert k Hk.
  apply (check_squares (fun k => single (shl64 1 k))). vm_compute. reflexivity.
Qed.

Lemma kings_ok_intro q k1 k2 :
  codes_ok q = true -> is64 (PM q) ->
  king_at (board_of q) true k1 -> king_at (board_of q) false k2 ->
  kings_ok q = true.
Proof.
  intros Hc HM [Hk1 H1] [Hk2 H2]. unfold kings_ok. apply andb_true_iff. split.
  - apply (single_intro _ k1); [now apply is64_land_r|assumption|].
    intros s Hs. rewrite <- (H1 s Hs). unfold board_of. cbn [fst snd].
    rewrite Z.land_spec, testbit_Kings by (assumption || lia).
    destruct (Z.testbit (PM q) s); reflexivity.
  - apply (single_intro _ k2);
      [now apply is64_land_r, is64_not64|assumption|].
    intros s Hs. rewrite <- (H2 s Hs). unfold board_of. cbn [fst snd].
    rewrite Z.land_spec, testbit_Kings, testbit_neg64 by (assumption || lia).
    destruct (Z.testbit (PM q) s); reflexivity.
Qed.

Lemma board_of_own q c s :
  codes_ok q = true -> 0 <= s < 64 -> 1 <= c <= 6 ->
  board_of q s = (c, true) ->
  Z.testbit (Z.land (BBPieces q c) (PM q)) s = true.
Proof.
  intros Hc Hs Hr E. unfold board_of in E. injection E as E1 E2.
  rewrite Z.land_spec, testbit_BBPieces, E1, E2, Z.eqb_refl by assumption.
  reflexivity.
Qed.

Lemma board_of_other q c s :
  codes_ok q = true -> 0 <= s < 64 -> 1 <= c <= 6 ->
  board_of q s = (c, false) ->
  Z.testbit (Z.land (BBPieces q c) (not64 (PM q))) s = true.
Proof.
  intros Hc Hs Hr E. unfold board_of in E. injection E as E1 E2.
  rewrite Z.land_spec, testbit_BBPieces, testbit_neg64, E1, E2, Z.eqb_refl
    by assumption.
  reflexivity.
Qed.

Lemma castle_ok_intro q :
  codes_ok q = true ->
  (CastleSM q <> 0 -> board_of q 4 = (KING, true) /\ board_of q 7 = (ROOK, true)) ->
  (CastleLM q <> 0 -> board_of q 4 = (KING, true) /\ board_of q 0 = (ROOK, true)) ->
  (CastleSO q <> 0 ->
   board_of q 60 = (KING, false) /\ board_of q 63 = (ROOK, false)) ->
  (CastleLO q <> 0 ->
   board_of q 60 = (KING, false) /\ board_of q 56 = (ROOK, false)) ->
  castle_ok q = true.
Proof.
  intros Hc H1 H2 H3 H4. unfold castle_ok. rewrite !andb_true_iff.
  repeat split.
  - destruct (Z.eqb_spec (CastleSM q) 0) as [|E]; [reflexivity|].
    destruct (H1 E) as [Ha Hb]. cbn [orb].
    apply andb_true_iff.
    split; [apply (board_of_own q KING 4)|apply (board_of_own q ROOK 7)];
      try assumption; unfold KING, ROOK; lia.
  - destruct (Z.eqb_spec (CastleLM q) 0) as [|E]; [reflexivity|].
    destruct (H2 E) as [Ha Hb]. cbn [orb].
    apply andb_true_iff.
    split; [apply (board_of_own q KING 4)|apply (board_of_own q ROOK 0)];
      try assumption; unfold KING, ROOK; lia.
  - destruct (Z.eqb_spec (CastleSO q) 0) as [|E]; [reflexivity|].
    destruct (H3 E) as [Ha Hb]. cbn [orb].
    apply andb_true_iff.
    split; [apply (board_of_other q KING 60)|apply (board_of_other q ROOK 63)];
      try assumption; unfold KING, ROOK; lia.
  - destruct (Z.eqb_spec (CastleLO q) 0) as [|E]; [reflexivity|].
    destruct (H4 E) as [Ha Hb]. cbn [orb].
    apply andb_true_iff.
    split; [apply (board_of_other q KING 60)|apply (board_of_other q ROOK 56)];
      try assumption; unfold KING, ROOK; lia.
Qed.

Lemma board_of_bits q c (mine : bool) s :
  codes_ok q = true -> 0 <= s < 64 -> 1 <= c <= 6 ->
  Z.testbit (Z.land (BBPieces q c) (if mine then PM q else not64 (PM q))) s = true ->
  board_of q s = (c, mine).
Proof.
  intros Hc Hs Hr H. rewrite Z.land_spec, testbit_BBPieces in H by assumption.
  apply andb_true_iff in H. destruct H as [H1 H2]. apply Z.eqb_eq in H1.
  unfold board_of. rewrite H1. f_equal.
  destruct mine; [assumption|].
  rewrite testbit_neg64 in H2 by assumption. now apply negb_true_iff in H2.
Qed.

Lemma castle_ok_elim q :
  encoding_ok q = true ->
  (CastleSM q <> 0 -> board_of q 4 = (KING, true) /\ board_of q 7 = (ROOK, true))
  /\ (CastleLM q <> 0 ->
      board_of q 4 = (KING, true) /\ board_of q 0 = (ROOK, true))
  /\ (CastleSO q <> 0 ->
      board_of q 60 = (KING, false) /\ board_of q 63 = (ROOK, false))
  /\ (CastleLO q <> 0 ->
      board_of q 60 = (KING, false) /\ board_of q 56 = (ROOK, false)).
Proof.
  intros Henc. pose proof (encoding_codes q Henc) as Hc.
  pose proof (encoding_castle q Henc) as H. unfold castle_ok in H.
  rewrite !andb_true_iff in H. destruct H as [[[H1 H2] H3] H4].
  split; [|split; [|split]]; intros E; split.
  - apply orb_true_iff in H1. destruct H1 as [H1|H1];
      [apply Z.eqb_eq in H1; contradiction|].
    apply andb_true_iff in H1. destruct H1 as [Ha Hb].
    now apply (board_of_bits q KING true 4).
  - apply orb_true_iff in H1. destruct H1 as [H1|H1];
      [apply Z.eqb_eq in H1; contradiction|].
    apply andb_true_iff in H1. destruct H1 as [Ha Hb].
    now apply (board_of_bits q ROOK true 7).
  - apply orb_true_iff in H2. destruct H2 as [H2|H2];
      [apply Z.eqb_eq in H2; contradiction|].
    apply andb_true_iff in H2. destruct H2 as [Ha Hb].
    now apply (board_of_bits q KING true 4).
  - apply orb_true_iff in H2. destruct H2 as [H2|H2];
      [apply Z.eqb_eq in H2; contradiction|].
    apply andb_true_iff in H2. destruct H2 as [Ha Hb].
    now apply (board_of_bits q ROOK true 0).
  - apply orb_true_iff in H3. destruct H3 as [H3|H3];
      [apply Z.eqb_eq in H3; contradiction|].
    apply andb_true_iff in H3. destruct H3 as [Ha Hb].
    now apply (board_of_bits q KING false 60).
  - apply orb_true_iff in H3. destruct H3 as [H3|H3];
      [apply Z.eqb_eq in H3; contradiction|].
    apply andb_true_iff in H3. destruct H3 as [Ha Hb].
    now apply (board_of_bits q ROOK false 63).
  - apply orb_true_iff in H4. destruct H4 as [H4|H4];
      [apply Z.eqb_eq in H4; contradiction|].
    apply andb_true_iff in H4. destruct H4 as [Ha Hb].
    now apply (board_of_bits q KING false 60).
  - apply orb_true_iff in H4. destruct H4 as [H4|H4];
      [apply Z.eqb_eq in H4; contradiction|].
    apply andb_true_iff in H4. destruct H4 as [Ha Hb].
    now apply (board_of_bits q ROOK false 56).
Qed.

Lemma roll_bits c :
  0 <= c < 256 ->
  Z.testbit (roll c) 1 = Z.testbit c 5 /\ Z.testbit (roll c) 0 = Z.testbit c 4
  /\ Z.testbit (roll c) 5 = Z.testbit c 1 /\ Z.testbit (roll c) 4 = Z.testbit c 0.
Proof.
  intros Hc.
  pose proof (check_below 256
    (fun c => Bool.eqb (Z.testbit (roll c) 1) (Z.testbit c 5)
              && Bool.eqb (Z.testbit (roll c) 0) (Z.testbit c 4)
              && Bool.eqb (Z.testbit (roll c) 5) (Z.testbit c 1)
              && Bool.eqb (Z.testbit (roll c) 4) (Z.testbit c 0))
    ltac:(vm_compute; reflexivity) c ltac:(lia)) as H.
  cbv beta in H. rewrite !andb_true_iff in H.
  destruct H as [[[H1 H2] H3] H4]. apply eqb_prop in H1, H2, H3, H4. tauto.
Qed.

(** ** Make keeps a legal position legal *)

Section Preserved.
Variables (p : TBoard) (m : TMove).
Hypothesis Henc : encoding_ok p = true.
Hypothesis Hsafe : in_check (board_of p) false = false.
Hypothesis Hgen : gen_move p m.
Hypothesis Hleg : Illegal p m = 0.

Local Abbreviation p' := (MakeBoard m p).
Local Abbreviation am := (after_move p m).
Local Abbreviation k := (king_after p m).
Local Abbreviation ko := (LSB (Z.land (Kings p) (not64 (PM p)))).

Lemma made_shape : move_shape p m.
Proof. now apply gen_move_shape. Qed.

Lemma made_flags : move_flags p m.
Proof. now apply gen_move_flags. Qed.

Lemma made_view s : 0 <= s < 64 -> board_of p' s = turn_board am s.
Proof. now apply MakeBoard_view. Qed.

Lemma made_is : p' = ChangeSide (moved m p).
Proof. apply MakeBoard_moved. apply (ms_kind _ _ made_shape). Qed.

Lemma after_move_untouched s :
  0 <= s < 64 -> s <> To m -> s <> From m ->
  (is_ep m = true -> s <> To m - 8) ->
  (is_castle m = true -> s <> rook_castled m /\ s <> rook_home m) ->
  am s = board_of p s.
Proof.
  intros Hs Ht Hf Hep Hc.
  destruct (after_move_cases p m Henc made_shape made_flags s Hs)
    as [(E & H & _)|[(E & H & _)|[(_ & H & _)| ->]]];
    try (specialize (Hc E); tauto); try contradiction.
  rewrite spec_after_view by (assumption || apply made_shape).
  destruct (Z.eqb_spec s (To m)); [contradiction|].
  destruct (Z.eqb_spec s (From m)); [contradiction|]. cbn [orb].
  destruct (is_ep m); cbn [andb]; [|reflexivity].
  destruct (Z.eqb_spec s (To m - 8)); [|reflexivity].
  now elim (Hep eq_refl).
Qed.

Lemma after_move_code s : 0 <= s < 64 -> 0 <= fst (am s) <= 6.
Proof.
  intros Hs.
  destruct (after_move_cases p m Henc made_shape made_flags s Hs)
    as [(_ & _ & -> & _)|[(_ & _ & -> & _)|[(Ep & _ & -> & _)| ->]]];
    cbn [fst]; try (vm_compute; split; congruence).
  - destruct (mf_promo _ _ made_flags Ep) as (_ & _ & Hin).
    unfold promotion_pieces in Hin. simpl in Hin.
    repeat (destruct Hin as [<-|Hin]; [vm_compute; split; congruence|]).
    contradiction.
  - rewrite spec_after_view by (assumption || apply made_shape).
    destruct (s =? To m); cbn [fst].
    + pose proof (ms_kind _ _ made_shape). lia.
    + destruct (_ || _); cbn [fst]; [vm_compute; split; congruence|].
      pose proof (Piece_range p s ltac:(lia)).
      pose proof (Piece_not7 p s (encoding_codes p Henc) ltac:(lia)). lia.
Qed.

Lemma after_move_empty s : 0 <= s < 64 -> fst (am s) = EMPTY -> snd (am s) = false.
Proof.
  intros Hs.
  destruct (after_move_cases p m Henc made_shape made_flags s Hs)
    as [(_ & _ & -> & _)|[(_ & _ & -> & _)|[(Ep & _ & -> & _)| ->]]];
    cbn [fst snd]; try discriminate; try reflexivity.
  - destruct (mf_promo _ _ made_flags Ep) as (_ & _ & Hin).
    apply promotion_piece_code in Hin. tauto.
  - rewrite spec_after_view by (assumption || apply made_shape).
    destruct (s =? To m); cbn [fst snd].
    + pose proof (ms_kind _ _ made_shape). unfold EMPTY. lia.
    + destruct (_ || _); cbn [fst snd]; [reflexivity|].
      intros E. now apply (vacant_not_mine p Henc).
Qed.

Lemma made_fields : fields_ok p' = true.
Proof.
  rewrite made_is. unfold fields_ok, ChangeSide.
  cbn [PM P0 P1 P2 CastleFlags EnPassant STM
       set_PM set_P0 set_P1 set_P2 set_CastleFlags set_STM].
  pose proof (encoding_fields p Henc) as (_ & _ & _ & _ & Hcf & Hep & Hstm).
  rewrite !andb_true_iff. repeat split;
    try (apply is64b_spec; apply is64_bswap64).
  - apply Z.leb_le. apply (wrap8_range (wrap8 _)). unfold wrap8.
    rewrite <- Z.land_assoc. reflexivity.
  - apply Z.ltb_lt. apply (wrap8_range (wrap8 _)). unfold wrap8.
    rewrite <- Z.land_assoc. reflexivity.
  - apply Z.leb_le. destruct (moved_EnPassant p m) as [->|(-> & _)]; [lia|].
    change 7 with (Z.ones 3). rewrite Z.land_ones by lia.
    pose proof (Z.mod_pos_bound (To m) (2 ^ 3) ltac:(lia)). lia.
  - apply Z.leb_le. destruct (moved_EnPassant p m) as [->|(-> & _)]; [lia|].
    change 7 with (Z.ones 3). rewrite Z.land_ones by lia.
    pose proof (Z.mod_pos_bound (To m) (2 ^ 3) ltac:(lia)).
    change (2 ^ 3) with 8 in *. lia.
  - apply Z.leb_le. rewrite moved_STM. apply Z.lxor_nonneg. unfold BLACK. lia.
  - apply Z.ltb_lt. rewrite moved_STM.
    pose proof (check_below 256 (fun c => Z.lxor c BLACK <? 256)
                  ltac:(vm_compute; reflexivity) (STM p) ltac:(lia)) as H.
    now apply Z.ltb_lt in H.
Qed.

Lemma made_is64 : is64 (PM p') /\ is64 (P0 p').
Proof.
  pose proof made_fields as H. unfold fields_ok in H.
  rewrite !andb_true_iff in H. rewrite !is64b_spec in H. tauto.
Qed.

Lemma made_codes : codes_ok p' = true.
Proof.
  apply codes_ok_intro; [apply made_is64|]. intros s Hs.
  change (Piece p' s) with (fst (board_of p' s)). rewrite made_view by assumption.
  unfold turn_board.
  pose proof (after_move_code (OppSq s) (OppSq_range s Hs)) as H.
  destruct (am (OppSq s)). cbn [fst] in *. lia.
Qed.

Lemma made_pm : pm_ok p' = true.
Proof.
  apply pm_ok_intro; [apply made_is64|]. intros s Hs.
  change (Piece p' s) with (fst (board_of p' s)).
  change (Z.testbit (PM p') s) with (snd (board_of p' s)).
  rewrite made_view by assumption. unfold turn_board.
  pose proof (after_move_empty (OppSq s) (OppSq_range s Hs)) as H.
  destruct (am (OppSq s)) as [c mine]. cbn [fst snd] in *.
  intros H1 ->. rewrite H in H1 by reflexivity. discriminate H1.
Qed.

Lemma king_at_ext b b' mover sq :
  (forall s, 0 <= s < 64 -> b s = b' s) -> king_at b mover sq -> king_at b' mover sq.
Proof.
  intros E [Hk H]. split; [assumption|]. intros s Hs. rewrite <- (E s Hs).
  now apply H.
Qed.

Lemma made_target : Piece p (To m) <> KING.
Proof. now apply no_king_capture. Qed.

Lemma made_kings :
  king_at (board_of p') true (OppSq ko) /\ king_at (board_of p') false (OppSq k).
Proof.
  split.
  - apply (king_at_ext (turn_board am)); [intros; symmetry; now apply made_view|].
    apply (king_at_turn am false).
    apply king_at_after_move_opponent;
      auto using made_shape, made_flags, made_target.
  - apply (king_at_ext (turn_board am)); [intros; symmetry; now apply made_view|].
    apply (king_at_turn am true).
    apply king_at_after_move; auto using made_shape, made_flags.
Qed.

Lemma made_kings_ok : kings_ok p' = true.
Proof.
  destruct made_kings as [H1 H2].
  apply (kings_ok_intro p' _ _ made_codes (proj1 made_is64) H1 H2).
Qed.

(** The side that has moved is not in check. *)
Lemma made_safe : in_check (board_of p') false = false.
Proof.
  rewrite (in_check_ext _ (turn_board am)) by apply made_view.
  pose proof (king_at_after_move p m Henc made_shape made_flags) as Hk.
  pose proof (in_check_turn am true k Hk) as Ht. cbn [negb] in Ht. rewrite Ht.
  unfold in_check. rewrite (king_square_at _ _ _ Hk). cbn [negb].
  destruct (attacked_by am false k) eqn:E; [|reflexivity].
  apply (attacked_after_move p m Henc made_shape made_flags) in E.
  assert (Hc : in_check (spec_after p m) true = true).
  { unfold in_check.
    rewrite (king_square_at _ _ _ (king_at_spec_after p m Henc made_shape)).
    exact E. }
  apply (Illegal_in_check p m Henc made_shape) in Hc. contradiction.
Qed.

Lemma rank4_file t :
  24 <= t < 32 ->
  Z.land t 7 = t - 24 /\ OppSq t = t + 8 /\ OppSq (t - 8) = t + 16.
Proof.
  intros Ht.
  pose proof (check_squares
    (fun t => implb ((24 <=? t) && (t <? 32))
                    ((Z.land t 7 =? t - 24) && (OppSq t =? t + 8)
                     && (OppSq (t - 8) =? t + 16)))
    ltac:(vm_compute; reflexivity) t ltac:(lia)) as H.
  cbv beta in H.
  destruct (Z.leb_spec 24 t); [|lia]. destruct (Z.ltb_spec t 32); [|lia].
  cbn [andb implb] in H. rewrite !andb_true_iff, !Z.eqb_eq in H. tauto.
Qed.

Lemma made_turned s c mine :
  0 <= s < 64 -> am s = (c, mine) ->
  board_of p' (OppSq s) = (c, xorb mine (negb (c =? EMPTY))).
Proof.
  intros Hs E. rewrite made_view by now apply OppSq_range.
  unfold turn_board. now rewrite OppSq_involutive, E.
Qed.

Lemma made_ep : ep_ok p' = true.
Proof.
  assert (Eep : EnPassant p' = EnPassant (moved m p)).
  { rewrite made_is. apply EnPassant_ChangeSide. }
  unfold ep_ok. rewrite !Eep.
  destruct (moved_EnPassant p m) as [->|(E & Hk & Hep & Hpr & Hd)];
    [reflexivity|].
  rewrite E.
  destruct (mf_double _ _ made_flags Hk Hd) as (Hr & Hv).
  destruct (rank4_file (To m) Hr) as (-> & H1 & H2).
  replace (32 + (To m - 24)) with (OppSq (To m)) by lia.
  replace (40 + (To m - 24)) with (OppSq (To m - 8)) by lia.
  assert (Hc : is_castle m = false).
  { apply (not_castle p m made_flags). rewrite Hk. discriminate. }
  assert (A1 : am (To m) = (PAWN, true)).
  { unfold after_move. rewrite Hc, Hpr. cbn [andb].
    rewrite spec_after_view, Z.eqb_refl, Hk by (apply made_shape || lia).
    reflexivity. }
  assert (A2 : am (To m - 8) = (EMPTY, Z.testbit (PM p) (To m - 8))).
  { rewrite after_move_untouched; try lia.
    - unfold board_of. now rewrite Hv.
    - rewrite Hep. discriminate.
    - rewrite Hc. discriminate. }
  apply made_turned in A1; [|lia].
  apply made_turned in A2; [|lia].
  unfold board_of in A1, A2. injection A1 as A1 A1'. injection A2 as A2 _.
  rewrite Z.land_spec, testbit_Pawns, testbit_neg64, testbit_Occupation
    by (rewrite ?H1, ?H2; lia).
  rewrite A1, A1', A2. apply orb_true_r.
Qed.

Lemma opp_piece_stays s c :
  48 <= s < 64 -> board_of p s = (c, false) -> c <> EMPTY -> s <> To m ->
  board_of p' (OppSq s) = (c, true).
Proof.
  intros Hs E Hc Ht.
  assert (A : am s = (c, false)).
  { rewrite after_move_untouched; try assumption; try lia.
    - intros ->. destruct (ms_own _ _ made_shape) as [_ Ho].
      unfold board_of in E. injection E as _ E. congruence.
    - intros Hep. unfold is_ep in Hep. apply negb_true_iff, Z.eqb_neq in Hep.
      destruct (ms_ep _ _ made_shape Hep) as (Hr & _). lia.
    - intros _. unfold rook_castled, rook_home. destruct (To m =? 6); lia. }
  apply made_turned in A; [|lia]. rewrite A.
  destruct (Z.eqb_spec c EMPTY); [contradiction|reflexivity].
Qed.

Lemma own_piece_stays s c :
  0 <= s < 8 -> board_of p s = (c, true) -> c <> EMPTY ->
  Z.land (MoveType m) 7 <> KING -> s <> From m ->
  board_of p' (OppSq s) = (c, false).
Proof.
  intros Hs E Hc Hk Hf.
  assert (A : am s = (c, true)).
  { rewrite after_move_untouched; try assumption; try lia.
    - intros ->. pose proof (ms_dest _ _ made_shape) as Ho.
      unfold board_of in E. injection E as _ E. congruence.
    - intros Hep. unfold is_ep in Hep. apply negb_true_iff, Z.eqb_neq in Hep.
      destruct (ms_ep _ _ made_shape Hep) as (Hr & _). lia.
    - intros Hca. rewrite (not_castle p m made_flags Hk) in Hca. discriminate. }
  apply made_turned in A; [|lia]. rewrite A.
  destruct (Z.eqb_spec c EMPTY); [contradiction|reflexivity].
Qed.

(** A rook that keeps its castling right has not been captured. *)
Lemma rook_not_captured s :
  board_of p s = (ROOK, false) ->
  ~ (is_capture m = true /\ is_ep m = false /\ To m = s) -> s <> To m.
Proof.
  intros E H ->. apply H. unfold board_of in E. injection E as E _.
  assert (Hc : is_capture m = true).
  { destruct (is_capture m) eqn:Ec; [reflexivity|].
    pose proof (mf_quiet _ _ made_flags Ec) as Hv. unfold vacant in Hv.
    rewrite Hv in E. discriminate. }
  repeat split; try assumption.
  destruct (is_ep m) eqn:Eep; [|reflexivity].
  destruct (ep_square p m made_shape Eep) as (_ & _ & _ & _ & _ & Hv).
  unfold vacant in Hv. rewrite Hv in E. discriminate.
Qed.

Lemma made_castle : castle_ok p' = true.
Proof.
  pose proof (encoding_fields p Henc) as (_ & _ & _ & _ & Hcf & _).
  destruct (moved_castle_flags p m Hcf) as (Hr & B1 & B0 & B5 & B4).
  destruct (roll_bits _ Hr) as (R1 & R0 & R5 & R4).
  assert (Hroll : CastleFlags p' = roll (CastleFlags (moved m p))).
  { rewrite made_is. reflexivity. }
  destruct (castle_ok_elim p Henc) as (C1 & C0 & C5 & C4).
  apply castle_ok_intro; [apply made_codes|..]; intros H.
  - apply CastleSM_bit in H. rewrite Hroll, R1 in H.
    destruct (B5 H) as [Hb Hn]. apply CastleSO_bit in Hb.
    destruct (C5 Hb) as [Hk Hrk].
    split.
    + apply (opp_piece_stays 60 KING); try assumption; try lia; try discriminate.
      intros E. apply made_target. rewrite <- E.
      unfold board_of in Hk. now injection Hk.
    + apply (opp_piece_stays 63 ROOK); try assumption; try lia; try discriminate.
      apply rook_not_captured; assumption.
  - apply CastleLM_bit in H. rewrite Hroll, R0 in H.
    destruct (B4 H) as [Hb Hn]. apply CastleLO_bit in Hb.
    destruct (C4 Hb) as [Hk Hrk].
    split.
    + apply (opp_piece_stays 60 KING); try assumption; try lia; try discriminate.
      intros E. apply made_target. rewrite <- E.
      unfold board_of in Hk. now injection Hk.
    + apply (opp_piece_stays 56 ROOK); try assumption; try lia; try discriminate.
      apply rook_not_captured; assumption.
  - apply CastleSO_bit in H. rewrite Hroll, R5 in H.
    destruct (B1 H) as (Hb & Hnk & Hn). apply CastleSM_bit in Hb.
    destruct (C1 Hb) as [Hk Hrk].
    split.
    + apply (own_piece_stays 4 KING); try assumption; try lia; try discriminate.
      intros E. apply Hnk. destruct (ms_own _ _ made_shape) as [Ho _].
      rewrite <- Ho, <- E. unfold board_of in Hk. now injection Hk.
    + apply (own_piece_stays 7 ROOK); try assumption; try lia; try discriminate.
      intros E. apply Hn. split; [|now symmetry].
      destruct (ms_own _ _ made_shape) as [Ho _].
      rewrite <- Ho, <- E. unfold board_of in Hrk. now injection Hrk.
  - apply CastleLO_bit in H. rewrite Hroll, R4 in H.
    destruct (B0 H) as (Hb & Hnk & Hn). apply CastleLM_bit in Hb.
    destruct (C0 Hb) as [Hk Hrk].
    split.
    + apply (own_piece_stays 4 KING); try assumption; try lia; try discriminate.
      intros E. apply Hnk. destruct (ms_own _ _ made_shape) as [Ho _].
      rewrite <- Ho, <- E. unfold board_of in Hk. now injection Hk.
    + apply (own_piece_stays 0 ROOK); try assumption; try lia; try discriminate.
      intros E. apply Hn. split; [|now symmetry].
      destruct (ms_own _ _ made_shape) as [Ho _].
      rewrite <- Ho, <- E. unfold board_of in Hrk. now injection Hrk.
Qed.

Lemma made_legal : legal_position p' = true.
Proof.
  unfold legal_position, encoding_ok.
  rewrite made_fields, made_codes, made_pm, made_kings_ok, made_ep, made_castle,
    made_safe.
  reflexivity.
Qed.

End Preserved.

Lemma legal_position_MakeBoard p m :
  legal_position p = true ->
  In m (GenerateCapture p ++ GenerateQuiets p) -> legal p m = true ->
  legal_position (MakeBoard m p) = true.
Proof.
  intros Hl Hin Hm. unfold legal_position in Hl.
  apply andb_true_iff in Hl. destruct Hl as [Henc Hs].
  apply negb_true_iff in Hs. apply Z.eqb_eq in Hm.
  apply made_legal; try assumption. now apply generated_gen.
Qed.

Lemma reachable_legal root p :
  legal_position root = true -> reachable root p -> legal_position p = true.
Proof.
  intros Hroot H. induction H as [|p m Hr IH Hin Hm]; [assumption|].
  now apply legal_position_MakeBoard.
Qed.

Lemma ChangeSide_pm_ok q : pm_ok q = true -> pm_ok (ChangeSide q) = true.
Proof.
  unfold pm_ok. rewrite !Z.eqb_eq. intros H.
  apply eq64; [apply is64_land_l; apply is64_bswap64|split; lia|].
  intros s Hs. pose proof (OppSq_range s Hs) as Ho.
  rewrite Z.land_spec, Z.testbit_0_l, testbit_neg64, testbit_Occupation by lia.
  change (Piece (ChangeSide q) s) with (fst (board_of (ChangeSide q) s)).
  change (Z.testbit (PM (ChangeSide q)) s) with (snd (board_of (ChangeSide q) s)).
  rewrite ChangeSide_view by assumption. unfold turn_board, board_of.
  cbn [fst snd].
  apply (bit_of_eq _ _ (OppSq s)) in H.
  rewrite Z.land_spec, Z.testbit_0_l, testbit_neg64, testbit_Occupation in H by lia.
  destruct (Z.testbit (PM q) (OppSq s)), (Piece q (OppSq s) =? EMPTY);
    try reflexivity; discriminate H.
Qed.

Lemma pm_ok_subset q :
  pm_ok q = true ->
  forall s, 0 <= s < 64 ->
    Z.testbit (PM q) s = true -> Z.testbit (Occupation q) s = true.
Proof.
  unfold pm_ok. rewrite Z.eqb_eq. intros H s Hs Hb.
  apply (bit_of_eq _ _ s) in H.
  rewrite Z.land_spec, Z.testbit_0_l, testbit_neg64, Hb in H by lia.
  now apply negb_false_iff in H.
Qed.

(** Why the root has to be a legal position: Make does not keep the
    inclusion on its own.  The position loaded from
    [fen_en_passant_occupied] has PM within the occupied squares, but its
    en-passant field names an occupied square; the en-passant capture is
    generated there and passes the legality filter, and Make of it
    leaves a bit of PM on the empty square 20. *)
Lemma inclusion_needs_en_passant_invariant :
  let p := LoadBoard fen_en_passant_occupied in
  let m := mkMove (Z.lor (Z.lor PAWN EP) CAPTURE) 35 44 EMPTY in
  let q := MakeBoard m p in
  pm_ok p = true /\ ep_ok p = false
  /\ In m (GenerateCapture p) /\ legal p m = true
  /\ reachable p q
  /\ pm_ok q = false
  /\ Z.testbit (PM q) 20 = true /\ Z.testbit (Occupation q) 20 = false.
Proof.
  cbv zeta.
  assert (Hin : In (mkMove (Z.lor (Z.lor PAWN EP) CAPTURE) 35 44 EMPTY)
                   (GenerateCapture (LoadBoard fen_en_passant_occupied))).
  { vm_compute. right. left. reflexivity. }
  split; [vm_compute; reflexivity|]. split; [vm_compute; reflexivity|].
  split; [exact Hin|]. split; [vm_compute; reflexivity|].
  split.
  { apply reach_make; [apply reach_root| |vm_compute; reflexivity].
    apply in_or_app. left. exact Hin. }
  split; [vm_compute; reflexivity|]. split; vm_compute; reflexivity.
Qed.

(** C9, amended: from a root position that is legal (the encoding
    invariants hold and the side that has just moved is not in check),
    every position reached by Make of generated moves that pass the
    legality filter keeps PM within the occupied squares P0|P1|P2.  Make
    of a generated move keeps the inclusion at every such position, and
    at every position that satisfies the encoding invariants; the side
    change keeps it at any position whatever.  The inclusion on its own
    is not kept by Make. *)
Theorem reachable_PM_within_occupancy (root : TBoard) :
  legal_position root = true ->
  (forall p, reachable root p ->
     pm_ok p = true
     /\ forall s, 0 <= s < 64 ->
          Z.testbit (PM p) s = true -> Z.testbit (Occupation p) s = true)
  /\ (forall p m, reachable root p ->
        In m (GenerateCapture p ++ GenerateQuiets p) -> legal p m = true ->
        pm_ok (MakeBoard m p) = true)
  /\ (forall p m, encoding_ok p = true ->
        In m (GenerateCapture p ++ GenerateQuiets p) ->
        pm_ok (MakeBoard m p) = true)
  /\ (forall q, pm_ok q = true -> pm_ok (ChangeSide q) = true).
Proof.
  intros Hroot.
  assert (Hpm : forall p, reachable root p -> pm_ok p = true).
  { intros p Hp. apply encoding_pm.
    pose proof (reachable_legal root p Hroot Hp) as Hl.
    unfold legal_position in Hl. apply andb_true_iff in Hl. tauto. }
  split; [|split; [|split]].
  - intros p Hp. split; [now apply Hpm|]. apply pm_ok_subset. now apply Hpm.
  - intros p m Hp Hin Hm. apply Hpm. now apply reach_make.
  - intros p m Henc Hin. apply made_pm; [assumption|now apply generated_gen].
  - apply ChangeSide_pm_ok.
Qed.

Lemma reachable_PM_within_occupancy_witness :
  (forall p, reachable (LoadBoard startpos) p ->
     pm_ok p = true
     /\ forall s, 0 <= s < 64 ->
          Z.testbit (PM p) s = true -> Z.testbit (Occupation p) s = true)
  /\ (forall p m, reachable (LoadBoard startpos) p ->
        In m (GenerateCapture p ++ GenerateQuiets p) -> legal p m = true ->
        pm_ok (MakeBoard m p) = true)
  /\ (forall p m, encoding_ok p = true ->
        In m (GenerateCapture p ++ GenerateQuiets p) ->
        pm_ok (MakeBoard m p) = true)
  /\ (forall q, pm_ok q = true -> pm_ok (ChangeSide q) = true).
Proof.
  apply (reachable_PM_within_occupancy (LoadBoard startpos)).
  vm_compute. reflexivity.
Defined.

(** ** Castling *)

Lemma castle_short_emitted p :
  In castle_short (GenerateQuiets p)
  <-> negb (CastleSM p =? 0) && (Z.land (Occupation p) 0x60 =? 0)
      && castle_short_ok p (Occupation p) (Z.lxor (Occupation p) (PM p)) = true.
Proof.
  unfold GenerateQuiets, castle_short. cbv zeta. rewrite !in_app_iff. split.
  - intros [H|[H|[H|[H|H]]]].
    + apply List.in_flat_map in H. destruct H as (piece & Hp & H).
      apply List.in_flat_map in H. destruct H as (sq & _ & H).
      apply List.in_map_iff in H. destruct H as (dst & E & _).
      injection E as E _ _. subst piece.
      unfold king_to_knight in Hp. simpl in Hp.
      repeat (destruct Hp as [Hp|Hp]; [discriminate Hp|]). contradiction.
    + apply List.in_map_iff in H. destruct H as (dst & E & _). discriminate E.
    + apply List.in_map_iff in H. destruct H as (dst & E & _). discriminate E.
    + destruct (_ && _); [|contradiction].
      destruct H as [E|[]]. discriminate E.
    + destruct (_ && _); [reflexivity|contradiction].
  - intros ->. right. right. right. right. now left.
Qed.

Lemma castle_long_emitted p :
  In castle_long (GenerateQuiets p)
  <-> negb (CastleLM p =? 0) && (Z.land (Occupation p) 0x0E =? 0)
      && castle_long_ok p (Occupation p) (Z.lxor (Occupation p) (PM p)) = true.
Proof.
  unfold GenerateQuiets, castle_long. cbv zeta. rewrite !in_app_iff. split.
  - intros [H|[H|[H|[H|H]]]].
    + apply List.in_flat_map in H. destruct H as (piece & Hp & H).
      apply List.in_flat_map in H. destruct H as (sq & _ & H).
      apply List.in_map_iff in H. destruct H as (dst & E & _).
      injection E as E _ _. subst piece.
      unfold king_to_knight in Hp. simpl in Hp.
      repeat (destruct Hp as [Hp|Hp]; [discriminate Hp|]). contradiction.
    + apply List.in_map_iff in H. destruct H as (dst & E & _). discriminate E.
    + apply List.in_map_iff in H. destruct H as (dst & E & _). discriminate E.
    + destruct (_ && _); [reflexivity|contradiction].
    + destruct (_ && _); [|contradiction].
      destruct H as [E|[]]. discriminate E.
  - intros ->. right. right. right. left. now left.
Qed.

Lemma upto_blocker_incl occ t l :
  existsb (Z.eqb t) (upto_blocker occ l) = true -> existsb (Z.eqb t) l = true.
Proof.
  induction l as [|s r IH]; simpl; [discriminate|].
  destruct (Z.testbit occ s); simpl.
  - rewrite orb_false_r. intros ->. reflexivity.
  - destruct (t =? s); [reflexivity|]. exact IH.
Qed.

Lemma testbit_first_blocker mask l occ t :
  mask = bb_of l -> ray_first_ok l = true -> Forall (fun s => 0 <= s) l ->
  0 <= t < 64 ->
  Z.testbit (ExtractLSB (Z.land mask occ)) t
  = Z.testbit occ t && existsb (Z.eqb t) (upto_blocker occ l).
Proof.
  intros -> Hok Hl Ht. rewrite Z.land_comm.
  unfold ray_first_ok in Hok. rewrite forallb_forall in Hok.
  specialize (Hok _ (in_subsets l occ Hl)). rewrite forallb_forall in Hok.
  specialize (Hok t (in_squares t Ht)). apply eqb_prop in Hok. rewrite Hok.
  assert (E : upto_blocker (Z.land occ (bb_of l)) l = upto_blocker occ l).
  { apply upto_blocker_ext. intros s Hs.
    rewrite Z.land_spec, testbit_bb_of by assumption.
    assert (existsb (Z.eqb s) l = true) as ->.
    { apply existsb_exists. exists s. split; [assumption|apply Z.eqb_refl]. }
    apply andb_true_r. }
  rewrite E, Z.land_spec, testbit_bb_of by assumption.
  destruct (existsb (Z.eqb t) (upto_blocker occ l)) eqn:Eu.
  - rewrite (upto_blocker_incl _ _ _ Eu). now rewrite !andb_true_r.
  - now rewrite !andb_false_r.
Qed.

Lemma testbit_rank_left occ t :
  0 <= t < 64 -> Z.testbit occ t = true ->
  Z.testbit (shl64 1 (MSB (Z.land 0x0F (Z.lor occ 1)))) t
  = existsb (Z.eqb t) (upto_blocker occ [3; 2; 1; 0]).
Proof.
  intros Ht Hb.
  assert (Hok : rank_left_ok = true) by (vm_compute; reflexivity).
  unfold rank_left_ok in Hok. rewrite forallb_forall in Hok.
  assert (Hl : Forall (fun s => 0 <= s) [0; 1; 2; 3]) by (repeat constructor; lia).
  specialize (Hok _ (in_subsets [0; 1; 2; 3] occ Hl)).
  rewrite forallb_forall in Hok. specialize (Hok t (in_squares t Ht)).
  cbv zeta in Hok. rewrite !andb_true_iff in Hok. destruct Hok as [[H1 H2] H3].
  apply eqb_prop in H1, H2, H3.
  set (x := Z.land occ (bb_of [0; 1; 2; 3])) in *.
  assert (Ex : Z.land 0x0F (Z.lor x 1) = Z.land 0x0F (Z.lor occ 1)).
  { unfold x. change (bb_of [0; 1; 2; 3]) with 0x0F.
    rewrite !Z.land_lor_distr_r. f_equal.
    rewrite (Z.land_comm occ), Z.land_assoc, Z.land_diag. reflexivity. }
  assert (Eu : upto_blocker x [3; 2; 1; 0] = upto_blocker occ [3; 2; 1; 0]).
  { apply upto_blocker_ext. intros s Hs. unfold x.
    rewrite Z.land_spec. change (bb_of [0; 1; 2; 3]) with 0x0F.
    simpl in Hs. destruct Hs as [<-|[<-|[<-|[<-|[]]]]]; apply andb_true_r. }
  rewrite Ex, Eu in *.
  destruct (Z.ltb_spec t 4) as [Hlt|Hge].
  - assert (Hx : Z.testbit x t = true).
    { unfold x. rewrite Z.land_spec, Hb. change (bb_of [0; 1; 2; 3]) with 0x0F.
      assert (E : t = 0 \/ t = 1 \/ t = 2 \/ t = 3) by lia.
      destruct E as [-> | [-> | [-> | ->]]]; reflexivity. }
    rewrite Hx in H3. exact H3.
  - cbn [andb] in H1, H2. now rewrite H1, H2.
Qed.

Lemma castle_short_ok_unfold p occ opp :
  castle_short_ok p occ opp
  = (Z.land (castle_attackers p (short_rook_lines occ) (short_bishop_lines occ)
               0x0000000000F8DC00 0x000000000000F800 0x0000000000004000) opp =? 0).
Proof. reflexivity. Qed.

Lemma castle_long_ok_unfold p occ opp :
  castle_long_ok p occ opp
  = (Z.land (castle_attackers p (long_rook_lines occ) (long_bishop_lines occ)
               0x00000000003E7700 0x0000000000003E00 0x0000000000000600) opp =? 0).
Proof. reflexivity. Qed.

Lemma existsb_false_in {A} (f : A -> bool) l x :
  existsb f l = false -> In x l -> f x = false.
Proof.
  intros H Hx. destruct (f x) eqn:E; [|reflexivity].
  assert (existsb f l = true) by (apply existsb_exists; eauto). congruence.
Qed.

Lemma not_attacked_by b mover k t :
  attacked_by b mover k = false -> 0 <= t < 64 ->
  fst (b t) <> EMPTY -> snd (b t) = mover -> piece_attacks b t k = false.
Proof.
  intros H Ht Hne Hm. unfold attacked_by in H.
  apply (existsb_false_in _ _ t) in H; [|now apply in_squares].
  cbv beta in H. rewrite Hm, eqb_reflx in H. apply Z.eqb_neq in Hne. rewrite Hne in H.
  exact H.
Qed.

(** One bit of [castle_attackers], for a square that holds an opposing
    piece. *)
Lemma castle_attackers_bit p roo bis knights pawns kings t :
  codes_ok p = true -> 0 <= t < 64 ->
  Z.testbit (castle_attackers p roo bis knights pawns kings) t
  = let c := Piece p t in
    Z.testbit roo t && ((c =? ROOK) || (c =? QUEEN))
    || Z.testbit bis t && ((c =? BISHOP) || (c =? QUEEN))
    || Z.testbit knights t && (c =? KNIGHT)
    || Z.testbit pawns t && (c =? PAWN)
    || (c =? KING) && Z.testbit kings t.
Proof.
  intros Hc Ht. unfold castle_attackers.
  rewrite !Z.lor_spec, !Z.land_spec, !Z.lor_spec.
  rewrite testbit_Knights, testbit_Rooks, testbit_Pawns by assumption.
  rewrite testbit_Queens, testbit_Bishops, testbit_Kings by (assumption || lia).
  reflexivity.
Qed.

(** A sliding attack, ray by ray from the square attacked. *)
Lemma rook_attack_rays t s occ :
  0 <= t < 64 -> 0 <= s < 64 ->
  Z.testbit (spec_rook_attacks t occ) s
  = existsb (Z.eqb t) (upto_blocker occ (ray s 0 1))
    || existsb (Z.eqb t) (upto_blocker occ (ray s 0 (-1)))
    || (existsb (Z.eqb t) (upto_blocker occ (ray s 1 0))
        || existsb (Z.eqb t) (upto_blocker occ (ray s (-1) 0))).
Proof.
  intros Ht Hs. rewrite spec_rook_symmetric by assumption.
  unfold spec_rook_attacks. rewrite !Z.lor_spec, !testbit_ray_attack. reflexivity.
Qed.

Lemma bishop_attack_rays t s occ :
  0 <= t < 64 -> 0 <= s < 64 ->
  Z.testbit (spec_bishop_attacks t occ) s
  = existsb (Z.eqb t) (upto_blocker occ (ray s 1 1))
    || existsb (Z.eqb t) (upto_blocker occ (ray s (-1) (-1)))
    || (existsb (Z.eqb t) (upto_blocker occ (ray s (-1) 1))
        || existsb (Z.eqb t) (upto_blocker occ (ray s 1 (-1)))).
Proof.
  intros Ht Hs. rewrite spec_bishop_symmetric by assumption.
  unfold spec_bishop_attacks. rewrite !Z.lor_spec, !testbit_ray_attack. reflexivity.
Qed.

Ltac eval_rays :=
  repeat match goal with
         | |- context [ray ?s ?df ?dr] =>
             let r := eval vm_compute in (ray s df dr) in
             change (ray s df dr) with r
         end.

Ltac first_blockers :=
  repeat match goal with
         | |- context [Z.testbit (ExtractLSB (Z.land ?mask ?occ)) ?t] =>
             rewrite (testbit_first_blocker mask _ occ t)
               by first [ vm_compute; reflexivity
                        | repeat constructor; lia
                        | assumption ]
         end.

Lemma existsb3 (f g : Z -> bool) a b c :
  existsb (fun s => f s || g s) [a; b; c] = existsb f [a; b; c] || existsb g [a; b; c].
Proof. simpl. btauto. Qed.

(** ** Short castling *)

Section Short.
Variable p : TBoard.
Hypothesis Henc : encoding_ok p = true.
Hypothesis Hsafe : in_check (board_of p) false = false.
Hypothesis Hright : CastleSM p <> 0.
Hypothesis Hvac : Z.land (Occupation p) 0x60 = 0.

Local Abbreviation occ := (Occupation p).

Lemma short_occ :
  Z.testbit occ 4 = true /\ Z.testbit occ 7 = true
  /\ Z.testbit occ 5 = false /\ Z.testbit occ 6 = false.
Proof.
  destruct (own_king_e1_short p Henc Hright) as [Hk _].
  destruct (own_rook_h1 p Henc Hright) as [Hr _].
  rewrite !testbit_Occupation, Hk, Hr by lia.
  pose proof (vacant_of_land_zero p 0x60 5 Hvac ltac:(lia) eq_refl) as V5.
  pose proof (vacant_of_land_zero p 0x60 6 Hvac ltac:(lia) eq_refl) as V6.
  unfold vacant in V5, V6. rewrite V5, V6. repeat split.
Qed.

Lemma short_enemy_off t : enemy p t -> t <> 4 /\ t <> 5 /\ t <> 6 /\ t <> 7.
Proof.
  intros [Hne Hm].
  destruct (own_king_e1_short p Henc Hright) as [_ Hk].
  destruct (own_rook_h1 p Henc Hright) as [_ Hr].
  pose proof (vacant_of_land_zero p 0x60 5 Hvac ltac:(lia) eq_refl) as V5.
  pose proof (vacant_of_land_zero p 0x60 6 Hvac ltac:(lia) eq_refl) as V6.
  repeat split; intros ->; try congruence; contradiction.
Qed.

Lemma enemy_occupied t : 0 <= t < 64 -> enemy p t -> Z.testbit occ t = true.
Proof.
  intros Ht [Hne _]. rewrite testbit_Occupation by lia.
  now apply negb_true_iff, Z.eqb_neq.
Qed.

Lemma short_rook_bit t :
  0 <= t < 64 -> enemy p t ->
  Z.testbit (short_rook_lines occ) t
  = existsb (fun s => Z.testbit (spec_rook_attacks t occ) s) [4; 5; 6].
Proof.
  intros Ht Hen. pose proof (enemy_occupied t Ht Hen) as Ho.
  destruct (short_enemy_off t Hen) as (N4 & N5 & N6 & N7).
  destruct short_occ as (O4 & O7 & O5 & O6).
  unfold short_rook_lines. cbv zeta. rewrite !Z.lor_spec.
  rewrite (testbit_first_blocker 0x1010101010101000 (ray 4 0 1)),
    (testbit_first_blocker 0x2020202020202000 (ray 5 0 1)),
    (testbit_first_blocker 0x4040404040404000 (ray 6 0 1))
    by first [apply ray_nonneg | exact Ht | vm_compute; reflexivity].
  rewrite testbit_rank_left by assumption.
  cbn [existsb]. rewrite !rook_attack_rays by lia. rewrite Ho. cbn [andb].
  set (A4 := existsb (Z.eqb t) (upto_blocker occ (ray 4 0 1))).
  set (A5 := existsb (Z.eqb t) (upto_blocker occ (ray 5 0 1))).
  set (A6 := existsb (Z.eqb t) (upto_blocker occ (ray 6 0 1))).
  eval_rays.
  set (D := existsb (Z.eqb t) (upto_blocker occ [3; 2; 1; 0])).
  cbn [upto_blocker]. rewrite O4, O5, O6, O7. cbn [existsb].
  apply Z.eqb_neq in N4, N5, N6, N7. rewrite ?N4, ?N5, ?N6, ?N7.
  destruct A4, A5, A6, D; reflexivity.
Qed.

Lemma short_bishop_bit t :
  0 <= t < 64 -> enemy p t ->
  Z.testbit (short_bishop_lines occ) t
  = existsb (fun s => Z.testbit (spec_bishop_attacks t occ) s) [4; 5; 6].
Proof.
  intros Ht Hen. pose proof (enemy_occupied t Ht Hen) as Ho.
  unfold short_bishop_lines. cbv zeta. rewrite !Z.lor_spec.
  rewrite (testbit_first_blocker 0x0000000102040800 (ray 4 (-1) 1)),
    (testbit_first_blocker 0x0000010204081000 (ray 5 (-1) 1)),
    (testbit_first_blocker 0x0001020408102000 (ray 6 (-1) 1)),
    (testbit_first_blocker 0x0000000080402000 (ray 4 1 1)),
    (testbit_first_blocker 0x0000000000804000 (ray 5 1 1))
    by first [apply ray_nonneg | exact Ht | vm_compute; reflexivity].
  rewrite (squares_agree (Z.testbit 0x8000) (fun t => t =? 15)
             ltac:(vm_compute; reflexivity) t Ht).
  cbn [existsb]. rewrite !bishop_attack_rays by lia. rewrite Ho. cbn [andb].
  set (A4 := existsb (Z.eqb t) (upto_blocker occ (ray 4 (-1) 1))).
  set (A5 := existsb (Z.eqb t) (upto_blocker occ (ray 5 (-1) 1))).
  set (A6 := existsb (Z.eqb t) (upto_blocker occ (ray 6 (-1) 1))).
  set (B4 := existsb (Z.eqb t) (upto_blocker occ (ray 4 1 1))).
  set (B5 := existsb (Z.eqb t) (upto_blocker occ (ray 5 1 1))).
  eval_rays. cbn [upto_blocker].
  destruct (Z.testbit occ 15); cbn [existsb];
    destruct A4, A5, A6, B4, B5, (t =? 15); reflexivity.
Qed.

(** The opposing king stands neither beside the king on e1 nor in front
    of the rook on h1: the mover could take it. *)
Lemma short_king_far t :
  0 <= t < 64 -> Piece p t = KING -> Z.testbit (PM p) t = false ->
  king_step 4 t = false /\ t <> 15.
Proof.
  intros Ht Hk Hm.
  destruct (king_at_board_of p Henc) as [_ Hko].
  destruct (opponent_king p Henc) as (_ & _ & _ & Hu).
  rewrite <- (Hu t Ht Hk Hm) in Hko.
  unfold in_check in Hsafe. rewrite (king_square_at _ _ _ Hko) in Hsafe.
  cbn [negb] in Hsafe.
  destruct (own_king_e1_short p Henc Hright) as [K1 K2].
  destruct (own_rook_h1 p Henc Hright) as [R1 R2].
  split.
  - pose proof (not_attacked_by _ _ _ 4 Hsafe ltac:(lia)) as H.
    unfold piece_attacks, board_of in H. cbn [fst snd] in H.
    rewrite K1, K2 in H. apply H; [discriminate|reflexivity].
  - intros ->.
    pose proof (not_attacked_by _ _ _ 7 Hsafe ltac:(lia)) as H.
    unfold piece_attacks in H. rewrite (occupancy_board_of p Henc) in H.
    unfold board_of in H. cbn [fst snd] in H.
    rewrite R1, R2 in H. specialize (H ltac:(discriminate) eq_refl).
    unfold attack_of in H.
    cbn [Z.eqb Pos.eqb PAWN KNIGHT BISHOP ROOK QUEEN KING] in H.
    rewrite rook_attack_rays in H by lia.
    apply orb_false_iff in H. destruct H as [H _].
    apply orb_false_iff in H. destruct H as [_ H].
    revert H. eval_rays. cbn [upto_blocker].
    destruct (Z.testbit occ 7); cbn [existsb]; discriminate.
Qed.

Lemma short_attackers_bit t :
  0 <= t < 64 -> enemy p t ->
  Z.testbit (castle_attackers p (short_rook_lines occ) (short_bishop_lines occ)
               0x0000000000F8DC00 0x000000000000F800 0x0000000000004000) t
  = existsb (fun s => attack_of (Piece p t) false occ t s) [4; 5; 6].
Proof.
  intros Ht Hen.
  rewrite castle_attackers_bit by (auto using encoding_codes).
  cbv zeta. rewrite short_rook_bit, short_bishop_bit by assumption.
  rewrite (squares_agree (Z.testbit 0xF8DC00)
             (fun t => existsb (knight_jump t) [4; 5; 6])
             ltac:(vm_compute; reflexivity) t Ht).
  rewrite (squares_agree (Z.testbit 0xF800)
             (fun t => existsb (pawn_step false t) [4; 5; 6])
             ltac:(vm_compute; reflexivity) t Ht).
  assert (Hking : Piece p t = KING ->
            Z.testbit 0x4000 t = existsb (king_step t) [4; 5; 6]).
  { intros Hk. destruct Hen as [_ Hm].
    destruct (short_king_far t Ht Hk Hm) as [Hf H15].
    assert (Hen' : enemy p t) by (split; [rewrite Hk; discriminate|assumption]).
    destruct (short_enemy_off t Hen') as (N4 & N5 & N6 & N7).
    pose proof (check_squares
      (fun t => implb (negb (king_step 4 t) && negb (t =? 4) && negb (t =? 5)
                       && negb (t =? 6) && negb (t =? 7) && negb (t =? 15))
                      (Bool.eqb (Z.testbit 0x4000 t)
                                (existsb (king_step t) [4; 5; 6])))
      ltac:(vm_compute; reflexivity) t Ht) as H.
    cbv beta in H. apply Z.eqb_neq in N4, N5, N6, N7, H15.
    rewrite Hf, N4, N5, N6, N7, H15 in H. now apply eqb_prop in H. }
  pose proof (Piece_range p t ltac:(lia)) as Hr.
  pose proof (Piece_not7 p t (encoding_codes p Henc) ltac:(lia)) as H7.
  destruct Hen as [Hne _].
  assert (Hcases : In (Piece p t) [1; 2; 3; 4; 5; 6])
    by (unfold EMPTY in Hne; simpl; lia).
  simpl in Hcases. unfold attack_of, spec_queen_attacks.
  destruct Hcases as [E|[E|[E|[E|[E|[E|[]]]]]]]; rewrite <- E in *;
    cbn [Z.eqb Pos.eqb PAWN KNIGHT BISHOP ROOK QUEEN KING andb orb];
    rewrite ?andb_false_r, ?andb_true_r, ?orb_false_r; try reflexivity.
  - (* a queen *)
    cbn [existsb]. rewrite !Z.lor_spec. btauto.
  - (* the king *)
    now apply Hking.
Qed.

End Short.

(** ** Long castling *)

Section Long.
Variable p : TBoard.
Hypothesis Henc : encoding_ok p = true.
Hypothesis Hsafe : in_check (board_of p) false = false.
Hypothesis Hright : CastleLM p <> 0.
Hypothesis Hvac : Z.land (Occupation p) 0x0E = 0.

Local Abbreviation occ := (Occupation p).

Lemma long_occ :
  Z.testbit occ 4 = true /\ Z.testbit occ 0 = true
  /\ Z.testbit occ 1 = false /\ Z.testbit occ 2 = false
  /\ Z.testbit occ 3 = false.
Proof.
  destruct (own_king_e1_long p Henc Hright) as [Hk _].
  destruct (own_rook_a1 p Henc Hright) as [Hr _].
  rewrite !testbit_Occupation, Hk, Hr by lia.
  pose proof (vacant_of_land_zero p 0x0E 1 Hvac ltac:(lia) eq_refl) as V1.
  pose proof (vacant_of_land_zero p 0x0E 2 Hvac ltac:(lia) eq_refl) as V2.
  pose proof (vacant_of_land_zero p 0x0E 3 Hvac ltac:(lia) eq_refl) as V3.
  unfold vacant in V1, V2, V3. rewrite V1, V2, V3. repeat split.
Qed.

Lemma long_enemy_off t :
  enemy p t -> t <> 0 /\ t <> 1 /\ t <> 2 /\ t <> 3 /\ t <> 4.
Proof.
  intros [Hne Hm].
  destruct (own_king_e1_long p Henc Hright) as [_ Hk].
  destruct (own_rook_a1 p Henc Hright) as [_ Hr].
  pose proof (vacant_of_land_zero p 0x0E 1 Hvac ltac:(lia) eq_refl) as V1.
  pose proof (vacant_of_land_zero p 0x0E 2 Hvac ltac:(lia) eq_refl) as V2.
  pose proof (vacant_of_land_zero p 0x0E 3 Hvac ltac:(lia) eq_refl) as V3.
  repeat split; intros ->; try congruence; contradiction.
Qed.

Lemma long_rook_bit t :
  0 <= t < 64 -> enemy p t ->
  Z.testbit (long_rook_lines occ) t
  = existsb (fun s => Z.testbit (spec_rook_attacks t occ) s) [4; 3; 2].
Proof.
  intros Ht Hen. pose proof (enemy_occupied p t Ht Hen) as Ho.
  destruct (long_enemy_off t Hen) as (N0 & N1 & N2 & N3 & N4).
  destruct long_occ as (O4 & O0 & O1 & O2 & O3).
  unfold long_rook_lines. cbv zeta. rewrite !Z.lor_spec.
  rewrite (testbit_first_blocker 0x1010101010101000 (ray 4 0 1)),
    (testbit_first_blocker 0x0808080808080800 (ray 3 0 1)),
    (testbit_first_blocker 0x0404040404040400 (ray 2 0 1)),
    (testbit_first_blocker 0x00000000000000E0 (ray 4 1 0))
    by first [apply ray_nonneg | exact Ht | vm_compute; reflexivity].
  cbn [existsb]. rewrite !rook_attack_rays by lia. rewrite Ho. cbn [andb].
  set (A4 := existsb (Z.eqb t) (upto_blocker occ (ray 4 0 1))).
  set (A3 := existsb (Z.eqb t) (upto_blocker occ (ray 3 0 1))).
  set (A2 := existsb (Z.eqb t) (upto_blocker occ (ray 2 0 1))).
  set (E := existsb (Z.eqb t) (upto_blocker occ (ray 4 1 0))).
  eval_rays.
  cbn [upto_blocker]. rewrite O4, O0, O1, O2, O3. cbn [existsb].
  apply Z.eqb_neq in N0, N1, N2, N3, N4. rewrite ?N0, ?N1, ?N2, ?N3, ?N4.
  destruct A4, A3, A2, E; reflexivity.
Qed.

Lemma long_bishop_bit t :
  0 <= t < 64 -> enemy p t ->
  Z.testbit (long_bishop_lines occ) t
  = existsb (fun s => Z.testbit (spec_bishop_attacks t occ) s) [4; 3; 2].
Proof.
  intros Ht Hen. pose proof (enemy_occupied p t Ht Hen) as Ho.
  unfold long_bishop_lines. cbv zeta. rewrite !Z.lor_spec.
  rewrite (testbit_first_blocker 0x0000000102040800 (ray 4 (-1) 1)),
    (testbit_first_blocker 0x0000000001020400 (ray 3 (-1) 1)),
    (testbit_first_blocker 0x0000000000010200 (ray 2 (-1) 1)),
    (testbit_first_blocker 0x0000000080402000 (ray 4 1 1)),
    (testbit_first_blocker 0x0000008040201000 (ray 3 1 1)),
    (testbit_first_blocker 0x0000804020100800 (ray 2 1 1))
    by first [apply ray_nonneg | exact Ht | vm_compute; reflexivity].
  cbn [existsb]. rewrite !bishop_attack_rays by lia. rewrite Ho. cbn [andb].
  set (A4 := existsb (Z.eqb t) (upto_blocker occ (ray 4 (-1) 1))).
  set (A3 := existsb (Z.eqb t) (upto_blocker occ (ray 3 (-1) 1))).
  set (A2 := existsb (Z.eqb t) (upto_blocker occ (ray 2 (-1) 1))).
  set (B4 := existsb (Z.eqb t) (upto_blocker occ (ray 4 1 1))).
  set (B3 := existsb (Z.eqb t) (upto_blocker occ (ray 3 1 1))).
  set (B2 := existsb (Z.eqb t) (upto_blocker occ (ray 2 1 1))).
  eval_rays. cbn [upto_blocker existsb].
  destruct A4, A3, A2, B4, B3, B2; reflexivity.
Qed.

Lemma long_king_far t :
  0 <= t < 64 -> Piece p t = KING -> Z.testbit (PM p) t = false ->
  king_step 4 t = false.
Proof.
  intros Ht Hk Hm.
  destruct (king_at_board_of p Henc) as [_ Hko].
  destruct (opponent_king p Henc) as (_ & _ & _ & Hu).
  rewrite <- (Hu t Ht Hk Hm) in Hko.
  unfold in_check in Hsafe. rewrite (king_square_at _ _ _ Hko) in Hsafe.
  cbn [negb] in Hsafe.
  destruct (own_king_e1_long p Henc Hright) as [K1 K2].
  pose proof (not_attacked_by _ _ _ 4 Hsafe ltac:(lia)) as H.
  unfold piece_attacks, board_of in H. cbn [fst snd] in H.
  rewrite K1, K2 in H. apply H; [discriminate|reflexivity].
Qed.

Lemma long_attackers_bit t :
  0 <= t < 64 -> enemy p t ->
  Z.testbit (castle_attackers p (long_rook_lines occ) (long_bishop_lines occ)
               0x00000000003E7700 0x0000000000003E00 0x0000000000000600) t
  = existsb (fun s => attack_of (Piece p t) false occ t s) [4; 3; 2].
Proof.
  intros Ht Hen.
  rewrite castle_attackers_bit by (auto using encoding_codes).
  cbv zeta. rewrite long_rook_bit, long_bishop_bit by assumption.
  rewrite (squares_agree (Z.testbit 0x3E7700)
             (fun t => existsb (knight_jump t) [4; 3; 2])
             ltac:(vm_compute; reflexivity) t Ht).
  rewrite (squares_agree (Z.testbit 0x3E00)
             (fun t => existsb (pawn_step false t) [4; 3; 2])
             ltac:(vm_compute; reflexivity) t Ht).
  assert (Hking : Piece p t = KING ->
            Z.testbit 0x0600 t = existsb (king_step t) [4; 3; 2]).
  { intros Hk. destruct Hen as [_ Hm].
    pose proof (long_king_far t Ht Hk Hm) as Hf.
    assert (Hen' : enemy p t) by (split; [rewrite Hk; discriminate|assumption]).
    destruct (long_enemy_off t Hen') as (N0 & N1 & N2 & N3 & N4).
    pose proof (check_squares
      (fun t => implb (negb (king_step 4 t) && negb (t =? 0) && negb (t =? 1)
                       && negb (t =? 2) && negb (t =? 3) && negb (t =? 4))
                      (Bool.eqb (Z.testbit 0x0600 t)
                                (existsb (king_step t) [4; 3; 2])))
      ltac:(vm_compute; reflexivity) t Ht) as H.
    cbv beta in H. apply Z.eqb_neq in N0, N1, N2, N3, N4.
    rewrite Hf, N0, N1, N2, N3, N4 in H. now apply eqb_prop in H. }
  pose proof (Piece_range p t ltac:(lia)) as Hr.
  pose proof (Piece_not7 p t (encoding_codes p Henc) ltac:(lia)) as H7.
  destruct Hen as [Hne _].
  assert (Hcases : In (Piece p t) [1; 2; 3; 4; 5; 6])
    by (unfold EMPTY in Hne; simpl; lia).
  simpl in Hcases. unfold attack_of, spec_queen_attacks.
  destruct Hcases as [E|[E|[E|[E|[E|[E|[]]]]]]]; rewrite <- E in *;
    cbn [Z.eqb Pos.eqb PAWN KNIGHT BISHOP ROOK QUEEN KING andb orb];
    rewrite ?andb_false_r, ?andb_true_r, ?orb_false_r; try reflexivity.
  - (* a queen *)
    cbn [existsb]. rewrite !Z.lor_spec. btauto.
  - (* the king *)
    now apply Hking.
Qed.

End Long.

(** ** The castling test against the rule *)

Section CastleRule.
Variables (p : TBoard) (U : Z) (S : list Z).
Hypothesis Henc : encoding_ok p = true.
Hypothesis HU : forall t, 0 <= t < 64 -> enemy p t ->
  Z.testbit U t = existsb (fun s => attack_of (Piece p t) false (Occupation p) t s) S.

Lemma castle_rule :
  (Z.land U (Z.lxor (Occupation p) (PM p)) =? 0) = true
  <-> forall s, In s S -> attacked_by (board_of p) false s = false.
Proof.
  pose proof (encoding_fields p Henc) as (HPM & _).
  pose proof (is64_Occupation p Henc) as Hocc.
  assert (Hopp : forall t, 0 <= t < 64 ->
            Z.testbit (Z.lxor (Occupation p) (PM p)) t = true <-> enemy p t).
  { intros t Ht. rewrite Z.lxor_comm, testbit_opposing
      by (auto using encoding_pm).
    unfold enemy. rewrite andb_true_iff, !negb_true_iff, Z.eqb_neq. tauto. }
  rewrite Z.eqb_eq. split.
  - intros H0 s Hs. destruct (attacked_by (board_of p) false s) eqn:E;
      [|reflexivity].
    unfold attacked_by in E. apply existsb_squares in E.
    destruct E as (t & Ht & E). rewrite !andb_true_iff in E.
    destruct E as [[E1 E2] E3]. unfold board_of in E1, E2. cbn [fst snd] in E1, E2.
    apply negb_true_iff, Z.eqb_neq in E1. apply eqb_prop in E2.
    assert (Hen : enemy p t) by now split.
    apply (bit_of_eq _ _ t) in H0.
    rewrite Z.land_spec, Z.testbit_0_l, (HU t Ht Hen) in H0.
    apply Hopp in Hen; [|assumption]. rewrite Hen, andb_true_r in H0.
    apply (existsb_false_in _ _ s) in H0; [|assumption].
    unfold piece_attacks in E3. rewrite (occupancy_board_of p Henc) in E3.
    unfold board_of in E3. cbn [fst snd] in E3. rewrite E2 in E3. congruence.
  - intros H.
    destruct (Z.eq_dec (Z.land U (Z.lxor (Occupation p) (PM p))) 0) as [|Hne];
      [assumption|exfalso].
    apply nonzero_bits in Hne; [|apply is64_land_r; now apply is64_lxor].
    apply existsb_squares in Hne. destruct Hne as (t & Ht & Hb).
    rewrite Z.land_spec in Hb. apply andb_true_iff in Hb. destruct Hb as [Hu Ho].
    apply Hopp in Ho; [|assumption]. rewrite (HU t Ht Ho) in Hu.
    apply existsb_exists in Hu. destruct Hu as (s & Hs & Ha).
    specialize (H s Hs).
    apply (not_attacked_by _ _ _ t) in H; try assumption.
    + unfold piece_attacks in H. rewrite (occupancy_board_of p Henc) in H.
      unfold board_of in H. cbn [fst snd] in H.
      destruct Ho as [_ Ho]. rewrite Ho in H. congruence.
    + apply Ho.
    + apply Ho.
Qed.

End CastleRule.

Lemma land_mask_vacant p mask (l : list Z) :
  encoding_ok p = true -> Forall (fun s => 0 <= s < 64) l -> mask = bb_of l ->
  Z.land (Occupation p) mask = 0 <-> forall s, In s l -> vacant p s.
Proof.
  intros Henc Hl ->. pose proof (is64_Occupation p Henc) as Hocc.
  assert (Hn : Forall (fun s => 0 <= s) l).
  { eapply List.Forall_impl; [|exact Hl]. simpl. intros; lia. }
  rewrite List.Forall_forall in Hl. split.
  - intros H s Hs. apply (vacant_of_land_zero p (bb_of l)); auto.
    + apply Hl in Hs. lia.
    + rewrite testbit_bb_of by assumption. apply existsb_exists.
      exists s. split; [assumption|apply Z.eqb_refl].
  - intros H. apply eq64; [now apply is64_land_l|split; lia|].
    intros t Ht. rewrite Z.land_spec, Z.testbit_0_l, testbit_bb_of by assumption.
    destruct (existsb (Z.eqb t) l) eqn:E; [|apply andb_false_r].
    apply existsb_exists in E. destruct E as (s & Hs & E).
    apply Z.eqb_eq in E. subst s. specialize (H t Hs). unfold vacant in H.
    rewrite testbit_Occupation, H by lia. reflexivity.
Qed.

(** C4, for legal positions (the encoding invariants hold and the side
    that has just moved is not in check): [GenerateQuiets] emits the
    short, respectively long, castling move exactly when the right is
    set, the squares between king and rook are empty, and no opposing
    piece attacks the king's square, the square it crosses or the square
    it lands on. *)
Theorem castling_emitted_iff (p : TBoard) :
  legal_position p = true ->
  (In castle_short (GenerateQuiets p)
   <-> CastleSM p <> 0 /\ (forall s, In s [5; 6] -> vacant p s)
       /\ forall s, In s [4; 5; 6] -> attacked_by (board_of p) false s = false)
  /\ (In castle_long (GenerateQuiets p)
      <-> CastleLM p <> 0 /\ (forall s, In s [1; 2; 3] -> vacant p s)
          /\ forall s, In s [4; 3; 2] -> attacked_by (board_of p) false s = false).
Proof.
  intros Hl. unfold legal_position in Hl. apply andb_true_iff in Hl.
  destruct Hl as [Henc Hsafe]. apply negb_true_iff in Hsafe.
  split.
  - rewrite castle_short_emitted, !andb_true_iff, negb_true_iff, Z.eqb_neq, Z.eqb_eq.
    rewrite castle_short_ok_unfold.
    pose proof (land_mask_vacant p 0x60 [5; 6] Henc
                  ltac:(repeat constructor; lia) eq_refl) as Hv.
    assert (HU : CastleSM p <> 0 -> Z.land (Occupation p) 0x60 = 0 ->
              forall t, 0 <= t < 64 -> enemy p t ->
                Z.testbit (castle_attackers p (short_rook_lines (Occupation p))
                             (short_bishop_lines (Occupation p))
                             0x0000000000F8DC00 0x000000000000F800
                             0x0000000000004000) t
                = existsb (fun s => attack_of (Piece p t) false (Occupation p) t s)
                          [4; 5; 6]).
    { intros H1 H2 t Ht Hen. now apply short_attackers_bit. }
    split.
    + intros [[H1 H2] H3]. split; [assumption|]. split; [now apply Hv|].
      now apply (castle_rule p _ [4; 5; 6] Henc (HU H1 H2)).
    + intros (H1 & H2 & H3). apply Hv in H2. repeat split; try assumption.
      now apply (castle_rule p _ [4; 5; 6] Henc (HU H1 H2)).
  - rewrite castle_long_emitted, !andb_true_iff, negb_true_iff, Z.eqb_neq, Z.eqb_eq.
    rewrite castle_long_ok_unfold.
    pose proof (land_mask_vacant p 0x0E [1; 2; 3] Henc
                  ltac:(repeat constructor; lia) eq_refl) as Hv.
    assert (HU : CastleLM p <> 0 -> Z.land (Occupation p) 0x0E = 0 ->
              forall t, 0 <= t < 64 -> enemy p t ->
                Z.testbit (castle_attackers p (long_rook_lines (Occupation p))
                             (long_bishop_lines (Occupation p))
                             0x00000000003E7700 0x0000000000003E00
                             0x0000000000000600) t
                = existsb (fun s => attack_of (Piece p t) false (Occupation p) t s)
                          [4; 3; 2]).
    { intros H1 H2 t Ht Hen. now apply long_attackers_bit. }
    split.
    + intros [[H1 H2] H3]. split; [assumption|]. split; [now apply Hv|].
      now apply (castle_rule p _ [4; 3; 2] Henc (HU H1 H2)).
    + intros (H1 & H2 & H3). apply Hv in H2. repeat split; try assumption.
      now apply (castle_rule p _ [4; 3; 2] Henc (HU H1 H2)).
Qed.

Lemma castling_emitted_iff_witness :
  let p := LoadBoard fen_kiwipete in
  (In castle_short (GenerateQuiets p)
   <-> CastleSM p <> 0 /\ (forall s, In s [5; 6] -> vacant p s)
       /\ forall s, In s [4; 5; 6] -> attacked_by (board_of p) false s = false)
  /\ (In castle_long (GenerateQuiets p)
      <-> CastleLM p <> 0 /\ (forall s, In s [1; 2; 3] -> vacant p s)
          /\ forall s, In s [4; 3; 2] -> attacked_by (board_of p) false s = false).
Proof.
  apply (castling_emitted_iff (LoadBoard fen_kiwipete)). vm_compute. reflexivity.
Defined.

(** With the kings side by side the castling move is emitted although
    the king's square is attacked. *)
Lemma castling_beside_opposing_king :
  let p := LoadBoard fen_kings_adjacent in
  encoding_ok p = true /\ CastleSM p <> 0 /\ (forall s, In s [5; 6] -> vacant p s)
  /\ In castle_short (GenerateQuiets p)
  /\ attacked_by (board_of p) false 4 = true.
Proof.
  cbv zeta. split; [vm_compute; reflexivity|].
  split; [vm_compute; discriminate|].
  split.
  { intros s [<-|[<-|[]]]; vm_compute; reflexivity. }
  split; [|vm_compute; reflexivity].
  apply castle_short_emitted. vm_compute. reflexivity.
Qed.

(** ** The bit macros *)

Lemma land_lnot_pred bb i :
  0 <= i -> Z.testbit (- bb) i = negb (Z.testbit (bb - 1) i).
Proof.
  intros Hi. replace (- bb) with (Z.lnot (bb - 1)) by (unfold Z.lnot; lia).
  now rewrite Z.lnot_spec.
Qed.

Lemma testbit_ExtractLSB bb i :
  is64 bb -> bb <> 0 -> 0 <= i ->
  Z.testbit (ExtractLSB bb) i = (i =? LSB bb).
Proof.
  intros Hb Hn Hi.
  assert (Hpos : 0 < bb) by (unfold is64 in Hb; lia).
  destruct (LSB_spec bb Hpos) as (_ & Hset & _).
  destruct (LSB_lt64 bb Hb Hpos) as [_ Hlt].
  pose proof (testbit_ClearLSB bb i Hb Hi) as Hc.
  unfold ClearLSB in Hc. rewrite Z.land_spec, testbit_wrap64 in Hc.
  unfold ExtractLSB. rewrite Z.land_spec, testbit_wrap64, land_lnot_pred by assumption.
  destruct (Z.eqb_spec i (LSB bb)) as [->|Hne].
  - rewrite Hset in *. cbn [negb andb] in *.
    destruct (Z.ltb_spec (LSB bb) 64); [|lia].
    rewrite andb_true_r in *. now rewrite Hc.
  - cbn [negb] in Hc. rewrite andb_true_r in Hc.
    destruct (Z.ltb_spec i 64) as [Hlt'|Hge].
    + rewrite andb_true_r in *.
      destruct (Z.testbit bb i); [|reflexivity].
      cbn [andb] in *. now rewrite Hc.
    + rewrite (is64_high bb i Hb Hge). reflexivity.
Qed.

(** X1: The macros [LSB], [ExtractLSB] and [ClearLSB] on a nonzero 64-bit
    value: [LSB] is the index of the lowest set bit, [ExtractLSB] is
    that bit alone and [ClearLSB] is the value without it. *)
Theorem lowest_bit_macros (bb : Z) :
  is64 bb -> bb <> 0 ->
  0 <= LSB bb < 64
  /\ Z.testbit bb (LSB bb) = true
  /\ (forall j, 0 <= j < LSB bb -> Z.testbit bb j = false)
  /\ ExtractLSB bb = shl64 1 (LSB bb)
  /\ ClearLSB bb = Z.lxor bb (ExtractLSB bb).
Proof.
  intros Hb Hn.
  assert (Hpos : 0 < bb) by (unfold is64 in Hb; lia).
  destruct (LSB_spec bb Hpos) as (_ & Hset & Hlow).
  pose proof (LSB_lt64 bb Hb Hpos) as Hr.
  assert (HE : is64 (ExtractLSB bb)) by (apply is64_land_l; assumption).
  repeat split; try assumption; try lia.
  - apply eq64; [assumption|apply is64_shl64|].
    intros i Hi. rewrite testbit_ExtractLSB, testbit_one_at by (assumption || lia).
    reflexivity.
  - apply eq64; [now apply is64_ClearLSB|now apply is64_lxor|].
    intros i Hi.
    rewrite testbit_ClearLSB, Z.lxor_spec, testbit_ExtractLSB by (assumption || lia).
    destruct (Z.eqb_spec i (LSB bb)) as [->|Hne].
    + rewrite Hset. reflexivity.
    + cbn [negb]. now rewrite andb_true_r, xorb_false_r.
Qed.

Lemma lowest_bit_macros_witness :
  0 <= LSB 0x50 < 64
  /\ Z.testbit 0x50 (LSB 0x50) = true
  /\ (forall j, 0 <= j < LSB 0x50 -> Z.testbit 0x50 j = false)
  /\ ExtractLSB 0x50 = shl64 1 (LSB 0x50)
  /\ ClearLSB 0x50 = Z.lxor 0x50 (ExtractLSB 0x50).
Proof.
  apply lowest_bit_macros; [unfold is64; lia|lia].
Defined.

Lemma lxor63 k : 0 <= k < 64 -> Z.lxor 63 (63 - k) = k.
Proof.
  revert k. intros k Hk.
  pose proof (check_squares (fun k => Z.lxor 63 (63 - k) =? k)
                ltac:(vm_compute; reflexivity) k Hk) as H.
  now apply Z.eqb_eq in H.
Qed.

(** X2: The macro [MSB] on a nonzero 64-bit value is the index of its
    highest set bit. *)
Theorem MSB_highest_set_bit (bb : Z) :
  is64 bb -> bb <> 0 ->
  0 <= MSB bb < 64
  /\ Z.testbit bb (MSB bb) = true
  /\ forall j, MSB bb < j -> Z.testbit bb j = false.
Proof.
  intros Hb Hn.
  assert (Hpos : 0 < bb) by (unfold is64 in Hb; lia).
  assert (Hl : 0 <= Z.log2 bb < 64).
  { split; [apply Z.log2_nonneg|]. apply Z.log2_lt_pow2; [assumption|].
    unfold is64 in Hb. lia. }
  assert (E : MSB bb = Z.log2 bb).
  { unfold MSB, clzll. now apply lxor63. }
  rewrite E. repeat split; try lia.
  - now apply Z.bit_log2.
  - intros j Hj. apply Z.bits_above_log2; lia.
Qed.

Lemma MSB_highest_set_bit_witness :
  0 <= MSB 0x50 < 64
  /\ Z.testbit 0x50 (MSB 0x50) = true
  /\ forall j, MSB 0x50 < j -> Z.testbit 0x50 j = false.
Proof.
  apply MSB_highest_set_bit; [unfold is64; lia|lia].
Defined.

(** X3: [RevBB] mirrors the ranks: the bit of square [s] comes from the
    square on the same file and the opposite rank. *)
Theorem RevBB_mirrors_ranks (x s : Z) :
  is64 x -> 0 <= s < 64 ->
  is64 (RevBB x)
  /\ Z.testbit (RevBB x) s = Z.testbit x (OppSq s)
  /\ file_of (OppSq s) = file_of s /\ rank_of (OppSq s) = 7 - rank_of s.
Proof.
  intros Hx Hs. split; [apply is64_bswap64|].
  split; [now apply testbit_RevBB|].
  pose proof (check_squares
    (fun s => (file_of (OppSq s) =? file_of s)
              && (rank_of (OppSq s) =? 7 - rank_of s))
    ltac:(vm_compute; reflexivity) s Hs) as H.
  cbv beta in H. apply andb_true_iff in H. destruct H as [H1 H2].
  apply Z.eqb_eq in H1, H2. tauto.
Qed.

Lemma RevBB_mirrors_ranks_witness :
  is64 (RevBB 0xFF00)
  /\ Z.testbit (RevBB 0xFF00) 51 = Z.testbit 0xFF00 (OppSq 51)
  /\ file_of (OppSq 51) = file_of 51 /\ rank_of (OppSq 51) = 7 - rank_of 51.
Proof.
  apply RevBB_mirrors_ranks; [unfold is64; lia|lia].
Defined.

(** ** The bit loops *)

Lemma scan_bits_set fuel : forall bb s,
  is64 bb -> In s (scan_bits fuel bb) -> 0 <= s /\ Z.testbit bb s = true.
Proof.
  induction fuel as [|n IH]; intros bb s Hb Hin; [destruct Hin|].
  simpl in Hin. destruct (Z.eqb_spec bb 0) as [|Hn]; [destruct Hin|].
  assert (Hpos : 0 < bb) by (unfold is64 in Hb; lia).
  destruct (LSB_spec bb Hpos) as (H0 & Hset & _).
  destruct Hin as [<-|Hin]; [tauto|].
  destruct (IH _ _ (is64_ClearLSB bb Hb) Hin) as [Hs Ht].
  split; [assumption|].
  rewrite testbit_ClearLSB in Ht by assumption.
  now apply andb_true_iff in Ht.
Qed.

Lemma scan_bits_sorted fuel : forall bb,
  is64 bb -> StronglySorted Z.lt (scan_bits fuel bb).
Proof.
  induction fuel as [|n IH]; intros bb Hb; [constructor|].
  simpl. destruct (Z.eqb_spec bb 0) as [|Hn]; [constructor|].
  assert (Hpos : 0 < bb) by (unfold is64 in Hb; lia).
  destruct (LSB_spec bb Hpos) as (H0 & Hset & Hlow).
  constructor; [apply IH, is64_ClearLSB, Hb|].
  apply List.Forall_forall. intros s Hin.
  destruct (scan_bits_set _ _ _ (is64_ClearLSB bb Hb) Hin) as [Hs Ht].
  rewrite testbit_ClearLSB in Ht by assumption.
  apply andb_true_iff in Ht. destruct Ht as [Ht Hne].
  apply negb_true_iff, Z.eqb_neq in Hne.
  destruct (Z.lt_ge_cases s (LSB bb)) as [Hlt|Hge]; [|lia].
  rewrite Hlow in Ht by lia. discriminate Ht.
Qed.

(** X4: The loop [for (bb = b; bb; bb = ClearLSB(bb))] with [LSB(bb)] in its
    body visits exactly the set bits of [b], each once, lowest first. *)
Theorem bit_loop_visits_set_bits (bb : Z) :
  is64 bb ->
  StronglySorted Z.lt (for_bits bb)
  /\ forall s, In s (for_bits bb) <-> 0 <= s < 64 /\ Z.testbit bb s = true.
Proof.
  intros Hb. split; [now apply scan_bits_sorted|].
  intros s. split.
  - intros Hin. split; [now apply (for_bits_range bb)|].
    now apply (in_for_bits bb s Hb).
  - intros [Hs Ht]. apply (in_for_bits bb s Hb). split; [lia|assumption].
Qed.

Lemma bit_loop_visits_set_bits_witness :
  StronglySorted Z.lt (for_bits 0x8100000000000081)
  /\ forall s, In s (for_bits 0x8100000000000081)
               <-> 0 <= s < 64 /\ Z.testbit 0x8100000000000081 s = true.
Proof.
  apply bit_loop_visits_set_bits. unfold is64. lia.
Defined.

(** ** The lookup tables *)

(** X5: [KnightDest] and [KingDest] hold, for every square, the squares a
    knight's jump and a king's step away. *)
Theorem KnightDest_KingDest_tables (sq t : Z) :
  0 <= sq < 64 -> 0 <= t < 64 ->
  Z.testbit (KnightDest sq) t = knight_jump t sq
  /\ Z.testbit (KingDest sq) t = king_step t sq.
Proof.
  intros Hsq Ht. split; [now apply KnightDest_spec|now apply KingDest_spec].
Qed.

Lemma KnightDest_KingDest_tables_witness :
  Z.testbit (KnightDest 1) 18 = knight_jump 18 1
  /\ Z.testbit (KingDest 1) 18 = king_step 18 1.
Proof.
  apply KnightDest_KingDest_tables; lia.
Defined.

(** X6: [EnPassant[f]] is the squares of the fifth rank beside file [f],
    where a pawn that can capture en passant stands; [EnPassantM[f]] the
    same on the fourth rank, seen before the side changes. *)
Theorem EnPassant_tables (f s : Z) :
  0 <= f < 8 -> 0 <= s < 64 ->
  Z.testbit (EnPassantG f) s
  = (rank_of s =? 4) && (Z.abs (file_of s - f) =? 1)
  /\ Z.testbit (EnPassantM f) s
     = (rank_of s =? 3) && (Z.abs (file_of s - f) =? 1).
Proof.
  intros Hf Hs.
  pose proof (check_squares2
    (fun f s =>
       negb (f <? 8)
       || (Bool.eqb (Z.testbit (EnPassantG f) s)
                    ((rank_of s =? 4) && (Z.abs (file_of s - f) =? 1))
           && Bool.eqb (Z.testbit (EnPassantM f) s)
                       ((rank_of s =? 3) && (Z.abs (file_of s - f) =? 1))))
    ltac:(vm_compute; reflexivity) f s ltac:(lia) Hs) as H.
  cbv beta in H. destruct (Z.ltb_spec f 8); [|lia]. cbn [negb orb] in H.
  apply andb_true_iff in H. destruct H as [H1 H2].
  apply eqb_prop in H1, H2. tauto.
Qed.

Lemma EnPassant_tables_witness :
  Z.testbit (EnPassantG 4) 35
  = (rank_of 35 =? 4) && (Z.abs (file_of 35 - 4) =? 1)
  /\ Z.testbit (EnPassantM 4) 35
     = (rank_of 35 =? 3) && (Z.abs (file_of 35 - 4) =? 1).
Proof.
  apply EnPassant_tables; lia.
Defined.

(** ** Piece codes *)

(** X7: When no square carries the unused code 7, the six bitboards of
    [BBPieces] and the macro [Piece] read the same board: a square is in
    the bitboard of a piece exactly when [Piece] gives that piece there,
    and it is occupied exactly when [Piece] is not [EMPTY]. *)
Theorem BBPieces_agrees_with_Piece (p : TBoard) (c s : Z) :
  codes_ok p = true -> 0 <= s < 64 -> 1 <= c <= 6 ->
  Z.testbit (BBPieces p c) s = (Piece p s =? c)
  /\ Z.testbit (Occupation p) s = negb (Piece p s =? EMPTY)
  /\ 0 <= Piece p s <= 6.
Proof.
  intros Hc Hs Hr. split; [now apply testbit_BBPieces|].
  split.
  - rewrite Piece_bits by lia. unfold Occupation. rewrite !Z.lor_spec.
    destruct (Z.testbit (P0 p) s), (Z.testbit (P1 p) s), (Z.testbit (P2 p) s);
      reflexivity.
  - pose proof (Piece_range p s ltac:(lia)).
    pose proof (Piece_not7 p s Hc ltac:(lia)). lia.
Qed.

Lemma BBPieces_agrees_with_Piece_witness :
  Z.testbit (BBPieces (LoadBoard startpos) KNIGHT) 6
  = (Piece (LoadBoard startpos) 6 =? KNIGHT)
  /\ Z.testbit (Occupation (LoadBoard startpos)) 6
     = negb (Piece (LoadBoard startpos) 6 =? EMPTY)
  /\ 0 <= Piece (LoadBoard startpos) 6 <= 6.
Proof.
  apply BBPieces_agrees_with_Piece; [vm_compute; reflexivity|lia|unfold KNIGHT; lia].
Defined.

(** ** The side change *)

(** X8: [ChangeSide] shows the same board to the other side: ranks
    mirrored, every piece changing hands, the castling rights of the two
    sides exchanged, the side to move flipped and the en-passant file
    kept. *)
Theorem ChangeSide_turns_the_board (q : TBoard) (s : Z) :
  0 <= CastleFlags q < 256 -> 0 <= s < 64 ->
  board_of (ChangeSide q) s = turn_board (board_of q) s
  /\ (CastleSM (ChangeSide q) <> 0 <-> CastleSO q <> 0)
  /\ (CastleLM (ChangeSide q) <> 0 <-> CastleLO q <> 0)
  /\ (CastleSO (ChangeSide q) <> 0 <-> CastleSM q <> 0)
  /\ (CastleLO (ChangeSide q) <> 0 <-> CastleLM q <> 0)
  /\ STM (ChangeSide q) = Z.lxor (STM q) BLACK
  /\ EnPassant (ChangeSide q) = EnPassant q.
Proof.
  intros Hc Hs. split; [now apply ChangeSide_view|].
  rewrite !CastleSM_bit, !CastleLM_bit, !CastleSO_bit, !CastleLO_bit.
  change (CastleFlags (ChangeSide q)) with (roll (CastleFlags q)).
  destruct (roll_bits (CastleFlags q) Hc) as (-> & -> & -> & ->).
  repeat split; tauto.
Qed.

Lemma ChangeSide_turns_the_board_witness :
  let q := LoadBoard fen_promotions in
  board_of (ChangeSide q) 8 = turn_board (board_of q) 8
  /\ (CastleSM (ChangeSide q) <> 0 <-> CastleSO q <> 0)
  /\ (CastleLM (ChangeSide q) <> 0 <-> CastleLO q <> 0)
  /\ (CastleSO (ChangeSide q) <> 0 <-> CastleSM q <> 0)
  /\ (CastleLO (ChangeSide q) <> 0 <-> CastleLM q <> 0)
  /\ STM (ChangeSide q) = Z.lxor (STM q) BLACK
  /\ EnPassant (ChangeSide q) = EnPassant q.
Proof.
  apply ChangeSide_turns_the_board; [vm_compute; split; [discriminate|reflexivity]|lia].
Defined.

(** ** Sliding attacks both ways *)

(** X9: Between two occupied squares the sliding attacks are symmetric: a
    rook on [t] reaches [k] exactly when a rook on [k] reaches [t], and
    the same for bishops.  [Illegal] relies on it when it looks from the
    king for the pieces that attack it. *)
Theorem sliding_attacks_symmetric (t k occ : Z) :
  0 <= t < 64 -> 0 <= k < 64 -> is64 occ ->
  Z.testbit occ t = true -> Z.testbit occ k = true ->
  Z.testbit (GenRook t occ) k = Z.testbit (GenRook k occ) t
  /\ Z.testbit (GenBishop t occ) k = Z.testbit (GenBishop k occ) t.
Proof.
  intros Ht Hk [Ho _] Bt Bk.
  rewrite !GenRook_correct, !GenBishop_correct by assumption.
  split; [now apply spec_rook_symmetric|now apply spec_bishop_symmetric].
Qed.

Lemma sliding_attacks_symmetric_witness :
  Z.testbit (GenRook 3 0x0800000000000008) 59
  = Z.testbit (GenRook 59 0x0800000000000008) 3
  /\ Z.testbit (GenBishop 3 0x0800000000000008) 59
     = Z.testbit (GenBishop 59 0x0800000000000008) 3.
Proof.
  apply sliding_attacks_symmetric;
    [lia|lia|unfold is64; lia|reflexivity|reflexivity].
Defined.

(** ** The legality filter *)

(** X10: [Illegal] returns the attackers: on the board after the move, the
    bit of a square is set exactly when an opposing piece stands there
    and attacks the square of the mover's king. *)
Theorem Illegal_is_the_attackers (p : TBoard) (m : TMove) (t : Z) :
  encoding_ok p = true ->
  In m (GenerateCapture p ++ GenerateQuiets p) ->
  0 <= t < 64 ->
  is64 (Illegal p m)
  /\ king_square (spec_after p m) true = Some (king_after p m)
  /\ Z.testbit (Illegal p m) t
     = negb (fst (spec_after p m t) =? EMPTY)
       && Bool.eqb (snd (spec_after p m t)) false
       && piece_attacks (spec_after p m) t (king_after p m).
Proof.
  intros Henc Hin Ht.
  assert (Hs : move_shape p m).
  { apply gen_move_shape; [assumption|]. now apply generated_gen. }
  split; [now apply is64_Illegal|].
  split; [now apply king_square_after|now apply Illegal_bit].
Qed.

Lemma Illegal_is_the_attackers_witness :
  let p := LoadBoard fen_endgame in
  let m := mkMove PAWN 12 28 EMPTY in
  is64 (Illegal p m)
  /\ king_square (spec_after p m) true = Some (king_after p m)
  /\ Z.testbit (Illegal p m) 39
     = negb (fst (spec_after p m 39) =? EMPTY)
       && Bool.eqb (snd (spec_after p m 39)) false
       && piece_attacks (spec_after p m) 39 (king_after p m).
Proof.
  apply Illegal_is_the_attackers; [vm_compute; reflexivity| |lia].
  vm_compute. auto 20.
Defined.

(** ** Make on the board *)

(** X11: [Make] plays the move: after it the board is the one the rules give
    (the piece gone from From to To, a captured piece or pawn taken en
    passant removed, a promoted pawn replaced by the piece chosen, the
    castling rook carried over the king), shown to the other side. *)
Theorem Make_plays_the_move (p : TBoard) (m : TMove) (s : Z) :
  encoding_ok p = true ->
  In m (GenerateCapture p ++ GenerateQuiets p) ->
  0 <= s < 64 ->
  board_of (MakeBoard m p) s = turn_board (after_move p m) s.
Proof.
  intros Henc Hin Hs. apply MakeBoard_view; try assumption.
  now apply generated_gen.
Qed.

Lemma Make_plays_the_move_witness :
  let p := LoadBoard fen_kiwipete in
  board_of (MakeBoard castle_short p) 61 = turn_board (after_move p castle_short) 61.
Proof.
  apply Make_plays_the_move; [vm_compute; reflexivity| |lia].
  apply in_or_app. right. vm_compute. auto 60.
Defined.

(** X12: [Make] of a legal move keeps a legal position legal: every encoding
    invariant holds again, and the side that has moved has not left its
    king in check. *)
Theorem Make_keeps_position_legal (p : TBoard) (m : TMove) :
  legal_position p = true ->
  In m (GenerateCapture p ++ GenerateQuiets p) -> legal p m = true ->
  encoding_ok (MakeBoard m p) = true
  /\ in_check (board_of (MakeBoard m p)) false = false.
Proof.
  intros Hl Hin Hm.
  pose proof (legal_position_MakeBoard p m Hl Hin Hm) as H.
  unfold legal_position in H. apply andb_true_iff in H. destruct H as [H1 H2].
  now apply negb_true_iff in H2.
Qed.

Lemma Make_keeps_position_legal_witness :
  let p := LoadBoard fen_kiwipete in
  encoding_ok (MakeBoard castle_short p) = true
  /\ in_check (board_of (MakeBoard castle_short p)) false = false.
Proof.
  apply Make_keeps_position_legal;
    [vm_compute; reflexivity| |vm_compute; reflexivity].
  apply in_or_app. right. vm_compute. auto 60.
Defined.

(** X13: From a legal position no generated move takes a king. *)
Theorem no_generated_move_takes_a_king (p : TBoard) (m : TMove) :
  legal_position p = true ->
  In m (GenerateCapture p ++ GenerateQuiets p) ->
  Piece p (To m) <> KING.
Proof.
  intros Hl Hin. unfold legal_position in Hl.
  apply andb_true_iff in Hl. destruct Hl as [Henc Hc].
  apply negb_true_iff in Hc.
  apply no_king_capture; try assumption. now apply generated_gen.
Qed.

Lemma no_generated_move_takes_a_king_witness :
  Piece (LoadBoard fen_kiwipete) (To (mkMove (Z.lor KNIGHT CAPTURE) 36 53 EMPTY))
  <> KING.
Proof.
  apply no_generated_move_takes_a_king; [vm_compute; reflexivity|].
  apply in_or_app. left. vm_compute. auto 60.
Defined.

(** ** The small fields after Make *)

Section FieldsExact.
Variables (p : TBoard) (m : TMove).
Hypothesis Hcf : 0 <= CastleFlags p < 256.

Local Abbreviation kind := (Z.land (MoveType m) 7).
Local Abbreviation q := (moved m p).

(** A capture that [Make] lets touch the opponent's castling rights:
    every capture but the pawn's en-passant one. *)
Local Abbreviation takes :=
  (is_capture m && negb ((kind =? PAWN) && is_ep m)).

Lemma moved_castle_flags_exact :
  Z.testbit (CastleFlags q) 1
  = Z.testbit (CastleFlags p) 1 && negb (kind =? KING)
    && negb ((kind =? ROOK) && (From m =? 7))
  /\ Z.testbit (CastleFlags q) 0
     = Z.testbit (CastleFlags p) 0 && negb (kind =? KING)
       && negb ((kind =? ROOK) && (From m =? 0))
  /\ Z.testbit (CastleFlags q) 5
     = Z.testbit (CastleFlags p) 5 && negb (takes && (To m =? 63))
  /\ Z.testbit (CastleFlags q) 4
     = Z.testbit (CastleFlags p) 4 && negb (takes && (To m =? 56)).
Proof.
  unfold moved. cbv zeta.
  destruct (Z.eqb_spec kind PAWN) as [Ek|Ek].
  - (* a pawn *)
    rewrite Ek. change (PAWN =? KING) with false. change (PAWN =? ROOK) with false.
    cbn [negb andb]. rewrite !andb_true_r.
    unfold MakePawn, is_ep. cbv zeta.
    destruct (Z.land (MoveType m) EP =? 0) eqn:Eep; cbn [negb].
    + match goal with
      | |- context [capture_rights m ?x] =>
          assert (Hx : CastleFlags x = CastleFlags p);
          [|destruct (capture_rights_flags m x ltac:(rewrite Hx; exact Hcf))
              as (Hr & _ & H0 & H1 & H5 & H4); rewrite Hx in *]
      end.
      { repeat match goal with
               | |- context [if ?c then _ else _] => destruct c
               end; reflexivity. }
      rewrite H0, H1, H5, H4. rewrite !andb_true_r. tauto.
    + cbn [CastleFlags set_EnPassant set_P0 set_PM].
      rewrite !andb_false_r. cbn [andb negb]. rewrite !andb_true_r. tauto.
  - destruct (Z.eqb_spec kind KING) as [Ek'|Ek'].
    + (* the king *)
      rewrite Ek'. change (KING =? PAWN) with false. cbn [negb andb].
      rewrite !andb_false_r, !andb_true_r.
      unfold MakeKing, is_capture. cbv zeta.
      destruct (Z.land (MoveType m) CAPTURE =? 0) eqn:Ec; cbn [negb andb].
      * assert (E : forall x y,
                  CastleFlags (if negb (Z.land (MoveType m) CASTLE =? 0) then x else y)
                  = (if negb (Z.land (MoveType m) CASTLE =? 0)
                     then CastleFlags x else CastleFlags y)).
        { intros x y. now destruct (negb _). }
        rewrite E. clear E.
        assert (E : forall x y : TBoard,
                  CastleFlags (if To m =? 6 then x else y)
                  = (if To m =? 6 then CastleFlags x else CastleFlags y)).
        { intros x y. now destruct (To m =? 6). }
        rewrite E. clear E.
        cbn [CastleFlags set_EnPassant set_P0 set_P1 set_P2 set_PM
             ResetCastleSM ResetCastleLM set_CastleFlags].
        rewrite !Tauto.if_same. rewrite !Z.land_spec. bit_consts.
        rewrite ?andb_true_r, ?andb_false_r. tauto.
      * set (r := set_EnPassant 8 _).
        assert (Hr : CastleFlags r = Z.land (Z.land (CastleFlags p) 0xFD) 0xFE)
          by reflexivity.
        assert (H5 : Z.testbit (CastleFlags r) 5 = Z.testbit (CastleFlags p) 5).
        { rewrite Hr, !Z.land_spec. bit_consts. now rewrite !andb_true_r. }
        assert (H4 : Z.testbit (CastleFlags r) 4 = Z.testbit (CastleFlags p) 4).
        { rewrite Hr, !Z.land_spec. bit_consts. now rewrite !andb_true_r. }
        assert (H1 : Z.testbit (CastleFlags r) 1 = false).
        { rewrite Hr, !Z.land_spec. bit_consts. now rewrite ?andb_false_r. }
        assert (H0 : Z.testbit (CastleFlags r) 0 = false).
        { rewrite Hr, !Z.land_spec. bit_consts. now rewrite ?andb_false_r. }
        clearbody r.
        assert (S5 : negb (CastleSO r =? 0) = Z.testbit (CastleFlags r) 5).
        { unfold CastleSO. change 0x20 with (Z.shiftl 1 5).
          rewrite flag_bit by lia. apply negb_involutive. }
        assert (S4 : negb (CastleLO r =? 0) = Z.testbit (CastleFlags r) 4).
        { unfold CastleLO. change 0x10 with (Z.shiftl 1 4).
          rewrite flag_bit by lia. apply negb_involutive. }
        rewrite S5, S4, H5, H4.
        destruct (Z.testbit (CastleFlags p) 5) eqn:B5,
          (Z.testbit (CastleFlags p) 4) eqn:B4,
          (Z.eqb_spec (To m) 63) as [E63|E63],
          (Z.eqb_spec (To m) 56) as [E56|E56];
          cbn [andb negb]; try lia;
          unfold ResetCastleSO, ResetCastleLO;
          cbn [CastleFlags set_CastleFlags];
          rewrite ?Z.land_spec, ?H0, ?H1, ?H5, ?H4; bit_consts;
          rewrite ?andb_true_r, ?andb_false_r; tauto.
    + (* another piece *)
      destruct (Z.eqb_spec kind PAWN) as [|_]; [contradiction|].
      destruct (Z.eqb_spec kind KING) as [|_]; [contradiction|].
      cbn [negb andb]. rewrite !andb_true_r.
      unfold MakePiece. cbv zeta.
      match goal with
      | |- context [capture_rights m ?x] =>
          assert (Hx : 0 <= CastleFlags x < 256
                       /\ Z.testbit (CastleFlags x) 1
                          = Z.testbit (CastleFlags p) 1
                            && negb ((kind =? ROOK) && (From m =? 7))
                       /\ Z.testbit (CastleFlags x) 0
                          = Z.testbit (CastleFlags p) 0
                            && negb ((kind =? ROOK) && (From m =? 0))
                       /\ Z.testbit (CastleFlags x) 5 = Z.testbit (CastleFlags p) 5
                       /\ Z.testbit (CastleFlags x) 4 = Z.testbit (CastleFlags p) 4);
          [|destruct Hx as (Hr & X1 & X0 & X5 & X4);
            destruct (capture_rights_flags m x Hr)
              as (Hr' & _ & H0 & H1 & H5 & H4)]
      end.
      { destruct (Z.eqb_spec kind ROOK) as [Er|Er].
        - destruct (Z.eqb_spec (From m) 7) as [E7|E7];
            [|destruct (Z.eqb_spec (From m) 0) as [E0|E0]];
            unfold ResetCastleSM, ResetCastleLM;
            cbn [CastleFlags set_EnPassant set_P0 set_P1 set_P2 set_PM set_CastleFlags];
            rewrite ?delete_captured_flags, ?Z.land_spec; bit_consts;
            try (rewrite E7; cbn [Z.eqb Pos.eqb]);
            cbn [andb negb];
            rewrite ?andb_true_r, ?andb_false_r;
            (split; [try apply land_range; exact Hcf|]);
            repeat split.
        - cbn [CastleFlags set_EnPassant set_P0 set_P1 set_P2 set_PM set_CastleFlags].
          rewrite ?delete_captured_flags. cbn [andb negb]. rewrite !andb_true_r.
          split; [exact Hcf|]. repeat split. }
      rewrite H0, H1, H5, H4, X5, X4, X1, X0. tauto.
Qed.

End FieldsExact.

(** X14: [Make] only ever takes castling rights away, and exactly these: both
    of the mover's when its king moves, one when its rook leaves the
    corner, and one of the opponent's when something is captured on the
    opponent's corner.  (After [Make] the mover's rights are read as the
    opponent's.) *)
Theorem Make_castle_rights (p : TBoard) (m : TMove) :
  encoding_ok p = true ->
  In m (GenerateCapture p ++ GenerateQuiets p) ->
  let kind := Z.land (MoveType m) 7 in
  (CastleSO (MakeBoard m p) <> 0
   <-> CastleSM p <> 0 /\ kind <> KING /\ ~ (kind = ROOK /\ From m = 7))
  /\ (CastleLO (MakeBoard m p) <> 0
      <-> CastleLM p <> 0 /\ kind <> KING /\ ~ (kind = ROOK /\ From m = 0))
  /\ (CastleSM (MakeBoard m p) <> 0
      <-> CastleSO p <> 0 /\ ~ (is_capture m = true /\ To m = 63))
  /\ (CastleLM (MakeBoard m p) <> 0
      <-> CastleLO p <> 0 /\ ~ (is_capture m = true /\ To m = 56)).
Proof.
  intros Henc Hin kind.
  assert (Hg : gen_move p m) by now apply generated_gen.
  pose proof (gen_move_shape p Henc m Hg) as Hs.
  destruct (encoding_valid_fields p Henc) as (_ & _ & _ & _ & Hcf & _).
  pose proof (ms_kind _ _ Hs) as Hk. fold kind in Hk.
  rewrite (MakeBoard_moved m p Hk).
  assert (Hq : 0 <= CastleFlags (moved m p) < 256)
    by apply (moved_castle_flags p m Hcf).
  rewrite !CastleSM_bit, !CastleLM_bit, !CastleSO_bit, !CastleLO_bit.
  change (CastleFlags (ChangeSide (moved m p))) with (roll (CastleFlags (moved m p))).
  destruct (roll_bits _ Hq) as (-> & -> & -> & ->).
  destruct (moved_castle_flags_exact p m Hcf) as (-> & -> & -> & ->).
  fold kind.
  assert (Hep : is_ep m = true -> To m <> 63 /\ To m <> 56).
  { intros E. unfold is_ep in E. apply negb_true_iff, Z.eqb_neq in E.
    pose proof (ms_ep _ _ Hs E). lia. }
  split; [|split; [|split]].
  - destruct (Z.eqb_spec kind KING), (Z.eqb_spec kind ROOK), (Z.eqb_spec (From m) 7),
      (Z.testbit (CastleFlags p) 1); cbn [andb negb];
      split; try tauto; try discriminate; intros (? & ? & ?); tauto.
  - destruct (Z.eqb_spec kind KING), (Z.eqb_spec kind ROOK), (Z.eqb_spec (From m) 0),
      (Z.testbit (CastleFlags p) 0); cbn [andb negb];
      split; try tauto; try discriminate; intros (? & ? & ?); tauto.
  - destruct (Z.eqb_spec (To m) 63), (is_capture m), (is_ep m),
      (Z.eqb_spec kind PAWN), (Z.testbit (CastleFlags p) 5); cbn [andb negb];
      try (exfalso; destruct (Hep eq_refl); congruence);
      split; try tauto; try discriminate; intros (? & ?); tauto.
  - destruct (Z.eqb_spec (To m) 56), (is_capture m), (is_ep m),
      (Z.eqb_spec kind PAWN), (Z.testbit (CastleFlags p) 4); cbn [andb negb];
      try (exfalso; destruct (Hep eq_refl); congruence);
      split; try tauto; try discriminate; intros (? & ?); tauto.
Qed.

Lemma Make_castle_rights_witness :
  let p := LoadBoard fen_kiwipete in
  let m := mkMove ROOK 7 6 EMPTY in
  let kind := Z.land (MoveType m) 7 in
  (CastleSO (MakeBoard m p) <> 0
   <-> CastleSM p <> 0 /\ kind <> KING /\ ~ (kind = ROOK /\ From m = 7))
  /\ (CastleLO (MakeBoard m p) <> 0
      <-> CastleLM p <> 0 /\ kind <> KING /\ ~ (kind = ROOK /\ From m = 0))
  /\ (CastleSM (MakeBoard m p) <> 0
      <-> CastleSO p <> 0 /\ ~ (is_capture m = true /\ To m = 63))
  /\ (CastleLM (MakeBoard m p) <> 0
      <-> CastleLO p <> 0 /\ ~ (is_capture m = true /\ To m = 56)).
Proof.
  apply Make_castle_rights; [vm_compute; reflexivity|].
  apply in_or_app. right. vm_compute. auto 60.
Defined.

(** X15: Every move but a pawn's advance of two squares leaves the
    en-passant field at 8. *)
Theorem Make_clears_en_passant (p : TBoard) (m : TMove) :
  1 <= Z.land (MoveType m) 7 <= 6 ->
  ~ (Z.land (MoveType m) 7 = PAWN /\ is_ep m = false /\ is_promo m = false
     /\ To m = From m + 16) ->
  EnPassant (MakeBoard m p) = 8.
Proof.
  intros Hk Hn. rewrite (MakeBoard_moved m p Hk), EnPassant_ChangeSide.
  destruct (moved_EnPassant p m) as [H|H]; [assumption|tauto].
Qed.

Lemma Make_clears_en_passant_witness :
  EnPassant (MakeBoard (mkMove KNIGHT 1 18 EMPTY) (LoadBoard startpos)) = 8.
Proof.
  apply Make_clears_en_passant; [vm_compute; split; discriminate|].
  intros (H & _). discriminate H.
Defined.

(** ** Perft *)

Lemma Zsum_app a b : Zsum (a ++ b) = Zsum a + Zsum b.
Proof.
  induction a as [|x a IH]; simpl; [reflexivity|]. rewrite IH. lia.
Qed.

Lemma Zsum_rev a : Zsum (rev a) = Zsum a.
Proof.
  induction a as [|x a IH]; simpl; [reflexivity|].
  rewrite Zsum_app, IH. simpl. lia.
Qed.

Lemma Zsum_cons x l : Zsum (x :: l) = x + Zsum l.
Proof. reflexivity. Qed.

Lemma same_below_refl st : same_below st st.
Proof. repeat split. Qed.

Lemma same_below_cur st st' : same_below st st' -> cur st' = cur st.
Proof.
  intros (Hp & Hl & Ht). rewrite !cur_lookup, Hp.
  rewrite <- (lookup_take_lt (Game st') (S (Position st)) (Position st)) by lia.
  rewrite <- (lookup_take_lt (Game st) (S (Position st)) (Position st)) by lia.
  now rewrite Ht.
Qed.

Lemma same_below_trans a b c : same_below a b -> same_below b c -> same_below a c.
Proof.
  intros (Hp & Hl & Ht) (Hp' & Hl' & Ht'). rewrite Hp in *.
  repeat split; congruence.
Qed.

(** One move of the loop: Make, the count below, the retreat. *)
Lemma same_below_step st st1' m :
  (S (Position st) < length (Game st))%nat ->
  same_below (mkState (<[S (Position st) := MakeBoard m (cur st)]> (Game st))
                      (S (Position st))) st1' ->
  same_below st (mkState (Game st1') (pred (Position st1'))).
Proof.
  intros Hlt (Hp & Hl & Ht). simpl in *.
  rewrite length_insert in Hl.
  repeat split; simpl.
  - rewrite Hp. reflexivity.
  - assumption.
  - assert (E : forall l : list TBoard,
               take (S (Position st)) l
               = take (S (Position st)) (take (S (S (Position st))) l)).
    { intros l. rewrite take_take. f_equal. lia. }
    rewrite (E (Game st1')), Ht, <- E.
    apply take_insert_ge. lia.
Qed.

Lemma games_nonneg d : forall p, 0 <= games d p.
Proof.
  induction d as [|d IH]; intros p; cbn [games]; [lia|].
  induction (legal_moves p) as [|m l IHl]; cbn [map Zsum fold_right]; [lia|].
  unfold Zsum in IHl. pose proof (IH (MakeBoard m p)). lia.
Qed.

Lemma Zsum_games_nonneg d p l :
  0 <= Zsum (map (fun m => games d (MakeBoard m p)) l).
Proof.
  induction l as [|m l IHl]; cbn [map Zsum fold_right]; [lia|].
  unfold Zsum in IHl. pose proof (games_nonneg d (MakeBoard m p)). lia.
Qed.

Section Loop.
Variable d : nat.
Variable deeper : option (M Z).
Variable n len : nat.
Hypothesis Hdeeper :
  match deeper with
  | None => d = O
  | Some rec =>
      (S n < len)%nat
      /\ forall st1, Position st1 = S n -> length (Game st1) = len ->
           buffers_fit_to d (cur st1) = true ->
           games d (cur st1) <= INT64_MAX ->
           exists st1', rec st1 = Some (games d (cur st1), st1')
                        /\ same_below st1 st1'
  end.

Lemma perft_loop_games moves : forall tot st,
  Position st = n -> length (Game st) = len ->
  (forall m, In m moves -> legal (cur st) m = true ->
     deeper <> None -> buffers_fit_to d (MakeBoard m (cur st)) = true) ->
  0 <= tot ->
  tot + Zsum (map (fun m => games d (MakeBoard m (cur st)))
                  (List.filter (legal (cur st)) moves)) <= INT64_MAX ->
  exists st',
    perft_loop deeper moves tot st
    = Some (tot + Zsum (map (fun m => games d (MakeBoard m (cur st)))
                            (List.filter (legal (cur st)) moves)), st')
    /\ same_below st st'.
Proof.
  induction moves as [|m rest IH]; intros tot st Hn Hlen Hfit Htot Hmax.
  - exists st. cbn [perft_loop List.filter map Zsum fold_right].
    unfold ret. rewrite Z.add_0_r.
    split; [reflexivity|apply same_below_refl].
  - assert (Hfit' : forall m', In m' rest -> legal (cur st) m' = true ->
                      deeper <> None ->
                      buffers_fit_to d (MakeBoard m' (cur st)) = true)
      by (intros m' Hin; apply Hfit; now right).
    cbn [perft_loop List.filter] in Hmax |- *.
    change (Illegal (cur st) m =? 0) with (legal (cur st) m).
    destruct (legal (cur st) m) eqn:El; cbn [negb map] in Hmax |- *;
      [|apply IH; assumption].
    rewrite Zsum_cons in Hmax |- *.
    pose proof (games_nonneg d (MakeBoard m (cur st))) as Hg.
    pose proof (Zsum_games_nonneg d (cur st) (List.filter (legal (cur st)) rest))
      as Hz.
    destruct deeper as [rec|].
    + destruct Hdeeper as [Hlt Hrec].
      unfold bind, Make. rewrite Hn, Hlen.
      destruct (Nat.ltb_spec (S n) len) as [_|]; [|lia].
      set (st1 := mkState _ _).
      assert (Hc1 : cur st1 = MakeBoard m (cur st)).
      { subst st1. rewrite cur_lookup. cbn [Game Position].
        now rewrite list_lookup_insert_eq by lia. }
      destruct (Hrec st1 eq_refl) as (st1' & Er & Hs).
      { subst st1. cbn [Game]. now rewrite length_insert. }
      { rewrite Hc1. apply Hfit; [now left|exact El|discriminate]. }
      { rewrite Hc1. lia. }
      rewrite Er.
      rewrite add64_in_range by (rewrite Hc1; unfold INT64_MIN; lia).
      unfold Unmake.
      set (st2 := mkState _ _).
      assert (H2 : same_below st st2).
      { subst st2. apply (same_below_step st st1' m); [lia|].
        rewrite Hn. exact Hs. }
      destruct H2 as (Hp2 & Hl2 & Ht2).
      assert (Hc2 : cur st2 = cur st)
        by (apply same_below_cur; repeat split; assumption).
      destruct (IH (tot + games d (cur st1)) st2) as (st' & E & Hs');
        [congruence|congruence|now rewrite Hc2|rewrite Hc1; lia
        |rewrite Hc2, Hc1; lia|].
      exists st'. rewrite E. rewrite Hc2, Hc1. split.
      * f_equal. f_equal. lia.
      * apply (same_below_trans st st2 st'); [repeat split; assumption|exact Hs'].
    + subst d. cbn [games] in *. unfold bind.
      rewrite add64_in_range by (unfold INT64_MIN; lia).
      destruct (IH (tot + 1) st Hn Hlen Hfit' ltac:(lia) ltac:(lia))
        as (st' & E & Hs).
      exists st'. rewrite E. split; [|exact Hs].
      f_equal. f_equal. lia.
Qed.

End Loop.

Lemma buffers_fit_to_here d p :
  buffers_fit_to d p = true -> buffers_fit p = true.
Proof.
  destruct d as [|[|d]]; cbn [buffers_fit_to]; intros H;
    apply andb_true_iff in H; tauto.
Qed.

Lemma buffers_fit_to_below d p m :
  buffers_fit_to (S (S d)) p = true -> In m (legal_moves p) ->
  buffers_fit_to (S d) (MakeBoard m p) = true.
Proof.
  cbn [buffers_fit_to]. intros H Hin.
  apply andb_true_iff in H. destruct H as [_ H].
  rewrite forallb_forall in H. now apply H.
Qed.

Lemma PerftN_games (d : nat) : forall st,
  (Position st + S d <= length (Game st))%nat ->
  buffers_fit_to (S d) (cur st) = true ->
  games (S d) (cur st) <= INT64_MAX ->
  exists st',
    PerftN (S d) st = Some (games (S d) (cur st), st') /\ same_below st st'.
Proof.
  induction d as [|d IH]; intros st Hroom Hfit Hmax.
  - rewrite PerftN_count by (lia || now apply (buffers_fit_to_here 1)).
    exists st. split; [|apply same_below_refl].
    f_equal. f_equal. cbn [games]. unfold Zsum.
    induction (legal_moves (cur st)) as [|m l IHl]; [reflexivity|].
    cbn [length map fold_right]. rewrite <- IHl. lia.
  - assert (Hd : match Some (PerftN (S d)) with
                 | None => S d = O
                 | Some rec =>
                     (S (Position st) < length (Game st))%nat
                     /\ forall st1, Position st1 = S (Position st) ->
                          length (Game st1) = length (Game st) ->
                          buffers_fit_to (S d) (cur st1) = true ->
                          games (S d) (cur st1) <= INT64_MAX ->
                          exists st1', rec st1 = Some (games (S d) (cur st1), st1')
                                       /\ same_below st1 st1'
                 end).
    { split; [lia|]. intros st1 Hp Hl. apply IH. lia. }
    pose proof (buffers_fit_lengths _ (buffers_fit_to_here _ _ Hfit)) as [Hc Hq].
    assert (Hbelow : forall m, In m (legal_moves (cur st)) ->
                       buffers_fit_to (S d) (MakeBoard m (cur st)) = true)
      by (intros m; now apply buffers_fit_to_below).
    assert (Hsplit : games (S (S d)) (cur st)
                     = Zsum (map (fun m => games (S d) (MakeBoard m (cur st)))
                               (List.filter (legal (cur st))
                                  (rev (GenerateCapture (cur st)))))
                       + Zsum (map (fun m => games (S d) (MakeBoard m (cur st)))
                                 (List.filter (legal (cur st))
                                    (rev (GenerateQuiets (cur st)))))).
    { change (games (S (S d)) (cur st))
        with (Zsum (map (fun m => games (S d) (MakeBoard m (cur st)))
                        (legal_moves (cur st)))).
      unfold legal_moves.
      rewrite List.filter_app, map_app, Zsum_app.
      now rewrite !List.filter_rev, !map_rev, !Zsum_rev. }
    pose proof (Zsum_games_nonneg (S d) (cur st)
                  (List.filter (legal (cur st)) (rev (GenerateCapture (cur st)))))
      as Hz1.
    pose proof (Zsum_games_nonneg (S d) (cur st)
                  (List.filter (legal (cur st)) (rev (GenerateQuiets (cur st)))))
      as Hz2.
    change (PerftN (S (S d)) st)
      with ((do capture <- fill CAPTURE_SIZE (GenerateCapture (cur st));
             do tot <- perft_loop (Some (PerftN (S d))) (rev capture) 0;
             fun st' =>
               (do quiets <- fill QUIETS_SIZE (GenerateQuiets (cur st'));
                perft_loop (Some (PerftN (S d))) (rev quiets) tot) st') st).
    unfold bind. rewrite fill_fits by exact Hc.
    destruct (perft_loop_games (S d) (Some (PerftN (S d))) (Position st)
                (length (Game st)) Hd (rev (GenerateCapture (cur st))) 0 st
                eq_refl eq_refl) as (sta & Ea & Ha).
    { intros m Hin Hl _. apply Hbelow. unfold legal_moves.
      apply List.filter_In. split; [|exact Hl].
      apply in_or_app. left. now apply in_rev. }
    { lia. }
    { lia. }
    rewrite Ea.
    pose proof (same_below_cur _ _ Ha) as Hca.
    destruct Ha as (Hpa & Hla & Hta).
    rewrite Hca. rewrite fill_fits by exact Hq.
    destruct (perft_loop_games (S d) (Some (PerftN (S d))) (Position st)
                (length (Game st)) Hd (rev (GenerateQuiets (cur st)))
                (0 + Zsum (map (fun m => games (S d) (MakeBoard m (cur st)))
                               (List.filter (legal (cur st))
                                            (rev (GenerateCapture (cur st))))))
                sta Hpa Hla) as (stb & Eb & Hb).
    { rewrite Hca. intros m Hin Hl _. apply Hbelow. unfold legal_moves.
      apply List.filter_In. split; [|exact Hl].
      apply in_or_app. right. now apply in_rev. }
    { lia. }
    { rewrite Hca. lia. }
    rewrite Eb. exists stb. split.
    + f_equal. f_equal. rewrite Hca. lia.
    + apply (same_below_trans st sta stb); [repeat split; assumption|exact Hb].
Qed.



(** X17: [MoveToStr] writes a move in coordinate notation, squares as White
    sees them: four characters, or five with the letter of the promotion
    piece, from which the squares and the piece are read back.  The move
    type is not printed. *)
Theorem MoveToStr_reads_back (m : TMove) (tomove : Z) :
  0 <= From m < 64 -> 0 <= To m < 64 ->
  In (Prom m) (EMPTY :: promotion_pieces) -> In tomove [WHITE; BLACK] ->
  exists bytes,
    MoveToStr m tomove = Some bytes
    /\ parse_move (c_string bytes)
       = (AbsSq (From m) tomove, AbsSq (To m) tomove, Prom m)
    /\ String.length (c_string bytes) = if Prom m =? EMPTY then 4%nat else 5%nat.
Proof.
  intros Hf Ht Hp Hs.
  pose proof (check_squares2 move_text_ok ltac:(vm_compute; reflexivity)
                (From m) (To m) Hf Ht) as H.
  unfold move_text_ok in H. rewrite forallb_forall in H.
  specialize (H _ Hp). rewrite forallb_forall in H. specialize (H _ Hs).
  change (MoveToStr {| MoveType := PAWN; From := From m; To := To m;
                       Prom := Prom m |} tomove)
    with (MoveToStr m tomove) in H.
  destruct (MoveToStr m tomove) as [bytes|]; [|discriminate H].
  exists bytes. split; [reflexivity|].
  destruct (parse_move (c_string bytes)) as [[f t] c].
  rewrite !andb_true_iff in H. destruct H as [[[H1 H2] H3] H4].
  apply Z.eqb_eq in H1, H2, H3. apply Nat.eqb_eq in H4.
  subst. split; [reflexivity|assumption].
Qed.

Lemma MoveToStr_reads_back_witness :
  exists bytes,
    MoveToStr (mkMove (Z.lor PAWN PROMO) 52 60 KNIGHT) BLACK = Some bytes
    /\ parse_move (c_string bytes)
       = (AbsSq 52 BLACK, AbsSq 60 BLACK, KNIGHT)
    /\ String.length (c_string bytes) = if KNIGHT =? EMPTY then 4%nat else 5%nat.
Proof.
  apply (MoveToStr_reads_back (mkMove (Z.lor PAWN PROMO) 52 60 KNIGHT) BLACK);
    [simpl; lia|simpl; lia|simpl; tauto|simpl; tauto].
Defined.

(** ** Every move of the loops is emitted *)

Lemma land_nonzero a b s :
  0 <= s -> Z.testbit a s = true -> Z.testbit b s = true ->
  (Z.land a b =? 0) = false.
Proof.
  intros Hs Ha Hb. apply Z.eqb_neq. intros E.
  apply (bit_of_eq _ _ s) in E.
  rewrite Z.land_spec, Ha, Hb, Z.testbit_0_l in E. discriminate E.
Qed.

Section Emitted.
Variable p : TBoard.
Hypothesis Henc : encoding_ok p = true.

Let Hcodes := encoding_codes p Henc.
Let Hpm := encoding_pm p Henc.

Lemma bits_of_own c s :
  0 <= s < 64 -> 1 <= c <= 6 -> own p c s ->
  Z.testbit (Z.land (BBPieces p c) (PM p)) s = true.
Proof.
  intros Hs Hc [H1 H2].
  rewrite Z.land_spec, testbit_BBPieces, H1, H2, Z.eqb_refl by assumption.
  reflexivity.
Qed.

Lemma bits_of_own_pawn s :
  0 <= s < 64 -> own p PAWN s -> Z.testbit (Z.land (Pawns p) (PM p)) s = true.
Proof. intros Hs H. apply (bits_of_own PAWN); auto. unfold PAWN. lia. Qed.

Lemma bit_of_vacant s :
  0 <= s < 64 -> vacant p s -> Z.testbit (not64 (Occupation p)) s = true.
Proof.
  intros Hs H. rewrite testbit_neg64, testbit_Occupation by lia.
  unfold vacant in H. rewrite H. reflexivity.
Qed.

Lemma bit_of_enemy s :
  0 <= s < 64 -> enemy p s -> Z.testbit (Z.lxor (PM p) (Occupation p)) s = true.
Proof.
  intros Hs [H1 H2]. rewrite testbit_opposing by assumption.
  rewrite H2. apply Z.eqb_neq in H1. now rewrite H1.
Qed.

Lemma for_bits_of bb s :
  is64 bb -> 0 <= s < 64 -> Z.testbit bb s = true -> In s (for_bits bb).
Proof. intros Hb Hs Ht. apply in_for_bits; [assumption|]. split; [lia|assumption]. Qed.

Lemma piece_loop_in (mk : Z -> Z) (dests : Z -> Z -> Z) piece sq dst :
  (forall c s, is64 (dests c s)) ->
  In piece king_to_knight -> 0 <= sq < 64 -> 0 <= dst < 64 ->
  own p piece sq -> Z.testbit (dests piece sq) dst = true ->
  In (mkMove (mk piece) sq dst EMPTY)
     (flat_map (fun piece =>
        flat_map (fun sq =>
          map (fun dst => mkMove (mk piece) sq dst EMPTY)
              (for_bits (dests piece sq)))
          (for_bits (Z.land (BBPieces p piece) (PM p))))
        king_to_knight).
Proof.
  intros Hd Hp Hsq Hdst Hown Hb.
  apply List.in_flat_map. exists piece. split; [assumption|].
  apply List.in_flat_map. exists sq. split.
  - apply for_bits_of; [apply is64_land_r, (is64_PM p Henc)|assumption|].
    apply bits_of_own; auto using king_to_knight_range.
  - apply List.in_map_iff. exists dst. split; [reflexivity|].
    now apply for_bits_of.
Qed.

Lemma gen_move_emitted m :
  gen_move p m -> In m (GenerateCapture p ++ GenerateQuiets p).
Proof.
  pose proof (is64_Occupation p Henc) as Hocc.
  pose proof (is64_PM p Henc) as HPM.
  intros H. apply in_or_app. destruct H.
  - (* a piece to an empty square *)
    right. unfold GenerateQuiets. cbv zeta. apply in_or_app. left.
    apply (piece_loop_in (fun c => c)
             (fun c s => Z.land (not64 (Occupation p))
                                (BBDestinations c s (Occupation p))));
      try assumption.
    + intros c s. now apply is64_land_l, is64_not64.
    + rewrite Z.land_spec. apply andb_true_iff. split; [|assumption].
      now apply bit_of_vacant.
  - (* a piece takes *)
    left. unfold GenerateCapture. cbv zeta. apply in_or_app. left.
    apply (piece_loop_in (fun c => Z.lor c CAPTURE)
             (fun c s => Z.land (Z.lxor (PM p) (Occupation p))
                                (BBDestinations c s (Occupation p))));
      try assumption.
    + intros c s. apply is64_land_l. solve_is64.
    + rewrite Z.land_spec. apply andb_true_iff. split; [|assumption].
      now apply bit_of_enemy.
  - (* a pawn advances *)
    right. unfold GenerateQuiets. cbv zeta.
    apply in_or_app. right. apply in_or_app. left.
    apply List.in_map_iff. exists dst. split.
    { now rewrite wrap8_small by lia. }
    apply for_bits_of; [solve_is64|lia|].
    rewrite !Z.land_spec, testbit_shl64, mask_below56 by lia.
    rewrite bits_of_own_pawn, bit_of_vacant by (assumption || lia).
    destruct (Z.ltb_spec dst 64), (Z.ltb_spec dst 56); try lia; try reflexivity.
  - (* a pawn advances two squares *)
    right. unfold GenerateQuiets. cbv zeta.
    apply in_or_app. right. apply in_or_app. right. apply in_or_app. left.
    apply List.in_map_iff. exists dst. split.
    { now rewrite wrap8_small by lia. }
    apply for_bits_of; [solve_is64|lia|].
    rewrite !Z.land_spec, testbit_shl64, mask_rank4 by lia.
    rewrite !Z.land_spec, testbit_shl64, mask_below56 by lia.
    replace (dst - 8 - 8) with (dst - 16) by lia.
    rewrite bits_of_own_pawn, !bit_of_vacant by (assumption || lia).
    destruct (Z.ltb_spec dst 64), (Z.ltb_spec (dst - 8) 64),
      (Z.ltb_spec (dst - 8) 56), (Z.leb_spec 24 dst), (Z.ltb_spec dst 32);
      try lia; try reflexivity.
  - (* castling long *)
    right. apply castle_long_emitted.
    rewrite !andb_true_iff, negb_true_iff, Z.eqb_neq, Z.eqb_eq. tauto.
  - (* castling short *)
    right. apply castle_short_emitted.
    rewrite !andb_true_iff, negb_true_iff, Z.eqb_neq, Z.eqb_eq. tauto.
  - (* a pawn takes *)
    left. unfold GenerateCapture. cbv zeta.
    match goal with H : capture_step _ _ |- _ => destruct H as [[-> Hf]|[-> Hf]] end.
    + apply in_or_app. right. apply in_or_app. left.
      apply List.in_map_iff. exists dst. split.
      { now rewrite wrap8_small by lia. }
      apply for_bits_of; [solve_is64|lia|].
      rewrite !Z.land_spec, testbit_shl64, mask_capture_right by lia.
      rewrite bits_of_own_pawn, bit_of_enemy by (assumption || lia).
      destruct (Z.ltb_spec dst 64), (Z.ltb_spec dst 56),
        (Z.eqb_spec (dst mod 8) 0); try lia; try reflexivity.
    + apply in_or_app. right. apply in_or_app. right. apply in_or_app. left.
      apply List.in_map_iff. exists dst. split.
      { now rewrite wrap8_small by lia. }
      apply for_bits_of; [solve_is64|lia|].
      rewrite !Z.land_spec, testbit_shl64, mask_capture_left by lia.
      rewrite bits_of_own_pawn, bit_of_enemy by (assumption || lia).
      destruct (Z.ltb_spec dst 64), (Z.ltb_spec dst 56),
        (Z.eqb_spec (dst mod 8) 7); try lia; try reflexivity.
  - (* a pawn takes and promotes *)
    left. unfold GenerateCapture. cbv zeta.
    apply in_or_app. right. apply in_or_app. right. apply in_or_app. right.
    apply in_or_app. left.
    assert (Hprom : In (mkMove (Z.lor (Z.lor PAWN PROMO) CAPTURE)
                               (dst - delta) dst prom)
                       (promotions (Z.lor (Z.lor PAWN PROMO) CAPTURE) delta dst)).
    { unfold promotions. rewrite wrap8_small
        by (match goal with H : capture_step _ _ |- _ =>
              destruct H as [[-> _]|[-> _]] end; lia).
      match goal with H : In prom promotion_pieces |- _ =>
        unfold promotion_pieces in H; simpl in H;
        destruct H as [<-|[<-|[<-|[<-|[]]]]] end; simpl; tauto. }
    match goal with H : capture_step _ _ |- _ => destruct H as [[-> Hf]|[-> Hf]] end.
    + rewrite (land_nonzero _ _ (dst - 9));
        [|lia|apply bits_of_own_pawn; [lia|assumption]|].
      2:{ assert (Hr : 48 <= dst - 9 < 56).
          { assert (dst <> 56) by (intros ->; now apply Hf). lia. }
          revert Hr. generalize (dst - 9). intros s Hs.
          pose proof (check_squares
            (fun s => implb ((48 <=? s) && (s <? 56))
                            (Z.testbit 0x00FF000000000000 s))
            ltac:(vm_compute; reflexivity) s ltac:(lia)) as Hc.
          cbv beta in Hc.
          destruct (Z.leb_spec 48 s), (Z.ltb_spec s 56); try lia. exact Hc. }
      apply in_or_app. left.
      apply List.in_flat_map. exists dst. split; [|assumption].
      apply for_bits_of; [solve_is64|lia|].
      rewrite !Z.land_spec, testbit_shl64, mask_promo_right by lia.
      rewrite bits_of_own_pawn, bit_of_enemy by (assumption || lia).
      destruct (Z.ltb_spec dst 64), (Z.leb_spec 56 dst),
        (Z.eqb_spec (dst mod 8) 0); try lia; try reflexivity.
    + rewrite (land_nonzero _ _ (dst - 7));
        [|lia|apply bits_of_own_pawn; [lia|assumption]|].
      2:{ assert (Hr : 48 <= dst - 7 < 56).
          { assert (dst <> 63) by (intros ->; now apply Hf). lia. }
          revert Hr. generalize (dst - 7). intros s Hs.
          pose proof (check_squares
            (fun s => implb ((48 <=? s) && (s <? 56))
                            (Z.testbit 0x00FF000000000000 s))
            ltac:(vm_compute; reflexivity) s ltac:(lia)) as Hc.
          cbv beta in Hc.
          destruct (Z.leb_spec 48 s), (Z.ltb_spec s 56); try lia. exact Hc. }
      apply in_or_app. right. apply in_or_app. left.
      apply List.in_flat_map. exists dst. split; [|assumption].
      apply for_bits_of; [solve_is64|lia|].
      rewrite !Z.land_spec, testbit_shl64, mask_promo_left by lia.
      rewrite bits_of_own_pawn, bit_of_enemy by (assumption || lia).
      destruct (Z.ltb_spec dst 64), (Z.leb_spec 56 dst),
        (Z.eqb_spec (dst mod 8) 7); try lia; try reflexivity.
  - (* a pawn advances and promotes *)
    left. unfold GenerateCapture. cbv zeta.
    apply in_or_app. right. apply in_or_app. right. apply in_or_app. right.
    apply in_or_app. left.
    assert (Hprom : In (mkMove (Z.lor PAWN PROMO) (dst - 8) dst prom)
                       (promotions (Z.lor PAWN PROMO) 8 dst)).
    { unfold promotions. rewrite wrap8_small by lia.
      match goal with H : In prom promotion_pieces |- _ =>
        unfold promotion_pieces in H; simpl in H;
        destruct H as [<-|[<-|[<-|[<-|[]]]]] end; simpl; tauto. }
    rewrite (land_nonzero _ _ (dst - 8));
      [|lia|apply bits_of_own_pawn; [lia|assumption]|].
    2:{ assert (Hr : 48 <= dst - 8 < 56) by lia.
        revert Hr. generalize (dst - 8). intros s Hs.
        pose proof (check_squares
          (fun s => implb ((48 <=? s) && (s <? 56))
                          (Z.testbit 0x00FF000000000000 s))
          ltac:(vm_compute; reflexivity) s ltac:(lia)) as Hc.
        cbv beta in Hc.
        destruct (Z.leb_spec 48 s), (Z.ltb_spec s 56); try lia. exact Hc. }
    apply in_or_app. right. apply in_or_app. right.
    apply List.in_flat_map. exists dst. split; [|assumption].
    apply for_bits_of; [solve_is64|lia|].
    rewrite !Z.land_spec, testbit_shl64, mask_rank8 by lia.
    rewrite bits_of_own_pawn, bit_of_vacant by (assumption || lia).
    destruct (Z.ltb_spec dst 64), (Z.leb_spec 56 dst); try lia; try reflexivity.
  - (* en passant *)
    left. unfold GenerateCapture. cbv zeta.
    apply in_or_app. right. apply in_or_app. right. apply in_or_app. right.
    apply in_or_app. right.
    destruct (Z.eqb_spec (EnPassant p) 8) as [|_]; [lia|].
    apply List.in_map_iff. exists sq. split.
    { now rewrite wrap8_small by lia. }
    apply for_bits_of; [apply is64_land_l; solve_is64|assumption|].
    rewrite Z.land_spec. apply andb_true_iff. split; [|assumption].
    now apply bits_of_own_pawn.
Qed.

End Emitted.

(** ** The loops against the rules *)

Lemma king_to_knight_iff c : In c king_to_knight <-> KNIGHT <= c <= KING.
Proof.
  unfold king_to_knight, KING, QUEEN, ROOK, BISHOP, KNIGHT. simpl. lia.
Qed.

Lemma BBDestinations_attack c sq dst occ :
  KNIGHT <= c <= KING -> 0 <= sq < 64 -> 0 <= dst < 64 -> 0 <= occ ->
  Z.testbit occ sq = true ->
  Z.testbit (BBDestinations c sq occ) dst = attack_of c true occ sq dst.
Proof.
  intros Hc Hsq Hdst Hocc Hb.
  assert (E : c = KNIGHT \/ c = BISHOP \/ c = ROOK \/ c = QUEEN \/ c = KING)
    by (unfold KNIGHT, BISHOP, ROOK, QUEEN, KING in *; lia).
  destruct E as [->|[->|[->|[->| ->]]]]; unfold BBDestinations, attack_of;
    cbn [Z.eqb Pos.eqb KNIGHT BISHOP ROOK QUEEN KING PAWN].
  - rewrite KnightDest_spec by assumption. apply knight_jump_sym.
  - now rewrite GenBishop_correct.
  - now rewrite GenRook_correct.
  - unfold spec_queen_attacks. now rewrite GenRook_correct, GenBishop_correct.
  - rewrite KingDest_spec by assumption. apply king_step_sym.
Qed.

Lemma EnPassantG_beside f s :
  0 <= f < 8 -> 0 <= s < 64 ->
  Z.testbit (EnPassantG f) s = (rank_of s =? 4) && (Z.abs (file_of s - f) =? 1).
Proof.
  intros Hf Hs.
  pose proof (check_squares2
    (fun f s =>
       negb (f <? 8)
       || Bool.eqb (Z.testbit (EnPassantG f) s)
                   ((rank_of s =? 4) && (Z.abs (file_of s - f) =? 1)))
    ltac:(vm_compute; reflexivity) f s ltac:(lia) Hs) as H.
  cbv beta in H. destruct (Z.ltb_spec f 8); [|lia]. cbn [negb orb] in H.
  now apply eqb_prop in H.
Qed.

Lemma pawn_step_capture from to :
  0 <= from < 64 -> 0 <= to < 64 ->
  pawn_step true from to = true <->
  exists delta, capture_step delta to /\ delta <= to /\ from = to - delta.
Proof.
  intros Hf Ht.
  pose proof (check_squares2
    (fun from to =>
       Bool.eqb (pawn_step true from to)
                (((to =? from + 9) && negb (to mod 8 =? 0))
                 || ((to =? from + 7) && negb (to mod 8 =? 7))))
    ltac:(vm_compute; reflexivity) from to Hf Ht) as H.
  cbv beta in H. apply eqb_prop in H. rewrite H. clear H.
  unfold capture_step. split.
  - intros H. apply orb_true_iff in H.
    destruct H as [H|H]; apply andb_true_iff in H; destruct H as [H1 H2];
      apply Z.eqb_eq in H1; apply negb_true_iff, Z.eqb_neq in H2.
    + exists 9. split; [left; tauto|lia].
    + exists 7. split; [right; tauto|lia].
  - intros (delta & [[-> H]|[-> H]] & Hd & ->); apply orb_true_iff.
    + left. apply andb_true_iff. split; [apply Z.eqb_eq; lia|].
      now apply negb_true_iff, Z.eqb_neq.
    + right. apply andb_true_iff. split; [apply Z.eqb_eq; lia|].
      now apply negb_true_iff, Z.eqb_neq.
Qed.

Lemma castle_short_rule p :
  legal_position p = true ->
  (CastleSM p <> 0 /\ Z.land (Occupation p) 0x60 = 0
   /\ castle_short_ok p (Occupation p) (Z.lxor (Occupation p) (PM p)) = true)
  <-> (CastleSM p <> 0 /\ (forall s, In s [5; 6] -> vacant p s)
       /\ forall s, In s [4; 5; 6] -> attacked_by (board_of p) false s = false).
Proof.
  intros Hl. unfold legal_position in Hl. apply andb_true_iff in Hl.
  destruct Hl as [Henc Hsafe]. apply negb_true_iff in Hsafe.
  rewrite castle_short_ok_unfold.
  pose proof (land_mask_vacant p 0x60 [5; 6] Henc
                ltac:(repeat constructor; lia) eq_refl) as Hv.
  assert (HU : CastleSM p <> 0 -> Z.land (Occupation p) 0x60 = 0 ->
            forall t, 0 <= t < 64 -> enemy p t ->
              Z.testbit (castle_attackers p (short_rook_lines (Occupation p))
                           (short_bishop_lines (Occupation p))
                           0x0000000000F8DC00 0x000000000000F800
                           0x0000000000004000) t
              = existsb (fun s => attack_of (Piece p t) false (Occupation p) t s)
                        [4; 5; 6]).
  { intros H1 H2 t Ht Hen. now apply short_attackers_bit. }
  split.
  - intros (H1 & H2 & H3). split; [assumption|]. split; [now apply Hv|].
    now apply (castle_rule p _ [4; 5; 6] Henc (HU H1 H2)).
  - intros (H1 & H2 & H3). apply Hv in H2. repeat split; try assumption.
    now apply (castle_rule p _ [4; 5; 6] Henc (HU H1 H2)).
Qed.

Lemma castle_long_rule p :
  legal_position p = true ->
  (CastleLM p <> 0 /\ Z.land (Occupation p) 0x0E = 0
   /\ castle_long_ok p (Occupation p) (Z.lxor (Occupation p) (PM p)) = true)
  <-> (CastleLM p <> 0 /\ (forall s, In s [1; 2; 3] -> vacant p s)
       /\ forall s, In s [4; 3; 2] -> attacked_by (board_of p) false s = false).
Proof.
  intros Hl. unfold legal_position in Hl. apply andb_true_iff in Hl.
  destruct Hl as [Henc Hsafe]. apply negb_true_iff in Hsafe.
  rewrite castle_long_ok_unfold.
  pose proof (land_mask_vacant p 0x0E [1; 2; 3] Henc
                ltac:(repeat constructor; lia) eq_refl) as Hv.
  assert (HU : CastleLM p <> 0 -> Z.land (Occupation p) 0x0E = 0 ->
            forall t, 0 <= t < 64 -> enemy p t ->
              Z.testbit (castle_attackers p (long_rook_lines (Occupation p))
                           (long_bishop_lines (Occupation p))
                           0x00000000003E7700 0x0000000000003E00
                           0x0000000000000600) t
              = existsb (fun s => attack_of (Piece p t) false (Occupation p) t s)
                        [4; 3; 2]).
  { intros H1 H2 t Ht Hen. now apply long_attackers_bit. }
  split.
  - intros (H1 & H2 & H3). split; [assumption|]. split; [now apply Hv|].
    now apply (castle_rule p _ [4; 3; 2] Henc (HU H1 H2)).
  - intros (H1 & H2 & H3). apply Hv in H2. repeat split; try assumption.
    now apply (castle_rule p _ [4; 3; 2] Henc (HU H1 H2)).
Qed.

Lemma rank_of_range s r : rank_of s = r <-> 8 * r <= s < 8 * r + 8.
Proof. unfold rank_of. split; intros H; [subst r|]; Z.div_mod_to_equations; lia. Qed.

Section Rules.
Variable p : TBoard.
Hypothesis Hlegal : legal_position p = true.

Lemma legal_encoding : encoding_ok p = true.
Proof.
  unfold legal_position in Hlegal. apply andb_true_iff in Hlegal. tauto.
Qed.

Lemma own_occupied c s :
  1 <= c -> 0 <= s < 64 -> own p c s -> Z.testbit (Occupation p) s = true.
Proof.
  intros Hc Hs [H _]. rewrite testbit_Occupation, H by lia.
  apply negb_true_iff, Z.eqb_neq. unfold EMPTY. lia.
Qed.

Lemma gen_move_rules m : gen_move p m -> pseudo_legal p m.
Proof.
  pose proof legal_encoding as Henc.
  pose proof (is64_Occupation p Henc) as [Hocc _].
  intros H. destruct H.
  - apply pl_piece; try assumption; [now apply king_to_knight_iff|].
    rewrite <- BBDestinations_attack; try assumption.
    + now apply king_to_knight_iff.
    + apply (own_occupied piece); try assumption.
      apply king_to_knight_iff in H. unfold KNIGHT in H. lia.
  - apply pl_piece_takes; try assumption; [now apply king_to_knight_iff|].
    rewrite <- BBDestinations_attack; try assumption.
    + now apply king_to_knight_iff.
    + apply (own_occupied piece); try assumption.
      apply king_to_knight_iff in H. unfold KNIGHT in H. lia.
  - pose proof (pl_push p (dst - 8)) as P.
    replace (dst - 8 + 8) with dst in P by lia. apply P; [lia|assumption..].
  - pose proof (pl_double p (dst - 16)) as P.
    replace (dst - 16 + 8) with (dst - 8) in P by lia.
    replace (dst - 16 + 16) with dst in P by lia.
    apply P; try assumption. apply rank_of_range. lia.
  - destruct (castle_long_rule p Hlegal) as [A _].
    destruct A as (A1 & A2 & A3); [tauto|]. now apply pl_castle_long.
  - destruct (castle_short_rule p Hlegal) as [A _].
    destruct A as (A1 & A2 & A3); [tauto|]. now apply pl_castle_short.
  - assert (Hd : 7 <= delta <= 9).
    { match goal with H : capture_step _ _ |- _ =>
        destruct H as [[-> _]|[-> _]] end; lia. }
    apply pl_pawn_takes; try assumption; try lia.
    apply pawn_step_capture; [lia|lia|]. exists delta. repeat split; [assumption|lia].
  - assert (Hd : 7 <= delta <= 9).
    { match goal with H : capture_step _ _ |- _ =>
        destruct H as [[-> _]|[-> _]] end; lia. }
    apply pl_promotes_taking; try assumption; try lia.
    apply pawn_step_capture; [lia|lia|]. exists delta. repeat split; [assumption|lia].
  - pose proof (pl_promotes p (dst - 8) prom) as P.
    replace (dst - 8 + 8) with dst in P by lia.
    apply P; try assumption. apply rank_of_range. lia.
  - match goal with H : Z.testbit (EnPassantG _) _ = true |- _ =>
      rewrite EnPassantG_beside in H by assumption;
      apply andb_true_iff in H; destruct H as [Hr Hf];
      apply Z.eqb_eq in Hr, Hf end.
    now apply pl_en_passant.
Qed.

Lemma rules_gen_move m : pseudo_legal p m -> gen_move p m.
Proof.
  pose proof legal_encoding as Henc.
  pose proof (is64_Occupation p Henc) as [Hocc _].
  intros H. destruct H.
  - apply gm_quiet; try assumption; [now apply king_to_knight_iff|].
    rewrite BBDestinations_attack; try assumption.
    apply (own_occupied c); try assumption. unfold KNIGHT in *. lia.
  - apply gm_capture; try assumption; [now apply king_to_knight_iff|].
    rewrite BBDestinations_attack; try assumption.
    apply (own_occupied c); try assumption. unfold KNIGHT in *. lia.
  - pose proof (gm_push1 p (from + 8)) as P.
    replace (from + 8 - 8) with from in P by lia. apply P; [lia|assumption..].
  - match goal with H : rank_of _ = 1 |- _ => apply rank_of_range in H end.
    pose proof (gm_push2 p (from + 16)) as P.
    replace (from + 16 - 16) with from in P by lia.
    replace (from + 16 - 8) with (from + 8) in P by lia.
    apply P; try assumption. lia.
  - match goal with H : pawn_step _ _ _ = true |- _ =>
      apply pawn_step_capture in H; [|lia|lia];
      destruct H as (delta & Hc & Hd & ->) end.
    apply gm_pawn_capture; try assumption. lia.
  - match goal with H : rank_of _ = 6 |- _ => apply rank_of_range in H end.
    pose proof (gm_promo_push p (from + 8) prom) as P.
    replace (from + 8 - 8) with from in P by lia.
    apply P; try assumption. lia.
  - match goal with H : pawn_step _ _ _ = true |- _ =>
      apply pawn_step_capture in H; [|lia|lia];
      destruct H as (delta & Hc & Hd & ->) end.
    now apply gm_promo_capture.
  - match goal with H : rank_of _ = 4 |- _ =>
      pose proof H as Hr; apply rank_of_range in Hr end.
    apply gm_ep; try assumption; [lia|].
    rewrite EnPassantG_beside by lia.
    apply andb_true_iff. split; now apply Z.eqb_eq.
  - destruct (castle_short_rule p Hlegal) as [_ B].
    destruct B as (B1 & B2 & B3); [tauto|]. now apply gm_short.
  - destruct (castle_long_rule p Hlegal) as [_ B].
    destruct B as (B1 & B2 & B3); [tauto|]. now apply gm_long.
Qed.

End Rules.

(** X18: From a legal position the two generators together emit exactly the
    moves of the rules, the safety of the mover's king left aside; and
    the moves [Perft] counts or plays, those that pass [Illegal], are
    exactly the moves of the rules after which the mover's king is not
    attacked. *)
Theorem generators_emit_the_moves_of_the_rules (p : TBoard) (m : TMove) :
  legal_position p = true ->
  (In m (GenerateCapture p ++ GenerateQuiets p) <-> pseudo_legal p m)
  /\ (In m (legal_moves p)
      <-> pseudo_legal p m /\ in_check (spec_after p m) true = false).
Proof.
  intros Hl. pose proof (legal_encoding p Hl) as Henc.
  assert (A : In m (GenerateCapture p ++ GenerateQuiets p) <-> pseudo_legal p m).
  { split.
    - intros H. apply gen_move_rules; [assumption|]. now apply generated_gen.
    - intros H. apply gen_move_emitted; [assumption|]. now apply rules_gen_move. }
  split; [exact A|].
  unfold legal_moves. rewrite List.filter_In, A. unfold legal.
  split; intros [H1 H2]; (split; [assumption|]).
  - destruct (in_check (spec_after p m) true) eqn:E; [|reflexivity].
    apply Illegal_in_check in E.
    + apply Z.eqb_eq in H2. contradiction.
    + assumption.
    + apply gen_move_shape; [assumption|]. now apply rules_gen_move.
  - apply Z.eqb_eq.
    destruct (Z.eq_dec (Illegal p m) 0) as [|Hn]; [assumption|].
    apply Illegal_in_check in Hn.
    + congruence.
    + assumption.
    + apply gen_move_shape; [assumption|]. now apply rules_gen_move.
Qed.

Lemma generators_emit_the_moves_of_the_rules_witness :
  let p := LoadBoard fen_kiwipete in
  (In castle_long (GenerateCapture p ++ GenerateQuiets p)
   <-> pseudo_legal p castle_long)
  /\ (In castle_long (legal_moves p)
      <-> pseudo_legal p castle_long
          /\ in_check (spec_after p castle_long) true = false).
Proof.
  apply generators_emit_the_moves_of_the_rules. vm_compute. reflexivity.
Defined.

(** ** No move is emitted twice *)

Ltac kinds :=
  cbn [MoveType From To Prom] in *;
  unfold PAWN, KNIGHT, BISHOP, ROOK, QUEEN, KING, CAPTURE, PROMO, EP, CASTLE in *;
  repeat match goal with
         | |- context [Z.lor (Zpos ?a) (Zpos ?b)] =>
             let v := eval vm_compute in (Z.lor (Zpos a) (Zpos b)) in
             change (Z.lor (Zpos a) (Zpos b)) with v
         | H : context [Z.lor (Zpos ?a) (Zpos ?b)] |- _ =>
             let v := eval vm_compute in (Z.lor (Zpos a) (Zpos b)) in
             change (Z.lor (Zpos a) (Zpos b)) with v in H
         end.

Lemma sorted_NoDup l : StronglySorted Z.lt l -> List.NoDup l.
Proof.
  induction 1 as [|x l Hs IH Hx]; constructor; [|assumption].
  intros Hin. rewrite List.Forall_forall in Hx. specialize (Hx x Hin). lia.
Qed.

Lemma for_bits_NoDup bb : is64 bb -> List.NoDup (for_bits bb).
Proof. intros Hb. now apply sorted_NoDup, scan_bits_sorted. Qed.

Lemma NoDup_map_by {A B} (f : A -> B) (g : B -> A) l :
  (forall x, g (f x) = x) -> List.NoDup l -> List.NoDup (map f l).
Proof.
  intros Hg Hl. apply NoDup_map_NoDup_ForallPairs; [|assumption].
  intros x y _ _ E. apply (f_equal g) in E. now rewrite !Hg in E.
Qed.

Lemma NoDup_flat_map_by {A B} (f : A -> list B) (g : B -> A) l :
  (forall x b, In b (f x) -> g b = x) ->
  (forall x, In x l -> List.NoDup (f x)) ->
  List.NoDup l -> List.NoDup (flat_map f l).
Proof.
  intros Hg Hf Hl. induction Hl as [|x l Hx Hl IH]; [constructor|].
  cbn [flat_map]. apply List.NoDup_app.
  - apply Hf. now left.
  - apply IH. intros y Hy. apply Hf. now right.
  - intros b Hb Hb'. apply List.in_flat_map in Hb'.
    destruct Hb' as (y & Hy & Hb'). apply Hg in Hb, Hb'. congruence.
Qed.

Lemma NoDup_app_by {A} (P : A -> Prop) (l1 l2 : list A) :
  (forall x, In x l1 -> P x) -> (forall x, In x l2 -> ~ P x) ->
  List.NoDup l1 -> List.NoDup l2 -> List.NoDup (l1 ++ l2).
Proof.
  intros H1 H2 N1 N2. apply List.NoDup_app; try assumption.
  intros a Ha Ha'. exact (H2 a Ha' (H1 a Ha)).
Qed.

Lemma wrap8_shift a b d : d mod 256 <> 0 -> wrap8 a = wrap8 b -> a <> b + d.
Proof.
  unfold wrap8. change 0xFF with (Z.ones 8). rewrite !Z.land_ones by lia.
  change (2 ^ 8) with 256. intros Hd E ->.
  rewrite Z.add_mod in E by lia. rewrite <- (Z.mod_mod b 256) in E at 2 by lia.
  pose proof (Z.mod_pos_bound b 256 ltac:(lia)).
  pose proof (Z.mod_pos_bound d 256 ltac:(lia)).
  destruct (Z.lt_ge_cases (b mod 256 + d mod 256) 256).
  - rewrite Z.mod_small in E by lia. rewrite Z.mod_mod in E by lia. lia.
  - replace (b mod 256 + d mod 256) with ((b mod 256 + d mod 256 - 256) + 1 * 256)
      in E by lia.
    rewrite Z.mod_add, Z.mod_small, Z.mod_mod in E by lia. lia.
Qed.

Lemma wrap8_differ t d1 d2 :
  (d2 - d1) mod 256 <> 0 -> wrap8 (t - d1) <> wrap8 (t - d2).
Proof.
  intros Hd E. apply (wrap8_shift (t - d1) (t - d2) (d2 - d1)); [assumption..|lia].
Qed.

Lemma promotions_NoDup mt delta dst : List.NoDup (promotions mt delta dst).
Proof.
  unfold promotions, rook_to_knight. cbn [map].
  repeat constructor; cbn [In]; intros H;
    repeat (destruct H as [H|H]; [discriminate H|]); exact H.
Qed.

Lemma promotions_fields mt delta dst m :
  In m (promotions mt delta dst) ->
  MoveType m = mt /\ To m = dst /\ From m = wrap8 (dst - delta).
Proof.
  intros H. apply in_promotions in H. destruct H as (prom & Hp & E).
  subst m. now split.
Qed.

Section Once.
Variable p : TBoard.
Hypothesis Hf : valid_fields p.

Let HPM : is64 (PM p) := proj1 Hf.

Lemma valid_is64_Occupation : is64 (Occupation p).
Proof.
  pose proof Hf as (_ & H0 & H1 & H2 & _). unfold Occupation. solve_is64.
Qed.

Lemma piece_loop_NoDup (mk : Z -> Z) (dests : Z -> Z -> Z) :
  (forall c s, is64 (dests c s)) ->
  (forall c c', In c king_to_knight -> In c' king_to_knight -> mk c = mk c' -> c = c') ->
  List.NoDup
    (flat_map (fun piece =>
       flat_map (fun sq =>
         map (fun dst => mkMove (mk piece) sq dst EMPTY)
             (for_bits (dests piece sq)))
         (for_bits (Z.land (BBPieces p piece) (PM p))))
       king_to_knight).
Proof.
  intros Hd Hmk.
  assert (Hk : List.NoDup king_to_knight).
  { unfold king_to_knight. repeat constructor; cbn [In]; intros H;
      repeat (destruct H as [H|H]; [discriminate H|]); exact H. }
  induction Hk as [|c l Hc Hl IH]; [constructor|].
  cbn [flat_map]. apply List.NoDup_app.
  - apply (NoDup_flat_map_by _ From).
    + intros sq b Hb. apply List.in_map_iff in Hb. now destruct Hb as (dst & <- & _).
    + intros sq _. apply (NoDup_map_by _ To); [reflexivity|].
      apply for_bits_NoDup, Hd.
    + apply for_bits_NoDup. now apply is64_land_r.
  - apply IH. intros a b Ha Hb. apply Hmk; now right.
  - intros m Hm Hm'.
    apply List.in_flat_map in Hm. destruct Hm as (sq & _ & Hm).
    apply List.in_map_iff in Hm. destruct Hm as (dst & <- & _).
    apply List.in_flat_map in Hm'. destruct Hm' as (c' & Hc' & Hm').
    apply List.in_flat_map in Hm'. destruct Hm' as (sq' & _ & Hm').
    apply List.in_map_iff in Hm'. destruct Hm' as (dst' & E & _).
    injection E as E _ _.
    apply Hmk in E; [|now right|now left]. subst c'. contradiction.
Qed.

Lemma piece_loop_kind (mk : Z -> Z) (dests : Z -> Z -> Z) m :
  In m (flat_map (fun piece =>
          flat_map (fun sq =>
            map (fun dst => mkMove (mk piece) sq dst EMPTY)
                (for_bits (dests piece sq)))
            (for_bits (Z.land (BBPieces p piece) (PM p))))
          king_to_knight) ->
  exists c, KNIGHT <= c <= KING /\ MoveType m = mk c.
Proof.
  intros Hm.
  apply List.in_flat_map in Hm. destruct Hm as (c & Hc & Hm).
  apply List.in_flat_map in Hm. destruct Hm as (sq & _ & Hm).
  apply List.in_map_iff in Hm. destruct Hm as (dst & <- & _).
  exists c. split; [now apply king_to_knight_iff|reflexivity].
Qed.

Lemma pawn_loop_NoDup mt delta bb :
  is64 bb ->
  List.NoDup (map (fun dst => mkMove mt (wrap8 (dst - delta)) dst EMPTY)
                  (for_bits bb)).
Proof.
  intros Hb. apply (NoDup_map_by _ To); [reflexivity|]. now apply for_bits_NoDup.
Qed.

Lemma pawn_loop_fields mt delta bb m :
  In m (map (fun dst => mkMove mt (wrap8 (dst - delta)) dst EMPTY) (for_bits bb)) ->
  MoveType m = mt /\ From m = wrap8 (To m - delta).
Proof.
  intros H. apply List.in_map_iff in H. destruct H as (dst & <- & _). now split.
Qed.

Lemma promo_loop_NoDup mt delta bb :
  is64 bb -> List.NoDup (flat_map (promotions mt delta) (for_bits bb)).
Proof.
  intros Hb. apply (NoDup_flat_map_by _ To).
  - intros dst m Hm. now apply promotions_fields in Hm.
  - intros dst _. apply promotions_NoDup.
  - now apply for_bits_NoDup.
Qed.

Lemma promo_loop_fields mt delta bb m :
  In m (flat_map (promotions mt delta) (for_bits bb)) ->
  MoveType m = mt /\ From m = wrap8 (To m - delta).
Proof.
  intros H. apply List.in_flat_map in H. destruct H as (dst & _ & H).
  apply promotions_fields in H. destruct H as (-> & -> & ->). now split.
Qed.

Lemma GenerateQuiets_kinds m :
  In m (GenerateQuiets p) ->
  (KNIGHT <= MoveType m <= KING) \/ MoveType m = PAWN
  \/ MoveType m = Z.lor KING CASTLE.
Proof.
  unfold GenerateQuiets. cbv zeta. rewrite !in_app_iff.
  intros [H|[H|[H|[H|H]]]].
  - apply piece_loop_kind in H. destruct H as (c & Hc & ->). now left.
  - apply pawn_loop_fields in H. tauto.
  - apply pawn_loop_fields in H. tauto.
  - destruct (_ && _); [|contradiction]. destruct H as [<-|[]]. tauto.
  - destruct (_ && _); [|contradiction]. destruct H as [<-|[]]. tauto.
Qed.

Lemma lor_capture c : KNIGHT <= c <= KING -> Z.lor c CAPTURE = c + 8.
Proof.
  intros Hc.
  assert (E : c = KNIGHT \/ c = BISHOP \/ c = ROOK \/ c = QUEEN \/ c = KING)
    by (unfold KNIGHT, BISHOP, ROOK, QUEEN, KING in *; lia).
  destruct E as [->|[->|[->|[->| ->]]]]; reflexivity.
Qed.

Lemma GenerateCapture_kinds m :
  In m (GenerateCapture p) ->
  10 <= MoveType m <= 14 \/ MoveType m = 9 \/ MoveType m = 41
  \/ MoveType m = 33 \/ MoveType m = 25.
Proof.
  unfold GenerateCapture. cbv zeta. rewrite !in_app_iff.
  intros [H|[H|[H|[H|H]]]].
  - apply piece_loop_kind in H. destruct H as (c & Hc & ->).
    rewrite lor_capture by assumption. unfold KNIGHT, KING in Hc. lia.
  - apply pawn_loop_fields in H. destruct H as [-> _]. tauto.
  - apply pawn_loop_fields in H. destruct H as [-> _]. tauto.
  - destruct (_ =? 0); [contradiction|]. rewrite !in_app_iff in H.
    destruct H as [H|[H|H]]; apply promo_loop_fields in H; destruct H as [-> _];
      tauto.
  - destruct (_ =? 8); [contradiction|].
    apply List.in_map_iff in H. destruct H as (sq & <- & _). tauto.
Qed.

Lemma GenerateQuiets_NoDup : List.NoDup (GenerateQuiets p).
Proof.
  pose proof valid_is64_Occupation as Hocc.
  unfold GenerateQuiets. cbv zeta.
  apply (NoDup_app_by (fun m => KNIGHT <= MoveType m <= KING)).
  { intros m H. apply piece_loop_kind in H. now destruct H as (c & Hc & ->). }
  { intros m H. rewrite !in_app_iff in H. destruct H as [H|[H|[H|H]]].
    - apply pawn_loop_fields in H. destruct H as [-> _]. unfold KNIGHT, PAWN. lia.
    - apply pawn_loop_fields in H. destruct H as [-> _]. unfold KNIGHT, PAWN. lia.
    - destruct (_ && _); [|contradiction]. destruct H as [<-|[]].
      cbn [MoveType]. unfold KNIGHT, KING, CASTLE.
      change (Z.lor 6 64) with 70. lia.
    - destruct (_ && _); [|contradiction]. destruct H as [<-|[]].
      cbn [MoveType]. unfold KNIGHT, KING, CASTLE.
      change (Z.lor 6 64) with 70. lia. }
  { apply piece_loop_NoDup; [|intros; assumption].
    intros c s. now apply is64_land_l, is64_not64. }
  apply (NoDup_app_by (fun m => MoveType m = PAWN /\ From m = wrap8 (To m - 8))).
  { intros m H. now apply pawn_loop_fields in H. }
  { intros m H [H1 H2]. rewrite !in_app_iff in H. destruct H as [H|[H|H]].
    - apply pawn_loop_fields in H. destruct H as [_ H]. rewrite H in H2.
      revert H2. apply wrap8_differ. discriminate.
    - destruct (_ && _); [|contradiction]. destruct H as [<-|[]]. discriminate H1.
    - destruct (_ && _); [|contradiction]. destruct H as [<-|[]]. discriminate H1. }
  { apply pawn_loop_NoDup. solve_is64. }
  apply (NoDup_app_by (fun m => MoveType m = PAWN)).
  { intros m H. now apply pawn_loop_fields in H. }
  { intros m H H1. rewrite !in_app_iff in H. destruct H as [H|H].
    - destruct (_ && _); [|contradiction]. destruct H as [<-|[]]. discriminate H1.
    - destruct (_ && _); [|contradiction]. destruct H as [<-|[]]. discriminate H1. }
  { apply pawn_loop_NoDup. solve_is64. }
  apply (NoDup_app_by (fun m => To m = 2)).
  { intros m H. destruct (_ && _); [|contradiction]. now destruct H as [<-|[]]. }
  { intros m H H1. destruct (_ && _); [|contradiction]. destruct H as [<-|[]].
    discriminate H1. }
  { destruct (_ && _); repeat constructor. intros []. }
  { destruct (_ && _); repeat constructor. intros []. }
Qed.

Lemma GenerateCapture_NoDup : List.NoDup (GenerateCapture p).
Proof.
  pose proof valid_is64_Occupation as Hocc.
  unfold GenerateCapture. cbv zeta.
  apply (NoDup_app_by (fun m => 10 <= MoveType m <= 14)).
  { intros m H. apply piece_loop_kind in H. destruct H as (c & Hc & ->).
    rewrite lor_capture by assumption. unfold KNIGHT, KING in Hc. lia. }
  { intros m H. rewrite !in_app_iff in H. destruct H as [H|[H|[H|H]]].
    - apply pawn_loop_fields in H. destruct H as [-> _]. kinds. lia.
    - apply pawn_loop_fields in H. destruct H as [-> _]. kinds. lia.
    - destruct (_ =? 0); [contradiction|]. rewrite !in_app_iff in H.
      destruct H as [H|[H|H]]; apply promo_loop_fields in H;
        destruct H as [-> _]; kinds; lia.
    - destruct (_ =? 8); [contradiction|].
      apply List.in_map_iff in H. destruct H as (sq & <- & _). kinds. lia. }
  { apply piece_loop_NoDup.
    - intros c s. apply is64_land_l. solve_is64.
    - intros c c' Hc Hc' E. apply king_to_knight_iff in Hc, Hc'.
      rewrite !lor_capture in E by assumption. lia. }
  apply (NoDup_app_by (fun m => MoveType m = 9 /\ From m = wrap8 (To m - 9))).
  { intros m H. now apply pawn_loop_fields in H. }
  { intros m H [H1 H2]. rewrite !in_app_iff in H. destruct H as [H|[H|H]].
    - apply pawn_loop_fields in H. destruct H as [_ H]. rewrite H in H2.
      revert H2. apply wrap8_differ. discriminate.
    - destruct (_ =? 0); [contradiction|]. rewrite !in_app_iff in H.
      destruct H as [H|[H|H]]; apply promo_loop_fields in H;
        destruct H as [H _]; rewrite H in H1; discriminate H1.
    - destruct (_ =? 8); [contradiction|].
      apply List.in_map_iff in H. destruct H as (sq & <- & _). discriminate H1. }
  { apply pawn_loop_NoDup. solve_is64. }
  apply (NoDup_app_by (fun m => MoveType m = 9)).
  { intros m H. now apply pawn_loop_fields in H. }
  { intros m H H1. rewrite !in_app_iff in H. destruct H as [H|H].
    - destruct (_ =? 0); [contradiction|]. rewrite !in_app_iff in H.
      destruct H as [H|[H|H]]; apply promo_loop_fields in H;
        destruct H as [H _]; rewrite H in H1; discriminate H1.
    - destruct (_ =? 8); [contradiction|].
      apply List.in_map_iff in H. destruct H as (sq & <- & _). discriminate H1. }
  { apply pawn_loop_NoDup. solve_is64. }
  apply (NoDup_app_by (fun m => MoveType m = 41 \/ MoveType m = 33)).
  { intros m H. destruct (_ =? 0); [contradiction|]. rewrite !in_app_iff in H.
    destruct H as [H|[H|H]]; apply promo_loop_fields in H; destruct H as [-> _];
      cbn; tauto. }
  { intros m H H1. destruct (_ =? 8); [contradiction|].
    apply List.in_map_iff in H. destruct H as (sq & <- & _).
    destruct H1 as [H1|H1]; discriminate H1. }
  { destruct (_ =? 0); [constructor|].
    apply (NoDup_app_by (fun m => MoveType m = 41 /\ From m = wrap8 (To m - 9))).
    { intros m H. now apply promo_loop_fields in H. }
    { intros m H [H1 H2]. rewrite !in_app_iff in H. destruct H as [H|H].
      - apply promo_loop_fields in H. destruct H as [_ H]. rewrite H in H2.
        revert H2. apply wrap8_differ. discriminate.
      - apply promo_loop_fields in H. destruct H as [H _]. rewrite H in H1.
        discriminate H1. }
    { apply promo_loop_NoDup. solve_is64. }
    apply (NoDup_app_by (fun m => MoveType m = 41)).
    { intros m H. now apply promo_loop_fields in H. }
    { intros m H H1. apply promo_loop_fields in H. destruct H as [H _].
      rewrite H in H1. discriminate H1. }
    { apply promo_loop_NoDup. solve_is64. }
    { apply promo_loop_NoDup. solve_is64. } }
  { destruct (_ =? 8); [constructor|].
    apply (NoDup_map_by _ From); [reflexivity|].
    apply for_bits_NoDup. apply is64_land_l. solve_is64. }
Qed.

End Once.

(** X19: No move is generated twice: the two buffers together hold every
    move once, whatever the position. *)
Theorem generated_moves_are_distinct (p : TBoard) :
  valid_fields p ->
  List.NoDup (GenerateCapture p ++ GenerateQuiets p)
  /\ List.NoDup (legal_moves p).
Proof.
  intros Hf.
  assert (N : List.NoDup (GenerateCapture p ++ GenerateQuiets p)).
  { apply (NoDup_app_by (fun m => 9 <= MoveType m <= 41)).
    - intros m H. apply GenerateCapture_kinds in H. lia.
    - intros m H. apply GenerateQuiets_kinds in H.
      kinds. lia.
    - now apply GenerateCapture_NoDup.
    - now apply GenerateQuiets_NoDup. }
  split; [exact N|]. unfold legal_moves. now apply List.NoDup_filter.
Qed.

Lemma generated_moves_are_distinct_witness :
  List.NoDup (GenerateCapture (LoadBoard fen_promotions)
              ++ GenerateQuiets (LoadBoard fen_promotions))
  /\ List.NoDup (legal_moves (LoadBoard fen_promotions)).
Proof.
  apply generated_moves_are_distinct.
  apply encoding_valid_fields. vm_compute. reflexivity.
Defined.

(** ** LoadPosition *)

Lemma code_ascii x : 0 <= x < 256 -> code (ascii_of_N (Z.to_N x)) = x.
Proof.
  intros Hx. unfold code. rewrite N_ascii_embedding by lia. lia.
Qed.

Ltac codes :=
  repeat match goal with
         | |- context [code (Ascii ?a ?b ?c ?d ?e ?f ?g ?h)] =>
             let v := eval vm_compute in (code (Ascii a b c d e f g h)) in
             change (code (Ascii a b c d e f g h)) with v
         | H : context [code (Ascii ?a ?b ?c ?d ?e ?f ?g ?h)] |- _ =>
             let v := eval vm_compute in (code (Ascii a b c d e f g h)) in
             change (code (Ascii a b c d e f g h)) with v in H
         end.

Lemma load_board_digit c rest piece side sq p :
  49 <= code c <= 56 ->
  load_board (c :: rest) piece side sq p
  = load_board rest piece side (sq + (code c - 48)) p.
Proof.
  intros Hc. cbn [load_board]. codes.
  destruct (Z.eqb_spec (code c) 32); [lia|].
  destruct (Z.leb_spec 49 (code c)); [|lia].
  destruct (Z.leb_spec (code c) 56); [|lia]. reflexivity.
Qed.

Lemma load_board_slash rest piece side sq p :
  load_board ("/"%char :: rest) piece side sq p = load_board rest piece side sq p.
Proof. reflexivity. Qed.

Lemma load_board_space rest piece side sq p :
  load_board (" "%char :: rest) piece side sq p = (p, " "%char :: rest).
Proof. reflexivity. Qed.

Lemma load_board_letter c white rest piece side sq p :
  PAWN <= c <= KING ->
  exists piece',
    load_board (piece_letter c white :: rest) piece side sq p
    = load_board rest piece' (if white then WHITE else BLACK) (sq + 1)
        (place c white (OppSq sq) p).
Proof.
  intros Hc.
  assert (E : c = 1 \/ c = 2 \/ c = 3 \/ c = 4 \/ c = 5 \/ c = 6)
    by (unfold PAWN, KING in Hc; lia).
  destruct E as [->|[->|[->|[->|[->| ->]]]]], white; eexists; reflexivity.
Qed.

Lemma shl64_0 n : shl64 0 n = 0.
Proof. unfold shl64. now rewrite Z.shiftl_0_l. Qed.

Lemma testbit_shl64_bit b pos s :
  0 <= pos < 64 -> 0 <= s < 64 -> b = 0 \/ b = 1 ->
  Z.testbit (shl64 b pos) s = (s =? pos) && (b =? 1).
Proof.
  intros Hp Hs [->| ->].
  - rewrite shl64_0, Z.testbit_0_l. now rewrite andb_false_r.
  - rewrite testbit_one_at by lia. now rewrite andb_true_r.
Qed.

Lemma code_planes c :
  PAWN <= c <= KING ->
  (Z.land c 1 = 0 \/ Z.land c 1 = 1)
  /\ (Z.land (Z.shiftr c 1) 1 = 0 \/ Z.land (Z.shiftr c 1) 1 = 1)
  /\ (Z.shiftr c 2 = 0 \/ Z.shiftr c 2 = 1)
  /\ Z.testbit c 0 = (Z.land c 1 =? 1)
  /\ Z.testbit c 1 = (Z.land (Z.shiftr c 1) 1 =? 1)
  /\ Z.testbit c 2 = (Z.shiftr c 2 =? 1)
  /\ Z.land c 7 = c.
Proof.
  intros Hc.
  assert (E : c = 1 \/ c = 2 \/ c = 3 \/ c = 4 \/ c = 5 \/ c = 6)
    by (unfold PAWN, KING in Hc; lia).
  destruct E as [->|[->|[->|[->|[->| ->]]]]]; vm_compute; auto 10.
Qed.

Lemma place_view c white pos p :
  PAWN <= c <= KING -> 0 <= pos < 64 -> planes64 p ->
  board_of p pos = (EMPTY, false) ->
  planes64 (place c white pos p)
  /\ CastleFlags (place c white pos p) = CastleFlags p
  /\ EnPassant (place c white pos p) = EnPassant p
  /\ STM (place c white pos p) = STM p
  /\ forall s, 0 <= s < 64 ->
       board_of (place c white pos p) s
       = if s =? pos then (c, white) else board_of p s.
Proof.
  intros Hc Hpos (HM & H0 & H1 & H2) He.
  injection He as Hv Hm.
  destruct (vacant_planes p pos ltac:(lia) Hv) as (V2 & V1 & V0).
  destruct (code_planes c Hc) as (B0 & B1 & B2 & T0 & T1 & T2 & E7).
  unfold place. cbv zeta.
  set (b0 := Z.land c 1) in *. set (b1 := Z.land (Z.shiftr c 1) 1) in *.
  set (b2 := Z.shiftr c 2) in *.
  destruct white;
    cbn [P0 P1 P2 PM CastleFlags EnPassant STM set_P0 set_P1 set_P2 set_PM];
    (split; [unfold planes64;
             cbn [P0 P1 P2 PM set_P0 set_P1 set_P2 set_PM];
             (split; [|split; [|split]]); solve_is64|]);
    (split; [reflexivity|]); (split; [reflexivity|]); (split; [reflexivity|]);
    intros s Hs; destruct (Z.eqb_spec s pos) as [->|Hne].
  - rewrite <- E7. apply board_of_planes; [lia|..];
      cbn [P0 P1 P2 PM set_P0 set_P1 set_P2 set_PM];
      rewrite Z.lor_spec, ?testbit_shl64_bit, ?testbit_one_at, ?Z.eqb_refl,
        ?V0, ?V1, ?V2, ?T0, ?T1, ?T2 by (assumption || lia);
      try reflexivity. apply orb_true_r.
  - apply board_of_same; [lia|..];
      cbn [P0 P1 P2 PM set_P0 set_P1 set_P2 set_PM];
      rewrite Z.lor_spec, ?testbit_shl64_bit, ?testbit_one_at by (assumption || lia);
      destruct (Z.eqb_spec s pos); try contradiction;
      cbn [andb]; now rewrite orb_false_r.
  - rewrite <- E7. apply board_of_planes; [lia|..];
      cbn [P0 P1 P2 PM set_P0 set_P1 set_P2 set_PM];
      rewrite ?Z.lor_spec, ?testbit_shl64_bit, ?Z.eqb_refl,
        ?V0, ?V1, ?V2, ?T0, ?T1, ?T2 by (assumption || lia);
      try reflexivity. exact Hm.
  - apply board_of_same; [lia|..];
      cbn [P0 P1 P2 PM set_P0 set_P1 set_P2 set_PM];
      try reflexivity;
      rewrite Z.lor_spec, ?testbit_shl64_bit by (assumption || lia);
      destruct (Z.eqb_spec s pos); try contradiction;
      cbn [andb]; now rewrite orb_false_r.
Qed.

Lemma nth_repeat_app {A} (x d : A) n l k :
  nth k (repeat x n ++ l) d = if (k <? n)%nat then x else nth (k - n) l d.
Proof.
  destruct (Nat.ltb_spec k n) as [H|H].
  - rewrite app_nth1 by now rewrite repeat_length. apply nth_repeat_lt. lia.
  - rewrite app_nth2 by now rewrite repeat_length. now rewrite repeat_length.
Qed.

Lemma load_board_items items : forall piece side sq p rest,
  forallb item_ok items = true ->
  0 <= sq -> sq + Z.of_nat (length (flat_map item_squares items)) <= 64 ->
  planes64 p ->
  (forall k, sq <= k < 64 -> board_of p (OppSq k) = (EMPTY, false)) ->
  exists p',
    load_board (map item_char items ++ " "%char :: rest) piece side sq p
    = (p', " "%char :: rest)
    /\ planes64 p'
    /\ CastleFlags p' = CastleFlags p /\ EnPassant p' = EnPassant p
    /\ STM p' = STM p
    /\ (forall k, 0 <= k < sq -> board_of p' (OppSq k) = board_of p (OppSq k))
    /\ (forall k, sq <= k < 64 ->
          board_of p' (OppSq k)
          = nth (Z.to_nat (k - sq)) (flat_map item_squares items) (EMPTY, false)).
Proof.
  induction items as [|i items IH]; intros piece side sq p rest Hok Hsq Hlen Hp He.
  - exists p. cbn [map app]. rewrite load_board_space.
    repeat split; try apply Hp. intros k Hk. rewrite He by assumption.
    now destruct (Z.to_nat (k - sq)).
  - cbn [forallb] in Hok. apply andb_true_iff in Hok. destruct Hok as [Hi Hok].
    cbn [flat_map] in Hlen. rewrite length_app in Hlen.
    cbn [map app flat_map]. destruct i as [n|c white|].
    + (* a digit *)
      cbn [item_ok] in Hi. apply andb_true_iff in Hi. destruct Hi as [Hn1 Hn2].
      apply Z.leb_le in Hn1, Hn2.
      cbn [item_squares] in *. rewrite repeat_length in Hlen.
      assert (Ec : code (item_char (Skip n)) = 48 + n).
      { cbn [item_char]. codes. apply code_ascii. lia. }
      rewrite load_board_digit by lia. rewrite Ec.
      replace (sq + (48 + n - 48)) with (sq + n) by lia.
      destruct (IH piece side (sq + n) p rest Hok ltac:(lia) ltac:(lia) Hp)
        as (p' & E & Hp' & F1 & F2 & F3 & Hlow & Hhigh).
      { intros k Hk. apply He. lia. }
      exists p'. rewrite E. repeat split; try assumption; try apply Hp'.
      * intros k Hk. apply Hlow. lia.
      * intros k Hk. rewrite nth_repeat_app.
        destruct (Nat.ltb_spec (Z.to_nat (k - sq)) (Z.to_nat n)) as [Hl|Hl].
        -- rewrite Hlow by lia. apply He. lia.
        -- rewrite Hhigh by lia. f_equal. lia.
    + (* a piece letter *)
      cbn [item_ok] in Hi. apply andb_true_iff in Hi. destruct Hi as [Hc1 Hc2].
      apply Z.leb_le in Hc1, Hc2.
      cbn [item_char item_squares length] in *.
      destruct (load_board_letter c white (map item_char items ++ " "%char :: rest)
                  piece side sq p ltac:(lia)) as (piece' & ->).
      assert (Hpos : 0 <= OppSq sq < 64) by (apply OppSq_range; lia).
      destruct (place_view c white (OppSq sq) p ltac:(lia) Hpos Hp
                  (He sq ltac:(lia))) as (Hq & G1 & G2 & G3 & Hview).
      destruct (IH piece' (if white then WHITE else BLACK) (sq + 1)
                  (place c white (OppSq sq) p) rest Hok ltac:(lia) ltac:(lia) Hq)
        as (p' & E & Hp' & F1 & F2 & F3 & Hlow & Hhigh).
      { intros k Hk. rewrite Hview by (apply OppSq_range; lia).
        rewrite OppSq_eqb. destruct (Z.eqb_spec k sq); [lia|]. apply He. lia. }
      exists p'. rewrite E.
      repeat split; try apply Hp'; try congruence.
      * intros k Hk. rewrite Hlow by lia.
        rewrite Hview by (apply OppSq_range; lia).
        rewrite OppSq_eqb. destruct (Z.eqb_spec k sq); [lia|reflexivity].
      * intros k Hk. destruct (Z.eq_dec k sq) as [->|Hne].
        -- rewrite Hlow by lia. rewrite Hview, Z.eqb_refl by assumption.
           now rewrite Z.sub_diag.
        -- rewrite Hhigh by lia.
           replace (Z.to_nat (k - sq)) with (S (Z.to_nat (k - (sq + 1)))) by lia.
           reflexivity.
    + (* the stroke between two ranks *)
      cbn [item_char item_squares length] in *. rewrite load_board_slash.
      destruct (IH piece side sq p rest Hok Hsq ltac:(lia) Hp He)
        as (p' & E & Hp' & F1 & F2 & F3 & Hlow & Hhigh).
      exists p'. rewrite E. repeat split; try assumption; apply Hp'.
Qed.

Lemma lor_range c mask : 0 <= c < 256 -> 0 <= mask < 256 -> 0 <= Z.lor c mask < 256.
Proof.
  intros Hc Hm. apply wrap8_range. apply wrap8_range in Hc, Hm. unfold wrap8 in *.
  now rewrite Z.land_lor_distr_l, Hc, Hm.
Qed.

Lemma load_castle_rights rights : forall p rest,
  (forall c, In c rights -> In c castle_letters) ->
  0 <= CastleFlags p < 256 ->
  exists p',
    load_castle (rights ++ " "%char :: rest) p = (p', " "%char :: rest)
    /\ PM p' = PM p /\ P0 p' = P0 p /\ P1 p' = P1 p /\ P2 p' = P2 p
    /\ EnPassant p' = EnPassant p /\ STM p' = STM p
    /\ 0 <= CastleFlags p' < 256
    /\ (Z.testbit (CastleFlags p') 1 = true
        <-> Z.testbit (CastleFlags p) 1 = true \/ In "K"%char rights)
    /\ (Z.testbit (CastleFlags p') 0 = true
        <-> Z.testbit (CastleFlags p) 0 = true \/ In "Q"%char rights)
    /\ (Z.testbit (CastleFlags p') 5 = true
        <-> Z.testbit (CastleFlags p) 5 = true \/ In "k"%char rights)
    /\ (Z.testbit (CastleFlags p') 4 = true
        <-> Z.testbit (CastleFlags p) 4 = true \/ In "q"%char rights).
Proof.
  induction rights as [|r rights IH]; intros p rest Hr Hcf.
  - exists p. cbn [app In]. split; [reflexivity|]. repeat split; tauto || lia.
  - assert (Hin : In r castle_letters) by (apply Hr; now left).
    assert (Hr' : forall c, In c rights -> In c castle_letters)
      by (intros c Hc; apply Hr; now right).
    unfold castle_letters in Hin. cbn [In] in Hin.
    destruct Hin as [<-|[<-|[<-|[<-|[]]]]];
      match goal with
      | |- context [load_castle ((?c :: rights) ++ _ :: rest) p] =>
          match eval cbv in (code c) with
          | 75 => set (mask := 0x02)
          | 81 => set (mask := 0x01)
          | 107 => set (mask := 0x20)
          | 113 => set (mask := 0x10)
          end
      end;
      (destruct (IH (set_CastleFlags (Z.lor (CastleFlags p) mask) p) rest Hr')
         as (p' & E & HM & H0 & H1 & H2 & He & Hs & Hc' & B1 & B0 & B5 & B4);
       [cbn [CastleFlags set_CastleFlags]; apply lor_range; [assumption|subst mask; lia]|]);
      exists p'; (split; [exact E|]);
      cbn [PM P0 P1 P2 EnPassant STM CastleFlags set_CastleFlags] in *;
      rewrite Z.lor_spec in B1, B0, B5, B4; subst mask;
      revert B1 B0 B5 B4; bit_consts; rewrite ?orb_false_r, ?orb_true_r;
      intros B1 B0 B5 B4;
      (split; [congruence|]); (split; [congruence|]); (split; [congruence|]);
      (split; [congruence|]); (split; [congruence|]); (split; [congruence|]);
      (split; [assumption|]); cbn [In];
      (split; [|split; [|split]]);
      (split; intros H;
       [first [apply B1 in H|apply B0 in H|apply B5 in H|apply B4 in H];
        destruct H as [H|H]; auto
       |first [apply B1|apply B0|apply B5|apply B4];
        destruct H as [H|[H|H]]; try discriminate H; auto]).
Qed.

Lemma empty_board_view s :
  0 <= s -> board_of (mkBoard 0 0 0 0 0 8 WHITE) s = (EMPTY, false).
Proof.
  intros Hs. unfold board_of. rewrite Piece_bits by assumption.
  cbn [P0 P1 P2 PM]. now rewrite !Z.testbit_0_l.
Qed.

Lemma castle_letter_code r :
  In r castle_letters -> (code r =? code "-") = false /\ (code r =? code " ") = false.
Proof.
  unfold castle_letters. cbn [In].
  intros [<-|[<-|[<-|[<-|[]]]]]; split; reflexivity.
Qed.

(** X20: [LoadPosition] reads a FEN record field by field: the board lands
    on the squares the text names (the text runs from a8 to h1, [PM]
    takes White's pieces), each of the letters K, Q, k, q sets its
    castling right, the file letter of the en-passant square sets
    [EnPassant] (8 without one), and with Black to move the position is
    handed to [ChangeSide] at the end. *)
Theorem LoadPosition_reads_the_record
  (items : list fen_item) (white : bool) (rights : list ascii)
  (ep : option Z) (tail : list ascii) :
  forallb item_ok items = true ->
  (length (flat_map item_squares items) <= 64)%nat ->
  (forall c, In c rights -> In c castle_letters) ->
  match ep with Some f => 0 <= f < 8 | None => True end ->
  exists p0,
    LoadBoard (fen_text items white rights ep tail)
    = (if white then p0 else ChangeSide p0)
    /\ valid_fields p0
    /\ (forall k, 0 <= k < 64 ->
          board_of p0 (OppSq k)
          = nth (Z.to_nat k) (flat_map item_squares items) (EMPTY, false))
    /\ (CastleSM p0 <> 0 <-> In "K"%char rights)
    /\ (CastleLM p0 <> 0 <-> In "Q"%char rights)
    /\ (CastleSO p0 <> 0 <-> In "k"%char rights)
    /\ (CastleLO p0 <> 0 <-> In "q"%char rights)
    /\ EnPassant p0 = match ep with Some f => f | None => 8 end
    /\ STM p0 = WHITE.
Proof.
  intros Hok Hlen Hr Hep.
  unfold LoadBoard, fen_text. rewrite list_ascii_of_string_of_list_ascii.
  set (init := mkBoard 0 0 0 0 0 8 WHITE).
  set (epc := match ep with
              | Some f => ascii_of_N (Z.to_N (code "a" + f))
              | None => "-"%char
              end).
  set (rtext := match rights with [] => ["-"%char] | _ :: _ => rights end).
  set (sidec := (if white then "w" else "b")%char).
  assert (Hinit : planes64 init).
  { unfold planes64, init, is64. cbn [PM P0 P1 P2]. lia. }
  destruct (load_board_items items PAWN WHITE 0 init
              (sidec :: " "%char :: rtext ++ " "%char :: epc :: tail)
              Hok ltac:(lia) ltac:(lia) Hinit)
    as (p1 & E1 & Hp1 & C1 & N1 & S1 & _ & Hb1).
  { intros k Hk. apply empty_board_view. apply OppSq_range. lia. }
  rewrite E1. cbv zeta. cbn [skipn peek].
  (* the castling rights *)
  assert (Hcastle : exists p2,
            (if negb (peek (rtext ++ " "%char :: epc :: tail) =? code "-")
             then let '(q, s) := load_castle (rtext ++ " "%char :: epc :: tail) p1 in
                  (q, skipn 1 s)
             else (p1, skipn 2 (rtext ++ " "%char :: epc :: tail)))
            = (p2, epc :: tail)
            /\ PM p2 = PM p1 /\ P0 p2 = P0 p1 /\ P1 p2 = P1 p1 /\ P2 p2 = P2 p1
            /\ EnPassant p2 = 8 /\ STM p2 = WHITE
            /\ 0 <= CastleFlags p2 < 256
            /\ (Z.testbit (CastleFlags p2) 1 = true <-> In "K"%char rights)
            /\ (Z.testbit (CastleFlags p2) 0 = true <-> In "Q"%char rights)
            /\ (Z.testbit (CastleFlags p2) 5 = true <-> In "k"%char rights)
            /\ (Z.testbit (CastleFlags p2) 4 = true <-> In "q"%char rights)).
  { assert (Z1 : CastleFlags p1 = 0) by (rewrite C1; reflexivity).
    destruct rights as [|r rs].
    - exists p1. subst rtext. cbn [app peek skipn negb].
      change (code "-" =? code "-") with true. cbn [negb].
      rewrite Z1, N1, S1. cbn [In]. rewrite !Z.testbit_0_l.
      repeat split; try reflexivity; try lia; try tauto; discriminate.
    - subst rtext. cbn [app peek].
      destruct (castle_letter_code r) as [Hc _]; [apply Hr; now left|].
      rewrite Hc. cbn [negb].
      destruct (load_castle_rights (r :: rs) p1 (epc :: tail) Hr)
        as (p2 & E2 & HM & H0 & H1 & H2 & He & Hs & Hcf & B1 & B0 & B5 & B4).
      { rewrite Z1. lia. }
      change (r :: rs ++ " "%char :: epc :: tail)
        with ((r :: rs) ++ " "%char :: epc :: tail).
      rewrite E2. cbn [skipn]. exists p2.
      rewrite Z1, !Z.testbit_0_l in *.
      assert (F : forall P : Prop, false = true \/ P <-> P)
        by (intros P; split; [intros [H|H]; [discriminate H|exact H]|now right]).
      rewrite F in B1, B0, B5, B4.
      split; [reflexivity|].
      split; [congruence|]. split; [congruence|]. split; [congruence|].
      split; [congruence|].
      split; [rewrite He, N1; reflexivity|].
      split; [rewrite Hs, S1; reflexivity|].
      split; [assumption|]. tauto. }
  change (skipn 0 (rtext ++ " "%char :: epc :: tail))
    with (rtext ++ " "%char :: epc :: tail).
  destruct Hcastle as (p2 & -> & HM & H0 & H1 & H2 & He & Hs & Hcf & B1 & B0 & B5 & B4).
  cbn [peek].
  (* the en-passant file *)
  set (p3 := if negb (code epc =? code "-")
             then set_EnPassant (wrap8 (code epc - code "a")) p2 else p2).
  assert (H3 : PM p3 = PM p2 /\ P0 p3 = P0 p2 /\ P1 p3 = P1 p2 /\ P2 p3 = P2 p2
               /\ CastleFlags p3 = CastleFlags p2 /\ STM p3 = STM p2
               /\ EnPassant p3 = match ep with Some f => f | None => 8 end).
  { subst p3 epc. destruct ep as [f|].
    - codes. rewrite code_ascii by lia.
      destruct (Z.eqb_spec (97 + f) 45); [lia|]. cbn [negb].
      cbn [PM P0 P1 P2 CastleFlags STM EnPassant set_EnPassant].
      replace (97 + f - 97) with f by lia. rewrite wrap8_small by lia. tauto.
    - change (code "-" =? code "-") with true. cbn [negb]. tauto. }
  destruct H3 as (M3 & P03 & P13 & P23 & C3 & S3 & E3).
  exists p3. split.
  { subst sidec. destruct white; reflexivity. }
  assert (Hview : forall s, 0 <= s -> board_of p3 s = board_of p1 s).
  { intros s Hs'. apply board_of_same; try assumption; congruence. }
  split.
  { destruct Hp1 as (A & B & C & D). unfold valid_fields, is64 in *.
    rewrite M3, P03, P13, P23, C3, S3, E3, HM, H0, H1, H2, Hs.
    unfold WHITE. destruct ep; lia. }
  split.
  { intros k Hk. rewrite Hview by (apply OppSq_range; lia).
    rewrite Hb1 by lia. now rewrite Z.sub_0_r. }
  rewrite CastleSM_bit, CastleLM_bit, CastleSO_bit, CastleLO_bit, C3.
  repeat split; try tauto; try congruence.
Qed.

Lemma LoadPosition_reads_the_record_witness :
  let items := [Put ROOK false; Skip 3; Put KING false; Skip 3; Slash;
                Skip 8; Slash; Skip 8; Slash; Skip 8; Slash;
                Skip 3; Put PAWN false; Put PAWN true; Skip 3; Slash;
                Skip 8; Slash; Skip 8; Slash;
                Skip 4; Put KING true; Skip 2; Put ROOK true] in
  let rights := ["K"; "q"]%char in
  let tail := list_ascii_of_string "3 0 1" in
  fen_text items false rights (Some 4) tail
  = "r3k3/8/8/8/3pP3/8/8/4K2R b Kq e3 0 1"%string
  /\ exists p0,
    LoadBoard (fen_text items false rights (Some 4) tail) = ChangeSide p0
    /\ valid_fields p0
    /\ (forall k, 0 <= k < 64 ->
          board_of p0 (OppSq k)
          = nth (Z.to_nat k) (flat_map item_squares items) (EMPTY, false))
    /\ (CastleSM p0 <> 0 <-> In "K"%char rights)
    /\ (CastleLM p0 <> 0 <-> In "Q"%char rights)
    /\ (CastleSO p0 <> 0 <-> In "k"%char rights)
    /\ (CastleLO p0 <> 0 <-> In "q"%char rights)
    /\ EnPassant p0 = 4
    /\ STM p0 = WHITE.
Proof.
  cbv zeta. split; [reflexivity|].
  apply (LoadPosition_reads_the_record _ false ["K"; "q"]%char (Some 4));
    [reflexivity|vm_compute; lia| |lia].
  intros c [<-|[<-|[]]]; unfold castle_letters; cbn [In]; tauto.
Defined.

(** ** The two buffers *)

(** X21: The quiet buffer never holds a capture, a promotion or an
    en-passant move, and every move of the capture buffer is a capture
    or a promotion: the split between the two generators is by the flags
    of the move type, in any position. *)
Theorem buffers_split_by_flags (p : TBoard) (m : TMove) :
  (In m (GenerateQuiets p) ->
   is_capture m = false /\ is_promo m = false /\ is_ep m = false)
  /\ (In m (GenerateCapture p) -> is_capture m = true \/ is_promo m = true).
Proof.
  unfold is_capture, is_promo, is_ep, CAPTURE, PROMO, EP. split; intros H.
  - apply GenerateQuiets_kinds in H. kinds.
    assert (E : MoveType m = 1 \/ MoveType m = 2 \/ MoveType m = 3
                \/ MoveType m = 4 \/ MoveType m = 5 \/ MoveType m = 6
                \/ MoveType m = 70) by lia.
    destruct E as [->|[->|[->|[->|[->|[->| ->]]]]]]; repeat split.
  - apply GenerateCapture_kinds in H.
    assert (E : MoveType m = 9 \/ MoveType m = 10 \/ MoveType m = 11
                \/ MoveType m = 12 \/ MoveType m = 13 \/ MoveType m = 14
                \/ MoveType m = 25 \/ MoveType m = 33 \/ MoveType m = 41) by lia.
    destruct E as [->|[->|[->|[->|[->|[->|[->|[->| ->]]]]]]]];
      cbn; auto.
Qed.

(** ** The positions of the self-test *)

Lemma Test_roots_legal :
  forallb (fun '(fen, _, _) => legal_position (LoadBoard fen)) Test = true.
Proof. vm_compute. reflexivity. Qed.

(** X22: Every position the self-test can visit is a legal one: each of the
    six records of [TestPerft] loads to a legal position, the depths
    leave room on the stack of [MAX_PLY] positions, and every position
    reached from a root by generated moves that pass [Illegal] satisfies
    the encoding invariants, with the side that has just moved out of
    check. *)
Theorem self_test_positions_are_legal
  (fen : string) (depth count : Z) (p : TBoard) :
  In (fen, depth, count) Test ->
  reachable (LoadBoard fen) p ->
  legal_position p = true /\ 1 <= depth < Z.of_nat MAX_PLY.
Proof.
  intros Hin Hr.
  pose proof Test_roots_legal as H. rewrite forallb_forall in H.
  specialize (H _ Hin). cbv beta iota in H. split.
  - now apply (reachable_legal (LoadBoard fen)).
  - unfold Test in Hin. cbn [In] in Hin.
    unfold MAX_PLY.
    repeat (destruct Hin as [Hin|Hin]; [inversion Hin; lia|]).
    contradiction.
Qed.

Lemma self_test_positions_are_legal_witness :
  legal_position (MakeBoard (mkMove PAWN 12 28 EMPTY) (LoadBoard startpos)) = true
  /\ 1 <= 6 < Z.of_nat MAX_PLY.
Proof.
  apply (self_test_positions_are_legal startpos 6 119060324).
  - unfold Test. cbn [In]. tauto.
  - apply reach_make; [apply reach_root| |vm_compute; reflexivity].
    apply in_or_app. right. vm_compute. auto 60.
Defined.
